(* ===== verification/_CoqProject ===== *)
-Q . S2P
Prelude.v
Storage.v
MemoryMap.v
RaftState.v
RaftLog.v
RaftNode.v
RaftNodeInv.v
RaftApply.v
RaftReplication.v
RaftNet.v
RaftLogMatch.v
RaftSafety.v
HashRing.v
IdMapStore.v
MetadataStore.v
Float32.v
PriorityQueue.v
IndexTypes.v
FloatExact.v
FloatRange.v
Distance.v
Quantizer.v
Hnsw.v
SpinLock.v
HnswInv.v
HnswGreedy.v
HnswUpdate.v
HnswSearch.v
HnswReopen.v
ShardService.v
ShardSpec.v
HnswShard.v
ShardRestart.v
HnswFindings.v
HnswReinsert.v
HnswStranded.v
ConcurrentInsert.v
ConcurrentSafety.v
BulkLoad.v
Demo.v
Json.v
Benchmark.v
JsonDump.v
Metrics.v
Bindings.v
PySession.v
Http.v
Server.v
ServerRestart.v
JsonRoundtrip.v
JsonTermination.v
ClusterConfig.v
Topology.v
Quorum.v
ReadPath.v
Failover.v
Rebalance.v
Handlers.v
Status.v
Coordinator.v
Lifecycle.v
