(* ===== verification/Prelude.v ===== *)
(** * Nano-DB: a verification development

    Nano-DB (C++17, under [src/]) stores 128-dimensional vectors in an HNSW
    graph on a memory-mapped file, alone behind an HTTP server or as a cluster:
    shard nodes hold the vectors and speak gRPC, coordinators route HTTP
    requests to them over a consistent-hash ring, write with a quorum of the
    replicas of a shard, and agree on the topology of the cluster with Raft.
    This library translates the program into Rocq functions and proves what its
    parts promise to each other and to their users.

    ** Conventions

    - A [uint64_t] or [size_t] is an [N] and every sum and difference of the
      source wraps ([+u], [-u]); an [int] is a [Z]; a [float] or [double] is a
      [spec_float] of the Standard Library with the rounding of its width.
    - Files and buffers are lists of bytes.  State is passed explicitly, one
      Record per class, with the names of the members.
    - [option] is a thrown exception where the source throws one, and undefined
      behaviour where it checks nothing; each file says which.  An operation
      that may both throw and change state returns an [outcome].
    - Threads are sequences of critical sections: what a mutex protects is one
      step of a transition system ([RaftNet], [ClusterConfig], [SpinLock],
      [ConcurrentInsert], [Lifecycle]), and what nothing protects is several.

    ** The files, and the code they model

    Foundations: [Prelude] (machine integers, bytes, lists, the notations and
    tactics), [Storage] (POSIX files with failing and short writes),
    [Float32], [FloatExact], [FloatRange] (single precision: order, exactness
    on integers, ranges of results), [PriorityQueue] (the binary heap of
    [std::priority_queue]).

    Storage of a node ([src/include/storage], [src/src/storage],
    [src/cluster/id_map_store.hpp]): [MemoryMap] ([MMapHandler], over any kind
    of file contents), [MetadataStore] ([MetadataHandler]), [IdMapStore].

    The index ([src/include/index], [src/src/index]): [IndexTypes], [Distance]
    (the AVX2 kernels on eight lanes), [Quantizer], [Hnsw] (the graph on the
    records of the file: constructor, [insert], [search], [delete_vector] and
    the accessors), [SpinLock] ([src/include/concurrency/spinlock.hpp], with
    [add_link] as its critical section), [HnswInv] (well-formed files and the
    beam search), [HnswGreedy] (the greedy descent), [HnswUpdate] (insertion and
    deletion), [HnswSearch] (results of a search), [HnswReopen]
    (the constructor on an existing file), [HnswFindings], [HnswReinsert] and
    [HnswStranded] (where the index falls short), [ConcurrentInsert] ([insert]
    by several threads, step by step) and [ConcurrentSafety] (what every
    interleaving keeps), [BulkLoad] (an index filled in order), [Demo]
    ([src/src/main.cpp], a run of the engine without a server), [Benchmark]
    ([src/benchmarks/benchmark_recall.cpp], with the exhaustive search that is
    its ground truth).

    A shard: [ShardService] ([shard_service_impl.hpp] over the interface
    [VectorIndex], with the laws that a client relies on), [ShardSpec] (the
    abstract fenced map and the refinement), [HnswShard]
    ([shard_node_main.cpp]: the HNSW index discharges the interface),
    [ShardRestart] (the process from its start to its exit, and the next one).

    JSON ([src/include/third_party/json.hpp], the parts that the program
    calls): [Json] (values, lexer, parser), [JsonDump] (serializer),
    [JsonRoundtrip], [JsonTermination].

    Servers: [Http] (responses and conversions), [Metrics]
    ([metrics_registry.hpp]), [Bindings] and [PySession]
    ([src/src/python_bindings.cpp]: the functions of the module, and programs
    that call them with the abstract state that they see), [Server] and [ServerRestart] ([src/src/server.cpp]: the
    handlers, and the process with its successor).

    Raft ([raft_state.hpp], [raft_log.hpp], [raft_node.hpp]): [RaftState] and
    [RaftLog] (the files and what survives a crash), [RaftNode] (every critical
    section), [RaftNodeInv], [RaftApply], [RaftReplication] (one node, its
    applied commands, a leader with one follower), [RaftNet] (the cluster as a
    transition system, election safety), [RaftLogMatch] (the entries that each
    leader has added, kept as ghost history, and log matching), [RaftSafety]
    (the acknowledgements behind every commit index, leader completeness and
    state machine safety).

    The coordinator ([coordinator_main.cpp], [hash_ring.hpp], [routing.hpp],
    [cluster_config.hpp], [raft_config.hpp]): [HashRing], [ClusterConfig]
    (loading and the atomic replacement of the file), [Topology] (the state
    machine on committed commands), [Quorum] (writes and the migration of a
    key), [ReadPath] (scatter-gather search), [Failover] (the health check),
    [Rebalance] (migration loops), [Handlers] (insert, delete and the admin
    handlers), [Status] (search, stats, Raft and metrics handlers),
    [Coordinator] ([main]), [Lifecycle] (its threads, their joins and the signal
    handler, with progress under a fair scheduler).

    ** What the theorems show

    - Consensus: at most one leader per term in every execution with loss,
      delay, duplication and restarts between critical sections, on disks that
      do not fail (a crash inside the rewriting of the vote file lets a server
      vote twice: [torn_crash_elects_two]); log matching in every execution without
      compaction; the commit rule; agreement of a follower's log with its
      leader's after an accepted request; memory and files of a node agree
      after every critical section; the applied commands are those of the log.
      The log has a flaw, shown on an execution: a delayed request removes
      committed entries.  In the executions without compaction and empty
      commands where no delivered request does that, a leader has every
      committed entry and all servers apply the same commands
      ([late_append_loses_committed_command] shows that the condition is
      needed).
    - Durability: an HTTP insert that is acknowledged is on a majority of the
      right shard, primary included; a coordinator that missed a promotion can
      no longer write; migration loses no vector; a coordinator restarts with
      the topology it saved; no interleaving of saves tears the configuration.
    - The topology: every command takes effect once, however the calls that
      apply them are divided and whether or not they compact the log; snapshots
      replace the commands they cover, provided that no later command adds a
      shard again that only one side remembers; and keys are routed to live shards, each to the
      first virtual node clockwise.
    - A shard refines a map from keys to vectors guarded by an epoch, for any
      index that keeps its contract, and the HNSW index does, so that the node
      that [main] assembles serves any sequence of requests like the map.  A
      node that is stopped and started again serves the same vectors and texts
      with its fence down, the texts under the ids that the scan of their file
      gives them.
    - The index: [search] with a full query vector ends without undefined
      behaviour and returns live vectors without repetition, sorted unless a
      distance is a NaN, and the nearest of those it can reach from where the
      descent ends when the index is small: the same ids as an exhaustive search
      when it can reach all; a restart finds the same vectors; concurrent
      [add_link]s of a node that has a lock lose nothing; threads that insert at
      once, in any interleaving, exclude each other where they must, all return
      and leave a well-formed index with every vector and the right count, but
      two threads on an empty index can hide a vector from every search; the
      kernels are symmetric and exact on integers; the quantizer stays in its
      range, and is defined for exactly the lengths that were trained; the
      demonstration program stores and finds what it generates.
    - A signal on one of the coordinator's own threads ends it under every fair
      schedule, unless it interrupts the ticker or a thread inside a critical
      section.
    - The servers answer every admissible request, where the random level of an
      insertion is below 4 (a higher one is undefined behaviour:
      [high_level_breaks_search]); a restart of the single-node server cannot be
      told from its answers when the texts were saved in the order of their
      ids; programs that use the Python module with the arguments it relies on
      get the values of an abstract map; the metrics count
      what was answered; the parser ends on every input and reads back what the
      serializer prints.
    - Where the code does not do what it means to, the theorem states what it
      does (live vectors that no search finds, entry points that hide the rest
      of the index, an id that is cut or lies outside the file, a file closed
      under its index, a removal that does not wait for its migration, epochs
      forgotten at a restart, and the others in the files of their components).

    ** Parameters and bounds

    What is not under [src/] is an argument: the digits of a printed [double]
    in JSON ([dump_float]), [std::sort] (any function that sorts), random
    numbers (any stream), when [listen] and [Wait] return, the network
    ([delivery], [weather]; the order that [std::sort] gives to replicas that
    compare equal is that of the pool), the outcome of a Raft proposal in the handlers
    ([propose]), system calls and random levels ([draws]), clocks, and whether
    the compiler fuses a multiplication with an addition ([fused]).  Hypotheses
    on them are stated in each theorem and met in its witness.

    Loops that are not structural have fuel that is proved to be enough:
    [parse_fuel] is twice the input plus three ([parse_terminates]);
    [DIGIT_FUEL] is the 20 digits of a 64-bit number; the beam search has one
    unit per visitable id and the greedy descent one per slot, and both are
    shown to return ([search_layer_spec], [greedy_layer_spec]); the heap
    operations have the length of the heap; [decimal_exponent] has 800 steps
    where a [double] needs at most 324.

    ** Not modelled

    The Windows branch of the memory map; the HTTP, gRPC, protobuf and pybind11
    libraries with the sockets and threads of their own; relaxed memory orders
    (atomic accesses are sequentially consistent); concurrent [insert]s at a
    finer grain than the steps of [ConcurrentInsert] and [SpinLock], and
    searches during an insertion; log matching and state
    machine safety of executions with compaction; text of exceptions and log
    output; the throughput benchmark, which measures time only; tests and
    deployment files. *)

From Stdlib Require Export Ascii String NArith ZArith Lia.
From stdpp Require Export base tactics numbers list gmap strings pretty sorting.

#[global] Set Default Goal Selector "!".

Declare Scope nanodb_scope.
Delimit Scope nanodb_scope with nanodb.
#[global] Open Scope nanodb_scope.
#[global] Open Scope N_scope.

(** ** Machine integers

    A C++ [uint64_t] is an [N] below [U64]; every addition and subtraction
    that the source performs is written with its wrap-around. *)

Definition U32 : N := 4294967296.

Definition U64 : N := 18446744073709551616.

Definition u64 (n : N) : N := n mod U64.

Definition u32 (n : N) : N := n mod U32.

Definition u64_add (a b : N) : N := u64 (a + b).

Definition u64_sub (a b : N) : N := u64 (a + (U64 - u64 b)).

Definition u64_mul (a b : N) : N := u64 (a * b).

(** [int32_t]: two's complement on 32 bits. *)
Definition i32_to_u32 (z : Z) : N := Z.to_N (z mod 4294967296)%Z.

Definition u32_to_i32 (n : N) : Z :=
  if decide (n < 2147483648) then Z.of_N n else (Z.of_N n - 4294967296)%Z.

Definition is_u64 (n : N) : Prop := n < U64.

Definition is_i32 (z : Z) : Prop := (-2147483648 <= z < 2147483648)%Z.

Infix "+u" := u64_add (at level 50, left associativity) : nanodb_scope.
Infix "-u" := u64_sub (at level 50, left associativity) : nanodb_scope.
Notation "a <?? b" := (bool_decide (a < b)%N) (at level 70) : nanodb_scope.
Notation "a <=?? b" := (bool_decide (a <= b)%N) (at level 70) : nanodb_scope.
Notation "a =?? b" := (bool_decide (a = b)) (at level 70) : nanodb_scope.

(** Unfolds the machine-integer layer and calls [lia]. *)
Ltac u64_lia :=
  unfold u64_add, u64_sub, u64_mul, u64, u32, is_u64, is_i32 in *;
  unfold U64, U32 in *;
  first [ lia | Z.to_euclidean_division_equations; lia ].

Lemma u64_small n : n < U64 -> u64 n = n.
Proof. intros. by apply N.mod_small. Qed.

Lemma u64_bound n : u64 n < U64.
Proof. apply N.mod_lt. done. Qed.

Lemma u64_add_small a b : a + b < U64 -> a +u b = a + b.
Proof. apply u64_small. Qed.

Lemma u64_sub_le a b : b <= a -> a < U64 -> a -u b = a - b.
Proof.
  intros Hle Ha. unfold u64_sub. rewrite (u64_small b) by lia.
  unfold u64. replace (a + (U64 - b)) with ((a - b) + 1 * U64) by lia.
  rewrite N.Div0.mod_add. apply N.mod_small. lia.
Qed.

Lemma u32_to_i32_of z : is_i32 z -> u32_to_i32 (i32_to_u32 z) = z.
Proof.
  unfold is_i32, u32_to_i32, i32_to_u32. intros Hz.
  case_decide as Hd; destruct (decide (0 <= z)%Z).
  - rewrite Z.mod_small by lia. lia.
  - exfalso. assert (z mod 4294967296 = z + 4294967296)%Z as E.
    { symmetry. apply (Z.mod_unique_pos _ _ (-1)); lia. }
    rewrite E in Hd. lia.
  - exfalso. rewrite Z.mod_small in Hd by lia. lia.
  - assert (z mod 4294967296 = z + 4294967296)%Z as ->.
    { symmetry. apply (Z.mod_unique_pos _ _ (-1)); lia. }
    lia.
Qed.

Lemma i32_to_u32_bound z : i32_to_u32 z < U32.
Proof.
  unfold i32_to_u32, U32.
  pose proof (Z.mod_pos_bound z 4294967296 ltac:(lia)). lia.
Qed.

(** ** Bytes and little-endian integers

    A file or a [std::string] buffer is a list of 8-bit characters;
    [memcpy] of an integer on the little-endian target is [le_encode] and
    [le_decode]. *)

Abbreviation bytes := (list ascii).

Fixpoint le_encode (width : nat) (v : N) : bytes :=
  match width with
  | O => []
  | S w => ascii_of_N (v mod 256) :: le_encode w (v / 256)
  end.

Fixpoint le_decode (bs : bytes) : N :=
  match bs with
  | [] => 0
  | b :: bs' => N_of_ascii b + 256 * le_decode bs'
  end.

(** [std::string::substr(pos, len)] for [pos] in range. *)
Definition substr (data : bytes) (pos len : N) : bytes :=
  take (N.to_nat len) (drop (N.to_nat pos) data).

(** [memcpy(&x, data + pos, width)]. *)
Definition read_le (data : bytes) (pos : N) (width : nat) : N :=
  le_decode (take width (drop (N.to_nat pos) data)).

Definition bsize (data : bytes) : N := N.of_nat (length data).

Definition strlen (s : string) : N := N.of_nat (String.length s).

Definition bytes_of (s : string) : bytes := list_ascii_of_string s.

Definition string_of (bs : bytes) : string := string_of_list_ascii bs.

Lemma length_le_encode w v : length (le_encode w v) = w.
Proof. revert v. induction w; intros v; simpl; [done|]. by rewrite IHw. Qed.

Lemma le_decode_encode w v : le_decode (le_encode w v) = v mod 256 ^ N.of_nat w.
Proof.
  revert v. induction w as [|w IH]; intros v.
  - by rewrite N.pow_0_r, N.mod_1_r.
  - cbn [le_encode le_decode].
    rewrite N_ascii_embedding by (apply N.mod_lt; done). rewrite IH.
    rewrite Nat2N.inj_succ, N.pow_succ_r by lia.
    rewrite N.Div0.mod_mul_r. lia.
Qed.

Lemma le_decode_encode_small w v :
  v < 256 ^ N.of_nat w -> le_decode (le_encode w v) = v.
Proof. intros. rewrite le_decode_encode. by apply N.mod_small. Qed.

Lemma le_decode_encode_8 v : v < U64 -> le_decode (le_encode 8 v) = v.
Proof. intros. by apply le_decode_encode_small. Qed.

Lemma le_decode_encode_4 v : v < U32 -> le_decode (le_encode 4 v) = v.
Proof. intros. by apply le_decode_encode_small. Qed.

Lemma string_of_bytes_of s : string_of (bytes_of s) = s.
Proof. apply string_of_list_ascii_of_string. Qed.

Lemma bytes_of_string_of bs : bytes_of (string_of bs) = bs.
Proof. apply list_ascii_of_string_of_list_ascii. Qed.

Lemma length_bytes_of s : length (bytes_of s) = String.length s.
Proof. induction s; simpl; [done|]. by rewrite IHs. Qed.

Lemma bsize_app a b : bsize (a ++ b) = bsize a + bsize b.
Proof. unfold bsize. rewrite length_app. lia. Qed.

Lemma bsize_le_encode w v : bsize (le_encode w v) = N.of_nat w.
Proof. unfold bsize. by rewrite length_le_encode. Qed.

Lemma bsize_bytes_of s : bsize (bytes_of s) = strlen s.
Proof. unfold bsize, strlen. by rewrite length_bytes_of. Qed.

(** Reading at the boundary between an already consumed prefix and the rest. *)
Lemma read_le_app pre mid post w :
  length mid = w -> read_le (pre ++ mid ++ post) (bsize pre) w = le_decode mid.
Proof.
  intros <-. unfold read_le, bsize. rewrite Nat2N.id, drop_app_length, take_app_length.
  done.
Qed.

Lemma substr_app pre mid post :
  substr (pre ++ mid ++ post) (bsize pre) (bsize mid) = mid.
Proof.
  unfold substr, bsize. rewrite !Nat2N.id, drop_app_length, take_app_length. done.
Qed.

Create HintDb nanodb.
Create Rewrite HintDb nanodb.
#[export] Hint Rewrite bsize_app bsize_le_encode bsize_bytes_of length_le_encode
  length_bytes_of string_of_bytes_of bytes_of_string_of : nanodb.

(** The order of [std::greater]. *)
Definition N_ge (a b : N) : Prop := b <= a.

#[export] Instance N_ge_dec : RelDecision N_ge.
Proof. intros a b. unfold N_ge. apply _. Defined.

#[export] Instance N_ge_trans : Transitive N_ge.
Proof. unfold N_ge. intros a b c. lia. Qed.

#[export] Instance N_ge_total : Total N_ge.
Proof. unfold N_ge. intros a b. lia. Qed.

(** How many values of a list reach [n]. *)
Definition count_ge (n : N) (l : list N) : nat := length (filter (fun x => n <= x) l).

Lemma count_ge_perm n l k : l ≡ₚ k -> count_ge n l = count_ge n k.
Proof. intros E. unfold count_ge. by rewrite E. Qed.

Lemma count_ge_cons n x l :
  count_ge n (x :: l) = ((if decide (n <= x)%N then 1 else 0) + count_ge n l)%nat.
Proof. unfold count_ge. rewrite filter_cons. by case_decide. Qed.

Lemma count_ge_none n l : Forall (fun x => x < n) l -> count_ge n l = O.
Proof.
  induction 1 as [|x l Hx _ IH]; [done|]. rewrite count_ge_cons, IH.
  by rewrite decide_False by lia.
Qed.

(** In a descending list the element at position [i] is reached by more than
    [i] values, and anything larger by at most [i]. *)
Lemma sorted_count_ge l i c :
  StronglySorted N_ge l -> l !! i = Some c ->
  (S i <= count_ge c l)%nat /\ forall c', c < c' -> (count_ge c' l <= i)%nat.
Proof.
  intros Hs. revert i. induction Hs as [|x l Hs IH Hx]; intros i Hi; [done|].
  destruct i as [|i]; simplify_eq/=.
  - split; [rewrite count_ge_cons, decide_True by lia; lia|]. intros c' Hc.
    rewrite count_ge_cons, decide_False by lia. rewrite count_ge_none; [done|].
    eapply Forall_impl; [exact Hx|]. unfold N_ge. intros y ?. simpl. lia.
  - destruct (IH i Hi) as [H1 H2].
    assert (c <= x) by (eapply (Forall_lookup_1 _ _ _ _ Hx Hi)).
    split; [rewrite count_ge_cons, decide_True by lia; lia|]. intros c' Hc.
    rewrite count_ge_cons. specialize (H2 c' Hc). case_decide; lia.
Qed.

(** Two boolean tests joined by [&&], as propositions. *)
Lemma andb_bool_decide (P Q : Prop) `{Decision P, Decision Q} :
  bool_decide P && bool_decide Q = true <-> P /\ Q.
Proof. rewrite andb_true_iff, !bool_decide_eq_true. done. Qed.

(** ** Sorted lists *)

Lemma StronglySorted_reverse {A} (R : A -> A -> Prop) l :
  StronglySorted R l -> StronglySorted (fun x y => R y x) (reverse l).
Proof.
  induction 1 as [|x l _ IH Hx]; [constructor|]. rewrite reverse_cons. apply StronglySorted_app. split_and!.
  - intros y z Hy ->%list_elem_of_singleton. rewrite elem_of_reverse in Hy. rewrite Forall_forall in Hx. by apply Hx.
  - done.
  - repeat constructor.
Qed.

Lemma StronglySorted_take {A} (R : A -> A -> Prop) n l : StronglySorted R l -> StronglySorted R (take n l).
Proof. rewrite <-(take_drop n l) at 1. apply StronglySorted_app_1_l. Qed.

(** Distinct elements of a finite set. *)
Lemma NoDup_length_le (l : list N) (X : gset N) :
  NoDup l -> (forall x, x ∈ l -> x ∈ X) -> (length l <= base.size X)%nat.
Proof.
  intros Hl H. rewrite <-(size_list_to_set (C := gset N) l Hl). apply subseteq_size. intros x Hx%elem_of_list_to_set. by apply H.
Qed.

(** ** Generic tactics *)

Ltac deex :=
  repeat match goal with
  | H : exists x, _ |- _ => let y := fresh x in destruct H as [y H]
  | H : _ /\ _ |- _ => destruct H
  end.

(** Case analysis on every [bool_decide] and [decide] of goal and context. *)
Ltac bdestruct :=
  repeat (case_bool_decide || case_decide || case_match); simplify_eq/=.
