(* ===== verification/Storage.v ===== *)
(** * POSIX files as the storage classes use them

    The storage classes of [src/cluster] open a file with [O_TRUNC], issue a
    sequence of [write] calls, [fsync] and [close].  A file is its byte
    contents, [None] when it does not exist.  The environment says whether
    [open] for writing succeeds and how many bytes can be written before a
    [write] comes back short; a short [write] throws. *)

From S2P Require Import Prelude.

(** The result of an operation that may throw [std::runtime_error]. *)
Inductive outcome (A : Type) : Type :=
| Ret (a : A)
| Throw (what : string).
Arguments Ret {A} a.
Arguments Throw {A} what.

Record io_env := IoEnv {
  io_open_ok : bool;
  io_budget : option nat;
}.

(** No fault: every open and every write succeeds. *)
Definition io_ok : io_env := IoEnv true None.

(** One [write_exact]: appends the chunk, or the part of it that still fits,
    and reports a short write. *)
Definition write_exact (what : string) (chunk : bytes)
    (file : bytes) (budget : option nat) : outcome unit * bytes * option nat :=
  match budget with
  | None => (Ret tt, file ++ chunk, None)
  | Some k =>
    if decide (length chunk <= k)%nat
    then (Ret tt, file ++ chunk, Some (k - length chunk)%nat)
    else (Throw what, file ++ take k chunk, Some O)
  end.

(** A sequence of [write_exact] calls; the first failure ends it. *)
Fixpoint write_all (what : string) (chunks : list bytes)
    (file : bytes) (budget : option nat) : outcome unit * bytes :=
  match chunks with
  | [] => (Ret tt, file)
  | c :: cs =>
    match write_exact what c file budget with
    | (Ret _, file', budget') => write_all what cs file' budget'
    | (Throw w, file', _) => (Throw w, file')
    end
  end.

Lemma write_all_ok what chunks file :
  write_all what chunks file None = (Ret tt, file ++ concat chunks).
Proof.
  revert file. induction chunks as [|c cs IH]; intros file; simpl.
  - by rewrite app_nil_r.
  - by rewrite IH, <-app_assoc.
Qed.

(** Whatever the fault, the file holds a prefix of what was to be written. *)
Lemma write_all_prefix what chunks file budget :
  exists suffix, file ++ concat chunks = (write_all what chunks file budget).2 ++ suffix.
Proof.
  revert file budget. induction chunks as [|c cs IH]; intros file budget; simpl.
  - exists []. done.
  - destruct budget as [k|]; simpl.
    + case_decide; simpl.
      * destruct (IH (file ++ c) (Some (k - length c)%nat)) as [s Hs].
        exists s. by rewrite <-Hs, <-app_assoc.
      * exists (drop k c ++ concat cs). rewrite <-!app_assoc. f_equal.
        by rewrite app_assoc, take_drop.
    + destruct (IH (file ++ c) None) as [s Hs]. exists s. by rewrite <-Hs, <-app_assoc.
Qed.

(** With a budget that does not cover everything, exactly that many bytes land. *)
Lemma write_all_short what chunks file k :
  (k < length (concat chunks))%nat ->
  write_all what chunks file (Some k) = (Throw what, file ++ take k (concat chunks)).
Proof.
  revert file k. induction chunks as [|c cs IH]; intros file k Hk; simpl in *; [lia|].
  rewrite length_app in Hk. case_decide; simpl.
  - rewrite IH by lia. f_equal. rewrite <-app_assoc. f_equal.
    rewrite take_app_ge by lia. done.
  - rewrite take_app_le by lia. done.
Qed.
