(* ===== verification/MemoryMap.v ===== *)
(** * Memory-mapped files ([src/src/storage/memory_map.cpp], POSIX branch)

    [MAP_SHARED] makes the mapping and the file one object: the contents are
    kept on the disk, and [get_data] is access to them.  The handler is
    modelled for any kind of contents that has a size and can be extended,
    so that the bytes of a file and the records an index sees in it obey the
    same operations. *)

From S2P Require Import Prelude Storage.

(** What [ftruncate] and [fstat] need of file contents. *)
Class Contents (C : Type) := {
  c_size : C -> N;
  c_empty : C;
  c_extend : N -> C -> C;
}.

Class ContentsLaws (C : Type) `{!Contents C} : Prop := {
  c_size_empty : c_size c_empty = 0;
  c_size_extend n c : c_size c <= n -> c_size (c_extend n c) = n;
}.

(** Bytes: the file grows with zeros. *)
#[export] Instance bytes_contents : Contents bytes := {|
  c_size := bsize;
  c_empty := [];
  c_extend n c := c ++ replicate (N.to_nat (n - bsize c)) (ascii_of_N 0);
|}.

#[export] Instance bytes_contents_laws : ContentsLaws bytes.
Proof. split; [done|]. intros n c Hn. cbn in *. rewrite bsize_app. unfold bsize in *. rewrite length_replicate. lia. Qed.

Module MMapHandler.

(** [data_]: [nullptr], [MAP_FAILED], or the mapped region. *)
Inductive mapping := Null | MapFailed | Mapped.

Record t := Mk {
  file_path_ : string;
  file_size_ : N;
  data_ : mapping;
  file_fd_ : bool;  (* a descriptor is open *)
}.

Definition create : t := Mk "" 0 Null false.

(** Which system calls succeed. *)
Record syscalls := MkSyscalls {
  sc_mkdir : bool;
  sc_open : bool;
  sc_ftruncate : bool;
  sc_mmap : bool;
}.

Definition all_succeed : syscalls := MkSyscalls true true true true.

Section handler.
Context {C : Type} `{!Contents C}.

Definition open_file (sc : syscalls) (filepath : string) (min_size : N) (h : t) (disk : gmap string C)
    : outcome unit * t * gmap string C :=
  if negb (sc_mkdir sc) then (Throw "filesystem error", Mk filepath min_size (data_ h) (file_fd_ h), disk)
  else if negb (sc_open sc) then (Throw "Failed to open file (POSIX)", Mk filepath min_size (data_ h) false, disk)
  else
    let contents := default c_empty (disk !! filepath) in
    let disk := <[filepath := contents]> disk in
    if (c_size contents <?? min_size) && negb (sc_ftruncate sc)
    then (Throw "Failed to resize file", Mk filepath min_size (data_ h) false, disk)
    else
      let '(contents, size) :=
        if c_size contents <?? min_size then (c_extend min_size contents, min_size)
        else (contents, c_size contents) in
      let disk := <[filepath := contents]> disk in
      if negb (sc_mmap sc) then (Throw "mmap failed", Mk filepath size MapFailed false, disk)
      else (Ret tt, Mk filepath size Mapped true, disk).

Definition close_file (h : t) : t :=
  match data_ h with
  | Null => h
  | _ => Mk (file_path_ h) (file_size_ h) Null false
  end.

Definition resize (sc : syscalls) (new_size : N) (h : t) (disk : gmap string C)
    : outcome unit * t * gmap string C :=
  let h := close_file h in open_file sc (file_path_ h) new_size h disk.

(** The mapped region, if there is one. *)
Definition get_data (h : t) (disk : gmap string C) : option C :=
  match data_ h with Mapped => disk !! file_path_ h | _ => None end.

Definition get_size (h : t) : N := file_size_ h.

(** A handler with its mapping. *)
Definition mapped (h : t) (disk : gmap string C) (c : C) : Prop :=
  get_data h disk = Some c /\ get_size h = c_size c.

Context `{!ContentsLaws C}.

(** [open_file] maps the file, extended to [min_size] when it was shorter. *)
Lemma open_spec path min_size h disk :
  let c := default c_empty (disk !! path) in
  let c' := if c_size c <?? min_size then c_extend min_size c else c in
  exists h' disk', open_file all_succeed path min_size h disk = (Ret tt, h', disk') /\
    mapped h' disk' c' /\ file_path_ h' = path /\ get_size h' = N.max (c_size c) min_size /\
    (forall p, p <> path -> disk' !! p = disk !! p).
Proof.
  cbn zeta. unfold open_file. cbn [sc_mkdir sc_open sc_ftruncate sc_mmap all_succeed negb]. rewrite andb_false_r.
  set (c := default c_empty (disk !! path)). case_bool_decide as Hc.
  - do 2 eexists. split; [reflexivity|]. split_and!.
    + split; [apply lookup_insert_eq|]. symmetry. apply c_size_extend, N.lt_le_incl, Hc.
    + done.
    + cbn. lia.
    + intros p Hp. by rewrite !lookup_insert_ne.
  - do 2 eexists. split; [reflexivity|]. split_and!.
    + split; [apply lookup_insert_eq|done].
    + done.
    + cbn. lia.
    + intros p Hp. by rewrite !lookup_insert_ne.
Qed.

Lemma resize_spec n h disk c :
  mapped h disk c ->
  let c' := if c_size c <?? n then c_extend n c else c in
  exists h' disk', resize all_succeed n h disk = (Ret tt, h', disk') /\
    mapped h' disk' c' /\ file_path_ h' = file_path_ h /\ get_size h' = N.max (c_size c) n /\
    (forall p, p <> file_path_ h -> disk' !! p = disk !! p).
Proof.
  intros [Hd _]. unfold resize, close_file, get_data in *. destruct (data_ h); [done|done|]. cbn [file_path_].
  destruct (open_spec (file_path_ h) n (Mk (file_path_ h) (file_size_ h) Null false) disk) as (h' & disk' & H).
  rewrite Hd in H. exists h', disk'. exact H.
Qed.
End handler.

(** Growing a mapped file keeps its bytes.  When every system call
    succeeds, [resize] leaves the handler mapped, the old bytes at their old
    offsets and zeros behind them up to the requested size; a request below
    the current size changes nothing; other files are untouched. *)
Theorem resize_keeps_bytes (n : N) (h : t) (disk : gmap string bytes) (data : bytes) :
  mapped h disk data ->
  exists h' disk', resize all_succeed n h disk = (Ret tt, h', disk') /\
    mapped h' disk' (data ++ replicate (N.to_nat (n - bsize data)) (ascii_of_N 0)) /\
    get_size h' = N.max (bsize data) n /\
    (forall p, p <> file_path_ h -> disk' !! p = disk !! p).
Proof.
  intros Hm. destruct (resize_spec n h disk data Hm) as (h' & disk' & E & Hm' & _ & Hs & Ho).
  exists h', disk'. split_and!; [done| |done|done]. cbn in Hm'. case_bool_decide; [done|].
  replace (n - bsize data) with 0 by lia. by rewrite app_nil_r.
Qed.

(** After a failed [resize] the handler reports a size it has not
    mapped.  [file_size_] is set to the requested size before anything can
    fail, and the old mapping is gone: whichever call fails while the file is
    to grow, [get_data] is no longer a mapping and [get_size] is the size that
    was asked for.  The bounds checks of the index compare with [get_size]. *)
Theorem failed_resize_reports_size (sc : syscalls) (n : N) (h h' : t) (disk disk' : gmap string bytes)
    (data : bytes) (what : string) :
  mapped h disk data -> bsize data < n -> resize sc n h disk = (Throw what, h', disk') ->
  get_data h' disk' = None /\ get_size h' = n.
Proof.
  intros [Hd _] Hn. unfold resize, close_file, get_data in *. destruct (data_ h); [done|done|].
  unfold open_file. cbn [file_path_ file_fd_ data_]. rewrite Hd. cbn [default].
  destruct (sc_mkdir sc); cbn [negb]; [|by intros [= _ <- _]].
  destruct (sc_open sc); cbn [negb]; [|by intros [= _ <- _]].
  cbn [c_size bytes_contents id]. rewrite (bool_decide_eq_true_2 _ Hn). cbn [andb].
  destruct (sc_ftruncate sc); cbn [negb]; [|by intros [= _ <- _]].
  destruct (sc_mmap sc); cbn [negb]; [done|by intros [= _ <- _]].
Qed.

(** A handler on a file of three bytes. *)
Definition three_bytes : bytes := bytes_of "abc".

Definition opened : t := Mk "f" 3 Mapped true.

Definition one_file : gmap string bytes := {["f" := three_bytes]}.

Lemma resize_keeps_bytes_witness :
  exists h' disk', resize all_succeed 5 opened one_file = (Ret tt, h', disk') /\
    mapped h' disk' (three_bytes ++ replicate 2 (ascii_of_N 0)) /\ get_size h' = 5.
Proof.
  destruct (resize_keeps_bytes 5 opened one_file three_bytes) as (h' & disk' & E & Hm & Hs & _).
  { split; reflexivity. }
  exists h', disk'. split; [exact E|]. split; [exact Hm|exact Hs].
Defined.

Lemma failed_resize_reports_size_witness :
  exists h' disk', resize (MkSyscalls true true false true) 5 opened one_file = (Throw "Failed to resize file", h', disk') /\
    get_data h' disk' = None /\ get_size h' = 5.
Proof.
  do 2 eexists. split; [reflexivity|].
  eapply (failed_resize_reports_size (MkSyscalls true true false true) 5 opened _ one_file _ three_bytes
    "Failed to resize file"); [split; reflexivity|reflexivity|reflexivity].
Defined.

End MMapHandler.
