(* ===== verification/RaftState.v ===== *)
(** * Durable term and vote ([src/cluster/raft_state.hpp]) *)

From S2P Require Import Prelude Storage.

Module PersistentState.

(** The object together with the contents of the file at [path_]. *)
Record t := Mk {
  file_ : option bytes;
  current_term_ : N;
  voted_for_ : Z;
}.

(** The 12-byte buffer: [uint64_t] term, [int32_t] vote. *)
Definition buf (term : N) (voted_for : Z) : bytes :=
  le_encode 8 term ++ le_encode 4 (i32_to_u32 voted_for).

Definition BUF_SIZE : nat := 12.

Definition persist (env : io_env) (s : t) : outcome unit * t :=
  if io_open_ok env then
    let '(r, file) :=
      write_all "short write persisting raft state" [buf (current_term_ s) (voted_for_ s)]
                [] (io_budget env) in
    (r, Mk (Some file) (current_term_ s) (voted_for_ s))
  else (Throw "cannot open raft state file", s).

(** A freshly constructed object opening a file with the given contents. *)
Definition open_file (env : io_env) (file : option bytes) : outcome unit * t :=
  let fresh := Mk file 0 (-1) in
  match file with
  | Some data =>
    let b := take BUF_SIZE data in
    if decide (length b = BUF_SIZE)
    then (Ret tt, Mk file (le_decode (take 8 b)) (u32_to_i32 (le_decode (drop 8 b))))
    else persist env fresh
  | None => persist env fresh
  end.

Definition current_term (s : t) : N := current_term_ s.

Definition voted_for (s : t) : Z := voted_for_ s.

Definition set (env : io_env) (term : N) (vote : Z) (s : t) : outcome unit * t :=
  persist env (Mk (file_ s) term vote).

(** The value of [set] when the disk does not fail. *)
Definition set_ok (term : N) (vote : Z) (s : t) : t := (set io_ok term vote s).2.

(** Memory and disk agree, and the values fit their C++ types. *)
Definition wf (s : t) : Prop :=
  file_ s = Some (buf (current_term_ s) (voted_for_ s)) /\
  is_u64 (current_term_ s) /\ is_i32 (voted_for_ s).

Lemma length_buf term vote : length (buf term vote) = BUF_SIZE.
Proof. unfold buf. by rewrite length_app, !length_le_encode. Qed.

Lemma set_ok_eq term vote s :
  set_ok term vote s = Mk (Some (buf term vote)) term vote.
Proof. reflexivity. Qed.

Lemma set_ok_wf term vote s : is_u64 term -> is_i32 vote -> wf (set_ok term vote s).
Proof. intros. rewrite set_ok_eq. by split_and!. Qed.

Lemma open_file_buf env term vote :
  is_u64 term -> is_i32 vote ->
  open_file env (Some (buf term vote)) = (Ret tt, Mk (Some (buf term vote)) term vote).
Proof.
  intros Ht Hv. unfold open_file.
  rewrite (take_ge (buf term vote)) by (rewrite length_buf; done).
  rewrite decide_True by apply length_buf.
  unfold buf at 2 3.
  rewrite take_app_length' by (by rewrite length_le_encode).
  rewrite drop_app_length' by (by rewrite length_le_encode).
  rewrite le_decode_encode_8 by done.
  rewrite le_decode_encode_4 by apply i32_to_u32_bound.
  by rewrite u32_to_i32_of.
Qed.

Lemma open_file_short env data :
  (length data < BUF_SIZE)%nat ->
  open_file env (Some data) = persist env (Mk (Some data) 0 (-1)).
Proof.
  intros Hl. unfold open_file. rewrite decide_False; [done|].
  rewrite length_take. lia.
Qed.

(** restart restores exactly what [set] made durable: after a fault-free
    [set] the call returns normally and a new object opening the same file
    holds the same term and the same vote, for every 64-bit term and 32-bit
    vote. *)
Theorem set_then_reopen (env : io_env) (term : N) (vote : Z) (s : t) :
  is_u64 term -> is_i32 vote ->
  set io_ok term vote s = (Ret tt, set_ok term vote s) /\
  open_file env (file_ (set_ok term vote s)) = (Ret tt, Mk (Some (buf term vote)) term vote).
Proof. intros. split; [done|]. rewrite set_ok_eq. by apply open_file_buf. Qed.

Lemma set_then_reopen_witness :
  set io_ok 7 2 (Mk None 0 (-1)) = (Ret tt, set_ok 7 2 (Mk None 0 (-1))) /\
  open_file io_ok (file_ (set_ok 7 2 (Mk None 0 (-1)))) =
    (Ret tt, Mk (Some (buf 7 2)) 7 2).
Proof. apply (set_then_reopen io_ok 7 2 (Mk None 0 (-1))); done. Defined.

(** the update is not atomic.  [persist] truncates the file before it
    writes, so a [set] that stops after [k < 12] bytes destroys the previous
    durable term and vote too: whatever the object held before, the file
    reopens with term 0 and no vote. *)
Theorem torn_set_forgets_vote (term : N) (vote : Z) (s : t) (k : nat) :
  (k < BUF_SIZE)%nat ->
  let '(r, s') := set (IoEnv true (Some k)) term vote s in
  r = Throw "short write persisting raft state" /\
  let '(r2, s2) := open_file io_ok (file_ s') in
  r2 = Ret tt /\ current_term s2 = 0 /\ voted_for s2 = (-1)%Z.
Proof.
  intros Hk. unfold set, persist. cbn [io_open_ok io_budget].
  rewrite write_all_short; [|cbn [concat]; rewrite app_nil_r, length_buf; done].
  cbn [file_]. split; [done|].
  rewrite open_file_short; [done|]. rewrite app_nil_l, length_take. lia.
Qed.

Lemma torn_set_forgets_vote_witness :
  let '(r, s') := set (IoEnv true (Some 5%nat)) 9 1 (Mk (Some (buf 8 2)) 8 2) in
  r = Throw "short write persisting raft state" /\
  let '(r2, s2) := open_file io_ok (file_ s') in
  r2 = Ret tt /\ current_term s2 = 0 /\ voted_for s2 = (-1)%Z.
Proof.
  apply (torn_set_forgets_vote 9 1 (Mk (Some (buf 8 2)) 8 2) 5). unfold BUF_SIZE. lia.
Defined.

End PersistentState.
