(* ===== verification/RaftLog.v ===== *)
(** * The replicated log with compaction ([src/cluster/raft_log.hpp])

    [RaftLog.t] is the object together with the contents of its file.
    Indices are absolute throughout, as in the source. *)

From S2P Require Import Prelude Storage.

Record PersistedEntry := MkEntry { term : N; command : string }.

#[export] Instance PersistedEntry_eq_dec : EqDecision PersistedEntry.
Proof. solve_decision. Defined.

Module RaftLog.

Record t := Mk {
  file_ : option bytes;
  entries_ : list PersistedEntry;
  snapshot_last_index_ : N;
  snapshot_last_term_ : N;
  snapshot_data_ : string;
}.

Definition kMagic : N := 0x4E414654.

(** ** Persistence *)

(** [write_exact(e.command.data(), len)] with [len] cut to 32 bits. *)
Definition blob (s : string) : bytes := take (N.to_nat (u32 (strlen s))) (bytes_of s).

Definition entry_chunks (e : PersistedEntry) : list bytes :=
  [le_encode 8 (term e); le_encode 4 (u32 (strlen (command e))); blob (command e)].

Definition chunks (l : t) : list bytes :=
  let snap_len := u32 (strlen (snapshot_data_ l)) in
  [le_encode 4 kMagic; le_encode 8 (snapshot_last_index_ l);
   le_encode 8 (snapshot_last_term_ l); le_encode 4 snap_len] ++
  (if 0 <?? snap_len then [blob (snapshot_data_ l)] else []) ++
  concat (entry_chunks <$> entries_ l).

Definition with_file (f : option bytes) (l : t) : t :=
  Mk f (entries_ l) (snapshot_last_index_ l) (snapshot_last_term_ l) (snapshot_data_ l).

Definition persist (env : io_env) (l : t) : outcome unit * t :=
  if io_open_ok env then
    let '(r, f) := write_all "short write persisting raft log" (chunks l) [] (io_budget env) in
    (r, with_file (Some f) l)
  else (Throw "cannot open raft log file", l).

(** The record loop of [open_file]; [fuel] bounds the iterations. *)
Fixpoint read_entries (fuel : nat) (data : bytes) (pos : N) : list PersistedEntry :=
  match fuel with
  | O => []
  | S fuel' =>
    if pos <?? bsize data then
      if bsize data <?? pos + 8 + 4 then []
      else
        let trm := read_le data pos 8 in
        let pos := pos + 8 in
        let len := read_le data pos 4 in
        let pos := pos + 4 in
        if bsize data <?? pos + len then []
        else MkEntry trm (string_of (substr data pos len)) :: read_entries fuel' data (pos + len)
    else []
  end.

Definition open_file (env : io_env) (file : option bytes) : outcome unit * t :=
  match file with
  | None => persist env (Mk None [] 0 0 "")
  | Some data =>
    let fuel := S (length data) in
    if (4 <=?? bsize data) && (read_le data 0 4 =?? kMagic) then
      let pos := 4 in
      if bsize data <?? pos + 8 * 2 + 4 then persist env (Mk file [] 0 0 "")
      else
        let idx := read_le data pos 8 in
        let pos := pos + 8 in
        let trm := read_le data pos 8 in
        let pos := pos + 8 in
        let snap_len := read_le data pos 4 in
        let pos := pos + 4 in
        if bsize data <?? pos + snap_len then persist env (Mk file [] idx trm "")
        else
          let snap := string_of (substr data pos snap_len) in
          let pos := pos + snap_len in
          (Ret tt, Mk file (read_entries fuel data pos) idx trm snap)
    else (Ret tt, Mk file (read_entries fuel data 0) 0 0 "")
  end.

(** ** Accessors *)

Definition size (l : t) : N := N.of_nat (length (entries_ l)).

Definition last_index (l : t) : N := snapshot_last_index_ l +u size l.

Definition last_term (l : t) : N :=
  match last (entries_ l) with
  | Some e => term e
  | None => snapshot_last_term_ l
  end.

(** [entries_[index - 1 - snapshot_last_index_]]. *)
Definition physical (l : t) (index : N) : option PersistedEntry :=
  entries_ l !! N.to_nat (index -u 1 -u snapshot_last_index_ l).

Definition term_at (l : t) (index : N) : N :=
  if index =?? 0 then 0
  else if last_index l <?? index then 0
  else if index <=?? snapshot_last_index_ l then snapshot_last_term_ l
  else from_option term 0 (physical l index).

Definition has_entry_at (l : t) (index : N) : bool :=
  (1 <=?? index) && (index <=?? last_index l).

Definition has_real_entry_at (l : t) (index : N) : bool :=
  (snapshot_last_index_ l <?? index) && (index <=?? last_index l).

Definition command_at (l : t) (index : N) : string :=
  if (index <?? 1) || (index <=?? snapshot_last_index_ l) || (last_index l <?? index) then ""
  else from_option command "" (physical l index).

Definition snapshot_last_index (l : t) : N := snapshot_last_index_ l.

Definition snapshot_last_term (l : t) : N := snapshot_last_term_ l.

Definition snapshot_data (l : t) : string := snapshot_data_ l.

(** ** Mutations *)

(** The append loop of [truncate_and_append], at loop variable [j]. *)
Fixpoint push_new (snap keep_count j : N) (new_entries : list PersistedEntry)
    (entries : list PersistedEntry) : list PersistedEntry :=
  match new_entries with
  | [] => entries
  | e :: rest =>
    let abs_idx := keep_count +u 1 +u j in
    if abs_idx <=?? snap then push_new snap keep_count (j + 1) rest entries
    else push_new snap keep_count (j + 1) rest (entries ++ [e])
  end.

Definition with_entries (es : list PersistedEntry) (l : t) : t :=
  Mk (file_ l) es (snapshot_last_index_ l) (snapshot_last_term_ l) (snapshot_data_ l).

Definition truncate_and_append (env : io_env) (keep_count : N)
    (new_entries : list PersistedEntry) (l : t) : outcome unit * t :=
  let snap := snapshot_last_index_ l in
  let physical_keep := if snap <?? keep_count then keep_count -u snap else 0 in
  let es := if physical_keep <?? size l
            then take (N.to_nat physical_keep) (entries_ l) else entries_ l in
  persist env (with_entries (push_new snap keep_count 0 new_entries es) l).

Definition append (env : io_env) (trm : N) (cmd : string) (l : t) : outcome unit * t :=
  persist env (with_entries (entries_ l ++ [MkEntry trm cmd]) l).

Definition compact (env : io_env) (up_to_index snapshot_term : N) (data : string)
    (l : t) : outcome unit * t :=
  if up_to_index <=?? snapshot_last_index_ l then (Ret tt, l)
  else
    let remove_count := up_to_index -u snapshot_last_index_ l in
    let remove_count := if size l <?? remove_count then size l else remove_count in
    persist env
      (Mk (file_ l) (drop (N.to_nat remove_count) (entries_ l)) up_to_index snapshot_term data).

(** The values of the mutations when the disk does not fail. *)
Definition truncate_and_append_ok keep new l := (truncate_and_append io_ok keep new l).2.

Definition append_ok trm cmd l := (append io_ok trm cmd l).2.

Definition compact_ok up_to trm data l := (compact io_ok up_to trm data l).2.

(** ** Well-formedness and the abstract log *)

Definition entry_fits (e : PersistedEntry) : Prop :=
  is_u64 (term e) /\ strlen (command e) < U32.

(** Values fit their C++ types and the absolute index space does not wrap. *)
Definition fits (l : t) : Prop :=
  snapshot_last_index_ l + size l < U64 /\ is_u64 (snapshot_last_term_ l) /\
  strlen (snapshot_data_ l) < U32 /\ Forall entry_fits (entries_ l).

(** The bytes [persist] writes. *)
Definition encode (l : t) : bytes := concat (chunks l).

Definition wf (l : t) : Prop := fits l /\ file_ l = Some (encode l).

(** The abstract log: a partial function from absolute indices to entries.
    [None] at or below the snapshot index and above [last_index]. *)
Definition entry_at (l : t) (i : N) : option PersistedEntry :=
  if i <=?? snapshot_last_index_ l then None
  else entries_ l !! N.to_nat (i - 1 - snapshot_last_index_ l).

Lemma blob_small s : strlen s < U32 -> blob s = bytes_of s.
Proof.
  intros Hs. unfold blob. unfold u32. rewrite N.mod_small by done.
  rewrite take_ge; [done|]. rewrite length_bytes_of. unfold strlen. lia.
Qed.

Lemma u32_strlen s : strlen s < U32 -> u32 (strlen s) = strlen s.
Proof. intros. by apply N.mod_small. Qed.

Lemma last_index_eq l : fits l -> last_index l = snapshot_last_index_ l + size l.
Proof. intros [Hb _]. by apply u64_add_small. Qed.

Lemma entry_at_None l i : last_index l < i -> fits l -> entry_at l i = None.
Proof.
  intros Hi Hf. rewrite last_index_eq in Hi by done. unfold entry_at.
  case_bool_decide; [done|]. apply lookup_ge_None. unfold size in *. lia.
Qed.

Lemma entry_at_is_Some l i :
  fits l -> snapshot_last_index_ l < i <= last_index l -> is_Some (entry_at l i).
Proof.
  intros Hf Hi. rewrite last_index_eq in Hi by done. unfold entry_at.
  rewrite bool_decide_eq_false_2 by lia.
  apply lookup_lt_is_Some. unfold size in *. lia.
Qed.

Lemma entry_at_Some_range l i e :
  fits l -> entry_at l i = Some e -> snapshot_last_index_ l < i <= last_index l.
Proof.
  intros Hf He. rewrite last_index_eq by done. unfold entry_at in He.
  case_bool_decide; [done|]. apply lookup_lt_Some in He. unfold size. lia.
Qed.

Lemma physical_entry_at l i :
  fits l -> snapshot_last_index_ l < i <= last_index l -> physical l i = entry_at l i.
Proof.
  intros Hf Hi. unfold physical, entry_at.
  rewrite bool_decide_eq_false_2 by lia.
  rewrite last_index_eq in Hi by done. destruct Hf as [Hb _].
  rewrite (u64_sub_le i 1), u64_sub_le by lia. done.
Qed.

(** [persist] always writes a prefix of [encode], all of it without a fault. *)
Lemma persist_ok l : persist io_ok l = (Ret tt, with_file (Some (encode l)) l).
Proof. unfold persist. cbn [io_open_ok io_budget io_ok]. by rewrite write_all_ok. Qed.

Lemma fits_with_file f l : fits l -> fits (with_file f l).
Proof. done. Qed.

Lemma wf_persist l : fits l -> wf (persist io_ok l).2.
Proof. intros. rewrite persist_ok. done. Qed.

(** ** Reading back what was written *)

Definition enc_entry (e : PersistedEntry) : bytes := concat (entry_chunks e).

Lemma enc_entry_eq e :
  entry_fits e ->
  enc_entry e = le_encode 8 (term e) ++ le_encode 4 (strlen (command e)) ++ bytes_of (command e).
Proof.
  intros [_ Hs]. unfold enc_entry, entry_chunks. cbn [concat].
  by rewrite app_nil_r, blob_small, u32_strlen.
Qed.

Lemma bsize_enc_entry e : entry_fits e -> bsize (enc_entry e) = 8 + 4 + strlen (command e).
Proof. intros. rewrite enc_entry_eq by done. autorewrite with nanodb. lia. Qed.

(** One iteration of the loop on a complete record. *)
Lemma read_entries_cons fuel pre e rest :
  entry_fits e ->
  read_entries (S fuel) (pre ++ enc_entry e ++ rest) (bsize pre) =
  e :: read_entries fuel (pre ++ enc_entry e ++ rest) (bsize (pre ++ enc_entry e)).
Proof.
  intros He. pose proof (bsize_enc_entry e He) as Hb. pose proof He as [Ht Hs].
  set (data := pre ++ enc_entry e ++ rest).
  assert (bsize data = bsize pre + (12 + strlen (command e)) + bsize rest) as Hd.
  { unfold data. rewrite !bsize_app, Hb. lia. }
  cbn [read_entries]. cbv zeta. rewrite bool_decide_eq_true_2 by lia.
  rewrite bool_decide_eq_false_2 by lia.
  assert (read_le data (bsize pre) 8 = term e) as ->.
  { unfold data. rewrite enc_entry_eq, <-app_assoc by done.
    rewrite read_le_app by apply length_le_encode. by apply le_decode_encode_8. }
  assert (read_le data (bsize pre + 8) 4 = strlen (command e)) as ->.
  { replace (bsize pre + 8) with (bsize (pre ++ le_encode 8 (term e)))
      by (by autorewrite with nanodb).
    unfold data. rewrite enc_entry_eq, <-!app_assoc, app_assoc by done.
    rewrite read_le_app by apply length_le_encode. by apply le_decode_encode_4. }
  rewrite bool_decide_eq_false_2 by lia.
  assert (substr data (bsize pre + 8 + 4) (strlen (command e)) = bytes_of (command e)) as ->.
  { replace (bsize pre + 8 + 4)
      with (bsize (pre ++ le_encode 8 (term e) ++ le_encode 4 (strlen (command e))))
      by (autorewrite with nanodb; lia).
    replace data with ((pre ++ le_encode 8 (term e) ++ le_encode 4 (strlen (command e)))
                         ++ bytes_of (command e) ++ rest)
      by (unfold data; rewrite enc_entry_eq, <-!app_assoc by done; done).
    rewrite <-bsize_bytes_of. apply substr_app. }
  rewrite string_of_bytes_of. f_equal; [by destruct e|]. f_equal.
  rewrite bsize_app, Hb. lia.
Qed.

(** A record cut short ends the loop. *)
Lemma read_entries_partial fuel pre e k :
  entry_fits e -> (k < length (enc_entry e))%nat ->
  read_entries fuel (pre ++ take k (enc_entry e)) (bsize pre) = [].
Proof.
  intros He Hk. pose proof (bsize_enc_entry e He) as Hb. unfold bsize in Hb.
  pose proof He as [_ Hs].
  assert (bsize (pre ++ take k (enc_entry e)) = bsize pre + N.of_nat k) as Hd.
  { rewrite bsize_app. unfold bsize at 2. rewrite length_take. lia. }
  destruct fuel as [|fuel]; [done|]. cbn [read_entries]. cbv zeta.
  case_bool_decide; [|done]. case_bool_decide; [done|].
  assert (read_le (pre ++ take k (enc_entry e)) (bsize pre + 8) 4 = strlen (command e)) as ->.
  { replace (bsize pre + 8) with (bsize (pre ++ le_encode 8 (term e)))
      by (by autorewrite with nanodb).
    rewrite enc_entry_eq by done.
    rewrite take_app_ge by (rewrite length_le_encode; lia).
    rewrite length_le_encode, app_assoc.
    rewrite take_app_ge by (rewrite length_le_encode; lia).
    rewrite read_le_app by apply length_le_encode. by apply le_decode_encode_4. }
  by rewrite bool_decide_eq_true_2 by lia.
Qed.

Lemma read_entries_app fuel pre es rest :
  Forall entry_fits es ->
  read_entries (length es + fuel) (pre ++ concat (enc_entry <$> es) ++ rest) (bsize pre) =
  es ++ read_entries fuel (pre ++ concat (enc_entry <$> es) ++ rest)
          (bsize (pre ++ concat (enc_entry <$> es))).
Proof.
  intros Hes. revert pre. induction Hes as [|e es He Hes IH]; intros pre.
  - cbn. by rewrite app_nil_r.
  - cbn [length Nat.add fmap list_fmap concat]. rewrite <-app_assoc.
    rewrite read_entries_cons by done. rewrite app_assoc, IH. cbn [app].
    by rewrite <-!app_assoc.
Qed.

Lemma read_entries_end fuel data : read_entries fuel data (bsize data) = [].
Proof.
  destruct fuel; [done|]. cbn [read_entries]. by rewrite bool_decide_eq_false_2 by lia.
Qed.

Lemma length_enc_entries es :
  Forall entry_fits es -> (length es <= length (concat (enc_entry <$> es)))%nat.
Proof.
  induction 1 as [|e es He Hes IH]; [done|].
  cbn [length fmap list_fmap concat]. rewrite length_app.
  pose proof (bsize_enc_entry e He). unfold bsize in *. lia.
Qed.

(** Any cut through a sequence of records is whole records plus a partial one. *)
Lemma take_enc_entries k es :
  take k (concat (enc_entry <$> es)) = concat (enc_entry <$> es) \/
  exists m e k', es !! m = Some e /\ (k' < length (enc_entry e))%nat /\
    take k (concat (enc_entry <$> es)) =
      concat (enc_entry <$> take m es) ++ take k' (enc_entry e).
Proof.
  revert k. induction es as [|e es IH]; intros k; [left; by destruct k|].
  cbn [fmap list_fmap concat]. destruct (decide (k < length (enc_entry e))%nat).
  - right. exists O, e, k. split_and!; [done..|]. by rewrite take_app_le by lia.
  - rewrite take_app_ge by lia.
    destruct (IH (k - length (enc_entry e))%nat) as [->|(m & e' & k' & Hm & Hk & ->)];
      [by left|]. right. exists (S m), e', k'. split_and!; [done..|].
    cbn [take fmap list_fmap concat]. by rewrite <-app_assoc.
Qed.

(** The fixed-size fields of the header, and the header with its data. *)
Definition fixed_header (l : t) : bytes :=
  le_encode 4 kMagic ++ le_encode 8 (snapshot_last_index_ l) ++
  le_encode 8 (snapshot_last_term_ l) ++ le_encode 4 (strlen (snapshot_data_ l)).

Definition header (l : t) : bytes := fixed_header l ++ bytes_of (snapshot_data_ l).

Lemma concat_concat {A} (ls : list (list (list A))) :
  concat (concat ls) = concat (@concat A <$> ls).
Proof. induction ls as [|l ls IH]; [done|]. cbn. by rewrite concat_app, IH. Qed.

Lemma encode_eq l :
  fits l -> encode l = header l ++ concat (enc_entry <$> entries_ l).
Proof.
  intros (_ & _ & Hd & _). unfold encode, chunks. rewrite u32_strlen by done.
  rewrite !concat_app, concat_concat, <-list_fmap_compose.
  unfold header, fixed_header. cbn [concat]. rewrite !app_nil_r, <-!app_assoc.
  do 4 f_equal. f_equal.
  case_bool_decide as Hz; cbn [concat]; rewrite ?app_nil_r.
  - by rewrite blob_small.
  - destruct (snapshot_data_ l) as [|c d]; [done|].
    unfold strlen in Hz. cbn [String.length] in Hz. lia.
Qed.

Lemma bsize_fixed_header l : bsize (fixed_header l) = 24.
Proof. unfold fixed_header. by autorewrite with nanodb. Qed.

Lemma bsize_header l : bsize (header l) = 24 + strlen (snapshot_data_ l).
Proof. unfold header. by rewrite bsize_app, bsize_fixed_header, bsize_bytes_of. Qed.

(** What [open_file] reads from the fixed header, whatever follows it. *)
Lemma read_fixed_header l rest :
  fits l ->
  read_le (fixed_header l ++ rest) 0 4 = kMagic /\
  read_le (fixed_header l ++ rest) 4 8 = snapshot_last_index_ l /\
  read_le (fixed_header l ++ rest) (4 + 8) 8 = snapshot_last_term_ l /\
  read_le (fixed_header l ++ rest) (4 + 8 + 8) 4 = strlen (snapshot_data_ l).
Proof.
  intros (Hi & Ht & Hd & _). unfold fixed_header. rewrite <-!app_assoc. split_and!.
  - etrans; [exact (read_le_app [] _ _ 4 (length_le_encode 4 _))|done].
  - etrans; [exact (read_le_app (le_encode 4 kMagic) _ _ 8 (length_le_encode 8 _))|].
    apply le_decode_encode_8. lia.
  - rewrite app_assoc.
    replace (4 + 8) with (bsize (le_encode 4 kMagic ++ le_encode 8 (snapshot_last_index_ l)))
      by (by autorewrite with nanodb).
    rewrite read_le_app by apply length_le_encode. by apply le_decode_encode_8.
  - rewrite !app_assoc, <-(app_assoc _ (le_encode 4 _)).
    replace (4 + 8 + 8)
      with (bsize ((le_encode 4 kMagic ++ le_encode 8 (snapshot_last_index_ l))
                   ++ le_encode 8 (snapshot_last_term_ l)))
      by (by autorewrite with nanodb).
    rewrite read_le_app by apply length_le_encode. by apply le_decode_encode_4.
Qed.

Lemma open_file_header env l rest :
  fits l ->
  open_file env (Some (header l ++ rest)) =
  (Ret tt, Mk (Some (header l ++ rest))
              (read_entries (S (length (header l ++ rest))) (header l ++ rest) (bsize (header l)))
              (snapshot_last_index_ l) (snapshot_last_term_ l) (snapshot_data_ l)).
Proof.
  intros Hf. set (data := header l ++ rest).
  destruct (read_fixed_header l (bytes_of (snapshot_data_ l) ++ rest) Hf) as (E1 & E2 & E3 & E4).
  rewrite app_assoc in E1, E2, E3, E4. fold (header l) data in E1, E2, E3, E4.
  assert (bsize data = 24 + strlen (snapshot_data_ l) + bsize rest) as Hd.
  { unfold data. rewrite bsize_app, bsize_header. lia. }
  unfold open_file. cbv zeta. rewrite E1, E2, E3, E4.
  rewrite !bool_decide_eq_true_2 by (done || lia). cbn [andb].
  rewrite !bool_decide_eq_false_2 by lia. do 2 f_equal.
  - f_equal. rewrite bsize_header. lia.
  - unfold data, header. rewrite <-app_assoc, <-bsize_bytes_of.
    replace (4 + 8 + 8 + 4) with (bsize (fixed_header l)) by apply bsize_fixed_header.
    rewrite substr_app. apply string_of_bytes_of.
Qed.

Lemma read_entries_encode l k :
  fits l -> (length (header l) <= k)%nat ->
  let data := take k (encode l) in
  exists m, read_entries (S (length data)) data (bsize (header l)) = take m (entries_ l) /\
    ((length (encode l) <= k)%nat -> take m (entries_ l) = entries_ l).
Proof.
  intros Hf Hk data. pose proof Hf as (_ & _ & _ & Hes).
  pose proof (encode_eq l Hf) as He. unfold data. rewrite He.
  rewrite take_app_ge by done. set (k' := (k - length (header l))%nat).
  destruct (take_enc_entries k' (entries_ l)) as [Et|(m & e & j & Hm & Hj & Et)].
  - exists (length (entries_ l)). rewrite Et, firstn_all. split; [|done].
    rewrite <-(app_nil_r (concat _)) at 1 2.
    pose proof (length_enc_entries _ Hes).
    replace (S (length (header l ++ concat (enc_entry <$> entries_ l) ++ [])))
      with (length (entries_ l) +
            (S (length (header l ++ concat (enc_entry <$> entries_ l))) - length (entries_ l)))%nat
      by (rewrite app_nil_r, length_app; lia).
    rewrite read_entries_app by done. rewrite app_nil_r, read_entries_end, app_nil_r. done.
  - exists m. rewrite Et. split.
    + assert (Forall entry_fits (take m (entries_ l))) as Hm' by by apply Forall_take.
      pose proof (length_enc_entries _ Hm').
      replace (S (length (header l ++ concat (enc_entry <$> take m (entries_ l))
                          ++ take j (enc_entry e))))
        with (length (take m (entries_ l)) +
              (S (length (header l ++ concat (enc_entry <$> take m (entries_ l))
                          ++ take j (enc_entry e))) - length (take m (entries_ l))))%nat
        by (rewrite !length_app; lia).
      rewrite read_entries_app by done.
      rewrite app_assoc, read_entries_partial; [by rewrite app_nil_r| |done].
      exact (Forall_lookup_1 _ _ _ _ Hes Hm).
    + rewrite length_app. intros Hle. exfalso. unfold k' in Et.
      rewrite take_ge in Et by lia.
      rewrite <-(take_drop_middle _ _ _ Hm) in Et at 1.
      rewrite fmap_app, concat_app in Et. apply app_inv_head in Et.
      apply (f_equal length) in Et. rewrite fmap_cons in Et. cbn [concat] in Et.
      rewrite length_app, length_take in Et. lia.
Qed.

Lemma open_file_cut env l k :
  fits l -> (length (header l) <= k)%nat ->
  exists m,
    open_file env (Some (take k (encode l))) =
      (Ret tt, Mk (Some (take k (encode l))) (take m (entries_ l))
                  (snapshot_last_index_ l) (snapshot_last_term_ l) (snapshot_data_ l)) /\
    ((length (encode l) <= k)%nat -> take m (entries_ l) = entries_ l).
Proof.
  intros Hf Hk. destruct (read_entries_encode l k Hf Hk) as (m & Hm & Hfull).
  exists m. split; [|done]. rewrite <-Hm.
  assert (take k (encode l) =
          header l ++ take (k - length (header l)) (concat (enc_entry <$> entries_ l))) as ->.
  { by rewrite encode_eq, take_app_ge by done. }
  by rewrite open_file_header.
Qed.

(** The record loop always ends: [S (length data)] iterations are enough, more
    fuel changes nothing. *)
Lemma read_entries_fuel data fuel1 fuel2 pos :
  (length data < fuel1 + N.to_nat pos)%nat -> (length data < fuel2 + N.to_nat pos)%nat ->
  read_entries fuel1 data pos = read_entries fuel2 data pos.
Proof.
  revert fuel2 pos. induction fuel1 as [|f1 IH]; intros [|f2] pos H1 H2; [done|..];
    cbn [read_entries]; cbv zeta; unfold bsize.
  - by rewrite bool_decide_eq_false_2 by lia.
  - by rewrite bool_decide_eq_false_2 by lia.
  - case_bool_decide; [|done]. case_bool_decide; [done|]. case_bool_decide; [done|].
    f_equal. apply IH; lia.
Qed.

Lemma reopen_fits env l :
  fits l ->
  persist io_ok l = (Ret tt, with_file (Some (encode l)) l) /\
  open_file env (Some (encode l)) = (Ret tt, with_file (Some (encode l)) l).
Proof.
  intros Hf. split; [apply persist_ok|].
  destruct (open_file_cut env l (length (encode l)) Hf) as (m & Ho & Hm).
  { rewrite encode_eq, length_app by done. lia. }
  rewrite take_ge in Ho by done. rewrite Ho. by rewrite Hm.
Qed.

(** [persist] followed by [open_file] is the identity: a restarted node
    sees the same entries, snapshot index, snapshot term and snapshot data. *)
Theorem reopen_roundtrip (env : io_env) (l : t) :
  fits l ->
  persist io_ok l = (Ret tt, with_file (Some (encode l)) l) /\
  open_file env (Some (encode l)) = (Ret tt, with_file (Some (encode l)) l).
Proof. apply reopen_fits. Qed.

Definition sample : t :=
  Mk None [MkEntry 3 "cmd-5"; MkEntry 4 "cmd-6"] 4 2 "snap".

Lemma sample_fits : fits sample.
Proof. unfold fits. split_and!; [done..|]. by repeat constructor. Qed.

Lemma reopen_roundtrip_witness :
  persist io_ok sample = (Ret tt, with_file (Some (encode sample)) sample) /\
  open_file io_ok (Some (encode sample)) = (Ret tt, with_file (Some (encode sample)) sample).
Proof. exact (reopen_roundtrip io_ok sample sample_fits). Defined.

(** a crash in the middle of [persist], once the snapshot header is on
    disk, loses only a suffix of the log: the file reopens with the same
    snapshot and a prefix of the entries. *)
Theorem torn_log_keeps_prefix (env : io_env) (l : t) (k : nat) :
  fits l -> (length (header l) <= k)%nat ->
  exists es f, open_file env (Some (take k (encode l))) =
      (Ret tt, Mk f es (snapshot_last_index_ l) (snapshot_last_term_ l) (snapshot_data_ l)) /\
    es `prefix_of` entries_ l.
Proof.
  intros Hf Hk. destruct (open_file_cut env l k Hf Hk) as (m & Ho & _).
  eexists _, _. split; [exact Ho|]. apply prefix_take.
Qed.

Lemma torn_log_keeps_prefix_witness :
  exists es f, open_file io_ok (Some (take 50 (encode sample))) =
      (Ret tt, Mk f es 4 2 "snap") /\ es `prefix_of` entries_ sample.
Proof.
  apply (torn_log_keeps_prefix io_ok sample 50 sample_fits). vm_compute. lia.
Defined.

(** a crash inside the snapshot data does not "start fresh" as the comment
    in [open_file] says: the reopened log keeps the snapshot index and term of
    the torn header, but has an empty snapshot and no entries, so every index
    up to the snapshot index is claimed and its state is gone. *)
Theorem torn_snapshot_claims_lost_state (l : t) (k : nat) :
  fits l -> (24 <= k < length (header l))%nat ->
  let '(r, l') := open_file io_ok (Some (take k (encode l))) in
  r = Ret tt /\ snapshot_last_index l' = snapshot_last_index l /\
  snapshot_last_term l' = snapshot_last_term l /\
  snapshot_data l' = "" /\ entries_ l' = [] /\ snapshot_data l <> "".
Proof.
  intros Hf Hk.
  assert (take k (encode l) =
          fixed_header l ++ take (k - 24) (bytes_of (snapshot_data_ l))) as ->.
  { rewrite encode_eq by done. rewrite take_app_le by lia. unfold header.
    pose proof (bsize_fixed_header l) as Hb. unfold bsize in Hb.
    rewrite take_app_ge by lia. by replace (length (fixed_header l)) with 24%nat by lia. }
  pose proof (bsize_header l) as Hh. pose proof (bsize_fixed_header l) as Hx.
  set (rest := take _ _). pose proof Hf as (_ & _ & Hd & _).
  assert (bsize rest = N.of_nat (k - 24)) as Hr.
  { unfold rest, bsize. rewrite length_take, length_bytes_of. unfold bsize, strlen in *. lia. }
  destruct (read_fixed_header l rest Hf) as (E1 & E2 & E3 & E4).
  unfold open_file. cbv zeta. rewrite E1, E2, E3, E4.
  rewrite bsize_app, Hx, Hr. unfold bsize in Hh.
  rewrite !(bool_decide_eq_true_2 (4 <= _)), (bool_decide_eq_true_2 (kMagic = kMagic)) by (done || lia).
  cbn [andb]. rewrite (bool_decide_eq_false_2 (_ < 4 + 8 * 2 + 4)) by lia.
  rewrite bool_decide_eq_true_2 by lia. rewrite persist_ok.
  split_and!; [done..|]. unfold snapshot_data. intros E.
  rewrite E in Hh. change (strlen "") with 0 in Hh. lia.
Qed.

Lemma torn_snapshot_claims_lost_state_witness :
  let '(r, l') := open_file io_ok (Some (take 26 (encode sample))) in
  r = Ret tt /\ snapshot_last_index l' = 4 /\ snapshot_last_term l' = 2 /\
  snapshot_data l' = "" /\ entries_ l' = [] /\ snapshot_data sample <> "".
Proof.
  apply (torn_snapshot_claims_lost_state sample 26 sample_fits). vm_compute. lia.
Defined.

(** a log written by the earlier format (records only, no header) is read
    back completely, unless the low 32 bits of its first term happen to be
    the magic number. *)
Theorem legacy_file_read (env : io_env) (es : list PersistedEntry) :
  Forall entry_fits es ->
  (forall e, head es = Some e -> term e mod U32 <> kMagic) ->
  open_file env (Some (concat (enc_entry <$> es))) =
    (Ret tt, Mk (Some (concat (enc_entry <$> es))) es 0 0 "").
Proof.
  intros Hes Hm. set (data := concat (enc_entry <$> es)).
  assert (read_le data 0 4 <> kMagic \/ bsize data < 4) as Hno.
  { destruct es as [|e es]; [by right|]. left. specialize (Hm e eq_refl).
    apply Forall_cons_1 in Hes as [He _]. unfold data. cbn [fmap list_fmap concat].
    rewrite enc_entry_eq by done. unfold read_le. change (N.to_nat 0) with O. rewrite drop_0.
    rewrite <-!app_assoc. rewrite take_app_le by (rewrite length_le_encode; lia).
    change (take 4 (le_encode 8 (term e))) with (le_encode 4 (term e)).
    by rewrite le_decode_encode. }
  unfold open_file. replace ((4 <=?? bsize data) && (read_le data 0 4 =?? kMagic)) with false.
  - do 2 f_equal. pose proof (length_enc_entries es Hes).
    replace (S (length data)) with (length es + (S (length data) - length es))%nat
      by (unfold data; lia).
    pose proof (read_entries_app (S (length data) - length es) [] es [] Hes) as Hr.
    rewrite app_nil_r in Hr. cbn [app] in Hr. fold data in Hr. change (bsize []) with 0 in Hr.
    by rewrite Hr, read_entries_end, app_nil_r.
  - symmetry. destruct Hno; repeat case_bool_decide; first [done | lia].
Qed.

Lemma legacy_file_read_witness :
  open_file io_ok (Some (concat (enc_entry <$> [MkEntry 1 "a"; MkEntry 2 "bc"]))) =
    (Ret tt, Mk (Some (concat (enc_entry <$> [MkEntry 1 "a"; MkEntry 2 "bc"])))
                [MkEntry 1 "a"; MkEntry 2 "bc"] 0 0 "").
Proof.
  apply (legacy_file_read io_ok [MkEntry 1 "a"; MkEntry 2 "bc"]).
  - by repeat constructor.
  - by intros e [= <-].
Defined.

(** ** Accessors against the abstract log *)

Lemma has_real_entry_iff l i :
  fits l -> has_real_entry_at l i = true <-> is_Some (entry_at l i).
Proof.
  intros Hf. unfold has_real_entry_at. rewrite andb_bool_decide. split.
  - intros [H1 H2]. by apply entry_at_is_Some.
  - intros [e He]. by apply entry_at_Some_range in He.
Qed.

Lemma command_at_entry l i :
  fits l -> command_at l i = from_option command "" (entry_at l i).
Proof.
  intros Hf. unfold command_at.
  destruct (decide (snapshot_last_index_ l < i <= last_index l)) as [Hi|Hi].
  - rewrite !bool_decide_eq_false_2 by lia. cbn [orb]. by rewrite physical_entry_at.
  - destruct (entry_at l i) as [e|] eqn:He; [by apply entry_at_Some_range in He|].
    repeat case_bool_decide; cbn [orb]; first [done | lia].
Qed.

Lemma term_at_entry l i :
  fits l -> snapshot_last_index_ l < i -> term_at l i = from_option term 0 (entry_at l i).
Proof.
  intros Hf Hi. unfold term_at. rewrite (bool_decide_eq_false_2 (i = 0)) by lia.
  case_bool_decide; [by rewrite entry_at_None|].
  rewrite bool_decide_eq_false_2 by lia. by rewrite physical_entry_at by (done || lia).
Qed.

Lemma term_at_snapshot l i :
  fits l -> 1 <= i <= snapshot_last_index_ l -> term_at l i = snapshot_last_term_ l.
Proof.
  intros Hf Hi. unfold term_at. rewrite last_index_eq, !bool_decide_eq_false_2 by (done || lia).
  by rewrite bool_decide_eq_true_2 by lia.
Qed.

(** the accessors see the abstract log at absolute indices: a real entry is
    present exactly where the abstract log has one, [term_at] and
    [command_at] return its fields, indices inside the snapshot report the
    snapshot's term and no command, and everything past the end reads as 0
    and the empty string. *)
Theorem accessors_absolute (l : t) (i : N) :
  fits l ->
  (has_real_entry_at l i = true <-> is_Some (entry_at l i)) /\
  (has_entry_at l i = true <-> 1 <= i <= snapshot_last_index l + size l) /\
  command_at l i = from_option command "" (entry_at l i) /\
  (snapshot_last_index l < i -> term_at l i = from_option term 0 (entry_at l i)) /\
  (1 <= i <= snapshot_last_index l -> term_at l i = snapshot_last_term l).
Proof.
  intros Hf. split_and!.
  - by apply has_real_entry_iff.
  - unfold has_entry_at. by rewrite andb_bool_decide, last_index_eq.
  - by apply command_at_entry.
  - by apply term_at_entry.
  - by apply term_at_snapshot.
Qed.

Lemma accessors_absolute_witness :
  (has_real_entry_at sample 5 = true <-> is_Some (entry_at sample 5)) /\
  (has_entry_at sample 5 = true <-> 1 <= 5 <= snapshot_last_index sample + size sample) /\
  command_at sample 5 = from_option command "" (entry_at sample 5) /\
  (snapshot_last_index sample < 5 -> term_at sample 5 = from_option term 0 (entry_at sample 5)) /\
  (1 <= 5 <= snapshot_last_index sample -> term_at sample 5 = snapshot_last_term sample).
Proof. exact (accessors_absolute sample 5 sample_fits). Defined.

Lemma entry_at_fits l i e : fits l -> entry_at l i = Some e -> entry_fits e.
Proof.
  intros (_ & _ & _ & He) Hi. unfold entry_at in Hi. case_bool_decide; [done|].
  exact (Forall_lookup_1 _ _ _ _ He Hi).
Qed.

Lemma term_at_u64 l i : fits l -> is_u64 (term_at l i).
Proof.
  intros Hf. unfold term_at. do 2 (case_bool_decide; [done|]).
  case_bool_decide; [apply Hf|]. rewrite physical_entry_at by (done || lia).
  destruct (entry_at l i) as [e|] eqn:E; [|done]. by eapply entry_at_fits.
Qed.

(** ** Mutations against the abstract log *)

Lemma push_new_eq snap keep j new es :
  keep + j + N.of_nat (length new) < U64 ->
  push_new snap keep j new es = es ++ drop (N.to_nat (snap - (keep + j))) new.
Proof.
  revert j es. induction new as [|e new IH]; intros j es Hb; cbn [push_new length] in *.
  - by rewrite drop_nil, app_nil_r.
  - rewrite (u64_add_small keep 1), u64_add_small by lia. case_bool_decide.
    + rewrite IH by lia. f_equal.
      replace (N.to_nat (snap - (keep + j))) with (S (N.to_nat (snap - (keep + (j + 1))))) by lia.
      done.
    + rewrite IH by lia. rewrite <-app_assoc. cbn [app].
      replace (N.to_nat (snap - (keep + j))) with O by lia.
      replace (N.to_nat (snap - (keep + (j + 1)))) with O by lia. by rewrite !drop_0.
Qed.

Lemma truncate_and_append_eq keep new l :
  fits l -> keep + N.of_nat (length new) < U64 ->
  truncate_and_append_ok keep new l =
  (persist io_ok (with_entries
     (take (N.to_nat (keep - snapshot_last_index_ l)) (entries_ l) ++
      drop (N.to_nat (snapshot_last_index_ l - keep)) new) l)).2.
Proof.
  intros Hf Hk. pose proof Hf as [Hb _]. unfold truncate_and_append_ok, truncate_and_append.
  rewrite push_new_eq by lia. rewrite N.add_0_r. do 4 f_equal.
  assert ((if snapshot_last_index_ l <?? keep then keep -u snapshot_last_index_ l else 0)
          = keep - snapshot_last_index_ l) as ->.
  { case_bool_decide; [rewrite u64_sub_le by lia; done|lia]. }
  case_bool_decide; [done|]. rewrite take_ge; [done|]. unfold size in *. lia.
Qed.

Lemma compact_eq up_to trm data l :
  fits l -> snapshot_last_index_ l < up_to -> is_u64 up_to ->
  compact_ok up_to trm data l =
  (persist io_ok (Mk (file_ l)
     (drop (N.to_nat (up_to - snapshot_last_index_ l)) (entries_ l)) up_to trm data)).2.
Proof.
  intros Hf Hlt Hu. unfold compact_ok, compact. rewrite bool_decide_eq_false_2 by lia.
  rewrite u64_sub_le by (unfold is_u64 in *; lia). do 3 f_equal.
  case_bool_decide; [|done]. unfold size in *. rewrite !drop_ge by lia. done.
Qed.

Lemma truncate_and_append_wf keep new l :
  fits l -> keep + N.of_nat (length new) < U64 -> keep <= last_index l ->
  Forall entry_fits new -> wf (truncate_and_append_ok keep new l).
Proof.
  intros Hf Hk Hkl Hn. rewrite truncate_and_append_eq by done. apply wf_persist.
  rewrite last_index_eq in Hkl by done. pose proof Hf as (Hb & Ht & Hd & He).
  split_and!; [|done..|].
  - cbn. unfold size. cbn. rewrite length_app, length_take, length_drop. unfold size in *. lia.
  - cbn. apply Forall_app. split; [by apply Forall_take|by apply Forall_drop].
Qed.

Lemma append_wf trm cmd l :
  fits l -> last_index l + 1 < U64 -> is_u64 trm -> strlen cmd < U32 -> wf (append_ok trm cmd l).
Proof.
  intros Hf Hl Ht Hc. unfold append_ok, append. apply wf_persist.
  rewrite last_index_eq in Hl by done. pose proof Hf as (Hb & Ht' & Hd & He).
  split_and!; [|done..|].
  - unfold size in *. cbn in *. rewrite length_app. cbn. lia.
  - cbn. apply Forall_app. split; [done|]. by repeat constructor.
Qed.

Lemma compact_wf up_to trm data l :
  wf l -> is_u64 up_to -> is_u64 trm -> strlen data < U32 ->
  N.max up_to (last_index l) < U64 -> wf (compact_ok up_to trm data l).
Proof.
  intros [Hf Hfile] Hu Ht Hd Hm. destruct (decide (up_to <= snapshot_last_index_ l)).
  - unfold compact_ok, compact. by rewrite bool_decide_eq_true_2.
  - rewrite compact_eq by (done || lia). apply wf_persist.
    rewrite last_index_eq in Hm by done. pose proof Hf as (Hb & _ & _ & He).
    split_and!; [|done..|].
    + unfold size in *. cbn in *. rewrite length_drop. lia.
    + by apply Forall_drop.
Qed.

Lemma truncate_entry_at keep new l i :
  fits l -> keep + N.of_nat (length new) < U64 -> keep <= last_index l ->
  entry_at (truncate_and_append_ok keep new l) i =
    (if i <=?? snapshot_last_index_ l then None
     else if i <=?? keep then entry_at l i
     else new !! N.to_nat (i - keep - 1)).
Proof.
  intros Hf Hk Hkl. rewrite last_index_eq in Hkl by done.
  rewrite truncate_and_append_eq, persist_ok by done. cbn [snd].
  unfold entry_at. cbn [entries_ snapshot_last_index_ with_entries with_file].
  case_bool_decide; [done|]. unfold size in *. case_bool_decide as Hi.
  - rewrite lookup_app_l by (rewrite length_take; lia).
    rewrite lookup_take. rewrite decide_True by lia. done.
  - rewrite lookup_app_r by (rewrite length_take; lia).
    rewrite length_take, lookup_drop. f_equal. lia.
Qed.

Lemma truncate_snapshot keep new l :
  fits l -> keep + N.of_nat (length new) < U64 ->
  snapshot_last_index_ (truncate_and_append_ok keep new l) = snapshot_last_index_ l /\
  snapshot_last_term_ (truncate_and_append_ok keep new l) = snapshot_last_term_ l /\
  snapshot_data_ (truncate_and_append_ok keep new l) = snapshot_data_ l.
Proof. intros Hf Hk. by rewrite truncate_and_append_eq, persist_ok by done. Qed.

Lemma truncate_last_index keep new l :
  fits l -> keep + N.of_nat (length new) < U64 -> keep <= last_index l ->
  Forall entry_fits new ->
  last_index (truncate_and_append_ok keep new l) =
    N.max (snapshot_last_index_ l) (keep + N.of_nat (length new)).
Proof.
  intros Hf Hk Hkl Hn.
  rewrite last_index_eq by (by apply truncate_and_append_wf).
  rewrite last_index_eq in Hkl by done. pose proof Hf as (Hb & _).
  rewrite truncate_and_append_eq, persist_ok by done. cbn [snd].
  unfold size in *. cbn [entries_ snapshot_last_index_ with_entries with_file].
  rewrite length_app, length_take, length_drop. lia.
Qed.

(** [truncate_and_append] at an index the log covers keeps the abstract log
    up to [keep_count], continues it with the new entries, and leaves the
    snapshot alone; new entries that fall inside the snapshot are dropped. *)
Theorem truncate_and_append_spec (keep : N) (new : list PersistedEntry) (l : t) (i : N) :
  fits l -> keep + N.of_nat (length new) < U64 -> keep <= last_index l ->
  Forall entry_fits new ->
  let l' := truncate_and_append_ok keep new l in
  fits l' /\
  entry_at l' i =
    (if i <=?? snapshot_last_index l then None
     else if i <=?? keep then entry_at l i
     else new !! N.to_nat (i - keep - 1)) /\
  last_index l' = N.max (snapshot_last_index l) (keep + N.of_nat (length new)) /\
  snapshot_last_index l' = snapshot_last_index l /\
  snapshot_last_term l' = snapshot_last_term l /\ snapshot_data l' = snapshot_data l.
Proof.
  intros Hf Hk Hkl Hn l'. split_and!.
  - by apply truncate_and_append_wf.
  - by apply truncate_entry_at.
  - by apply truncate_last_index.
  - by apply truncate_snapshot.
  - by apply truncate_snapshot.
  - by apply truncate_snapshot.
Qed.

Lemma truncate_and_append_spec_witness :
  let l' := truncate_and_append_ok 5 [MkEntry 9 "x"; MkEntry 9 "y"] sample in
  fits l' /\
  entry_at l' 7 =
    (if 7 <=?? snapshot_last_index sample then None
     else if 7 <=?? 5 then entry_at sample 7
     else [MkEntry 9 "x"; MkEntry 9 "y"] !! N.to_nat (7 - 5 - 1)) /\
  last_index l' = N.max (snapshot_last_index sample) (5 + 2) /\
  snapshot_last_index l' = snapshot_last_index sample /\
  snapshot_last_term l' = snapshot_last_term sample /\ snapshot_data l' = snapshot_data sample.
Proof.
  apply (truncate_and_append_spec 5 [MkEntry 9 "x"; MkEntry 9 "y"] sample 7 sample_fits).
  - done.
  - by vm_compute.
  - by repeat constructor.
Defined.

Lemma append_spec trm cmd l i :
  fits l -> last_index l + 1 < U64 ->
  last_index (append_ok trm cmd l) = last_index l + 1 /\
  snapshot_last_index (append_ok trm cmd l) = snapshot_last_index l /\
  entry_at (append_ok trm cmd l) i =
    if i =?? last_index l + 1 then Some (MkEntry trm cmd) else entry_at l i.
Proof.
  intros Hf Hl. unfold append_ok, append. rewrite persist_ok. cbn [snd].
  rewrite (last_index_eq l) in * by done. split_and!.
  - unfold last_index, size. cbn. rewrite length_app. cbn. unfold size in *.
    rewrite u64_add_small by lia. lia.
  - done.
  - unfold entry_at, size in *. cbn.
    case_bool_decide as H1; case_bool_decide as H2; try lia; try done.
    + rewrite lookup_app_r by lia.
      replace (N.to_nat (i - 1 - snapshot_last_index_ l) - length (entries_ l))%nat with O by lia.
      done.
    + destruct (decide (i < snapshot_last_index_ l + N.of_nat (length (entries_ l)) + 1)).
      * by rewrite lookup_app_l by lia.
      * rewrite !lookup_ge_None_2; [done|lia|]. rewrite length_app. cbn. lia.
Qed.

Lemma compact_fields up_to trm data l :
  fits l -> is_u64 up_to -> snapshot_last_index_ l < up_to ->
  entries_ (compact_ok up_to trm data l) =
    drop (N.to_nat (up_to - snapshot_last_index_ l)) (entries_ l) /\
  snapshot_last_index_ (compact_ok up_to trm data l) = up_to /\
  snapshot_last_term_ (compact_ok up_to trm data l) = trm /\
  snapshot_data_ (compact_ok up_to trm data l) = data.
Proof. intros Hf Hu Hs. by rewrite compact_eq, persist_ok by done. Qed.

Lemma compact_fits up_to trm data l :
  fits l -> is_u64 up_to -> snapshot_last_index_ l < up_to -> is_u64 trm -> strlen data < U32 ->
  fits (compact_ok up_to trm data l).
Proof.
  intros Hf Hu Hs Ht Hd. destruct (compact_fields up_to trm data l Hf Hu Hs) as (E1 & E2 & E3 & E4).
  pose proof Hf as (Hb & _ & _ & He). unfold fits, size, is_u64 in *. rewrite E1, E2, E3, E4.
  split_and!; [|done..|by apply Forall_drop]. rewrite length_drop. lia.
Qed.

Lemma compact_entry_at up_to trm data l i :
  fits l -> is_u64 up_to -> snapshot_last_index_ l < up_to ->
  entry_at (compact_ok up_to trm data l) i = if i <=?? up_to then None else entry_at l i.
Proof.
  intros Hf Hu Hs. destruct (compact_fields up_to trm data l Hf Hu Hs) as (E1 & E2 & _).
  unfold entry_at. rewrite E1, E2. case_bool_decide; [done|].
  rewrite bool_decide_eq_false_2 by lia. rewrite lookup_drop. f_equal. lia.
Qed.

Lemma compact_last_index up_to trm data l :
  fits l -> is_u64 up_to -> snapshot_last_index_ l < up_to ->
  last_index (compact_ok up_to trm data l) = N.max up_to (last_index l).
Proof.
  intros Hf Hu Hs. destruct (compact_fields up_to trm data l Hf Hu Hs) as (E1 & E2 & _).
  rewrite (last_index_eq l) by done. unfold last_index, size in *. rewrite E1, E2.
  pose proof Hf as (Hb & _). unfold is_u64, size in *.
  rewrite u64_add_small; rewrite length_drop; lia.
Qed.

(** [compact] forgets the entries up to [up_to_index] and nothing else: every
    later absolute index keeps its entry, the last index does not move (or
    becomes [up_to_index] when a snapshot reaches past the log), and the
    snapshot metadata is the one given. *)
Theorem compact_spec (up_to trm : N) (data : string) (l : t) (i : N) :
  fits l -> is_u64 up_to -> snapshot_last_index l < up_to ->
  is_u64 trm -> strlen data < U32 ->
  let l' := compact_ok up_to trm data l in
  fits l' /\
  entry_at l' i = (if i <=?? up_to then None else entry_at l i) /\
  last_index l' = N.max up_to (last_index l) /\
  (up_to < i -> term_at l' i = term_at l i /\ command_at l' i = command_at l i) /\
  term_at l' up_to = trm /\ command_at l' up_to = "" /\ snapshot_data l' = data.
Proof.
  intros Hf Hu Hs Ht Hd l'. unfold snapshot_last_index in Hs.
  destruct (compact_fields up_to trm data l Hf Hu Hs) as (_ & E2 & E3 & E4).
  assert (fits l') as Hf' by by apply compact_fits.
  assert (forall j, entry_at l' j = if j <=?? up_to then None else entry_at l j) as Hat
    by (intros; by apply compact_entry_at).
  split_and!; [done|apply Hat|by apply compact_last_index|..].
  - intros Hi. rewrite !command_at_entry, !term_at_entry by (done || unfold l'; rewrite ?E2; lia).
    by rewrite Hat, bool_decide_eq_false_2 by lia.
  - rewrite <-E3. apply term_at_snapshot; [done|]. unfold l'. rewrite E2. lia.
  - by rewrite command_at_entry, Hat, bool_decide_eq_true_2.
  - done.
Qed.

Lemma compact_spec_witness :
  let l' := compact_ok 5 3 "snap2" sample in
  fits l' /\
  entry_at l' 6 = (if 6 <=?? 5 then None else entry_at sample 6) /\
  last_index l' = N.max 5 (last_index sample) /\
  (5 < 6 -> term_at l' 6 = term_at sample 6 /\ command_at l' 6 = command_at sample 6) /\
  term_at l' 5 = 3 /\ command_at l' 5 = "" /\ snapshot_data l' = "snap2".
Proof. by apply (compact_spec 5 3 "snap2" sample 6 sample_fits). Defined.

End RaftLog.
