(* ===== verification/RaftNode.v ===== *)
(** * A Raft node ([src/cluster/raft_node.hpp], [src/cluster/raft_service_impl.hpp])

    The commit rule, the three RPC handlers, and the leader's and candidate's
    side of every RPC, each cut at the points where the source releases
    [mutex_].  Persistence goes through [PersistentState] and [RaftLog] on the
    fault-free environment; the current time and the random draw of the
    election timeout are arguments. *)

From S2P Require Import Prelude Storage RaftState RaftLog.

(** ** RPC messages ([src/proto/raft.proto]) *)

Record LogEntry := MkLogEntry { le_term : N; le_index : N; le_command : string }.

Record RequestVoteRequest := MkRequestVote {
  rv_term : N;
  rv_candidate_id : Z;
  rv_last_log_index : N;
  rv_last_log_term : N;
}.

Record RequestVoteResponse := MkRequestVoteResponse {
  rvr_term : N;
  rvr_vote_granted : bool;
}.

Record AppendEntriesRequest := MkAppendEntries {
  ae_term : N;
  ae_leader_id : Z;
  ae_prev_log_index : N;
  ae_prev_log_term : N;
  ae_entries : list LogEntry;
  ae_leader_commit : N;
}.

Record AppendEntriesResponse := MkAppendEntriesResponse {
  aer_term : N;
  aer_success : bool;
}.

Record InstallSnapshotRequest := MkInstallSnapshot {
  is_term : N;
  is_leader_id : Z;
  is_last_included_index : N;
  is_last_included_term : N;
  is_data : string;
}.

Record InstallSnapshotResponse := MkInstallSnapshotResponse { isr_term : N }.

#[export] Instance LogEntry_eq_dec : EqDecision LogEntry.
Proof. solve_decision. Defined.

Inductive Role := Follower | Candidate | Leader.

#[export] Instance Role_eq_dec : EqDecision Role.
Proof. solve_decision. Defined.

Record RaftPeer := MkPeer { node_id : Z; host : string; port : Z }.

Definition address (p : RaftPeer) : string := host p +:+ ":" +:+ pretty (port p).

(** ** The commit rule *)

(** [std::sort(..., std::greater)] followed by an index; [None] stands for the
    out-of-range read when [match_values] is shorter than a majority. *)
Definition compute_new_commit_index (leader_last_index : N) (match_index : gmap Z N)
    (cluster_size : N) (current_commit_index current_term : N)
    (term_at : N -> N) : option N :=
  let match_values := leader_last_index :: (map_to_list match_index).*2 in
  let match_values := merge_sort N_ge match_values in
  let majority := cluster_size / 2 + 1 in
  candidate_n ← match_values !! N.to_nat (majority - 1);
  Some (if (current_commit_index <?? candidate_n) && (term_at candidate_n =?? current_term)
        then candidate_n else current_commit_index).

Module RaftNode.

Record t := Mk {
  node_id_ : Z;
  peers_ : list RaftPeer;
  state_ : PersistentState.t;
  log_ : RaftLog.t;
  role_ : Role;
  leader_id_ : Z;
  commit_index_ : N;
  last_applied_ : N;
  applied_commands_ : list string;
  next_index_ : gmap Z N;
  match_index_ : gmap Z N;
  election_deadline_ : Z;
  next_heartbeat_ : Z;
}.

Definition with_state (s : PersistentState.t) (n : t) : t :=
  Mk (node_id_ n) (peers_ n) s (log_ n) (role_ n) (leader_id_ n) (commit_index_ n)
     (last_applied_ n) (applied_commands_ n) (next_index_ n) (match_index_ n)
     (election_deadline_ n) (next_heartbeat_ n).

Definition with_log (l : RaftLog.t) (n : t) : t :=
  Mk (node_id_ n) (peers_ n) (state_ n) l (role_ n) (leader_id_ n) (commit_index_ n)
     (last_applied_ n) (applied_commands_ n) (next_index_ n) (match_index_ n)
     (election_deadline_ n) (next_heartbeat_ n).

Definition with_role (r : Role) (n : t) : t :=
  Mk (node_id_ n) (peers_ n) (state_ n) (log_ n) r (leader_id_ n) (commit_index_ n)
     (last_applied_ n) (applied_commands_ n) (next_index_ n) (match_index_ n)
     (election_deadline_ n) (next_heartbeat_ n).

Definition with_leader_id (i : Z) (n : t) : t :=
  Mk (node_id_ n) (peers_ n) (state_ n) (log_ n) (role_ n) i (commit_index_ n)
     (last_applied_ n) (applied_commands_ n) (next_index_ n) (match_index_ n)
     (election_deadline_ n) (next_heartbeat_ n).

Definition with_commit (c : N) (n : t) : t :=
  Mk (node_id_ n) (peers_ n) (state_ n) (log_ n) (role_ n) (leader_id_ n) c
     (last_applied_ n) (applied_commands_ n) (next_index_ n) (match_index_ n)
     (election_deadline_ n) (next_heartbeat_ n).

Definition with_applied (la : N) (cmds : list string) (n : t) : t :=
  Mk (node_id_ n) (peers_ n) (state_ n) (log_ n) (role_ n) (leader_id_ n) (commit_index_ n)
     la cmds (next_index_ n) (match_index_ n) (election_deadline_ n) (next_heartbeat_ n).

Definition with_indices (nx mt : gmap Z N) (n : t) : t :=
  Mk (node_id_ n) (peers_ n) (state_ n) (log_ n) (role_ n) (leader_id_ n) (commit_index_ n)
     (last_applied_ n) (applied_commands_ n) nx mt (election_deadline_ n) (next_heartbeat_ n).

Definition with_timers (ed hb : Z) (n : t) : t :=
  Mk (node_id_ n) (peers_ n) (state_ n) (log_ n) (role_ n) (leader_id_ n) (commit_index_ n)
     (last_applied_ n) (applied_commands_ n) (next_index_ n) (match_index_ n) ed hb.

Definition current_term (n : t) : N := PersistentState.current_term (state_ n).

Definition voted_for (n : t) : Z := PersistentState.voted_for (state_ n).

Definition ELECTION_TIMEOUT_MIN_MS : Z := 300.

Definition ELECTION_TIMEOUT_MAX_MS : Z := 600.

Definition HEARTBEAT_INTERVAL_MS : Z := 50.

(** The keys of [stubs_]: every peer but this node. *)
Definition stubs_ (n : t) : list Z :=
  remove_dups (filter (fun i => i <> node_id_ n) (node_id <$> peers_ n)).

(** [m[key]] of a [std::map]: absent keys read as 0. *)
Definition at_or_0 (m : gmap Z N) (k : Z) : N := default 0 (m !! k).

(** ** Helpers called with the lock held *)

Definition set_state (trm : N) (vote : Z) (n : t) : t :=
  with_state (PersistentState.set_ok trm vote (state_ n)) n.

Definition become_follower_locked (new_term : N) (n : t) : t :=
  with_role Follower (set_state new_term (-1) n).

Definition reset_election_deadline_locked (now draw : Z) (n : t) : t :=
  with_timers (now + draw) (next_heartbeat_ n) n.

Fixpoint apply_loop (fuel : nat) (n : t) : t :=
  match fuel with
  | O => n
  | S fuel' =>
    if last_applied_ n <?? commit_index_ n then
      let la := last_applied_ n +u 1 in
      let cmd := RaftLog.command_at (log_ n) la in
      let cmds := if cmd =?? "" then applied_commands_ n else applied_commands_ n ++ [cmd] in
      apply_loop fuel' (with_applied la cmds n)
    else n
  end.

Definition apply_committed_entries_locked (n : t) : t :=
  apply_loop (N.to_nat (commit_index_ n - last_applied_ n)) n.

Definition cluster_size (n : t) : N := N.of_nat (length (peers_ n)).

Definition advance_commit_index_locked (n : t) : t :=
  match compute_new_commit_index (RaftLog.last_index (log_ n)) (match_index_ n)
          (cluster_size n) (commit_index_ n) (current_term n)
          (RaftLog.term_at (log_ n)) with
  | Some new_commit =>
    if commit_index_ n <?? new_commit
    then apply_committed_entries_locked (with_commit new_commit n)
    else n
  | None => n
  end.

(** ** Construction, from the contents of the two files *)

Definition create (id : Z) (peers : list RaftPeer) (state_file log_file : option bytes)
    (now draw : Z) : t :=
  let st := (PersistentState.open_file io_ok state_file).2 in
  let lg := (RaftLog.open_file io_ok log_file).2 in
  reset_election_deadline_locked now draw
    (Mk id peers st lg Follower (-1) (RaftLog.snapshot_last_index lg)
        (RaftLog.snapshot_last_index lg) [] ∅ ∅ 0 0).

(** ** RPC handlers *)

Definition log_ok (req : RequestVoteRequest) (l : RaftLog.t) : bool :=
  (RaftLog.last_term l <?? rv_last_log_term req) ||
  ((rv_last_log_term req =?? RaftLog.last_term l) &&
   (RaftLog.last_index l <=?? rv_last_log_index req)).

Definition handle_request_vote (now draw : Z) (req : RequestVoteRequest) (n : t)
    : t * RequestVoteResponse :=
  let n := if current_term n <?? rv_term req then become_follower_locked (rv_term req) n else n in
  let resp_term := current_term n in
  if rv_term req <?? current_term n then (n, MkRequestVoteResponse resp_term false)
  else
    let can_vote := (voted_for n =?? (-1)%Z) || (voted_for n =?? rv_candidate_id req) in
    if can_vote && log_ok req (log_ n) then
      let n := set_state (current_term n) (rv_candidate_id req) n in
      (reset_election_deadline_locked now draw n, MkRequestVoteResponse resp_term true)
    else (n, MkRequestVoteResponse resp_term false).

Definition to_persisted (e : LogEntry) : PersistedEntry := MkEntry (le_term e) (le_command e).

(** The consistency check on [prev_log_index]. *)
Definition prev_ok (req : AppendEntriesRequest) (l : RaftLog.t) : bool :=
  if 0 <?? ae_prev_log_index req then
    if RaftLog.snapshot_last_index l <?? ae_prev_log_index req then
      RaftLog.has_real_entry_at l (ae_prev_log_index req) &&
      (RaftLog.term_at l (ae_prev_log_index req) =?? ae_prev_log_term req)
    else true
  else true.

Definition handle_append_entries (now draw : Z) (req : AppendEntriesRequest) (n : t)
    : t * AppendEntriesResponse :=
  let n := if current_term n <?? ae_term req then become_follower_locked (ae_term req) n else n in
  let resp_term := current_term n in
  if ae_term req <?? current_term n then (n, MkAppendEntriesResponse resp_term false)
  else
    let n := with_leader_id (ae_leader_id req) (with_role Follower n) in
    let n := reset_election_deadline_locked now draw n in
    if prev_ok req (log_ n) then
      let new_entries := to_persisted <$> ae_entries req in
      let n := match new_entries with
               | [] => n
               | _ => with_log (RaftLog.truncate_and_append_ok (ae_prev_log_index req)
                                  new_entries (log_ n)) n
               end in
      let n := if commit_index_ n <?? ae_leader_commit req then
                 apply_committed_entries_locked
                   (with_commit (N.min (ae_leader_commit req) (RaftLog.last_index (log_ n))) n)
               else n in
      (n, MkAppendEntriesResponse resp_term true)
    else (n, MkAppendEntriesResponse resp_term false).

Definition handle_install_snapshot (now draw : Z) (req : InstallSnapshotRequest) (n : t)
    : t * InstallSnapshotResponse :=
  let n := if current_term n <?? is_term req then become_follower_locked (is_term req) n else n in
  let resp := MkInstallSnapshotResponse (current_term n) in
  if is_term req <?? current_term n then (n, resp)
  else
    let n := with_leader_id (is_leader_id req) (with_role Follower n) in
    let n := reset_election_deadline_locked now draw n in
    if is_last_included_index req <=?? RaftLog.snapshot_last_index (log_ n) then (n, resp)
    else
      let old_snap := RaftLog.snapshot_last_index (log_ n) in
      let new_snap := is_last_included_index req in
      let trim_count := if old_snap <?? new_snap then new_snap -u old_snap else 0 in
      let trim_count :=
        if N.of_nat (length (applied_commands_ n)) <?? trim_count
        then N.of_nat (length (applied_commands_ n)) else trim_count in
      let cmds := drop (N.to_nat trim_count) (applied_commands_ n) in
      let la := if last_applied_ n <?? new_snap then new_snap else last_applied_ n in
      let n := with_applied la cmds n in
      let n := if commit_index_ n <?? new_snap then with_commit new_snap n else n in
      (with_log (RaftLog.compact_ok new_snap (is_last_included_term req) (is_data req) (log_ n)) n,
       resp).

(** ** Operations of the coordinator *)

Definition compact (up_to_index : N) (snapshot_data : string) (n : t) : t * bool :=
  if up_to_index <=?? RaftLog.snapshot_last_index (log_ n) then (n, false)
  else if last_applied_ n <?? up_to_index then (n, false)
  else
    let old_snap := RaftLog.snapshot_last_index (log_ n) in
    let trim_count := up_to_index -u old_snap in
    if N.of_nat (length (applied_commands_ n)) <?? trim_count then (n, false)
    else
      let n := with_applied (last_applied_ n)
                 (drop (N.to_nat trim_count) (applied_commands_ n)) n in
      (with_log (RaftLog.compact_ok up_to_index (RaftLog.term_at (log_ n) up_to_index)
                   snapshot_data (log_ n)) n, true).

Record Status := MkStatus {
  st_node_id : Z;
  st_role : string;
  st_term : N;
  st_leader_id : Z;
  st_log_length : N;
  st_commit_index : N;
  st_applied_commands : list string;
  st_snapshot_last_index : N;
  st_snapshot_data : string;
}.

Definition role_name (r : Role) : string :=
  match r with Leader => "leader" | Candidate => "candidate" | Follower => "follower" end.

Definition status (n : t) : Status :=
  MkStatus (node_id_ n) (role_name (role_ n)) (current_term n) (leader_id_ n)
    (RaftLog.last_index (log_ n)) (commit_index_ n) (applied_commands_ n)
    (RaftLog.snapshot_last_index (log_ n)) (RaftLog.snapshot_data (log_ n)).

(** The locked part of [propose]: [None] when this node is not the leader,
    otherwise the index and term the caller then waits for. *)
Definition propose_begin (cmd : string) (n : t) : t * option (N * N) :=
  match role_ n with
  | Leader =>
    let my_term := current_term n in
    let n := with_log (RaftLog.append_ok my_term cmd (log_ n)) n in
    let my_index := RaftLog.last_index (log_ n) in
    (advance_commit_index_locked n, Some (my_index, my_term))
  | _ => (n, None)
  end.

(** One look at the node in the wait loop of [propose]: [Some] ends it. *)
Definition propose_poll (my_index my_term : N) (n : t) : option bool :=
  if negb (role_ n =?? Leader) || negb (current_term n =?? my_term) then Some false
  else if my_index <=?? commit_index_ n then Some true
  else None.

(** ** The ticker *)

Inductive tick_action := TickNothing | TickElection | TickReplicate.

Definition tick (now : Z) (n : t) : t * tick_action :=
  if negb (role_ n =?? Leader) && bool_decide (election_deadline_ n <= now)%Z then (n, TickElection)
  else if (role_ n =?? Leader) && bool_decide (next_heartbeat_ n <= now)%Z then
    (with_timers (election_deadline_ n) (now + HEARTBEAT_INTERVAL_MS) n, TickReplicate)
  else (n, TickNothing).

(** ** Elections *)

Definition start_election_begin (now draw : Z) (n : t) : t * RequestVoteRequest :=
  let n := set_state (current_term n +u 1) (node_id_ n) n in
  let n := with_leader_id (-1) (with_role Candidate n) in
  let req := MkRequestVote (current_term n) (node_id_ n)
               (RaftLog.last_index (log_ n)) (RaftLog.last_term (log_ n)) in
  (reset_election_deadline_locked now draw n, req).

(** What one vote future does with the reply ([None]: the call failed). *)
Definition vote_reply (election_term : N) (reply : option RequestVoteResponse) (n : t) : t * bool :=
  match reply with
  | None => (n, false)
  | Some resp =>
    if election_term <?? rvr_term resp then
      (if current_term n <?? rvr_term resp then become_follower_locked (rvr_term resp) n else n,
       false)
    else (n, rvr_vote_granted resp)
  end.

(** [results]: the value of every future. *)
Definition start_election_finish (now : Z) (election_term : N) (results : list bool) (n : t) : t :=
  let votes := N.of_nat (S (length (filter (fun b => b = true) results))) in
  let majority := cluster_size n / 2 + 1 in
  if (role_ n =?? Candidate) && (current_term n =?? election_term) && (majority <=?? votes) then
    let n := with_leader_id (node_id_ n) (with_role Leader n) in
    let next := RaftLog.last_index (log_ n) +u 1 in
    let n := with_indices (list_to_map ((fun i => (i, next)) <$> stubs_ n))
                          (list_to_map ((fun i => (i, 0)) <$> stubs_ n)) n in
    with_timers (election_deadline_ n) now n
  else n.

(** ** Replication *)

(** The locked part of [replicate_to_followers]. *)
Definition replicate_begin (n : t) : option (N * gmap Z N) :=
  match role_ n with
  | Leader => Some (current_term n, next_index_ n)
  | _ => None
  end.

Definition is_leader_of (trm : N) (n : t) : bool :=
  (role_ n =?? Leader) && (current_term n =?? trm).

Inductive send_plan :=
| SendStop
| SendSnapshot (req : InstallSnapshotRequest)
| SendEntries.

(** First critical section of [send_append_entries_to_peer]. *)
Definition send_check (trm next_idx : N) (n : t) : send_plan :=
  let prev_log_index := next_idx -u 1 in
  if is_leader_of trm n then
    if prev_log_index <?? RaftLog.snapshot_last_index (log_ n) then
      SendSnapshot (MkInstallSnapshot trm (node_id_ n)
        (RaftLog.snapshot_last_index (log_ n)) (RaftLog.snapshot_last_term (log_ n))
        (RaftLog.snapshot_data (log_ n)))
    else SendEntries
  else SendStop.

(** [for (i = next_idx; i <= last_index; i++)]. *)
Definition index_range (first last : N) : list N :=
  (fun k => first + N.of_nat k) <$> seq 0 (N.to_nat (last + 1 - first)).

(** Second critical section: builds the request. *)
Definition send_build (trm next_idx : N) (n : t) : option AppendEntriesRequest :=
  let prev_log_index := next_idx -u 1 in
  if is_leader_of trm n then
    Some (MkAppendEntries trm (node_id_ n) prev_log_index
            (RaftLog.term_at (log_ n) prev_log_index)
            ((fun i => MkLogEntry (RaftLog.term_at (log_ n) i) i (RaftLog.command_at (log_ n) i))
               <$> index_range next_idx (RaftLog.last_index (log_ n)))
            (commit_index_ n))
  else None.

(** Third critical section: the reply. *)
Definition append_reply (trm : N) (peer : Z) (prev_log_index n_entries_sent : N)
    (resp : AppendEntriesResponse) (n : t) : t :=
  if current_term n <?? aer_term resp then become_follower_locked (aer_term resp) n
  else if is_leader_of trm n then
    if aer_success resp then
      let new_match := prev_log_index +u n_entries_sent in
      let mt := if at_or_0 (match_index_ n) peer <?? new_match
                then <[peer := new_match]> (match_index_ n)
                else <[peer := at_or_0 (match_index_ n) peer]> (match_index_ n) in
      advance_commit_index_locked
        (with_indices (<[peer := new_match +u 1]> (next_index_ n)) mt n)
    else
      let nx := at_or_0 (next_index_ n) peer in
      with_indices (<[peer := if 1 <?? nx then nx -u 1 else nx]> (next_index_ n)) (match_index_ n) n
  else n.

(** The reply to [InstallSnapshot]. *)
Definition install_reply (trm : N) (peer : Z) (snap_idx : N)
    (resp : InstallSnapshotResponse) (n : t) : t :=
  if current_term n <?? isr_term resp then become_follower_locked (isr_term resp) n
  else if is_leader_of trm n then
    let m := at_or_0 (match_index_ n) peer in
    if m <?? snap_idx then
      with_indices (<[peer := snap_idx +u 1]> (next_index_ n))
                   (<[peer := snap_idx]> (match_index_ n)) n
    else with_indices (next_index_ n) (<[peer := m]> (match_index_ n)) n
  else n.

End RaftNode.

(** ** Theorems about the commit rule *)

(** [n] is stored on at least [majority] of the nodes that [vals] describes,
    and no larger index is. *)
Definition majority_index (majority : N) (vals : list N) (n : N) : Prop :=
  majority <= N.of_nat (count_ge n vals) /\
  forall n', n < n' -> N.of_nat (count_ge n' vals) < majority.

(** C6: the commit rule.  With one match index per follower the read is in range,
    and the result is exactly the largest index stored on a majority when
    that index is newer than the current commit and was written in the
    leader's own term, and the current commit index otherwise. *)
Theorem compute_new_commit_index_spec (last : N) (mi : gmap Z N)
    (cluster commit term : N) (term_at : N -> N) :
  cluster / 2 < 1 + N.of_nat (size mi) ->
  exists n r,
    compute_new_commit_index last mi cluster commit term term_at = Some r /\
    majority_index (cluster / 2 + 1) (last :: (map_to_list mi).*2) n /\
    r = (if decide (commit < n /\ term_at n = term) then n else commit).
Proof.
  intros Hc. set (vals := last :: (map_to_list mi).*2).
  pose proof (N.le_0_l (cluster / 2)).
  pose proof (merge_sort_Permutation N_ge vals) as Hp.
  destruct (merge_sort N_ge vals !! N.to_nat (cluster / 2 + 1 - 1)) as [n|] eqn:Hn.
  - exists n. eexists. split_and!.
    + unfold compute_new_commit_index. fold vals. rewrite Hn. cbn. reflexivity.
    + destruct (sorted_count_ge _ _ _ (StronglySorted_merge_sort N_ge vals) Hn) as [H1 H2].
      rewrite (count_ge_perm _ _ _ Hp) in H1. split; [lia|]. intros n' Hn'.
      specialize (H2 n' Hn'). rewrite (count_ge_perm _ _ _ Hp) in H2. lia.
    + case_decide as Hd; repeat case_bool_decide; cbn [andb]; first [done | tauto].
  - exfalso. apply lookup_ge_None in Hn. apply Permutation_length in Hp.
    rewrite Hp in Hn. unfold vals in Hn. cbn [length] in Hn.
    rewrite length_fmap, length_map_to_list in Hn. lia.
Qed.

Definition fig8_match : gmap Z N :=
  list_to_map [(2%Z, 1); (3%Z, 1); (4%Z, 0); (5%Z, 0)].

(** The scenario of the source's Figure 8 test: an old-term entry on three of
    five nodes does not commit; the same entry does once the leader's own
    entry reaches a majority. *)
Lemma compute_new_commit_index_spec_witness :
  exists n r,
    compute_new_commit_index 2 fig8_match 5 0 4
      (fun i => if decide (i = 1) then 2 else 4) = Some r /\
    majority_index (5 / 2 + 1) (2 :: (map_to_list fig8_match).*2) n /\
    r = (if decide (0 < n /\ (if decide (n = 1) then 2 else 4) = 4) then n else 0).
Proof.
  apply (compute_new_commit_index_spec 2 fig8_match 5 0 4
           (fun i => if decide (i = 1) then 2 else 4)).
  vm_compute. done.
Defined.

Example figure_8_old_term_not_committed :
  compute_new_commit_index 2 fig8_match 5 0 4
    (fun i => if decide (i = 1) then 2 else 4) = Some 0.
Proof. vm_compute. reflexivity. Qed.

Example figure_8_current_term_committed :
  compute_new_commit_index 2 (list_to_map [(2%Z, 2); (3%Z, 2); (4%Z, 0); (5%Z, 0)]) 5 0 4
    (fun i => if decide (i = 1) then 2 else 4) = Some 2.
Proof. vm_compute. reflexivity. Qed.
