(* ===== verification/RaftNodeInv.v ===== *)
(** * Invariants of a single Raft node

    Every critical section of [RaftNode] is an [event]; [run] executes it.
    The file proves what holds of one node whatever the network delivers:
    memory and disk agree, terms never decrease, at most one vote per term,
    and, as long as no committed entry is overwritten, the alignment of
    [applied_commands_] with the log. *)

From S2P Require Import Prelude Storage RaftState RaftLog RaftNode.
Import RaftNode.

Inductive event :=
| EvRequestVote (now draw : Z) (req : RequestVoteRequest)
| EvAppendEntries (now draw : Z) (req : AppendEntriesRequest)
| EvInstallSnapshot (now draw : Z) (req : InstallSnapshotRequest)
| EvPropose (cmd : string)
| EvCompact (up_to_index : N) (snapshot_data : string)
| EvTick (now : Z)
| EvElectionBegin (now draw : Z)
| EvVoteReply (election_term : N) (reply : option RequestVoteResponse)
| EvElectionFinish (now : Z) (election_term : N) (results : list bool)
| EvAppendReply (trm : N) (peer : Z) (prev n_sent : N) (resp : AppendEntriesResponse)
| EvInstallReply (trm : N) (peer : Z) (snap_idx : N) (resp : InstallSnapshotResponse)
| EvRestart (now draw : Z).

Definition run (e : event) (n : t) : t :=
  match e with
  | EvRequestVote now draw req => (handle_request_vote now draw req n).1
  | EvAppendEntries now draw req => (handle_append_entries now draw req n).1
  | EvInstallSnapshot now draw req => (handle_install_snapshot now draw req n).1
  | EvPropose cmd => (propose_begin cmd n).1
  | EvCompact i data => (compact i data n).1
  | EvTick now => (tick now n).1
  | EvElectionBegin now draw => (start_election_begin now draw n).1
  | EvVoteReply et reply => (vote_reply et reply n).1
  | EvElectionFinish now et results => start_election_finish now et results n
  | EvAppendReply trm peer prev n_sent resp => append_reply trm peer prev n_sent resp n
  | EvInstallReply trm peer snap_idx resp => install_reply trm peer snap_idx resp n
  | EvRestart now draw =>
    create (node_id_ n) (peers_ n) (PersistentState.file_ (state_ n)) (RaftLog.file_ (log_ n))
           now draw
  end.

(** The values an event carries fit their C++ types, and the 64-bit term and
    index spaces are not exhausted. *)
Definition event_ok (e : event) (n : t) : Prop :=
  match e with
  | EvRequestVote _ _ req => is_u64 (rv_term req) /\ is_i32 (rv_candidate_id req)
  | EvAppendEntries _ _ req =>
    is_u64 (ae_term req) /\
    ae_prev_log_index req + N.of_nat (length (ae_entries req)) < U64 /\
    Forall RaftLog.entry_fits (to_persisted <$> ae_entries req)
  | EvInstallSnapshot _ _ req =>
    is_u64 (is_term req) /\ is_u64 (is_last_included_index req) /\
    is_u64 (is_last_included_term req) /\ strlen (is_data req) < U32
  | EvPropose cmd => RaftLog.last_index (log_ n) + 1 < U64 /\ strlen cmd < U32
  | EvCompact i data => is_u64 i /\ strlen data < U32
  | EvTick _ => True
  | EvElectionBegin _ _ => current_term n + 1 < U64
  | EvVoteReply _ reply => from_option (fun r => is_u64 (rvr_term r)) True reply
  | EvElectionFinish _ _ _ => True
  | EvAppendReply _ _ _ _ resp => is_u64 (aer_term resp)
  | EvInstallReply _ _ _ resp => is_u64 (isr_term resp)
  | EvRestart _ _ => True
  end.

(** Memory and disk agree and everything fits. *)
Definition wf (n : t) : Prop :=
  PersistentState.wf (state_ n) /\ RaftLog.wf (log_ n) /\ is_i32 (node_id_ n).

(** ** Frame lemmas: what the helpers leave alone *)

Lemma apply_loop_frame fuel n :
  node_id_ (apply_loop fuel n) = node_id_ n /\ peers_ (apply_loop fuel n) = peers_ n /\
  state_ (apply_loop fuel n) = state_ n /\ log_ (apply_loop fuel n) = log_ n /\
  role_ (apply_loop fuel n) = role_ n /\ commit_index_ (apply_loop fuel n) = commit_index_ n.
Proof.
  revert n. induction fuel as [|fuel IH]; intros n; cbn [apply_loop]; [done|].
  case_bool_decide; [|done].
  match goal with |- context [apply_loop fuel ?m] => exact (IH m) end.
Qed.

(** The fields that only elections and RPC handlers change. *)
Definition core (n : t) := (node_id_ n, peers_ n, state_ n, log_ n, role_ n).

Lemma core_apply n : core (apply_committed_entries_locked n) = core n.
Proof.
  unfold core. destruct (apply_loop_frame (N.to_nat (commit_index_ n - last_applied_ n)) n)
    as (E1 & E2 & E3 & E4 & E5 & _).
  unfold apply_committed_entries_locked. by rewrite E1, E2, E3, E4, E5.
Qed.

Lemma commit_apply n :
  commit_index_ (apply_committed_entries_locked n) = commit_index_ n.
Proof. apply apply_loop_frame. Qed.

Lemma core_advance n : core (advance_commit_index_locked n) = core n.
Proof.
  unfold advance_commit_index_locked. case_match; [|done]. case_bool_decide; [|done].
  by rewrite core_apply.
Qed.

(** Equal cores have equal fields. *)
Lemma core_eq n m :
  core n = core m ->
  node_id_ n = node_id_ m /\ peers_ n = peers_ m /\ state_ n = state_ m /\
  log_ n = log_ m /\ role_ n = role_ m.
Proof. unfold core. by intros [= -> -> -> -> ->]. Qed.

Lemma wf_core n m : core n = core m -> wf n -> wf m.
Proof. intros (E1 & _ & E2 & E3 & _)%core_eq. unfold wf. by rewrite E1, E2, E3. Qed.

Lemma step_down_state trm n :
  state_ (become_follower_locked trm n) = PersistentState.set_ok trm (-1) (state_ n).
Proof. done. Qed.

(** The first line of every handler: adopt a larger term. *)
Definition adopt (trm : N) (n : t) : t :=
  if current_term n <?? trm then become_follower_locked trm n else n.

Lemma adopt_frame trm n :
  node_id_ (adopt trm n) = node_id_ n /\ peers_ (adopt trm n) = peers_ n /\
  log_ (adopt trm n) = log_ n /\ commit_index_ (adopt trm n) = commit_index_ n /\
  last_applied_ (adopt trm n) = last_applied_ n /\
  applied_commands_ (adopt trm n) = applied_commands_ n /\
  current_term (adopt trm n) = N.max trm (current_term n).
Proof.
  unfold adopt. case_bool_decide as H; [|split_and!; [done..|lia]].
  split_and!; [done..|]. unfold current_term, PersistentState.current_term in *. cbn. lia.
Qed.

Lemma become_follower_wf trm n : is_u64 trm -> wf n -> wf (become_follower_locked trm n).
Proof.
  intros Ht (Hs & Hl & Hi). split_and!; [|done..].
  rewrite step_down_state. by apply PersistentState.set_ok_wf.
Qed.

Lemma adopt_wf trm n : is_u64 trm -> wf n -> wf (adopt trm n).
Proof.
  intros Ht Hw. unfold adopt. case_bool_decide; [|done]. by apply become_follower_wf.
Qed.

Lemma prev_ok_le req l :
  RaftLog.fits l -> prev_ok req l = true -> ae_prev_log_index req <= RaftLog.last_index l.
Proof.
  intros Hf. unfold prev_ok, RaftLog.snapshot_last_index. rewrite RaftLog.last_index_eq by done.
  case_bool_decide; [|lia]. case_bool_decide; [|lia].
  rewrite andb_true_iff. unfold RaftLog.has_real_entry_at. rewrite andb_bool_decide.
  rewrite RaftLog.last_index_eq by done. intros [[??] _]. lia.
Qed.

(** ** Well-formedness is preserved *)

Lemma set_state_wf trm vote n : is_u64 trm -> is_i32 vote -> wf n -> wf (set_state trm vote n).
Proof. intros ?? (_ & Hl & Hi). split_and!; [|done..]. by apply PersistentState.set_ok_wf. Qed.

Lemma with_log_wf l n : RaftLog.wf l -> wf n -> wf (with_log l n).
Proof. intros Hl (Hs & _ & Hi). by split_and!. Qed.

Lemma wf_term n : wf n -> is_u64 (current_term n).
Proof. intros ((_ & H & _) & _). done. Qed.

Lemma handle_request_vote_wf now draw req n :
  is_u64 (rv_term req) -> is_i32 (rv_candidate_id req) -> wf n ->
  wf (handle_request_vote now draw req n).1.
Proof.
  intros Ht Hc Hw. apply (adopt_wf (rv_term req)) in Hw; [|done].
  unfold handle_request_vote. fold (adopt (rv_term req) n).
  case_bool_decide; [done|]. case_match; [|done]. cbn [fst].
  apply set_state_wf; [by apply wf_term|done..].
Qed.

Lemma handle_append_entries_wf now draw req n :
  event_ok (EvAppendEntries now draw req) n -> wf n ->
  wf (handle_append_entries now draw req n).1.
Proof.
  intros (Ht & Hb & He) Hw. apply (adopt_wf (ae_term req)) in Hw; [|done].
  unfold handle_append_entries. fold (adopt (ae_term req) n).
  case_bool_decide; [done|]. set (m := reset_election_deadline_locked _ _ _).
  assert (wf m) as Hm by done. clearbody m. destruct (prev_ok req (log_ m)) eqn:Hp; [|done].
  cbn [fst]. set (m2 := match _ with [] => m | _ => _ end).
  assert (wf m2) as Hm2.
  { unfold m2. destruct (to_persisted <$> ae_entries req) as [|e es] eqn:E; [done|].
    rewrite <-E. pose proof Hm as (_ & [Hf _] & _). apply with_log_wf; [|done].
    apply RaftLog.truncate_and_append_wf; [done| |by apply prev_ok_le|by rewrite E].
    by rewrite length_fmap. }
  case_bool_decide; [|done].
  by eapply wf_core; [symmetry; apply core_apply|].
Qed.

Lemma handle_install_snapshot_wf now draw req n :
  event_ok (EvInstallSnapshot now draw req) n -> wf n ->
  wf (handle_install_snapshot now draw req n).1.
Proof.
  intros (Ht & Hi & Hit & Hd) Hw. apply (adopt_wf (is_term req)) in Hw; [|done].
  unfold handle_install_snapshot. fold (adopt (is_term req) n).
  case_bool_decide; [done|]. set (m := reset_election_deadline_locked _ _ _).
  assert (wf m) as Hm by done. clearbody m. case_bool_decide; [done|]. cbv zeta. cbn [fst].
  set (m2 := if bool_decide (commit_index_ _ < _) then _ else _).
  assert (wf m2) as Hm2 by (unfold m2; by case_bool_decide). clearbody m2.
  pose proof Hm2 as (_ & Hl & _). apply with_log_wf; [|done].
  apply RaftLog.compact_wf; [done..|]. pose proof Hl as [[Hb _] _].
  rewrite RaftLog.last_index_eq by apply Hl. unfold is_u64 in *. lia.
Qed.

Lemma node_compact_wf i data n :
  is_u64 i -> strlen data < U32 -> wf n -> wf (compact i data n).1.
Proof.
  intros Hi Hd Hw. unfold compact. do 3 (case_bool_decide; [done|]). cbn [fst].
  pose proof Hw as (_ & Hl & _). apply with_log_wf; [|done].
  apply RaftLog.compact_wf; [done..|by apply RaftLog.term_at_u64; apply Hl|done|].
  cbn. pose proof Hl as [[Hb _] _]. rewrite RaftLog.last_index_eq by apply Hl.
  unfold is_u64 in *. lia.
Qed.

Lemma propose_begin_wf cmd n :
  RaftLog.last_index (log_ n) + 1 < U64 -> strlen cmd < U32 -> wf n ->
  wf (propose_begin cmd n).1.
Proof.
  intros Hb Hc Hw. unfold propose_begin. destruct (role_ n); [done..|]. cbn [fst].
  eapply wf_core; [symmetry; apply core_advance|]. apply with_log_wf; [|done].
  pose proof Hw as (_ & [Hf _] & _). apply RaftLog.append_wf; [done..| |done].
  by apply wf_term.
Qed.

Lemma create_wf id peers now draw n :
  wf n -> is_i32 id ->
  let m := create id peers (PersistentState.file_ (state_ n)) (RaftLog.file_ (log_ n)) now draw in
  wf m /\ state_ m = state_ n /\ log_ m = log_ n.
Proof.
  intros ((Hsf & Ht & Hv) & [Hf Hlf] & _) Hi. unfold create. rewrite Hsf, Hlf.
  rewrite PersistentState.open_file_buf by done.
  destruct (RaftLog.reopen_fits io_ok (log_ n) Hf) as [_ ->]. cbn [snd].
  assert (PersistentState.Mk (Some (PersistentState.buf (PersistentState.current_term_ (state_ n))
            (PersistentState.voted_for_ (state_ n)))) (PersistentState.current_term_ (state_ n))
            (PersistentState.voted_for_ (state_ n)) = state_ n) as ->
    by (rewrite <-Hsf; by destruct (state_ n)).
  assert (RaftLog.with_file (Some (RaftLog.encode (log_ n))) (log_ n) = log_ n) as ->
    by (rewrite <-Hlf; by destruct (log_ n)).
  by split_and!.
Qed.

Lemma step_down_if_wf trm n :
  is_u64 trm -> wf n -> wf (if current_term n <?? trm then become_follower_locked trm n else n).
Proof. apply adopt_wf. Qed.

Lemma append_reply_wf trm peer prev sent resp n :
  is_u64 (aer_term resp) -> wf n -> wf (append_reply trm peer prev sent resp n).
Proof.
  intros Ht Hw. unfold append_reply. case_bool_decide.
  { by apply become_follower_wf. }
  case_match; [|done]. case_match; [|done].
  by eapply wf_core; [symmetry; apply core_advance|].
Qed.

Lemma run_wf_event e n : event_ok e n -> wf n -> wf (run e n).
Proof.
  intros He Hw. destruct e; cbn [run event_ok] in *.
  - destruct He. by apply handle_request_vote_wf.
  - by apply handle_append_entries_wf.
  - by apply handle_install_snapshot_wf.
  - destruct He. by apply propose_begin_wf.
  - destruct He. by apply node_compact_wf.
  - unfold tick. case_match; [done|]. by case_match.
  - unfold start_election_begin. apply set_state_wf; [|apply Hw|done].
    rewrite u64_add_small by done. done.
  - unfold vote_reply. destruct reply as [resp|]; [|done]. case_bool_decide; [|done].
    by apply step_down_if_wf.
  - unfold start_election_finish. by case_match.
  - by apply append_reply_wf.
  - unfold install_reply. case_bool_decide; [by apply become_follower_wf|].
    case_match; [|done]. by case_bool_decide.
  - apply create_wf; [done|]. apply Hw.
Qed.

Definition three_peers : list RaftPeer :=
  [MkPeer 1 "127.0.0.1" 7001; MkPeer 2 "127.0.0.1" 7002; MkPeer 3 "127.0.0.1" 7003].

Definition fresh_node (id : Z) : t := create id three_peers None None 0 300.

Lemma fresh_node_wf id : is_i32 id -> wf (fresh_node id).
Proof.
  intros Hi. split_and!; [done| |done]. unfold fresh_node, create. cbn [log_].
  unfold reset_election_deadline_locked. cbn [log_ with_timers].
  unfold RaftLog.open_file. apply RaftLog.wf_persist. split_and!; [done..|]. constructor.
Qed.

(** C13: every critical section keeps memory and disk in agreement: after any
    event the state file and the log file hold exactly the in-memory term,
    vote, entries and snapshot, so a crash between two events loses nothing. *)
Theorem run_wf (e : event) (n : t) : event_ok e n -> wf n -> wf (run e n).
Proof. apply run_wf_event. Qed.

Lemma run_wf_witness :
  wf (run (EvRequestVote 0 300 (MkRequestVote 5 2 0 0)) (fresh_node 1)).
Proof. apply (run_wf (EvRequestVote 0 300 (MkRequestVote 5 2 0 0))); [done|by apply fresh_node_wf]. Defined.

(** ** Terms and votes *)


Fixpoint run_all (es : list event) (n : t) : t :=
  match es with
  | [] => n
  | e :: es => run_all es (run e n)
  end.

Fixpoint all_ok (es : list event) (n : t) : Prop :=
  match es with
  | [] => True
  | e :: es => event_ok e n /\ all_ok es (run e n)
  end.

(** The part of [event_ok] that concerns terms and votes. *)
Definition terms_ok (e : event) (n : t) : Prop :=
  match e with
  | EvRequestVote _ _ req => is_u64 (rv_term req) /\ is_i32 (rv_candidate_id req)
  | EvAppendEntries _ _ req => is_u64 (ae_term req)
  | EvInstallSnapshot _ _ req => is_u64 (is_term req)
  | EvElectionBegin _ _ => current_term n + 1 < U64
  | EvVoteReply _ reply => from_option (fun r => is_u64 (rvr_term r)) True reply
  | EvAppendReply _ _ _ _ resp => is_u64 (aer_term resp)
  | EvInstallReply _ _ _ resp => is_u64 (isr_term resp)
  | _ => True
  end.

Lemma event_ok_terms e n : event_ok e n -> terms_ok e n.
Proof. destruct e; cbn; tauto. Qed.

(** The state file agrees with memory; nothing is said of the log. *)
Definition state_wf (n : t) : Prop := PersistentState.wf (state_ n) /\ is_i32 (node_id_ n).

(** From [n] to [m] the term did not decrease, and within one term a vote
    that was cast did not change. *)
Definition vote_le (n m : t) : Prop :=
  current_term n < current_term m \/
  (current_term n = current_term m /\ (voted_for n = (-1)%Z \/ voted_for m = voted_for n)).

#[export] Instance vote_le_refl : Reflexive vote_le.
Proof. intros n. right. by split; [|right]. Qed.

#[export] Instance vote_le_trans : Transitive vote_le.
Proof.
  intros a b c [H1|[E1 V1]] [H2|[E2 V2]]; unfold vote_le; [left; lia..|].
  right. split; [lia|]. destruct V1 as [?|<-]; [by left|done].
Qed.

Lemma vote_le_state n m : state_ n = state_ m -> vote_le n m.
Proof. intros E. right. unfold current_term, voted_for. rewrite E. by split; [|right]. Qed.

Lemma vote_le_core n m : core n = core m -> vote_le n m.
Proof. intros (_ & _ & E & _)%core_eq. by apply vote_le_state. Qed.

Lemma vote_le_adopt trm n : vote_le n (adopt trm n).
Proof.
  unfold adopt. case_bool_decide as H; [|done]. left.
  unfold current_term, PersistentState.current_term in *. done.
Qed.

Lemma vote_le_grant n c :
  voted_for n = (-1)%Z \/ voted_for n = c -> vote_le n (set_state (current_term n) c n).
Proof. intros Hc. right. split; [done|]. destruct Hc as [?|<-]; [by left|by right]. Qed.

Lemma vote_le_become_follower trm n :
  current_term n < trm -> vote_le n (become_follower_locked trm n).
Proof. by left. Qed.

Lemma handle_request_vote_le now draw req n :
  vote_le n (handle_request_vote now draw req n).1.
Proof.
  unfold handle_request_vote. fold (adopt (rv_term req) n).
  trans (adopt (rv_term req) n); [apply vote_le_adopt|].
  case_bool_decide; [done|]. destruct (_ && _) eqn:E; [|done]. cbn [fst].
  apply andb_true_iff in E as [E _]. apply orb_true_iff in E.
  rewrite !bool_decide_eq_true in E.
  etrans; [by apply vote_le_grant|]. by apply vote_le_state.
Qed.

Lemma handle_append_entries_le now draw req n :
  vote_le n (handle_append_entries now draw req n).1.
Proof.
  unfold handle_append_entries. fold (adopt (ae_term req) n).
  trans (adopt (ae_term req) n); [apply vote_le_adopt|].
  case_bool_decide; [done|]. case_match; [|by apply vote_le_state]. cbn [fst].
  apply vote_le_state.
  case_bool_decide; [|by case_match].
  match goal with |- _ = state_ (apply_committed_entries_locked ?m) =>
    destruct (core_eq _ _ (core_apply m)) as (_ & _ & -> & _) end.
  by case_match.
Qed.

Lemma handle_install_snapshot_le now draw req n :
  vote_le n (handle_install_snapshot now draw req n).1.
Proof.
  unfold handle_install_snapshot. fold (adopt (is_term req) n).
  trans (adopt (is_term req) n); [apply vote_le_adopt|].
  case_bool_decide; [done|]. case_bool_decide; [by apply vote_le_state|]. cbv zeta. cbn [fst].
  apply vote_le_state. by case_bool_decide.
Qed.

Lemma create_state id peers lf now draw n :
  PersistentState.wf (state_ n) ->
  state_ (create id peers (PersistentState.file_ (state_ n)) lf now draw) = state_ n.
Proof.
  intros (Hsf & Ht & Hv). unfold create. rewrite Hsf, PersistentState.open_file_buf by done.
  unfold reset_election_deadline_locked. cbn [snd state_ with_timers]. rewrite <-Hsf.
  by destruct (state_ n).
Qed.

Lemma run_vote_le e n : terms_ok e n -> state_wf n -> vote_le n (run e n).
Proof.
  intros He Hw. destruct e; cbn [run terms_ok] in *.
  - apply handle_request_vote_le.
  - apply handle_append_entries_le.
  - apply handle_install_snapshot_le.
  - unfold propose_begin. destruct (role_ n); [done..|]. cbn [fst].
    etrans; [|apply vote_le_core; symmetry; apply core_advance]. by apply vote_le_state.
  - unfold compact. do 3 (case_bool_decide; [done|]). by apply vote_le_state.
  - unfold tick. case_match; [done|]. case_match; [|done]. by apply vote_le_state.
  - left. unfold start_election_begin.
    change (current_term n < current_term n +u 1). rewrite u64_add_small by done. lia.
  - unfold vote_reply. destruct reply as [resp|]; [|done]. case_bool_decide; [|done].
    apply (vote_le_adopt (rvr_term resp)).
  - unfold start_election_finish. case_match; [|done]. by apply vote_le_state.
  - unfold append_reply. case_bool_decide; [by apply vote_le_become_follower|].
    case_match; [|done]. case_match; [|by apply vote_le_state].
    etrans; [|apply vote_le_core; symmetry; apply core_advance]. by apply vote_le_state.
  - unfold install_reply. case_bool_decide; [by apply vote_le_become_follower|].
    case_match; [|done]. case_bool_decide; by apply vote_le_state.
  - apply vote_le_state. symmetry. apply create_state. apply Hw.
Qed.

(** ** Frames of whole events *)

(** [m] is the same server as [n], and leads only if [n] led the same term. *)
Definition keeps (n m : t) : Prop :=
  node_id_ m = node_id_ n /\ peers_ m = peers_ n /\
  (role_ m = Leader -> role_ n = Leader /\ current_term m = current_term n).

#[export] Instance keeps_refl : Reflexive keeps.
Proof. by intros n. Qed.

#[export] Instance keeps_trans : Transitive keeps.
Proof.
  intros a b c (E1 & E2 & E3) (F1 & F2 & F3). split_and!; [congruence..|].
  intros Hl. destruct (F3 Hl) as [Hb ->]. auto.
Qed.

Lemma keeps_core n m : core n = core m -> keeps n m.
Proof.
  intros (E1 & E2 & E3 & _ & E5)%core_eq. unfold keeps, current_term.
  rewrite E1, E2, E3, E5. done.
Qed.

Lemma keeps_adopt trm n : keeps n (adopt trm n).
Proof. unfold adopt. by case_bool_decide. Qed.

Lemma handle_append_entries_keeps now draw req n :
  keeps n (handle_append_entries now draw req n).1.
Proof.
  unfold handle_append_entries. fold (adopt (ae_term req) n).
  trans (adopt (ae_term req) n); [apply keeps_adopt|].
  case_bool_decide; [done|]. case_match; [|done]. cbn [fst].
  case_bool_decide; [|by case_match].
  etrans; [|apply keeps_core; symmetry; apply core_apply]. by case_match.
Qed.

Lemma handle_install_snapshot_keeps now draw req n :
  keeps n (handle_install_snapshot now draw req n).1.
Proof.
  unfold handle_install_snapshot. fold (adopt (is_term req) n).
  trans (adopt (is_term req) n); [apply keeps_adopt|].
  case_bool_decide; [done|]. case_bool_decide; [done|]. cbv zeta. cbn [fst].
  by case_bool_decide.
Qed.

Lemma run_keeps e n :
  (forall now et results, e <> EvElectionFinish now et results) -> keeps n (run e n).
Proof.
  intros He. destruct e; cbn [run].
  - unfold handle_request_vote. fold (adopt (rv_term req) n).
    trans (adopt (rv_term req) n); [apply keeps_adopt|]. case_bool_decide; [done|]. by case_match.
  - apply handle_append_entries_keeps.
  - apply handle_install_snapshot_keeps.
  - unfold propose_begin. destruct (role_ n) eqn:E; [done..|]. cbn [fst].
    etrans; [|apply keeps_core; symmetry; apply core_advance]. done.
  - unfold compact. by do 3 (case_bool_decide; [done|]).
  - unfold tick. case_match; [done|]. by case_match.
  - done.
  - unfold vote_reply. destruct reply as [resp|]; [|done]. case_bool_decide; [|done].
    apply (keeps_adopt (rvr_term resp)).
  - by edestruct He.
  - unfold append_reply. case_bool_decide; [done|]. case_match; [|done]. case_match; [|done].
    etrans; [|apply keeps_core; symmetry; apply core_advance]. done.
  - unfold install_reply. case_bool_decide; [done|]. case_match; [|done]. by case_bool_decide.
  - done.
Qed.

Lemma run_ids e n : node_id_ (run e n) = node_id_ n /\ peers_ (run e n) = peers_ n.
Proof.
  destruct e; try (edestruct run_keeps as (?&?&_); [|by split]; done).
  cbn [run]. unfold start_election_finish. by case_match.
Qed.

Lemma state_wf_eq n m :
  state_ m = state_ n -> node_id_ m = node_id_ n -> state_wf n -> state_wf m.
Proof. unfold state_wf. by intros -> ->. Qed.

Lemma state_wf_core n m : core n = core m -> state_wf n -> state_wf m.
Proof. intros (E1 & _ & E2 & _)%core_eq. by apply state_wf_eq. Qed.

Lemma state_wf_set trm vote n :
  is_u64 trm -> is_i32 vote -> state_wf n -> state_wf (set_state trm vote n).
Proof. intros ?? [_ Hi]. split; [by apply PersistentState.set_ok_wf|done]. Qed.

Lemma state_wf_step_down trm n :
  is_u64 trm -> state_wf n -> state_wf (become_follower_locked trm n).
Proof. intros ? [_ Hi]. split; [by apply PersistentState.set_ok_wf|done]. Qed.

Lemma state_wf_adopt trm n : is_u64 trm -> state_wf n -> state_wf (adopt trm n).
Proof. intros. unfold adopt. case_bool_decide; [by apply state_wf_step_down|done]. Qed.

Lemma state_wf_term n : state_wf n -> is_u64 (current_term n).
Proof. intros [(_ & H & _) _]. done. Qed.

Lemma handle_append_entries_state_wf now draw req n :
  is_u64 (ae_term req) -> state_wf n -> state_wf (handle_append_entries now draw req n).1.
Proof.
  intros Ht Hw. apply (state_wf_adopt (ae_term req)) in Hw; [|done].
  unfold handle_append_entries. fold (adopt (ae_term req) n).
  case_bool_decide; [done|]. case_match; [|done]. cbn [fst].
  case_bool_decide; [|by case_match].
  eapply state_wf_core; [symmetry; apply core_apply|]. by case_match.
Qed.

Lemma run_state_wf e n : terms_ok e n -> state_wf n -> state_wf (run e n).
Proof.
  intros He Hw. destruct e; cbn [run terms_ok] in *.
  - destruct He. apply (state_wf_adopt (rv_term req)) in Hw; [|done].
    unfold handle_request_vote. fold (adopt (rv_term req) n). case_bool_decide; [done|].
    case_match; [|done]. apply state_wf_set; [by apply state_wf_term|done..].
  - by apply handle_append_entries_state_wf.
  - apply (state_wf_adopt (is_term req)) in Hw; [|done].
    unfold handle_install_snapshot. fold (adopt (is_term req) n).
    do 2 (case_bool_decide; [done|]). cbv zeta. cbn [fst]. by case_bool_decide.
  - unfold propose_begin. destruct (role_ n); [done..|]. cbn [fst].
    by eapply state_wf_core; [symmetry; apply core_advance|].
  - unfold compact. by do 3 (case_bool_decide; [done|]).
  - unfold tick. case_match; [done|]. by case_match.
  - unfold start_election_begin. apply state_wf_set; [|apply Hw|done].
    by rewrite u64_add_small.
  - unfold vote_reply. destruct reply as [resp|]; [|done]. case_bool_decide; [|done].
    by apply (state_wf_adopt (rvr_term resp)).
  - unfold start_election_finish. by case_match.
  - unfold append_reply. case_bool_decide; [by apply state_wf_step_down|].
    case_match; [|done]. case_match; [|done].
    by eapply state_wf_core; [symmetry; apply core_advance|].
  - unfold install_reply. case_bool_decide; [by apply state_wf_step_down|].
    case_match; [|done]. by case_bool_decide.
  - apply (state_wf_eq n); [apply create_state; apply Hw|done..].
Qed.

Lemma run_all_vote_le es n :
  wf n -> all_ok es n -> wf (run_all es n) /\ vote_le n (run_all es n).
Proof.
  revert n. induction es as [|e es IH]; intros n Hw He; [done|].
  destruct He as [He Hes]. destruct (IH (run e n)) as [Hw' Hle]; [by apply run_wf_event|done|].
  split; [done|]. etrans; [|done]. apply run_vote_le; [by apply event_ok_terms|].
  split; apply Hw.
Qed.

(** one vote per term.  Through any sequence of RPCs, elections, replies and
    crash-restarts the term never decreases, and a node that has voted in a
    term still has that vote whenever it is in that term again. *)
Theorem one_vote_per_term (n : t) (es : list event) :
  wf n -> all_ok es n ->
  current_term n <= current_term (run_all es n) /\
  (current_term (run_all es n) = current_term n -> voted_for n <> (-1)%Z ->
   voted_for (run_all es n) = voted_for n).
Proof.
  intros Hw He. destruct (run_all_vote_le es n Hw He) as [_ [H|[E V]]].
  - split; lia.
  - split; [lia|]. intros _ Hv. by destruct V.
Qed.

Lemma one_vote_per_term_witness :
  let n := (handle_request_vote 0 300 (MkRequestVote 5 2 0 0) (fresh_node 1)).1 in
  let es := [EvRequestVote 10 300 (MkRequestVote 5 3 9 9); EvRestart 20 300;
             EvRequestVote 30 300 (MkRequestVote 5 3 9 9)] in
  current_term n <= current_term (run_all es n) /\
  (current_term (run_all es n) = current_term n -> voted_for n <> (-1)%Z ->
   voted_for (run_all es n) = voted_for n).
Proof.
  intros n es. apply (one_vote_per_term n es).
  - apply handle_request_vote_wf; [done..|]. by apply fresh_node_wf.
  - by vm_compute.
Defined.
