(* ===== verification/RaftReplication.v ===== *)
(** * Log replication between a leader and one follower

    What [send_append_entries_to_peer] puts on the wire and what
    [handle_append_entries] makes of it. *)

From S2P Require Import Prelude Storage RaftState RaftLog RaftNode RaftNodeInv RaftApply.
Import RaftNode.

(** The follower's state just before the consistency check. *)
Definition received (now draw : Z) (req : AppendEntriesRequest) (n : t) : t :=
  reset_election_deadline_locked now draw
    (with_leader_id (ae_leader_id req) (with_role Follower (adopt (ae_term req) n))).

(** The log a successful [handle_append_entries] leaves behind. *)
Lemma append_success_log now draw req n :
  (handle_append_entries now draw req n).2 = MkAppendEntriesResponse (ae_term req) true ->
  prev_ok req (log_ n) = true /\ current_term n <= ae_term req /\
  log_ (handle_append_entries now draw req n).1 =
    match ae_entries req with
    | [] => log_ n
    | _ => RaftLog.truncate_and_append_ok (ae_prev_log_index req)
             (to_persisted <$> ae_entries req) (log_ n)
    end.
Proof.
  unfold handle_append_entries. fold (adopt (ae_term req) n).
  destruct (adopt_frame (ae_term req) n) as (_ & _ & El & _ & _ & _ & Et).
  case_bool_decide as Hlt; [done|]. fold (received now draw req n).
  change (log_ (received now draw req n)) with (log_ (adopt (ae_term req) n)). rewrite El.
  destruct (prev_ok req (log_ n)); [|done]. intros _. split_and!; [done|lia|]. cbn [fst].
  case_bool_decide; destruct (ae_entries req); cbn [fmap list_fmap];
    match goal with
    | |- log_ (apply_committed_entries_locked ?m) = _ =>
      destruct (core_eq _ _ (core_apply m)) as (_ & _ & _ & -> & _)
    | _ => idtac
    end; done.
Qed.

Lemma append_accept now draw req n :
  current_term n <= ae_term req -> prev_ok req (log_ n) = true ->
  (handle_append_entries now draw req n).2 = MkAppendEntriesResponse (ae_term req) true.
Proof.
  intros Ht Hp. unfold handle_append_entries. fold (adopt (ae_term req) n).
  destruct (adopt_frame (ae_term req) n) as (_ & _ & El & _ & _ & _ & Et).
  rewrite bool_decide_eq_false_2 by lia. fold (received now draw req n).
  change (log_ (received now draw req n)) with (log_ (adopt (ae_term req) n)). rewrite El, Hp.
  cbn. f_equal. lia.
Qed.

(** ** What the leader sends *)

Lemma send_build_entries trm next_idx n req :
  wf n -> is_u64 next_idx -> RaftLog.snapshot_last_index (log_ n) < next_idx ->
  next_idx <= RaftLog.last_index (log_ n) + 1 ->
  send_build trm next_idx n = Some req ->
  ae_prev_log_index req = next_idx - 1 /\
  N.of_nat (length (ae_entries req)) = RaftLog.last_index (log_ n) + 1 - next_idx /\
  forall k, to_persisted <$> ae_entries req !! k =
    RaftLog.entry_at (log_ n) (next_idx + N.of_nat k).
Proof.
  intros (_ & [Hf _] & _) Hu Hs Hn. unfold send_build, is_u64 in *. case_match; [|done]. intros [= <-].
  cbn [ae_prev_log_index ae_entries]. pose proof Hf as [Hb _].
  rewrite RaftLog.last_index_eq in Hn by done. rewrite u64_sub_le by lia.
  split_and!; [done|by rewrite length_fmap, length_index_range; lia|].
  intros k. rewrite list_lookup_fmap. unfold index_range. rewrite list_lookup_fmap.
  destruct (decide (k < N.to_nat (RaftLog.last_index (log_ n) + 1 - next_idx))%nat).
  - rewrite lookup_seq_lt by done. cbn. unfold to_persisted. cbn.
    unfold RaftLog.snapshot_last_index in Hs.
    destruct (RaftLog.entry_at_is_Some (log_ n) (next_idx + N.of_nat k) Hf) as [e He]; [lia|].
    rewrite RaftLog.term_at_entry, RaftLog.command_at_entry by (done || lia).
    rewrite He. by destruct e.
  - rewrite lookup_seq_ge by lia. cbn. symmetry. apply RaftLog.entry_at_None; [lia|done].
Qed.

(** replication transfers the log.  When the leader builds a request from an
    index it has not compacted and the follower accepts it, the follower's
    log agrees with the leader's at every index after [prev_log_index] up to
    the leader's last index that the follower has not compacted, and is
    unchanged up to [prev_log_index]. *)
Theorem replicated_log_agrees (now draw : Z) (trm next_idx : N) (leader follower : t)
    (req : AppendEntriesRequest) (i : N) :
  wf leader -> wf follower ->
  RaftLog.snapshot_last_index (log_ leader) < next_idx <= RaftLog.last_index (log_ leader) ->
  send_build trm next_idx leader = Some req ->
  (handle_append_entries now draw req follower).2 = MkAppendEntriesResponse (ae_term req) true ->
  let follower' := (handle_append_entries now draw req follower).1 in
  RaftLog.snapshot_last_index (log_ follower) < i ->
  RaftLog.entry_at (log_ follower') i =
    (if i <? next_idx then RaftLog.entry_at (log_ follower) i
     else RaftLog.entry_at (log_ leader) i).
Proof.
  intros Hwl Hwf Hn Hb Hok follower' Hi.
  assert (is_u64 next_idx) as Hu.
  { pose proof Hwl as (_ & [[Hbl _] _] & _). rewrite RaftLog.last_index_eq in Hn by apply Hwl.
    unfold is_u64. lia. }
  destruct (send_build_entries trm next_idx leader req Hwl Hu) as (Ep & Elen & Hent);
    [lia|lia|done|].
  destruct (append_success_log now draw req follower Hok) as (Hp & _ & El).
  pose proof Hwf as (_ & [Hf _] & _). pose proof Hwl as (_ & [Hfl _] & _).
  unfold follower'. rewrite El. pose proof (prev_ok_le _ _ Hf Hp) as Hle.
  destruct (ae_entries req) as [|x xs] eqn:E; [cbn in Elen; lia|].
  assert (N.of_nat (length (to_persisted <$> x :: xs)) = RaftLog.last_index (log_ leader) + 1 - next_idx)
    as Hlen by by rewrite length_fmap.
  pose proof Hfl as [Hbl _]. rewrite RaftLog.last_index_eq in Hn, Hlen by done.
  rewrite RaftLog.truncate_entry_at by (done || lia). unfold RaftLog.snapshot_last_index in Hi.
  rewrite bool_decide_eq_false_2 by lia. rewrite Ep.
  destruct (N.ltb_spec i next_idx); case_bool_decide; try lia; [done|].
  rewrite list_lookup_fmap, Hent. f_equal. lia.
Qed.

(** A leader of term 1 with three entries, none acknowledged yet. *)
Definition sample_leader : t :=
  run_all [EvElectionBegin 300 300; EvElectionFinish 300 1 [true; true];
           EvPropose "a"; EvPropose "b"; EvPropose "c"] (fresh_node 1).

Lemma sample_leader_wf : wf sample_leader.
Proof.
  apply run_all_vote_le; [by apply fresh_node_wf|]. by vm_compute.
Qed.

Lemma replicated_log_agrees_witness :
  exists req,
  let follower' := (handle_append_entries 0 300 req (fresh_node 2)).1 in
  send_build 1 1 sample_leader = Some req /\
  RaftLog.entry_at (log_ follower') 2 =
    (if 2 <? 1 then RaftLog.entry_at (log_ (fresh_node 2)) 2
     else RaftLog.entry_at (log_ sample_leader) 2).
Proof.
  eexists. split; [vm_compute; reflexivity|].
  eapply (replicated_log_agrees 0 300 1 1 sample_leader (fresh_node 2)).
  - apply sample_leader_wf.
  - by apply fresh_node_wf.
  - by vm_compute.
  - by vm_compute.
  - by vm_compute.
  - by vm_compute.
Defined.

(** a delayed [AppendEntries] destroys acknowledged entries.  Whenever a
    follower, in the term of the request, already stores everything the
    request carries and more after it, nothing conflicts, yet the handler
    accepts the request and cuts the log back to the end of the request. *)
Theorem stale_append_truncates (now draw : Z) (req : AppendEntriesRequest) (n : t) :
  wf n -> event_ok (EvAppendEntries now draw req) n ->
  ae_term req = current_term n -> ae_entries req <> [] ->
  prev_ok req (log_ n) = true ->
  (forall k x, ae_entries req !! k = Some x ->
     RaftLog.entry_at (log_ n) (ae_prev_log_index req + 1 + N.of_nat k) = Some (to_persisted x)) ->
  ae_prev_log_index req + N.of_nat (length (ae_entries req)) < RaftLog.last_index (log_ n) ->
  (handle_append_entries now draw req n).2 = MkAppendEntriesResponse (current_term n) true /\
  RaftLog.last_index (log_ (handle_append_entries now draw req n).1) =
    ae_prev_log_index req + N.of_nat (length (ae_entries req)) /\
  RaftLog.last_index (log_ (handle_append_entries now draw req n).1) <
    RaftLog.last_index (log_ n).
Proof.
  intros Hw (Ht & Hb & He) Et Hne Hp Hsame Hlt.
  pose proof (append_accept now draw req n ltac:(lia) Hp) as Hok.
  destruct (append_success_log _ _ _ _ Hok) as (_ & _ & El). rewrite El.
  pose proof Hw as (_ & [Hf _] & _). pose proof (prev_ok_le _ _ Hf Hp) as Hle.
  destruct (ae_entries req) as [|x xs] eqn:E; [done|].
  assert (ae_prev_log_index req + N.of_nat (length (to_persisted <$> x :: xs)) < U64) as Hb'
    by by rewrite length_fmap.
  rewrite RaftLog.truncate_last_index by done. rewrite length_fmap.
  pose proof (Hsame O x eq_refl) as Hx. apply RaftLog.entry_at_Some_range in Hx; [|done].
  cbn [length] in *. rewrite Hok, Et. split_and!; [done|lia|lia].
Qed.

Lemma stale_append_truncates_witness :
  exists req1 req2,
    send_build 1 1 (run (EvPropose "a") (run_all [EvElectionBegin 300 300;
      EvElectionFinish 300 1 [true; true]] (fresh_node 1))) = Some req1 /\
    send_build 1 1 sample_leader = Some req2 /\
    let n := (handle_append_entries 0 300 req2 (fresh_node 2)).1 in
    (handle_append_entries 0 300 req1 n).2 = MkAppendEntriesResponse (current_term n) true /\
    RaftLog.last_index (log_ (handle_append_entries 0 300 req1 n).1) =
      ae_prev_log_index req1 + N.of_nat (length (ae_entries req1)) /\
    RaftLog.last_index (log_ (handle_append_entries 0 300 req1 n).1) <
      RaftLog.last_index (log_ n).
Proof.
  eexists _, _. split; [vm_compute; reflexivity|]. split; [vm_compute; reflexivity|].
  apply (stale_append_truncates 0 300).
  - apply handle_append_entries_wf; [|by apply fresh_node_wf].
    split_and!; [done..|]. by repeat constructor.
  - split_and!; [done..|]. by repeat constructor.
  - by vm_compute.
  - done.
  - by vm_compute.
  - intros [|k] x [= <-]. by vm_compute.
  - by vm_compute.
Defined.

(** the two critical sections of [send_append_entries_to_peer] race with
    compaction.  If the log is compacted past [next_idx] after the snapshot
    check and before the request is built, the request carries, for every
    index inside the snapshot, an entry with an empty command and the
    snapshot's term in place of the entry that was there. *)
Theorem compaction_race_sends_blanks (trm next_idx i : N) (n : t) :
  wf n -> is_leader_of trm n = true ->
  1 <= next_idx <= i -> i <= RaftLog.snapshot_last_index (log_ n) ->
  exists req, send_build trm next_idx n = Some req /\
    ae_entries req !! N.to_nat (i - next_idx) =
      Some (MkLogEntry (RaftLog.snapshot_last_term (log_ n)) i "").
Proof.
  intros (_ & [Hf _] & _) Hl Hn Hi. unfold send_build. rewrite Hl. eexists. split; [done|].
  cbn [ae_entries]. unfold index_range. rewrite !list_lookup_fmap.
  unfold RaftLog.snapshot_last_index in Hi.
  rewrite lookup_seq_lt by (rewrite RaftLog.last_index_eq by done; lia). cbn.
  replace (next_idx + N.of_nat (N.to_nat (i - next_idx))) with i by lia.
  rewrite RaftLog.term_at_snapshot by (done || lia). rewrite RaftLog.command_at_entry by done.
  unfold RaftLog.entry_at. by rewrite bool_decide_eq_true_2.
Qed.

(** A single-node leader that has committed two commands. *)
Definition committed_leader : t :=
  run_all [EvElectionBegin 300 300; EvElectionFinish 300 1 []; EvPropose "a"; EvPropose "b"]
    (create 1 [MkPeer 1 "127.0.0.1" 7001] None None 0 300).

Lemma solo_create_wf : wf (create 1 [MkPeer 1 "127.0.0.1" 7001] None None 0 300).
Proof.
  split_and!; [done| |done]. unfold create, reset_election_deadline_locked. cbn [log_ with_timers].
  unfold RaftLog.open_file. apply RaftLog.wf_persist. split_and!; [done..|]. constructor.
Qed.

Lemma compaction_race_sends_blanks_witness :
  send_check 1 1 committed_leader = SendEntries /\
  exists req, send_build 1 1 (run (EvCompact 2 "snap") committed_leader) = Some req /\
    ae_entries req !! N.to_nat (2 - 1) =
      Some (MkLogEntry (RaftLog.snapshot_last_term (log_ (run (EvCompact 2 "snap") committed_leader))) 2 "").
Proof.
  split; [by vm_compute|].
  apply (compaction_race_sends_blanks 1 1 2 (run (EvCompact 2 "snap") committed_leader)).
  - apply run_wf_event; [done|]. apply run_all_vote_le; [apply solo_create_wf|by vm_compute].
  - by vm_compute.
  - lia.
  - by vm_compute.
Defined.

(** a follower can get stuck behind the snapshot.  When the leader already
    counts the follower as matching the snapshot but [next_index_] has been
    driven below it, the leader sends the snapshot, and the reply changes
    nothing: the next round sends the same snapshot again, and no entry after
    it ever reaches that follower. *)
Theorem install_snapshot_livelock (trm nx : N) (peer : Z) (n : t)
    (resp : InstallSnapshotResponse) :
  is_leader_of trm n = true -> isr_term resp <= current_term n ->
  next_index_ n !! peer = Some nx ->
  nx -u 1 < RaftLog.snapshot_last_index (log_ n) ->
  RaftLog.snapshot_last_index (log_ n) <= at_or_0 (match_index_ n) peer ->
  let n' := install_reply trm peer (RaftLog.snapshot_last_index (log_ n)) resp n in
  exists req, send_check trm nx n = SendSnapshot req /\
    next_index_ n' !! peer = Some nx /\ send_check trm nx n' = SendSnapshot req /\
    RaftLog.snapshot_last_index (log_ n') <= at_or_0 (match_index_ n') peer.
Proof.
  intros Hl Ht Hnx Hlt Hm n'.
  assert (n' = with_indices (next_index_ n)
            (<[peer := at_or_0 (match_index_ n) peer]> (match_index_ n)) n) as ->.
  { unfold n', install_reply. rewrite bool_decide_eq_false_2 by lia. rewrite Hl.
    by rewrite bool_decide_eq_false_2 by lia. }
  unfold send_check. rewrite Hl. rewrite bool_decide_eq_true_2 by done.
  eexists. split; [done|]. split; [done|]. split.
  - change (is_leader_of trm (with_indices _ _ n)) with (is_leader_of trm n).
    rewrite Hl. cbn. by rewrite bool_decide_eq_true_2.
  - cbn. unfold at_or_0 at 1. by rewrite lookup_insert_eq.
Qed.

(** A leader of three nodes, re-elected with three old entries.  Follower 2
    rejects until [prev_log_index] reaches 0, then acknowledges all four
    entries; a duplicate of each rejection (heartbeats are sent every 50 ms,
    replies may take 100 ms) arrives after that, and the log is compacted. *)
Definition stuck_leader : t :=
  let rejected prev sent := EvAppendReply 2 2 prev sent (MkAppendEntriesResponse 2 false) in
  run_all [EvRestart 0 300; EvElectionBegin 300 300; EvElectionFinish 300 2 [true; true];
           EvPropose "d"; rejected 3 1; rejected 2 2; rejected 1 3;
           EvAppendReply 2 2 0 4 (MkAppendEntriesResponse 2 true);
           rejected 3 1; rejected 2 2; rejected 1 3; EvCompact 4 "snap"] sample_leader.

Lemma install_snapshot_livelock_witness :
  let n' := install_reply 2 2 (RaftLog.snapshot_last_index (log_ stuck_leader))
              (MkInstallSnapshotResponse 2) stuck_leader in
  exists req, send_check 2 2 stuck_leader = SendSnapshot req /\
    next_index_ n' !! 2%Z = Some 2 /\ send_check 2 2 n' = SendSnapshot req /\
    RaftLog.snapshot_last_index (log_ n') <= at_or_0 (match_index_ n') 2.
Proof.
  apply (install_snapshot_livelock 2 2 2 stuck_leader (MkInstallSnapshotResponse 2));
    by vm_compute.
Defined.
