(* ===== verification/RaftNet.v ===== *)
(** * A cluster of Raft nodes

    The servers of [RaftNode], their ticker threads and the RPCs between them
    as one transition system.  The network may delay, lose, duplicate and
    reorder messages, and a server may stop and restart from its files between
    any two critical sections.  The disk is fault-free: a [persist] that has
    begun completes.  A crash inside the [persist] of an election is modelled
    apart, by [crash_in_election]. *)

From S2P Require Import Prelude Storage RaftState RaftLog RaftNode RaftNodeInv.
Import RaftNode.

(** ** State *)

(** Where the ticker thread of a server is.  [Voting] is the wait for the vote
    futures of [start_election], with the futures that have a value. *)
Inductive pc :=
| Idle
| AtElection
| AtReplicate
| Voting (election_term : N) (results : gmap Z bool).

(** Requests, replies and the asynchronous tasks of the leader; [src] is
    always the caller and [dst] the server called. *)
Inductive packet :=
| VoteReq (src dst : Z) (req : RequestVoteRequest)
| VoteResp (src dst : Z) (election_term : N) (resp : RequestVoteResponse)
| SendTask (src dst : Z) (trm next_idx : N)
| BuildTask (src dst : Z) (trm next_idx : N)
| AppendReq (src dst : Z) (req : AppendEntriesRequest)
| AppendResp (src dst : Z) (req : AppendEntriesRequest) (resp : AppendEntriesResponse)
| SnapReq (src dst : Z) (req : InstallSnapshotRequest)
| SnapResp (src dst : Z) (req : InstallSnapshotRequest) (resp : InstallSnapshotResponse).

(** Packets are never removed from [wire]: an undelivered one is lost, one
    delivered twice is a duplicate. *)
Record cluster := MkCluster {
  nodes : gmap Z t;
  tickers : gmap Z pc;
  wire : list packet;
}.

Definition set_node (i : Z) (n : t) (c : cluster) : cluster :=
  MkCluster (<[i := n]> (nodes c)) (tickers c) (wire c).

Definition set_pc (i : Z) (p : pc) (c : cluster) : cluster :=
  MkCluster (nodes c) (<[i := p]> (tickers c)) (wire c).

Definition send (ps : list packet) (c : cluster) : cluster :=
  MkCluster (nodes c) (tickers c) (wire c ++ ps).

Definition pc_of (c : cluster) (i : Z) : pc := default Idle (tickers c !! i).

(** ** Transitions *)

(** A packet arrives. *)
Definition deliver (now draw : Z) (p : packet) (c : cluster) : option cluster :=
  match p with
  | VoteReq src dst req =>
    n ← nodes c !! dst;
    let '(n', resp) := handle_request_vote now draw req n in
    Some (send [VoteResp src dst (rv_term req) resp] (set_node dst n' c))
  | VoteResp src dst et resp =>
    n ← nodes c !! src;
    match pc_of c src with
    | Voting et' results =>
      if (et' =?? et) && (results !! dst =?? None) then
        let '(n', granted) := vote_reply et (Some resp) n in
        Some (set_pc src (Voting et (<[dst := granted]> results)) (set_node src n' c))
      else None
    | _ => None
    end
  | SendTask src dst trm next_idx =>
    n ← nodes c !! src;
    match send_check trm next_idx n with
    | SendStop => Some c
    | SendSnapshot req => Some (send [SnapReq src dst req] c)
    | SendEntries => Some (send [BuildTask src dst trm next_idx] c)
    end
  | BuildTask src dst trm next_idx =>
    n ← nodes c !! src;
    match send_build trm next_idx n with
    | None => Some c
    | Some req => Some (send [AppendReq src dst req] c)
    end
  | AppendReq src dst req =>
    n ← nodes c !! dst;
    let '(n', resp) := handle_append_entries now draw req n in
    Some (send [AppendResp src dst req resp] (set_node dst n' c))
  | AppendResp src dst req resp =>
    n ← nodes c !! src;
    Some (set_node src (append_reply (ae_term req) dst (ae_prev_log_index req)
                          (N.of_nat (length (ae_entries req))) resp n) c)
  | SnapReq src dst req =>
    n ← nodes c !! dst;
    let '(n', resp) := handle_install_snapshot now draw req n in
    Some (send [SnapResp src dst req resp] (set_node dst n' c))
  | SnapResp src dst req resp =>
    n ← nodes c !! src;
    Some (set_node src (install_reply (is_term req) dst (is_last_included_index req) resp n) c)
  end.

Inductive action :=
| ATick (i now : Z)
| AElection (i now draw : Z)
| AVoteFail (i j : Z)
| AElectionDone (i now : Z)
| AReplicate (i : Z)
| APropose (i : Z) (cmd : string)
| ACompact (i : Z) (up_to_index : N) (data : string)
| ARestart (i now draw : Z)
| ADeliver (k : nat) (now draw : Z).

(** The value of every vote future, in the order of [stubs_]; [None] while
    one of them is still running. *)
Definition futures (n : t) (results : gmap Z bool) : option (list bool) :=
  mapM (fun j => results !! j) (stubs_ n).

Definition exec (a : action) (c : cluster) : option cluster :=
  match a with
  | ATick i now =>
    n ← nodes c !! i;
    match pc_of c i with
    | Idle =>
      let '(n', act) := tick now n in
      Some (set_pc i (match act with
                      | TickNothing => Idle
                      | TickElection => AtElection
                      | TickReplicate => AtReplicate
                      end) (set_node i n' c))
    | _ => None
    end
  | AElection i now draw =>
    n ← nodes c !! i;
    match pc_of c i with
    | AtElection =>
      let '(n', req) := start_election_begin now draw n in
      Some (send ((fun j => VoteReq i j req) <$> stubs_ n)
              (set_pc i (Voting (rv_term req) ∅) (set_node i n' c)))
    | _ => None
    end
  | AVoteFail i j =>
    n ← nodes c !! i;
    match pc_of c i with
    | Voting et results =>
      match results !! j with
      | None =>
        let '(n', granted) := vote_reply et None n in
        Some (set_pc i (Voting et (<[j := granted]> results)) (set_node i n' c))
      | Some _ => None
      end
    | _ => None
    end
  | AElectionDone i now =>
    n ← nodes c !! i;
    match pc_of c i with
    | Voting et results =>
      values ← futures n results;
      Some (set_pc i Idle (set_node i (start_election_finish now et values n) c))
    | _ => None
    end
  | AReplicate i =>
    n ← nodes c !! i;
    match pc_of c i with
    | AtReplicate =>
      match replicate_begin n with
      | None => Some (set_pc i Idle c)
      | Some (trm, next_index_snapshot) =>
        Some (send (omap (fun j => SendTask i j trm <$> next_index_snapshot !! j) (stubs_ n))
                (set_pc i Idle c))
      end
    | _ => None
    end
  | APropose i cmd =>
    n ← nodes c !! i;
    Some (set_node i (propose_begin cmd n).1 c)
  | ACompact i up_to data =>
    n ← nodes c !! i;
    Some (set_node i (compact up_to data n).1 c)
  | ARestart i now draw =>
    n ← nodes c !! i;
    Some (set_pc i Idle (set_node i (run (EvRestart now draw) n) c))
  | ADeliver k now draw =>
    p ← wire c !! k;
    deliver now draw p c
  end.

(** The server whose critical section a delivery or an action runs. *)
Definition packet_mover (p : packet) : Z :=
  match p with
  | VoteReq _ dst _ | AppendReq _ dst _ | SnapReq _ dst _ => dst
  | VoteResp src _ _ _ | SendTask src _ _ _ | BuildTask src _ _ _
  | AppendResp src _ _ _ | SnapResp src _ _ _ => src
  end.

Definition mover (a : action) (c : cluster) : option Z :=
  match a with
  | ATick i _ | AElection i _ _ | AVoteFail i _ | AElectionDone i _ | AReplicate i
  | APropose i _ | ACompact i _ _ | ARestart i _ _ => Some i
  | ADeliver k _ _ => packet_mover <$> wire c !! k
  end.

(** The term counter of the server that starts an election does not wrap. *)
Definition term_room (a : action) (c : cluster) : bool :=
  match a with
  | AElection i _ _ => from_option (fun n => current_term n + 1 <?? U64) true (nodes c !! i)
  | _ => true
  end.

Definition init (ps : list RaftPeer) : cluster :=
  MkCluster (list_to_map ((fun i => (i, create i ps None None 0 300)) <$> (node_id <$> ps))) ∅ [].

Inductive reachable (ps : list RaftPeer) : cluster -> Prop :=
| reach_init : reachable ps (init ps)
| reach_step a c c' :
  reachable ps c -> term_room a c = true -> exec a c = Some c' -> reachable ps c'.

(** The configuration: distinct non-negative ids ([-1] means no vote). *)
Definition peers_ok (ps : list RaftPeer) : Prop :=
  NoDup (node_id <$> ps) /\ Forall (fun i => 0 <= i < 2147483648)%Z (node_id <$> ps).

(** Runs a schedule. *)
Fixpoint exec_all (acts : list action) (c : cluster) : option cluster :=
  match acts with
  | [] => Some c
  | a :: acts => if term_room a c then exec a c ≫= exec_all acts else None
  end.

Lemma exec_all_reachable ps acts c c' :
  reachable ps c -> exec_all acts c = Some c' -> reachable ps c'.
Proof.
  revert c. induction acts as [|a acts IH]; intros c Hr; cbn; [by intros [= <-]|].
  destruct (term_room a c) eqn:Ht; [|done].
  destruct (exec a c) as [c1|] eqn:He; [|done]. cbn. apply IH. by eapply reach_step.
Qed.

(** ** The vote history

    [votes] collects every [(voter, term, candidate)] that was ever durable. *)

Definition ids (ps : list RaftPeer) : gset Z := list_to_set (node_id <$> ps).

Abbreviation history := (gset (Z * N * Z)).

(** A majority of the configuration voted for [i] in term [trm]. *)
Definition elected (ps : list RaftPeer) (votes : history) (trm : N) (i : Z) : Prop :=
  exists Q : gset Z,
    Q ⊆ ids ps /\ N.of_nat (length ps) / 2 + 1 <= N.of_nat (size Q) /\
    forall v, v ∈ Q -> (v, trm, i) ∈ votes.

(** What holds of one server. *)
Record node_inv (ps : list RaftPeer) (votes : history) (i : Z) (n : t) : Prop := {
  ni_id : node_id_ n = i;
  ni_peers : peers_ n = ps;
  ni_member : i ∈ ids ps;
  ni_state : state_wf n;
  ni_vote : voted_for n <> (-1)%Z -> (i, current_term n, voted_for n) ∈ votes;
  ni_past : forall trm cand, (i, trm, cand) ∈ votes ->
    cand <> (-1)%Z /\
    (trm < current_term n \/ (trm = current_term n /\ cand = voted_for n));
  ni_leader : role_ n = Leader -> elected ps votes (current_term n) i;
}.

Definition pc_inv (ps : list RaftPeer) (votes : history) (i : Z) (p : pc) : Prop :=
  match p with
  | Voting et results =>
    i ∈ ids ps /\ (i, et, i) ∈ votes /\
    forall j, results !! j = Some true -> (j, et, i) ∈ votes
  | _ => True
  end.

Definition packet_inv (votes : history) (p : packet) : Prop :=
  match p with
  | VoteReq src dst req =>
    rv_candidate_id req = src /\ src <> (-1)%Z /\ is_u64 (rv_term req) /\ is_i32 src
  | VoteResp src dst et resp =>
    is_u64 (rvr_term resp) /\ (rvr_vote_granted resp = true -> (dst, et, src) ∈ votes)
  | AppendReq src dst req => is_u64 (ae_term req)
  | AppendResp src dst req resp => is_u64 (aer_term resp)
  | SnapReq src dst req => is_u64 (is_term req)
  | SnapResp src dst req resp => is_u64 (isr_term resp)
  | SendTask _ _ _ _ | BuildTask _ _ _ _ => True
  end.

Record inv (ps : list RaftPeer) (votes : history) (c : cluster) : Prop := {
  inv_nodes : map_Forall (node_inv ps votes) (nodes c);
  inv_pcs : map_Forall (pc_inv ps votes) (tickers c);
  inv_wire : Forall (packet_inv votes) (wire c);
  inv_voters : forall v trm cand, (v, trm, cand) ∈ votes -> is_Some (nodes c !! v);
  inv_once : forall v trm c1 c2, (v, trm, c1) ∈ votes -> (v, trm, c2) ∈ votes -> c1 = c2;
}.

(** The history after server [i] moved to state [n]. *)
Definition record_vote (i : Z) (n : t) (votes : history) : history :=
  if decide (voted_for n = (-1)%Z) then votes
  else votes ∪ {[ (i, current_term n, voted_for n) ]}.

Lemma record_vote_mono i n votes : votes ⊆ record_vote i n votes.
Proof. unfold record_vote. case_decide; [done|]. apply union_subseteq_l. Qed.

Lemma elem_of_record_vote i n votes x :
  x ∈ record_vote i n votes <->
  x ∈ votes \/ (voted_for n <> (-1)%Z /\ x = (i, current_term n, voted_for n)).
Proof.
  unfold record_vote. case_decide; [|rewrite elem_of_union, elem_of_singleton]; tauto.
Qed.

Lemma elected_mono ps votes votes' trm i :
  votes ⊆ votes' -> elected ps votes trm i -> elected ps votes' trm i.
Proof. intros Hs (Q & ? & ? & HQ). exists Q. split_and!; auto. Qed.

Lemma pc_inv_mono ps votes votes' i p :
  votes ⊆ votes' -> pc_inv ps votes i p -> pc_inv ps votes' i p.
Proof. intros Hs. destruct p; try done. intros (? & ? & ?). cbn. split_and!; auto. Qed.

Lemma packet_inv_mono votes votes' p : votes ⊆ votes' -> packet_inv votes p -> packet_inv votes' p.
Proof. intros Hs. destruct p; try done. intros (? & ?). cbn. split_and!; auto. Qed.

Lemma node_inv_mono ps i n m v votes :
  v <> i -> node_inv ps votes v n -> node_inv ps (record_vote i m votes) v n.
Proof.
  intros Hv []. split; [done..| | |].
  - intros Hn. apply record_vote_mono. auto.
  - intros trm cand [H|[_ [=]]]%elem_of_record_vote; [auto|done].
  - intros Hl. eapply elected_mono; [apply record_vote_mono|auto].
Qed.

(** One server moves: the history grows by its current vote. *)
Lemma inv_move ps votes c i n m :
  inv ps votes c -> nodes c !! i = Some n ->
  node_id_ m = node_id_ n -> peers_ m = peers_ n ->
  (role_ m = Leader ->
   (role_ n = Leader /\ current_term m = current_term n) \/ elected ps votes (current_term m) i) ->
  vote_le n m -> state_wf m -> inv ps (record_vote i m votes) (set_node i m c).
Proof.
  intros [Hn Hp Hw Hv Ho] Hi K1 K2 K3 Hle Hs.
  pose proof (Hn i n Hi) as [A1 A2 A3 A4 A5 A6 A7].
  assert (forall trm cand, (i, trm, cand) ∈ votes ->
            trm < current_term m \/ (trm = current_term m /\ cand = voted_for m)) as Hpast.
  { intros trm cand H. destruct (A6 _ _ H) as [Hc [Hlt|[-> ->]]].
    - left. destruct Hle as [?|[? _]]; lia.
    - destruct Hle as [?|[E V]]; [by left|]. right. split; [done|]. by destruct V. }
  split.
  - intros v x Hx. cbn in Hx. apply lookup_insert_Some in Hx as [[<- <-]|[Hne Hx]].
    2: { apply node_inv_mono; [done|]. by apply Hn. }
    split; [congruence..|done|done| | |].
    + intros Hne. apply elem_of_record_vote. by right.
    + intros trm cand [H|[Hne [= -> ->]]]%elem_of_record_vote; [|by auto].
      split; [by apply (A6 _ _ H)|by apply Hpast].
    + intros Hl. eapply elected_mono; [apply record_vote_mono|].
      destruct (K3 Hl) as [[Hl' ->]|?]; auto.
  - eapply map_Forall_impl; [exact Hp|]. intros. eapply pc_inv_mono; [apply record_vote_mono|done].
  - eapply Forall_impl; [exact Hw|]. intros. eapply packet_inv_mono; [apply record_vote_mono|done].
  - intros v trm cand H. cbn. apply lookup_insert_is_Some'.
    apply elem_of_record_vote in H as [H|[_ [= -> _ _]]]; [right; by eapply Hv|by left].
  - intros v trm c1 c2 [H1|[N1 [= -> -> ->]]]%elem_of_record_vote
      [H2|[N2 E2]]%elem_of_record_vote; simplify_eq; [by eapply Ho| | |done].
    + destruct (Hpast _ _ H1) as [?|[_ ?]]; [lia|done].
    + destruct (Hpast _ _ H2) as [?|[_ ?]]; [lia|done].
Qed.

Lemma inv_set_pc ps votes c i p :
  inv ps votes c -> pc_inv ps votes i p -> inv ps votes (set_pc i p c).
Proof.
  intros [] Hp. split; try done. cbn. by apply map_Forall_insert_2.
Qed.

Lemma inv_send ps votes c qs :
  inv ps votes c -> Forall (packet_inv votes) qs -> inv ps votes (send qs c).
Proof. intros [] Hq. split; try done. cbn. by apply Forall_app. Qed.

Lemma inv_send1 ps votes c p :
  inv ps votes c -> packet_inv votes p -> inv ps votes (send [p] c).
Proof. intros. apply inv_send; [done|]. by apply Forall_singleton. Qed.

Lemma inv_pc_of ps votes c i : inv ps votes c -> pc_inv ps votes i (pc_of c i).
Proof.
  intros [_ Hp _ _ _]. unfold pc_of. destruct (tickers c !! i) eqn:E; [by apply (Hp i)|done].
Qed.

Definition Inv (ps : list RaftPeer) (c : cluster) : Prop := exists votes, inv ps votes c.

(** ** Every transition keeps the invariant *)

Lemma inv_run ps votes c i n e :
  (forall now et results, e <> EvElectionFinish now et results) ->
  inv ps votes c -> nodes c !! i = Some n -> terms_ok e n ->
  inv ps (record_vote i (run e n) votes) (set_node i (run e n) c).
Proof.
  intros He Hinv Hi Ht. pose proof (inv_nodes _ _ _ Hinv i n Hi) as Hn.
  destruct (run_keeps e n He) as (? & ? & ?). eapply inv_move; [done..|by left; auto| |].
  - apply run_vote_le; [done|apply Hn].
  - apply run_state_wf; [done|apply Hn].
Qed.

Lemma vote_granted now draw req n :
  let '(m, resp) := handle_request_vote now draw req n in
  rvr_term resp = current_term (adopt (rv_term req) n) /\
  (rvr_vote_granted resp = true ->
   current_term m = rv_term req /\ voted_for m = rv_candidate_id req).
Proof.
  unfold handle_request_vote. fold (adopt (rv_term req) n).
  destruct (adopt_frame (rv_term req) n) as (_ & _ & _ & _ & _ & _ & Et).
  case_bool_decide; [done|]. destruct (_ && _); [|done]. split; [done|]. intros _. split; [|done].
  change (current_term (adopt (rv_term req) n) = rv_term req). lia.
Qed.

Lemma adopt_term_u64 trm n : is_u64 trm -> state_wf n -> is_u64 (current_term (adopt trm n)).
Proof. intros. apply state_wf_term. by apply state_wf_adopt. Qed.

Lemma append_response_term now draw req n :
  aer_term (handle_append_entries now draw req n).2 = current_term (adopt (ae_term req) n).
Proof.
  unfold handle_append_entries. fold (adopt (ae_term req) n).
  case_bool_decide; [done|]. by case_match.
Qed.

Lemma install_response_term now draw req n :
  isr_term (handle_install_snapshot now draw req n).2 = current_term (adopt (is_term req) n).
Proof.
  unfold handle_install_snapshot. fold (adopt (is_term req) n).
  case_bool_decide; [done|]. case_bool_decide; [done|]. cbv zeta. by case_bool_decide.
Qed.

Lemma deliver_vote_req ps votes c now draw src dst req n :
  inv ps votes c -> packet_inv votes (VoteReq src dst req) -> nodes c !! dst = Some n ->
  let '(m, resp) := handle_request_vote now draw req n in
  inv ps (record_vote dst m votes)
    (send [VoteResp src dst (rv_term req) resp] (set_node dst m c)).
Proof.
  intros Hinv (Hc & Hne & Ht & Hs) Hn.
  pose proof (ni_state _ _ _ _ (inv_nodes _ _ _ Hinv _ _ Hn)) as Hst.
  pose proof (vote_granted now draw req n) as Hg.
  assert (terms_ok (EvRequestVote now draw req) n) as Hok by (cbn; by rewrite Hc).
  unshelve epose proof (inv_run _ _ _ _ _ _ _ Hinv Hn Hok) as Hinv'; [done|]. cbn [run] in Hinv'.
  destruct (handle_request_vote now draw req n) as [m resp]. cbn [fst] in Hinv'.
  destruct Hg as [Hrt Hg]. apply inv_send1; [done|]. split.
  - rewrite Hrt. by apply adopt_term_u64.
  - intros [E1 E2]%Hg. apply elem_of_record_vote. right. rewrite E1, E2, Hc. done.
Qed.

(** A vote reply is stored in the future of the election that asked for it. *)
Lemma deliver_vote_resp ps votes c src dst et results n reply :
  inv ps votes c -> nodes c !! src = Some n -> pc_of c src = Voting et results ->
  from_option (fun r => is_u64 (rvr_term r) /\
                 (rvr_vote_granted r = true -> (dst, et, src) ∈ votes)) True reply ->
  let '(m, granted) := vote_reply et reply n in
  inv ps (record_vote src m votes)
    (set_pc src (Voting et (<[dst := granted]> results)) (set_node src m c)).
Proof.
  intros Hinv Hn Hpc Hr. pose proof (inv_pc_of _ _ _ src Hinv) as Hp. rewrite Hpc in Hp.
  assert (terms_ok (EvVoteReply et reply) n) as Hok by (destruct reply; [apply Hr|done]).
  unshelve epose proof (inv_run _ _ _ _ _ _ _ Hinv Hn Hok) as Hinv'; [done|]. cbn [run] in Hinv'.
  assert ((vote_reply et reply n).2 = true -> (dst, et, src) ∈ votes) as Hg.
  { destruct reply as [r|]; [|done]. cbn. case_bool_decide; [done|]. apply Hr. }
  destruct (vote_reply et reply n) as [m granted]. cbn in Hinv', Hg.
  apply inv_set_pc; [done|]. eapply pc_inv_mono; [apply record_vote_mono|].
  destruct Hp as (Hm & Hself & Hres). cbn. split_and!; [done..|].
  intros j [[-> ->]|[_ Hj]]%lookup_insert_Some; auto.
Qed.

Lemma stubs_spec n j : j ∈ stubs_ n <-> j <> node_id_ n /\ j ∈ node_id <$> peers_ n.
Proof. unfold stubs_. rewrite elem_of_remove_dups, list_elem_of_filter. done. Qed.

(** The number of futures that hold [true]. *)
Lemma futures_count (results : gmap Z bool) js values :
  mapM (fun j => results !! j) js = Some values ->
  length (filter (fun b => b = true) values) =
  length (filter (fun j => results !! j = Some true) js).
Proof.
  revert values. induction js as [|j js IH]; intros values; cbn.
  { by intros [= <-]. }
  destruct (results !! j) as [b|] eqn:E; [|done]. cbn.
  destruct (mapM _ js) as [vs|] eqn:Em; [|done]. intros [= <-].
  rewrite !filter_cons. specialize (IH vs eq_refl).
  destruct b; repeat case_decide; simplify_eq; cbn; by rewrite ?IH.
Qed.

(** A candidate whose futures hold a majority of votes was elected. *)
Lemma futures_elected ps votes n et results values :
  node_id_ n ∈ ids ps -> peers_ n = ps -> pc_inv ps votes (node_id_ n) (Voting et results) ->
  futures n results = Some values ->
  cluster_size n / 2 + 1 <= N.of_nat (S (length (filter (fun b => b = true) values))) ->
  elected ps votes et (node_id_ n).
Proof.
  intros Hid Hps (_ & Hself & Hres) Hf Hmaj. apply futures_count in Hf. rewrite Hf in Hmaj.
  set (trues := filter (fun j => results !! j = Some true) (stubs_ n)) in *.
  assert (forall j, j ∈ trues ->
            results !! j = Some true /\ j <> node_id_ n /\ j ∈ node_id <$> peers_ n) as Ht.
  { intros j Hj. unfold trues in Hj. by rewrite list_elem_of_filter, stubs_spec in Hj. }
  exists ({[ node_id_ n ]} ∪ list_to_set trues). split_and!.
  - apply union_subseteq. split; [set_solver|]. intros j Hj%elem_of_list_to_set.
    apply Ht in Hj as (_ & _ & Hj). unfold ids. rewrite <-Hps. by apply elem_of_list_to_set.
  - rewrite size_union, size_singleton, size_list_to_set; [|by apply NoDup_filter, NoDup_remove_dups|].
    + unfold cluster_size in Hmaj. rewrite Hps in Hmaj. lia.
    + apply disjoint_singleton_l. rewrite elem_of_list_to_set. intros Hj%Ht. by destruct Hj as (_ & ? & _).
  - intros v [->%elem_of_singleton|Hv%elem_of_list_to_set]%elem_of_union; [done|].
    apply Hres. by apply Ht.
Qed.

Lemma inv_election_done ps votes c i now n et results values :
  inv ps votes c -> nodes c !! i = Some n -> pc_of c i = Voting et results ->
  futures n results = Some values ->
  let m := start_election_finish now et values n in
  inv ps (record_vote i m votes) (set_pc i Idle (set_node i m c)).
Proof.
  intros Hinv Hn Hpc Hf m. pose proof (inv_pc_of _ _ _ i Hinv) as Hp. rewrite Hpc in Hp.
  destruct (inv_nodes _ _ _ Hinv i n Hn) as [A1 A2 A3 A4 _ _ _].
  apply inv_set_pc; [|done].
  destruct (run_ids (EvElectionFinish now et values) n) as [E1 E2].
  eapply inv_move; [done..| |by apply (run_vote_le (EvElectionFinish now et values))|
    by apply (run_state_wf (EvElectionFinish now et values))].
  unfold m, start_election_finish. destruct (_ && _) eqn:Hg; [|by left].
  rewrite !andb_true_iff, !bool_decide_eq_true in Hg. destruct Hg as [[_ Het] Hmaj].
  intros _. right. change (elected ps votes (current_term n) i). rewrite Het, <-A1.
  eapply futures_elected; [by rewrite A1|done|by rewrite A1|done|done].
Qed.

Lemma inv_election_begin ps votes c i now draw n :
  inv ps votes c -> (0 <= i)%Z -> nodes c !! i = Some n -> current_term n + 1 < U64 ->
  let '(m, req) := start_election_begin now draw n in
  inv ps (record_vote i m votes)
    (send ((fun j => VoteReq i j req) <$> stubs_ n)
       (set_pc i (Voting (rv_term req) ∅) (set_node i m c))).
Proof.
  intros Hinv Hi Hn Hroom.
  unshelve epose proof (inv_run _ _ _ _ _ (EvElectionBegin now draw) _ Hinv Hn Hroom) as Hinv';
    [done|]. cbn [run] in Hinv'.
  destruct (inv_nodes _ _ _ Hinv i n Hn) as [A1 A2 A3 A4 _ _ _].
  pose proof (run_state_wf (EvElectionBegin now draw) n Hroom A4) as Hst. cbn [run] in Hst.
  assert (let '(m, req) := start_election_begin now draw n in
          rv_term req = current_term m /\ rv_candidate_id req = i /\ voted_for m = i) as Hreq by done.
  destruct (start_election_begin now draw n) as [m req]. cbn [fst] in Hinv', Hst.
  destruct Hreq as (E1 & E2 & E3).
  apply inv_send; [apply inv_set_pc; [done|]|].
  - cbn. split_and!; [done| |by intros j; rewrite lookup_empty].
    apply elem_of_record_vote. right. rewrite E3, E1. split; [lia|done].
  - apply Forall_fmap, Forall_true. intros j. cbn. split_and!; [done|lia| |].
    + rewrite E1. by apply state_wf_term.
    + destruct A4 as [_ A4]. by rewrite A1 in A4.
Qed.

(** [c'] is [c] after a critical section of server [i]: the invariant holds
    with the vote of [i] recorded. *)
Definition inv_after (ps : list RaftPeer) (votes : history) (i : Z) (c' : cluster) : Prop :=
  exists m, nodes c' !! i = Some m /\ inv ps (record_vote i m votes) c'.

Lemma inv_after_intro ps votes i m c' :
  inv ps (record_vote i m votes) c' -> nodes c' !! i = Some m -> inv_after ps votes i c'.
Proof. intros. by exists m. Qed.

(** A server that did not move has no new vote. *)
Lemma record_vote_known ps votes i n : node_inv ps votes i n -> record_vote i n votes = votes.
Proof.
  intros Hn. unfold record_vote. case_decide; [done|].
  rewrite union_comm_L. apply subseteq_union_1_L, singleton_subseteq_l. by apply Hn.
Qed.

Lemma inv_after_still ps votes i n c c' :
  inv ps votes c -> nodes c !! i = Some n -> inv ps votes c' -> nodes c' = nodes c ->
  inv_after ps votes i c'.
Proof.
  intros Hinv Hn H E. exists n. rewrite E. split; [done|].
  by erewrite record_vote_known; [|by apply (inv_nodes _ _ _ Hinv)].
Qed.

(** The record of the server that just moved. *)
Ltac moved := eapply inv_after_intro; [|cbn; apply lookup_insert_eq].

Lemma inv_deliver ps votes c c' now draw p :
  inv ps votes c -> packet_inv votes p -> deliver now draw p c = Some c' ->
  inv_after ps votes (packet_mover p) c'.
Proof.
  intros Hinv Hp. destruct p as [src dst req|src dst et resp|src dst trm nx|src dst trm nx
    |src dst req|src dst req resp|src dst req|src dst req resp]; cbn [deliver packet_mover].
  - destruct (nodes c !! dst) as [n|] eqn:Hn; [|done]. cbn.
    pose proof (deliver_vote_req ps votes c now draw src dst req n Hinv Hp Hn) as H.
    destruct (handle_request_vote now draw req n). intros [= <-]. by moved.
  - destruct (nodes c !! src) as [n|] eqn:Hn; [|done]. cbn.
    destruct (pc_of c src) as [| | |et' results] eqn:Hpc; [done..|].
    destruct (_ && _) eqn:Hg; [|done]. apply andb_true_iff in Hg as [->%bool_decide_eq_true _].
    pose proof (deliver_vote_resp ps votes c src dst et results n (Some resp) Hinv Hn Hpc Hp) as H.
    cbn in H. destruct (bool_decide _); intros [= <-]; by moved.
  - destruct (nodes c !! src) as [n|] eqn:Hn; [|done]. cbn.
    pose proof (ni_state _ _ _ _ (inv_nodes _ _ _ Hinv _ _ Hn)) as Hst%state_wf_term.
    unfold send_check. destruct (is_leader_of trm n) eqn:El.
    2: { intros [= <-]. by eapply inv_after_still. }
    apply andb_true_iff in El as [_ <-%bool_decide_eq_true].
    case_bool_decide; intros [= <-]; eapply inv_after_still; [done|done|by apply inv_send1|done..|
      by apply inv_send1|done].
  - destruct (nodes c !! src) as [n|] eqn:Hn; [|done]. cbn.
    pose proof (ni_state _ _ _ _ (inv_nodes _ _ _ Hinv _ _ Hn)) as Hst%state_wf_term.
    unfold send_build. destruct (is_leader_of trm n) eqn:El.
    2: { intros [= <-]. by eapply inv_after_still. }
    apply andb_true_iff in El as [_ <-%bool_decide_eq_true].
    intros [= <-]. eapply inv_after_still; [done|done|by apply inv_send1|done].
  - destruct (nodes c !! dst) as [n|] eqn:Hn; [|done]. cbn.
    unshelve epose proof (inv_run _ _ _ _ _ (EvAppendEntries now draw req) _ Hinv Hn Hp) as H; [done|].
    pose proof (append_response_term now draw req n) as Ht. cbn [run] in H.
    destruct (handle_append_entries now draw req n) as [m resp]. intros [= <-].
    moved. apply inv_send1; [exact H|]. cbn in *. rewrite Ht.
    apply adopt_term_u64; [done|]. by apply (inv_nodes _ _ _ Hinv _ _ Hn).
  - destruct (nodes c !! src) as [n|] eqn:Hn; [|done]. cbn. intros [= <-].
    moved. by apply (inv_run _ _ _ _ _ (EvAppendReply _ _ _ _ resp) ltac:(done) Hinv Hn).
  - destruct (nodes c !! dst) as [n|] eqn:Hn; [|done]. cbn.
    unshelve epose proof (inv_run _ _ _ _ _ (EvInstallSnapshot now draw req) _ Hinv Hn Hp) as H; [done|].
    pose proof (install_response_term now draw req n) as Ht. cbn [run] in H.
    destruct (handle_install_snapshot now draw req n) as [m resp]. intros [= <-].
    moved. apply inv_send1; [exact H|]. cbn in *. rewrite Ht.
    apply adopt_term_u64; [done|]. by apply (inv_nodes _ _ _ Hinv _ _ Hn).
  - destruct (nodes c !! src) as [n|] eqn:Hn; [|done]. cbn. intros [= <-].
    moved. by apply (inv_run _ _ _ _ _ (EvInstallReply _ _ _ resp) ltac:(done) Hinv Hn).
Qed.

Lemma inv_exec ps votes a c c' :
  peers_ok ps -> inv ps votes c -> term_room a c = true -> exec a c = Some c' ->
  exists i, mover a c = Some i /\ inv_after ps votes i c'.
Proof.
  intros Hps Hinv Hroom. destruct a; cbn [exec];
    try (destruct (nodes c !! i) as [n|] eqn:Hn; [|done]; cbn [mbind option_bind];
         intros He; exists i; split; [done|]; revert He).
  - destruct (pc_of c i); [|done..].
    unshelve epose proof (inv_run _ _ _ _ _ (EvTick now) _ Hinv Hn I) as H; [done|].
    cbn [run] in H. destruct (tick now n) as [m act]. intros [= <-].
    moved. apply inv_set_pc; [exact H|by destruct act].
  - destruct (pc_of c i); [done| |done..].
    assert (0 <= i)%Z as Hi.
    { pose proof (ni_member _ _ _ _ (inv_nodes _ _ _ Hinv i n Hn)) as Hm.
      apply elem_of_list_to_set in Hm. destruct Hps as [_ Hps].
      rewrite Forall_forall in Hps. by apply Hps in Hm as [? _]. }
    pose proof (inv_election_begin ps votes c i now draw n Hinv Hi Hn) as H.
    cbn [term_room] in Hroom. rewrite Hn in Hroom. apply bool_decide_eq_true in Hroom.
    specialize (H Hroom).
    destruct (start_election_begin now draw n) as [m req]. intros [= <-]. by moved.
  - destruct (pc_of c i) as [| | |et results] eqn:Hpc; [done..|].
    destruct (results !! j); [done|]. intros [= <-].
    moved. by apply (deliver_vote_resp ps votes c i j et results n None).
  - destruct (pc_of c i) as [| | |et results] eqn:Hpc; [done..|].
    destruct (futures n results) as [values|] eqn:Hf; [|done]. intros [= <-].
    moved. by eapply inv_election_done.
  - destruct (pc_of c i); [done..| |done].
    destruct (replicate_begin n) as [[trm nx]|]; intros [= <-];
      (eapply inv_after_still; [done|done| |done]).
    + apply inv_send; [by apply inv_set_pc|]. apply Forall_forall. intros p.
      rewrite list_elem_of_omap. intros (j & _ & Hj). by destruct (nx !! j); simplify_eq/=.
    + by apply inv_set_pc.
  - intros [= <-]. moved. by apply (inv_run _ _ _ _ _ (EvPropose cmd) ltac:(done) Hinv Hn).
  - intros [= <-]. moved. by apply (inv_run _ _ _ _ _ (EvCompact up_to_index data) ltac:(done) Hinv Hn).
  - intros [= <-]. moved. apply inv_set_pc; [|done].
    by apply (inv_run _ _ _ _ _ (EvRestart now draw) ltac:(done) Hinv Hn).
  - cbn [mover]. destruct (wire c !! k) as [p|] eqn:Hk; [|done]. intros He. eexists.
    split; [done|]. eapply inv_deliver; [done| |exact He].
    by apply (Forall_lookup_1 _ _ _ _ (inv_wire _ _ _ Hinv) Hk).
Qed.

Lemma init_lookup ps i n :
  nodes (init ps) !! i = Some n -> i ∈ node_id <$> ps /\ n = create i ps None None 0 300.
Proof.
  cbn. intros H%elem_of_list_to_map_2. apply list_elem_of_fmap in H as (j & [= -> ->] & Hj). done.
Qed.

Lemma inv_init ps : peers_ok ps -> inv ps ∅ (init ps).
Proof.
  intros [Hnd Hr]. split; [|done..|].
  - intros i n [Hi ->]%init_lookup. split; [done..| | |done|done|done].
    + by apply elem_of_list_to_set.
    + split; [done|]. rewrite Forall_forall in Hr. apply Hr in Hi. unfold is_i32. cbn. lia.
  - done.
Qed.

Lemma reachable_Inv ps c : peers_ok ps -> reachable ps c -> Inv ps c.
Proof.
  intros Hps. induction 1 as [|a c c' _ [votes IH] Hroom He]; [eexists; by apply inv_init|].
  destruct (inv_exec ps votes a c c' Hps IH Hroom He) as (i & _ & m & _ & H). by eexists.
Qed.

(** Two majorities of one configuration share a server. *)
Lemma quorums_meet ps (Q1 Q2 : gset Z) :
  Q1 ⊆ ids ps -> Q2 ⊆ ids ps ->
  N.of_nat (length ps) / 2 + 1 <= N.of_nat (size Q1) ->
  N.of_nat (length ps) / 2 + 1 <= N.of_nat (size Q2) ->
  exists v, v ∈ Q1 /\ v ∈ Q2.
Proof.
  intros H1 H2 S1 S2. destruct (decide (Q1 ∩ Q2 ≡ ∅)) as [He|Hne].
  - exfalso. assert (Q1 ## Q2) as Hd by (apply disjoint_intersection; done).
    assert (size (Q1 ∪ Q2) <= size (ids ps))%nat as Hle
      by (apply subseteq_size; by apply union_subseteq).
    rewrite size_union in Hle by done.
    assert (size (ids ps) <= length ps)%nat as Hid.
    { unfold ids. rewrite <-(length_fmap node_id ps). generalize (node_id <$> ps). intros l.
      clear. induction l as [|x l IH]; cbn; [rewrite size_empty; done|].
      rewrite size_union_alt, size_singleton.
      pose proof (subseteq_size (list_to_set l ∖ {[x]} : gset Z) (list_to_set l)
                    ltac:(by intros ? [? _]%elem_of_difference)). lia. }
    pose proof (N.div_mod (N.of_nat (length ps)) 2 ltac:(done)).
    pose proof (N.mod_lt (N.of_nat (length ps)) 2 ltac:(done)). lia.
  - apply set_choose in Hne as [v Hv]. exists v. by apply elem_of_intersection.
Qed.

(** A term elects one server. *)
Lemma elected_unique ps votes c trm i j :
  inv ps votes c -> elected ps votes trm i -> elected ps votes trm j -> i = j.
Proof.
  intros Hinv (Q1 & I1 & S1 & V1) (Q2 & I2 & S2 & V2).
  destruct (quorums_meet ps Q1 Q2) as (v & Hv1 & Hv2); [done..|].
  apply (inv_once _ _ _ Hinv v trm); [by apply V1|by apply V2].
Qed.

(** C1: election safety on a disk that completes its writes.  In every state a
    cluster can reach, whatever the network loses, delays, duplicates or
    reorders and whichever servers stop between two critical sections and
    restart from their files, two leaders of one term are the same server.
    Every [persist] runs to its end here: a crash inside it is not a step of
    this system, and [torn_crash_elects_two] below shows that election safety
    does not survive one. *)
Theorem election_safety (ps : list RaftPeer) (c : cluster) (i j : Z) (n m : t) :
  peers_ok ps -> reachable ps c ->
  nodes c !! i = Some n -> nodes c !! j = Some m ->
  role_ n = Leader -> role_ m = Leader -> current_term n = current_term m -> i = j.
Proof.
  intros Hps Hr Hi Hj Ln Lm Et. destruct (reachable_Inv _ _ Hps Hr) as [votes Hinv].
  eapply (elected_unique ps votes c (current_term n)); [done|by apply (inv_nodes _ _ _ Hinv _ _ Hi)|].
  rewrite Et. by apply (inv_nodes _ _ _ Hinv _ _ Hj).
Qed.

(** ** A schedule of three servers *)

(** Server 1 wins term 1 with the vote of server 2. *)
Definition elect_1 : list action :=
  [ATick 1 300; AElection 1 300 300; ADeliver 0 301 300; ADeliver 2 302 300; AVoteFail 1 3;
   AElectionDone 1 310].

Lemma three_peers_ok : peers_ok three_peers.
Proof.
  split; [|by repeat constructor].
  apply (bool_decide_unpack (NoDup (node_id <$> three_peers))). vm_compute. done.
Qed.

Lemma election_safety_witness :
  exists c n, nodes c !! 1%Z = Some n /\ role_ n = Leader /\
    (forall j m, nodes c !! j = Some m -> role_ m = Leader -> current_term m = 1 -> 1%Z = j).
Proof.
  destruct (exec_all elect_1 (init three_peers)) as [c|] eqn:E; [|by vm_compute in E].
  assert (match exec_all elect_1 (init three_peers) with
          | Some c => from_option (fun n => role_ n = Leader /\ current_term n = 1) False
                        (nodes c !! 1%Z)
          | None => False end) as Hl by (vm_compute; done).
  rewrite E in Hl. destruct (nodes c !! 1%Z) as [n|] eqn:En; [|done]. destruct Hl as [Hl Ht].
  exists c, n. split_and!; [done..|]. intros j m Hm Lm Tm.
  apply (election_safety three_peers c 1 j n m); [|by eapply exec_all_reachable; [constructor|]
    |done|done|done|done|congruence].
  by apply three_peers_ok.
Defined.

(** ** A crash inside [persist]

    [start_election] of server [i] makes its new term and its own vote durable;
    the process dies when the file has been truncated and [k] bytes of it are
    written, and starts again from what is on disk. *)
Definition crash_in_election (i : Z) (k : nat) (now draw : Z) (c : cluster) : option cluster :=
  n ← nodes c !! i;
  match pc_of c i with
  | AtElection =>
    let torn := (PersistentState.set (IoEnv true (Some k)) (current_term n +u 1) (node_id_ n)
                   (state_ n)).2 in
    Some (set_pc i Idle (set_node i
            (create (node_id_ n) (peers_ n) (PersistentState.file_ torn) (RaftLog.file_ (log_ n))
               now draw) c))
  | _ => None
  end.

(** Server 1 leads term 1 with the vote of server 2, whose election timer then
    runs out. *)
Definition before_crash : list action := elect_1 ++ [ATick 2 5000].

(** Server 3, which the first request never reached, asks server 2 for its
    vote of term 1. *)
Definition after_crash : list action :=
  [ATick 3 5010; AElection 3 5010 300; ADeliver 4 5011 300; ADeliver 5 5012 300; AVoteFail 3 1;
   AElectionDone 3 5020].

Definition leads (c : cluster) (i : Z) : option (bool * N) :=
  (fun n => (role_ n =?? Leader, current_term n)) <$> nodes c !! i.

Lemma torn_outcome :
  forallb (fun k =>
    from_option (fun c => bool_decide (leads c 1 = Some (true, 1) /\ leads c 3 = Some (true, 1)))
      false
      ((exec_all before_crash (init three_peers) ≫= crash_in_election 2 k 5005 300) ≫=
       exec_all after_crash)) (seq 0 12) = true.
Proof. vm_compute. reflexivity. Qed.

(** A crash inside [persist] breaks election safety.  Wherever the write of the
    twelve bytes stops, server 2 forgets that it has voted in term 1, votes
    again, and servers 1 and 3 both lead term 1. *)
Theorem torn_crash_elects_two (k : nat) :
  (k < PersistentState.BUF_SIZE)%nat ->
  exists c c1 c2,
    reachable three_peers c /\ crash_in_election 2 k 5005 300 c = Some c1 /\
    exec_all after_crash c1 = Some c2 /\
    leads c2 1 = Some (true, 1) /\ leads c2 3 = Some (true, 1).
Proof.
  intros Hk. pose proof torn_outcome as H. rewrite forallb_forall in H.
  specialize (H k ltac:(apply in_seq; unfold PersistentState.BUF_SIZE in Hk; lia)).
  destruct (exec_all before_crash (init three_peers)) as [c|] eqn:E; [|done]. cbn [mbind option_bind] in H.
  destruct (crash_in_election 2 k 5005 300 c) as [c1|] eqn:E1; [|done]. cbn [mbind option_bind] in H.
  destruct (exec_all after_crash c1) as [c2|] eqn:E2; [|done].
  apply bool_decide_eq_true in H as [H1 H3]. exists c, c1, c2.
  split; [exact (exec_all_reachable _ _ _ _ (reach_init _) E)|done].
Qed.

Lemma torn_crash_elects_two_witness :
  exists c c1 c2,
    reachable three_peers c /\ crash_in_election 2 0 5005 300 c = Some c1 /\
    exec_all after_crash c1 = Some c2 /\
    leads c2 1 = Some (true, 1) /\ leads c2 3 = Some (true, 1).
Proof. apply (torn_crash_elects_two 0). unfold PersistentState.BUF_SIZE. lia. Defined.

(** Server 1 commits "a" and "b" with server 2; an older AppendEntries that
    only carries "a" reaches server 2 afterwards; server 2 is then elected
    with the vote of server 3 and commits "c" at the index of "b". *)
Definition stale_schedule : list action :=
  elect_1 ++
  [APropose 1 "a"; ATick 1 310; AReplicate 1; ADeliver 3 311 300; ADeliver 5 311 300;
   APropose 1 "b"; ATick 1 360; AReplicate 1; ADeliver 7 361 300; ADeliver 9 361 300;
   ADeliver 10 362 300; ADeliver 11 362 300; ADeliver 6 363 300;
   ATick 2 5000; AElection 2 5000 300; ADeliver 14 5001 300; ADeliver 15 5001 300; AVoteFail 2 1;
   AElectionDone 2 5010; APropose 2 "c"; ATick 2 5010; AReplicate 2; ADeliver 17 5011 300;
   ADeliver 18 5011 300; ADeliver 19 5011 300; ADeliver 20 5012 300; ATick 2 5061; AReplicate 2;
   ADeliver 22 5062 300; ADeliver 23 5062 300; ADeliver 24 5062 300; ADeliver 25 5062 300].

(** The packets a schedule delivers. *)
Definition delivered (acts : list action) : list nat :=
  omap (fun a => match a with ADeliver k _ _ => Some k | _ => None end) acts.

Definition view (c : cluster) (i : Z) : option (list string * option bool) :=
  (fun n => (applied_commands_ n, propose_poll 2 1 n)) <$> nodes c !! i.

Lemma stale_schedule_outcome :
  (fun c => (view c 1, view c 2)) <$> exec_all stale_schedule (init three_peers) =
  Some (Some (["a"; "b"], Some true), Some (["a"; "c"], Some false)).
Proof. vm_compute. reflexivity. Qed.

(** C5: a confirmed command can be lost.  There is a run without a crash and
    without a duplicated message, only with one late AppendEntries, in which
    [propose] confirms "b" at index 2 on server 1 and server 2 later commits
    and applies "c" at index 2: two servers apply different commands. *)
Theorem late_append_loses_committed_command :
  NoDup (delivered stale_schedule) /\
  exists c, reachable three_peers c /\
    exec_all stale_schedule (init three_peers) = Some c /\
    view c 1 = Some (["a"; "b"], Some true) /\
    view c 2 = Some (["a"; "c"], Some false).
Proof.
  split; [apply (bool_decide_unpack (NoDup (delivered stale_schedule))); vm_compute; done|].
  pose proof stale_schedule_outcome as H. apply fmap_Some in H as (c & E & [= H1 H2]).
  exists c. split; [exact (exec_all_reachable _ _ _ _ (reach_init _) E)|].
  split; [exact E|]. exact (conj (eq_sym H1) (eq_sym H2)).
Qed.
