(* ===== verification/RaftLogMatch.v ===== *)
(** * Log matching

    What the cluster of [RaftNet] guarantees about the logs themselves, in
    executions in which no server compacts its log: two logs that hold an
    entry of the same term at the same index are equal up to that index.

    The proof carries a ghost record of every leadership: the log of the
    leader of a term, which only grows.  Each prefix of each log that ends
    with an entry of term [t] is a prefix of the log of the leader of [t]. *)

From S2P Require Import Prelude Storage RaftState RaftLog RaftNode RaftNodeInv RaftApply RaftReplication RaftNet.
Import RaftNode.

(** ** Executions under a condition on the schedule *)

Inductive runs (ok : action -> cluster -> bool) (ps : list RaftPeer) : cluster -> Prop :=
| runs_init : runs ok ps (init ps)
| runs_step a c c' :
  runs ok ps c -> term_room a c = true -> ok a c = true -> exec a c = Some c' -> runs ok ps c'.

(** No server compacts, and proposed commands fit their 32-bit length field
    and leave room in the index space for the next one. *)
Definition plain_action (a : action) (c : cluster) : bool :=
  match a with
  | ACompact _ _ _ => false
  | APropose i cmd =>
    (strlen cmd <?? U32) &&
    from_option (fun n => RaftLog.last_index (log_ n) + 2 <?? U64) true (nodes c !! i)
  | _ => true
  end.

Fixpoint exec_ok (ok : action -> cluster -> bool) (acts : list action) (c : cluster)
    : option cluster :=
  match acts with
  | [] => Some c
  | a :: acts => if term_room a c && ok a c then exec a c ≫= exec_ok ok acts else None
  end.

Lemma exec_ok_runs ok ps acts c c' :
  runs ok ps c -> exec_ok ok acts c = Some c' -> runs ok ps c'.
Proof.
  revert c. induction acts as [|a acts IH]; intros c Hr; cbn; [by intros [= <-]|].
  destruct (_ && _) eqn:Ht; [|done]. apply andb_true_iff in Ht as [Ht Ho].
  destruct (exec a c) as [c1|] eqn:He; [|done]. cbn. apply IH. by eapply runs_step.
Qed.

Lemma runs_reachable ok ps c : runs ok ps c -> reachable ps c.
Proof. induction 1; by econstructor. Qed.

Lemma runs_impl (ok ok' : action -> cluster -> bool) ps c :
  (forall a c, ok a c = true -> ok' a c = true) -> runs ok ps c -> runs ok' ps c.
Proof. intros H. induction 1; econstructor; eauto. Qed.

(** ** The shape of a step

    [transition a c i n m out]: in [c], server [i] in state [n] goes to [m]
    and puts [out] on the wire. *)

Inductive transition (c : cluster) (i : Z) (n : t) : action -> t -> list packet -> Prop :=
| TrStill a : transition c i n a n []
| TrTick a now : transition c i n a (tick now n).1 []
| TrVoteReply a et reply :
  from_option (fun r => exists dst, VoteResp i dst et r ∈ wire c) True reply ->
  transition c i n a (vote_reply et reply n).1 []
| TrRestart a now draw : transition c i n a (run (EvRestart now draw) n) []
| TrVote a now draw src req :
  VoteReq src i req ∈ wire c ->
  transition c i n a (handle_request_vote now draw req n).1
    [VoteResp src i (rv_term req) (handle_request_vote now draw req n).2]
| TrElection a now draw :
  current_term n + 1 < U64 ->
  transition c i n a (start_election_begin now draw n).1
    ((fun j => VoteReq i j (start_election_begin now draw n).2) <$> stubs_ n)
| TrElectionDone a now et results values :
  pc_of c i = Voting et results -> futures n results = Some values ->
  transition c i n a (start_election_finish now et values n) []
| TrReplicate a :
  role_ n = Leader ->
  transition c i n a n
    (omap (fun j => SendTask i j (current_term n) <$> next_index_ n !! j) (stubs_ n))
| TrCheck a dst trm nx :
  SendTask i dst trm nx ∈ wire c -> transition c i n a n [BuildTask i dst trm nx]
| TrSnapshot a dst trm nx req :
  SendTask i dst trm nx ∈ wire c -> send_check trm nx n = SendSnapshot req ->
  transition c i n a n [SnapReq i dst req]
| TrBuild a dst trm nx req :
  BuildTask i dst trm nx ∈ wire c -> send_build trm nx n = Some req ->
  transition c i n a n [AppendReq i dst req]
| TrPropose cmd :
  strlen cmd < U32 -> RaftLog.last_index (log_ n) + 2 < U64 ->
  transition c i n (APropose i cmd) (propose_begin cmd n).1 []
| TrAppend k now draw src req :
  wire c !! k = Some (AppendReq src i req) ->
  transition c i n (ADeliver k now draw) (handle_append_entries now draw req n).1
    [AppendResp src i req (handle_append_entries now draw req n).2]
| TrReply a dst req resp :
  AppendResp i dst req resp ∈ wire c ->
  transition c i n a
    (append_reply (ae_term req) dst (ae_prev_log_index req)
       (N.of_nat (length (ae_entries req))) resp n) []
| TrInstall a now draw src req :
  SnapReq src i req ∈ wire c ->
  transition c i n a (handle_install_snapshot now draw req n).1
    [SnapResp src i req (handle_install_snapshot now draw req n).2]
| TrInstallReply a dst req resp :
  SnapResp i dst req resp ∈ wire c ->
  transition c i n a (install_reply (is_term req) dst (is_last_included_index req) resp n) [].

(** [c'] is [c] after server [i] took a transition. *)
Definition steps_to (a : action) (c c' : cluster) : Prop :=
  exists i n m out,
    mover a c = Some i /\ nodes c !! i = Some n /\ transition c i n a m out /\
    nodes c' = <[i := m]> (nodes c) /\ wire c' = wire c ++ out.

Lemma steps_to_intro a c c' i n m out :
  mover a c = Some i -> nodes c !! i = Some n -> transition c i n a m out ->
  nodes c' = <[i := m]> (nodes c) -> wire c' = wire c ++ out -> steps_to a c c'.
Proof. intros. by exists i, n, m, out. Qed.

(** Closes a case of the two lemmas below. *)
Ltac step_shape n :=
  eapply steps_to_intro with (n := n);
    [done|done| |first [reflexivity | symmetry; apply insert_id; done]
    |first [reflexivity | symmetry; apply app_nil_r]].

Lemma deliver_transition k now draw p c c' :
  wire c !! k = Some p -> deliver now draw p c = Some c' -> steps_to (ADeliver k now draw) c c'.
Proof.
  intros Hk. pose proof (list_elem_of_lookup_2 _ _ _ Hk) as Hin.
  assert (mover (ADeliver k now draw) c = Some (packet_mover p)) as Hm by (cbn; by rewrite Hk).
  destruct p; cbn [deliver packet_mover] in *;
    destruct (nodes c !! _) as [n|] eqn:Hn; try done; cbn [mbind option_bind].
  - destruct (handle_request_vote _ _ _ _) as [m resp] eqn:E. intros [= <-]. step_shape n.
    replace m with (handle_request_vote now draw req n).1 by by rewrite E.
    replace resp with (handle_request_vote now draw req n).2 by by rewrite E. by constructor.
  - destruct (pc_of c src) as [| | |et' results] eqn:Hpc; [done..|].
    destruct (_ && _) eqn:Hg; [|done]. apply andb_true_iff in Hg as [->%bool_decide_eq_true _].
    destruct (vote_reply _ _ _) as [m g] eqn:E. intros [= <-]. step_shape n.
    replace m with (vote_reply election_term (Some resp) n).1 by by rewrite E.
    constructor. by eexists.
  - destruct (send_check _ _ _) eqn:E; intros [= <-]; step_shape n;
      [apply TrStill|by eapply TrSnapshot|by apply TrCheck].
  - destruct (send_build _ _ _) eqn:E; intros [= <-]; step_shape n;
      [by eapply TrBuild|apply TrStill].
  - destruct (handle_append_entries _ _ _ _) as [m resp] eqn:E. intros [= <-]. step_shape n.
    replace m with (handle_append_entries now draw req n).1 by by rewrite E.
    replace resp with (handle_append_entries now draw req n).2 by by rewrite E. by constructor.
  - intros [= <-]. step_shape n. by constructor.
  - destruct (handle_install_snapshot _ _ _ _) as [m resp] eqn:E. intros [= <-]. step_shape n.
    replace m with (handle_install_snapshot now draw req n).1 by by rewrite E.
    replace resp with (handle_install_snapshot now draw req n).2 by by rewrite E. by constructor.
  - intros [= <-]. step_shape n. by constructor.
Qed.

Lemma exec_transition a c c' :
  term_room a c = true -> plain_action a c = true -> exec a c = Some c' -> steps_to a c c'.
Proof.
  intros Hroom Hok. destruct a; cbn [exec];
    try (destruct (nodes c !! i) as [n|] eqn:Hn; [|done]; cbn [mbind option_bind]).
  - destruct (pc_of c i); [|done..]. destruct (tick now n) as [m act] eqn:E. intros [= <-].
    step_shape n. replace m with (tick now n).1 by by rewrite E. constructor.
  - destruct (pc_of c i); [done| |done..]. cbn [term_room] in Hroom. rewrite Hn in Hroom.
    apply bool_decide_eq_true in Hroom.
    destruct (start_election_begin _ _ _) as [m req] eqn:E. intros [= <-]. step_shape n.
    replace m with (start_election_begin now draw n).1 by by rewrite E.
    replace req with (start_election_begin now draw n).2 by by rewrite E. by constructor.
  - destruct (pc_of c i) as [| | |et results] eqn:Hpc; [done..|].
    destruct (results !! j); [done|]. intros [= <-]. step_shape n. apply TrStill.
  - destruct (pc_of c i) as [| | |et results] eqn:Hpc; [done..|].
    destruct (futures n results) as [values|] eqn:Hf; [|done]. intros [= <-]. step_shape n.
    by eapply TrElectionDone.
  - destruct (pc_of c i); [done..| |done]. unfold replicate_begin.
    destruct (role_ n) eqn:Hr; intros [= <-]; step_shape n; [apply TrStill..|by apply TrReplicate].
  - intros [= <-]. cbn [plain_action] in Hok. rewrite Hn in Hok. apply andb_bool_decide in Hok as [??].
    step_shape n. by apply TrPropose.
  - done.
  - intros [= <-]. step_shape n. apply TrRestart.
  - destruct (wire c !! k) as [p|] eqn:Hk; [|done]. by apply deliver_transition.
Qed.

(** ** The ghost record of leaderships *)

Definition entries (n : t) : list PersistedEntry := RaftLog.entries_ (log_ n).

(** Who led a term, who voted for it before it took office, and its log. *)
Record leadership := MkLeadership {
  owner : Z;
  electors : gset Z;
  llog : list PersistedEntry;
}.

Abbreviation leaders := (gmap N leadership).

Definition leader_log (h : leaders) (trm : N) : list PersistedEntry :=
  from_option llog [] (h !! trm).

Definition voters (ps : list RaftPeer) (votes : history) (trm : N) (i : Z) : gset Z :=
  filter (fun v => (v, trm, i) ∈ votes) (ids ps).

(** The record after server [i] moved to state [m]. *)
Definition lead (ps : list RaftPeer) (votes : history) (i : Z) (m : t) (h : leaders) : leaders :=
  match role_ m with
  | Leader =>
    <[current_term m :=
        MkLeadership i
          (from_option electors (voters ps votes (current_term m) i) (h !! current_term m))
          (entries m)]> h
  | _ => h
  end.

(** [l'] is [l] followed by entries of term [trm]. *)
Definition extends (trm : N) (l l' : list PersistedEntry) : Prop :=
  exists rest, l' = l ++ rest /\ Forall (fun e => term e = trm) rest.

(** Leaderships are never dropped and their logs only grow, by entries of
    their own term. *)
Definition hext (h h' : leaders) : Prop :=
  forall trm ld, h !! trm = Some ld ->
  exists ld', h' !! trm = Some ld' /\ owner ld' = owner ld /\ electors ld' = electors ld /\
    extends trm (llog ld) (llog ld').

(** Every prefix that ends in an entry of a term is a prefix of the log of the
    leader of that term. *)
Definition good (h : leaders) (l : list PersistedEntry) : Prop :=
  forall k e, l !! k = Some e -> take (S k) l `prefix_of` leader_log h (term e).

Lemma extends_refl trm l : extends trm l l.
Proof. exists []. by rewrite app_nil_r. Qed.

Lemma extends_prefix trm l l' : extends trm l l' -> l `prefix_of` l'.
Proof. intros (rest & -> & _). by apply prefix_app_r. Qed.

Lemma leader_log_mono h h' trm : hext h h' -> leader_log h trm `prefix_of` leader_log h' trm.
Proof.
  intros H. unfold leader_log. destruct (h !! trm) as [ld|] eqn:E; cbn; [|apply prefix_nil].
  destruct (H _ _ E) as (ld' & -> & _ & _ & ?). by eapply extends_prefix.
Qed.

Lemma good_mono h h' l : hext h h' -> good h l -> good h' l.
Proof. intros H Hg k e He. etrans; [by eapply Hg|by apply leader_log_mono]. Qed.

Lemma prefix_take {A} (l1 l2 : list A) k : l1 `prefix_of` l2 -> (k <= length l1)%nat -> take k l1 = take k l2.
Proof. intros [r ->] Hk. by rewrite take_app_le. Qed.

Lemma prefix_of_take {A} (l : list A) k : take k l `prefix_of` l.
Proof. exists (drop k l). by rewrite take_drop. Qed.

Lemma good_prefix h l l' : l' `prefix_of` l -> good h l -> good h l'.
Proof.
  intros Hp Hg k e He. pose proof (lookup_lt_Some _ _ _ He).
  rewrite (prefix_take l' l) by (done || lia). apply Hg. by eapply prefix_lookup_Some.
Qed.

Lemma good_nil h : good h [].
Proof. intros k e. by rewrite lookup_nil. Qed.

(** The matching property of two good logs. *)
Lemma good_match h l1 l2 k e1 e2 :
  good h l1 -> good h l2 -> l1 !! k = Some e1 -> l2 !! k = Some e2 -> term e1 = term e2 ->
  take (S k) l1 = take (S k) l2.
Proof.
  intros G1 G2 E1 E2 Et. pose proof (G1 _ _ E1) as P1. pose proof (G2 _ _ E2) as P2.
  rewrite Et in P1. pose proof (lookup_lt_Some _ _ _ E1). pose proof (lookup_lt_Some _ _ _ E2).
  apply (prefix_take _ _ (S k)) in P1; [|rewrite length_take; lia].
  apply (prefix_take _ _ (S k)) in P2; [|rewrite length_take; lia].
  rewrite take_take in P1, P2. rewrite Nat.min_id in P1, P2. congruence.
Qed.

(** ** The invariant *)

Definition led_by (h : leaders) (trm : N) (i : Z) : Prop :=
  exists ld, h !! trm = Some ld /\ owner ld = i.

(** The request carries a segment of [l], with the term before it. *)
Definition carries (l : list PersistedEntry) (req : AppendEntriesRequest) : Prop :=
  ae_prev_log_index req <= N.of_nat (length l) /\
  (forall e, 0 < ae_prev_log_index req ->
     l !! N.to_nat (ae_prev_log_index req - 1) = Some e -> ae_prev_log_term req = term e) /\
  take (N.to_nat (ae_prev_log_index req)) l ++ (to_persisted <$> ae_entries req) `prefix_of` l.

(** The position the leader keeps for every follower is inside its log or
    just after it. *)
Definition next_ok (n : t) : Prop :=
  forall j, j ∈ stubs_ n -> 1 <= at_or_0 (next_index_ n) j <= N.of_nat (length (entries n)) + 1.

Record log_node (h : leaders) (i : Z) (n : t) : Prop := {
  ln_wf : wf n;
  ln_snap : RaftLog.snapshot_last_index_ (log_ n) = 0;
  ln_room : N.of_nat (length (entries n)) + 1 < U64;
  ln_good : good h (entries n);
  ln_leader : role_ n = Leader ->
    exists Q, h !! current_term n = Some (MkLeadership i Q (entries n));
  ln_next : role_ n = Leader -> next_ok n;
  ln_snap_term : RaftLog.snapshot_last_term_ (log_ n) = 0;
}.

Record log_term (ps : list RaftPeer) (votes : history) (h : leaders) (c : cluster)
    (trm : N) (ld : leadership) : Prop := {
  lt_elected : elected ps votes trm (owner ld);
  lt_good : good h (llog ld);
  lt_fits : Forall RaftLog.entry_fits (llog ld) /\ N.of_nat (length (llog ld)) + 1 < U64;
  lt_owner : exists n, nodes c !! owner ld = Some n /\ trm <= current_term n /\
    (current_term n = trm -> role_ n <> Candidate);
}.

Definition log_packet (ps : list RaftPeer) (h : leaders) (p : packet) : Prop :=
  match p with
  | VoteReq _ _ _ | VoteResp _ _ _ _ => True
  | SendTask src dst trm nx | BuildTask src dst trm nx =>
    dst <> src /\ dst ∈ ids ps /\ led_by h trm src /\
    1 <= nx <= N.of_nat (length (leader_log h trm)) + 1
  | AppendReq src dst req | AppendResp src dst req _ =>
    dst <> src /\ dst ∈ ids ps /\ led_by h (ae_term req) src /\
    carries (leader_log h (ae_term req)) req
  | SnapReq _ _ _ | SnapResp _ _ _ _ => False
  end.

Record log_inv (ps : list RaftPeer) (votes : history) (h : leaders) (c : cluster) : Prop := {
  li_nodes : map_Forall (log_node h) (nodes c);
  li_terms : map_Forall (log_term ps votes h c) h;
  li_wire : Forall (log_packet ps h) (wire c);
}.

(** ** Monotonicity *)

#[export] Instance hext_refl : Reflexive hext.
Proof. intros h trm ld H. exists ld. split_and!; [done..|apply extends_refl]. Qed.

Lemma led_by_mono h h' trm i : hext h h' -> led_by h trm i -> led_by h' trm i.
Proof. intros H (ld & E & <-). destruct (H _ _ E) as (ld' & ? & ? & _). by exists ld'. Qed.

Lemma carries_mono l l' req : l `prefix_of` l' -> carries l req -> carries l' req.
Proof.
  intros Hp (H1 & H2 & H3). pose proof (prefix_length _ _ Hp). split_and!.
  - lia.
  - intros e Hpos He. apply H2; [done|].
    destruct (lookup_lt_is_Some_2 l (N.to_nat (ae_prev_log_index req - 1))) as [e' He']; [lia|].
    pose proof (prefix_lookup_Some _ _ _ _ He' Hp). congruence.
  - rewrite <-(prefix_take l l') by (done || lia). by etrans.
Qed.

Lemma log_packet_mono ps h h' p : hext h h' -> log_packet ps h p -> log_packet ps h' p.
Proof.
  intros Hx. destruct p; cbn; try done; intros (? & ? & ? & Hc);
    (split_and!; [done|done|by eapply led_by_mono|..]).
  all: try (pose proof (prefix_length _ _ (leader_log_mono _ _ trm Hx)); lia).
  all: eapply carries_mono; [by apply leader_log_mono|done].
Qed.

(** ** One server moves *)

Record log_move (ps : list RaftPeer) (votes : history) (h : leaders) (i : Z) (n m : t) : Prop := {
  lm_wf : wf m;
  lm_snap : RaftLog.snapshot_last_index_ (log_ m) = 0;
  lm_room : N.of_nat (length (entries m)) + 1 < U64;
  lm_term : current_term n <= current_term m;
  lm_cand : role_ m = Candidate ->
    (role_ n = Candidate /\ current_term m = current_term n) \/ current_term n < current_term m;
  lm_good : good h (entries m) \/
    (role_ m = Leader /\ exists e, entries m = entries n ++ [e] /\ term e = current_term m);
  lm_leader : role_ m = Leader ->
    elected ps votes (current_term m) i /\
    forall ld, h !! current_term m = Some ld ->
      owner ld = i /\ extends (current_term m) (llog ld) (entries m);
  lm_next : role_ m = Leader -> next_ok m;
  lm_snap_term : RaftLog.snapshot_last_term_ (log_ m) = 0;
}.

Lemma lead_follower ps votes i m h : role_ m <> Leader -> lead ps votes i m h = h.
Proof. unfold lead. by destruct (role_ m). Qed.

Lemma lead_leader ps votes i m h :
  role_ m = Leader ->
  exists Q, lead ps votes i m h = <[current_term m := MkLeadership i Q (entries m)]> h /\
    (forall ld, h !! current_term m = Some ld -> electors ld = Q).
Proof.
  unfold lead. intros ->. eexists. split; [done|]. by intros ld ->.
Qed.

Lemma lead_ext ps votes votes' h i n m :
  log_move ps votes h i n m -> hext h (lead ps votes' i m h).
Proof.
  intros Hm trm ld E. destruct (decide (role_ m = Leader)) as [Hl|Hl].
  2: { rewrite lead_follower by done. by apply hext_refl. }
  destruct (lead_leader ps votes' i m h Hl) as (Q & -> & HQ).
  destruct (decide (trm = current_term m)) as [->|Hne].
  - rewrite lookup_insert_eq. eexists. split; [done|]. cbn.
    destruct (proj2 (lm_leader _ _ _ _ _ _ Hm Hl) _ E). rewrite (HQ _ E). done.
  - rewrite lookup_insert_ne by done. by apply hext_refl.
Qed.

Lemma log_move_good ps votes votes' h i n m :
  log_move ps votes h i n m -> good h (entries n) -> good (lead ps votes' i m h) (entries m).
Proof.
  intros Hm Hn. pose proof (lead_ext ps votes votes' h i n m Hm) as Hx.
  destruct (lm_good _ _ _ _ _ _ Hm) as [?|(Hl & e & Ee & Et)]; [by eapply good_mono|].
  destruct (lead_leader ps votes' i m h Hl) as (Q & E & _). intros k x Hk.
  rewrite Ee in Hk. apply lookup_app_Some in Hk as [Hk|[Hge Hk]].
  - pose proof (lookup_lt_Some _ _ _ Hk). rewrite Ee, take_app_le by lia.
    by apply (good_mono _ _ _ Hx Hn).
  - apply list_lookup_singleton_Some in Hk as [_ <-]. unfold leader_log.
    rewrite E, Et, lookup_insert_eq. cbn. apply prefix_of_take.
Qed.

(** The server that moved. *)
Lemma log_move_node ps votes votes' h i n m :
  log_move ps votes h i n m -> good h (entries n) -> log_node (lead ps votes' i m h) i m.
Proof.
  intros Hm Hn. pose proof Hm as [? ? ? ? ? ? Hlead Hnext ?]. split; [done|done|done| | |done|done].
  - by eapply log_move_good.
  - intros Hl. destruct (lead_leader ps votes' i m h Hl) as (Q & -> & _). exists Q.
    apply lookup_insert_eq.
Qed.

(** A server that did not. *)
Lemma log_move_other ps votes votes' h c i j n m x :
  inv ps votes c -> log_move ps votes h i n m -> nodes c !! j = Some x -> j <> i ->
  log_node h j x -> log_node (lead ps votes' i m h) j x.
Proof.
  intros Hinv Hm Hx Hne [? ? ? ? Hl ? ?]. pose proof (lead_ext ps votes votes' h i n m Hm) as Hxt.
  split; [done|done|done|by eapply good_mono| |done|done].
  intros Hlx. destruct (decide (role_ m = Leader)) as [Hlm|?]; [|by rewrite lead_follower; auto].
  destruct (lead_leader ps votes' i m h Hlm) as (Q & -> & _).
  destruct (decide (current_term m = current_term x)) as [E|?].
  - exfalso. apply Hne. eapply (elected_unique ps votes c (current_term x)); [done| |].
    + by apply (inv_nodes _ _ _ Hinv _ _ Hx).
    + rewrite <-E. by apply (lm_leader _ _ _ _ _ _ Hm).
  - rewrite lookup_insert_ne by done. auto.
Qed.

Lemma wf_entries n : wf n -> Forall RaftLog.entry_fits (entries n).
Proof. by intros (_ & [(_ & _ & _ & ?) _] & _). Qed.

Lemma log_move_term ps votes votes' h c i n m trm ld :
  log_move ps votes h i n m -> votes ⊆ votes' -> good h (entries n) -> nodes c !! i = Some n ->
  map_Forall (log_term ps votes h c) h -> lead ps votes' i m h !! trm = Some ld ->
  log_term ps votes' (lead ps votes' i m h) (set_node i m c) trm ld.
Proof.
  intros Hm Hs Hgn Hn Hh E. pose proof (lead_ext ps votes votes' h i n m Hm) as Hx.
  assert (h !! trm = Some ld \/
          (role_ m = Leader /\ trm = current_term m /\ owner ld = i /\ llog ld = entries m))
    as [H|(Hl & -> & Eo & El)].
  { destruct (decide (role_ m = Leader)) as [Hl|Hl]; [|left; by rewrite lead_follower in E].
    destruct (lead_leader ps votes' i m h Hl) as (Q & Eq & _). rewrite Eq in E.
    apply lookup_insert_Some in E as [[<- <-]|[_ ?]]; [by right|by left]. }
  - destruct (Hh _ _ H) as [H1 H2 H3 (x & H4 & H5 & H6)].
    split; [by eapply elected_mono|by eapply good_mono|done|]. cbn.
    destruct (decide (owner ld = i)) as [Eo|Hne].
    2: { exists x. rewrite lookup_insert_ne by done. done. }
    rewrite Eo in H4 |- *. simplify_eq. exists m. rewrite lookup_insert_eq.
    pose proof (lm_term _ _ _ _ _ _ Hm). split_and!; [done|lia|]. intros Et Hc.
    destruct (lm_cand _ _ _ _ _ _ Hm Hc) as [[Hcn ?]|?]; [|lia]. apply H6; [congruence|done].
  - split.
    + rewrite Eo. eapply elected_mono; [done|]. by apply (lm_leader _ _ _ _ _ _ Hm).
    + rewrite El. by eapply log_move_good.
    + rewrite El. split; [apply wf_entries|]; apply Hm.
    + exists m. cbn. rewrite Eo, lookup_insert_eq. split_and!; [done..|]. congruence.
Qed.

Lemma log_inv_move ps votes h c i n m :
  inv ps votes c -> log_inv ps votes h c -> nodes c !! i = Some n -> log_move ps votes h i n m ->
  let votes' := record_vote i m votes in
  log_inv ps votes' (lead ps votes' i m h) (set_node i m c).
Proof.
  intros Hinv [Hns Hts Hws] Hn Hm votes'.
  pose proof (ln_good _ _ _ (Hns _ _ Hn)) as Hgn. split.
  - intros j x Hx. cbn in Hx. apply lookup_insert_Some in Hx as [[<- <-]|[Hne Hx]].
    + by eapply log_move_node.
    + eapply log_move_other; [done..|by apply Hns].
  - intros trm ld E. eapply log_move_term; [done|apply record_vote_mono|done..].
  - eapply Forall_impl; [exact Hws|]. intros p. apply log_packet_mono. by eapply lead_ext.
Qed.

(** A server that did not move leaves the record alone. *)
Lemma lead_known ps votes h i n : log_node h i n -> lead ps votes i n h = h.
Proof.
  intros [_ _ _ _ Hl _ _]. destruct (decide (role_ n = Leader)) as [Hr|?]; [|by apply lead_follower].
  destruct (Hl Hr) as [Q E]. unfold lead. rewrite Hr, E. cbn. by apply insert_id.
Qed.

(** ** The critical sections as moves *)

Lemma stubs_eq n m : node_id_ m = node_id_ n -> peers_ m = peers_ n -> stubs_ m = stubs_ n.
Proof. unfold stubs_. by intros -> ->. Qed.

Lemma vote_le_term n m : vote_le n m -> current_term n <= current_term m.
Proof. intros [?|[? _]]; lia. Qed.

(** Critical sections that do not touch the log. *)
Lemma log_move_log ps votes h i n m :
  node_inv ps votes i n -> log_node h i n -> wf m -> log_ m = log_ n ->
  (role_ m = Leader -> next_ok m) -> keeps n m -> vote_le n m ->
  (role_ m = Candidate -> role_ n = Candidate /\ current_term m = current_term n) ->
  log_move ps votes h i n m.
Proof.
  intros Hi [Hw Hs Hrm Hg Hl Hx Hst] Hwm El En (E1 & E2 & Hk) Hv Hc.
  assert (entries m = entries n) as Ee by (unfold entries; by rewrite El).
  split; [done|by rewrite El|by rewrite Ee|by apply vote_le_term|by left; auto
    |left; by rewrite Ee| |done|by rewrite El].
  intros Hr. destruct (Hk Hr) as [Hrn Et]. rewrite Et. split; [by apply Hi|].
  intros ld E. destruct (Hl Hrn) as [Q E']. rewrite E' in E. injection E as <-.
  rewrite Ee. split; [done|apply extends_refl].
Qed.

(** Nor [next_index_]. *)
Lemma log_move_same ps votes h i n m :
  node_inv ps votes i n -> log_node h i n -> wf m -> log_ m = log_ n ->
  (role_ m = Leader -> next_index_ m = next_index_ n) -> keeps n m -> vote_le n m ->
  (role_ m = Candidate -> role_ n = Candidate /\ current_term m = current_term n) ->
  log_move ps votes h i n m.
Proof.
  intros Hi Hl Hwm El En Hk Hv Hc. apply log_move_log; [done..| |done|done|done].
  intros Hr j. pose proof Hk as (E1 & E2 & Hk'). destruct (Hk' Hr) as [Hrn _].
  rewrite (En Hr), (stubs_eq n m) by done. unfold entries. rewrite El. by apply Hl.
Qed.

(** Events that leave the log and the replication indices alone. *)
Definition quiet (e : event) : bool :=
  match e with
  | EvRequestVote _ _ _ | EvTick _ | EvVoteReply _ _ | EvRestart _ _ => true
  | _ => false
  end.

Lemma adopt_quiet trm n :
  log_ (adopt trm n) = log_ n /\
  (role_ (adopt trm n) = Leader -> next_index_ (adopt trm n) = next_index_ n) /\
  (role_ (adopt trm n) = Candidate ->
   role_ n = Candidate /\ current_term (adopt trm n) = current_term n).
Proof. unfold adopt. by case_bool_decide. Qed.

Lemma quiet_frame e n :
  quiet e = true -> wf n ->
  log_ (run e n) = log_ n /\
  (role_ (run e n) = Leader -> next_index_ (run e n) = next_index_ n) /\
  (role_ (run e n) = Candidate -> role_ n = Candidate /\ current_term (run e n) = current_term n).
Proof.
  destruct e; try done; intros _ Hw; cbn [run].
  - unfold handle_request_vote. fold (adopt (rv_term req) n).
    pose proof (adopt_quiet (rv_term req) n) as H. set (a := adopt (rv_term req) n) in *. clearbody a.
    case_bool_decide; [done|]. by case_match.
  - unfold tick. case_match; [done|]. by case_match.
  - destruct reply as [r|]; [|done]. cbn. case_bool_decide; [|done]. by case_bool_decide.
  - destruct (create_wf (node_id_ n) (peers_ n) now draw n Hw) as (_ & _ & El); [apply Hw|]. done.
Qed.

Lemma log_move_quiet ps votes h i n e :
  quiet e = true -> event_ok e n -> node_inv ps votes i n -> log_node h i n ->
  log_move ps votes h i n (run e n).
Proof.
  intros Hq He Hi Hl. pose proof (ln_wf _ _ _ Hl) as Hw.
  destruct (quiet_frame e n Hq Hw) as (E1 & E2 & E3).
  apply log_move_same; [done|done|by apply run_wf_event|done|done| | |done].
  - apply run_keeps. by destruct e.
  - apply run_vote_le; [by apply event_ok_terms|apply Hi].
Qed.

Lemma log_move_election ps votes h i n now draw :
  current_term n + 1 < U64 -> node_inv ps votes i n -> log_node h i n ->
  log_move ps votes h i n (start_election_begin now draw n).1.
Proof.
  intros Hr Hi [Hw Hs Hrm Hg Hl Hx Hst].
  assert (current_term (start_election_begin now draw n).1 = current_term n + 1) as Et.
  { change (current_term n +u 1 = current_term n + 1). by apply u64_add_small. }
  split; [by apply (run_wf_event (EvElectionBegin now draw))|done|done|lia|right; lia|by left|done..].
Qed.

Lemma at_or_0_list_to_map (js : list Z) (x : N) j :
  j ∈ js -> at_or_0 (list_to_map ((fun i => (i, x)) <$> js)) j = x.
Proof.
  intros Hj. unfold at_or_0. induction js as [|k js IH]; [by apply not_elem_of_nil in Hj|].
  cbn. destruct (decide (k = j)) as [->|Hne]; [by rewrite lookup_insert_eq|].
  rewrite lookup_insert_ne by done. apply IH. apply elem_of_cons in Hj as [?|?]; [congruence|done].
Qed.

Lemma at_or_0_insert (m : gmap Z N) j v : at_or_0 (<[j := v]> m) j = v.
Proof. unfold at_or_0. by rewrite lookup_insert_eq. Qed.

Lemma at_or_0_insert_ne (m : gmap Z N) i j v : i <> j -> at_or_0 (<[i := v]> m) j = at_or_0 m j.
Proof. intros. unfold at_or_0. by rewrite lookup_insert_ne. Qed.

Lemma last_index_entries n :
  wf n -> RaftLog.snapshot_last_index_ (log_ n) = 0 ->
  RaftLog.last_index (log_ n) = N.of_nat (length (entries n)).
Proof. intros (_ & [Hf _] & _) Hs. rewrite RaftLog.last_index_eq, Hs by done. done. Qed.

(** A candidate that wins has no leadership on record for its term. *)
Lemma log_move_finish ps votes h c i n now et values results :
  inv ps votes c -> log_inv ps votes h c -> nodes c !! i = Some n ->
  pc_of c i = Voting et results -> futures n results = Some values ->
  log_move ps votes h i n (start_election_finish now et values n).
Proof.
  intros Hinv Hlog Hn Hpc Hf.
  pose proof (inv_nodes _ _ _ Hinv _ _ Hn) as Hi. pose proof (li_nodes _ _ _ _ Hlog _ _ Hn) as Hl.
  pose proof (ln_wf _ _ _ Hl) as Hw. pose proof (ln_snap _ _ _ Hl) as Hs.
  unfold start_election_finish. destruct (_ && _) eqn:E.
  2: { by apply log_move_same. }
  rewrite !andb_true_iff, !bool_decide_eq_true in E. destruct E as [[Hc <-] Hmaj].
  assert (elected ps votes (current_term n) i) as Hel.
  { pose proof (inv_pc_of _ _ _ i Hinv) as Hp. rewrite Hpc in Hp.
    destruct Hi as [A1 A2 A3 _ _ _ _]. rewrite <-A1.
    eapply futures_elected; [by rewrite A1|done|by rewrite A1|done|done]. }
  split; [done|done|apply Hl|done|done|by left; apply Hl| | |apply Hl].
  - intros _. split; [done|]. intros ld El. exfalso.
    change (h !! current_term n = Some ld) in El.
    destruct (li_terms _ _ _ _ Hlog _ _ El) as [Hel' _ _ (x & Hx & _ & Hrx)].
    assert (owner ld = i) as Eo by (by eapply elected_unique). rewrite Eo in Hx. simplify_eq.
    by apply Hrx.
  - intros _ j Hj. cbn [next_index_ with_timers with_indices].
    change (j ∈ stubs_ n) in Hj. change (stubs_ (with_leader_id _ _)) with (stubs_ n).
    rewrite at_or_0_list_to_map by done. change (log_ (with_leader_id _ _)) with (log_ n).
    change (entries _) with (entries n). rewrite last_index_entries by done.
    rewrite u64_add_small; [lia|]. apply Hl.
Qed.

(** What [advance_commit_index_locked] leaves alone. *)
Lemma apply_loop_indices fuel n :
  next_index_ (apply_loop fuel n) = next_index_ n /\
  match_index_ (apply_loop fuel n) = match_index_ n.
Proof.
  revert n. induction fuel as [|fuel IH]; intros n; cbn [apply_loop]; [done|].
  case_bool_decide; [|done].
  match goal with |- context [apply_loop fuel ?m] => exact (IH m) end.
Qed.

Lemma advance_indices n :
  next_index_ (advance_commit_index_locked n) = next_index_ n /\
  match_index_ (advance_commit_index_locked n) = match_index_ n.
Proof.
  unfold advance_commit_index_locked. case_match; [|done]. case_bool_decide; [|done].
  apply (apply_loop_indices _ (with_commit _ n)).
Qed.

Lemma next_ok_core n m :
  core m = core n -> next_index_ m = next_index_ n -> next_ok n -> next_ok m.
Proof.
  intros (E1 & E2 & _ & E3 & _)%core_eq En H j. unfold entries.
  rewrite En, E3, (stubs_eq n m) by done. apply H.
Qed.

Lemma append_entries trm cmd l :
  RaftLog.entries_ (RaftLog.append_ok trm cmd l) = RaftLog.entries_ l ++ [MkEntry trm cmd] /\
  RaftLog.snapshot_last_index_ (RaftLog.append_ok trm cmd l) = RaftLog.snapshot_last_index_ l /\
  RaftLog.snapshot_last_term_ (RaftLog.append_ok trm cmd l) = RaftLog.snapshot_last_term_ l.
Proof. unfold RaftLog.append_ok, RaftLog.append. by rewrite RaftLog.persist_ok. Qed.

(** What a leader's [propose_begin] does to its log. *)
Lemma propose_frame cmd n :
  role_ n = Leader ->
  let m := (propose_begin cmd n).1 in
  role_ m = Leader /\ current_term m = current_term n /\
  node_id_ m = node_id_ n /\ peers_ m = peers_ n /\
  entries m = entries n ++ [MkEntry (current_term n) cmd] /\
  RaftLog.snapshot_last_index_ (log_ m) = RaftLog.snapshot_last_index_ (log_ n) /\
  RaftLog.snapshot_last_term_ (log_ m) = RaftLog.snapshot_last_term_ (log_ n) /\
  next_index_ m = next_index_ n /\ match_index_ m = match_index_ n.
Proof.
  intros Hr. unfold propose_begin. rewrite Hr. cbn [fst]. cbv zeta.
  destruct (append_entries (current_term n) cmd (log_ n)) as (E1 & E2 & E3).
  set (x := with_log _ n). unfold entries, current_term.
  destruct (core_eq _ _ (core_advance x)) as (-> & -> & -> & -> & ->).
  destruct (advance_indices x) as [-> ->]. done.
Qed.

Lemma log_move_propose ps votes h i n cmd :
  strlen cmd < U32 -> RaftLog.last_index (log_ n) + 2 < U64 ->
  node_inv ps votes i n -> log_node h i n -> log_move ps votes h i n (propose_begin cmd n).1.
Proof.
  intros Hc Hb Hi Hl. destruct (decide (role_ n = Leader)) as [Hr|Hr].
  2: { assert ((propose_begin cmd n).1 = n) as -> by (unfold propose_begin; by destruct (role_ n)).
       apply log_move_same; try done. apply Hl. }
  pose proof Hl as [Hw Hs Hrm Hg Hld Hx Hst].
  destruct (propose_frame cmd n Hr) as (E1 & E2 & E3 & E4 & E5 & E6 & E8 & E7 & _).
  rewrite last_index_entries in Hb by done.
  split; [apply propose_begin_wf; [|done|done]|by rewrite E6|..].
  - rewrite last_index_entries by done. lia.
  - rewrite E5, length_app. cbn. lia.
  - lia.
  - congruence.
  - right. split; [done|]. eexists. split; [done|]. by rewrite E2.
  - intros _. rewrite E2. split; [by apply Hi|]. intros ld E. destruct (Hld Hr) as [Q E'].
    rewrite E' in E. injection E as <-. split; [done|]. cbn. rewrite E5.
    eexists. split; [done|]. by repeat constructor.
  - intros _ j. rewrite E7, E5, length_app, (stubs_eq n) by done. intros Hj.
    specialize (Hx Hr j Hj). cbn. lia.
  - by rewrite E8.
Qed.

(** ** [handle_append_entries] *)

(** The three outcomes: stale term, failed consistency check, accepted. *)
Lemma append_cases now draw req n :
  let '(m, resp) := handle_append_entries now draw req n in
  (ae_term req < current_term n /\ m = n /\ aer_success resp = false) \/
  (current_term n <= ae_term req /\ role_ m = Follower /\ current_term m = ae_term req /\
   aer_success resp = false /\ log_ m = log_ n /\ commit_index_ m = commit_index_ n /\
   last_applied_ m = last_applied_ n /\ applied_commands_ m = applied_commands_ n) \/
  (current_term n <= ae_term req /\ role_ m = Follower /\ current_term m = ae_term req /\
   aer_success resp = true /\ prev_ok req (log_ n) = true /\
   log_ m = (match ae_entries req with
             | [] => log_ n
             | _ => RaftLog.truncate_and_append_ok (ae_prev_log_index req)
                      (to_persisted <$> ae_entries req) (log_ n)
             end) /\
   commit_index_ m = (if commit_index_ n <?? ae_leader_commit req
                      then N.min (ae_leader_commit req) (RaftLog.last_index (log_ m))
                      else commit_index_ n)).
Proof.
  unfold handle_append_entries. fold (adopt (ae_term req) n).
  destruct (adopt_frame (ae_term req) n) as (_ & _ & El & Ec & Ea & Eac & Et).
  case_bool_decide as Hlt; cbv beta iota.
  { left. unfold adopt in *. case_bool_decide; [lia|]. split_and!; [lia|done..]. }
  cbv zeta. set (x := reset_election_deadline_locked _ _ _).
  assert (log_ x = log_ n /\ commit_index_ x = commit_index_ n /\ role_ x = Follower /\
          last_applied_ x = last_applied_ n /\ applied_commands_ x = applied_commands_ n /\
          current_term x = ae_term req) as (X1 & X2 & X3 & X5 & X6 & X4).
  { split_and!; [done..|]. change (current_term (adopt (ae_term req) n) = ae_term req). lia. }
  clearbody x. rewrite X1. destruct (prev_ok req (log_ n)) eqn:Hp;
    cbv beta iota; right; [|by left; split; [lia|]].
  right. split; [lia|]. set (y := match _ with [] => x | _ => _ end).
  assert (log_ y = match ae_entries req with [] => log_ n | _ =>
            RaftLog.truncate_and_append_ok (ae_prev_log_index req)
              (to_persisted <$> ae_entries req) (log_ n) end /\
          commit_index_ y = commit_index_ n /\ role_ y = Follower /\
          current_term y = ae_term req) as (Y1 & Y2 & Y3 & Y4).
  { unfold y. by destruct (ae_entries req). }
  clearbody y. rewrite Y2. case_bool_decide; [|by split_and!].
  set (z := with_commit _ y). unfold current_term. cbn [fst].
  destruct (core_eq _ _ (core_apply z)) as (_ & _ & -> & -> & ->).
  rewrite commit_apply. by split_and!.
Qed.

Lemma entry_at_entries n i :
  RaftLog.snapshot_last_index_ (log_ n) = 0 -> 0 < i ->
  RaftLog.entry_at (log_ n) i = entries n !! N.to_nat (i - 1).
Proof.
  intros Hs Hi. unfold RaftLog.entry_at. rewrite Hs, bool_decide_eq_false_2 by lia.
  unfold entries. f_equal. lia.
Qed.

(** The consistency check: the follower's log agrees with the leader's up to
    [prev_log_index]. *)
Lemma prev_ok_agrees h n l req :
  wf n -> RaftLog.snapshot_last_index_ (log_ n) = 0 -> good h (entries n) -> good h l ->
  carries l req -> prev_ok req (log_ n) = true ->
  ae_prev_log_index req <= N.of_nat (length (entries n)) /\
  take (N.to_nat (ae_prev_log_index req)) (entries n) = take (N.to_nat (ae_prev_log_index req)) l.
Proof.
  intros Hw Hs Hg Hgl (H1 & H2 & _) Hp. pose proof Hw as (_ & [Hf _] & _).
  pose proof (prev_ok_le _ _ Hf Hp) as Hle. rewrite last_index_entries in Hle by done.
  split; [done|]. set (p := ae_prev_log_index req) in *.
  destruct (decide (p = 0)) as [->|Hp0]; [done|].
  unfold prev_ok in Hp. fold p in Hp. unfold RaftLog.snapshot_last_index in Hp. rewrite Hs in Hp.
  rewrite !bool_decide_eq_true_2 in Hp by lia. apply andb_true_iff in Hp as [_ Hp].
  apply bool_decide_eq_true in Hp.
  rewrite RaftLog.term_at_entry, entry_at_entries in Hp by (done || lia).
  destruct (lookup_lt_is_Some_2 (entries n) (N.to_nat (p - 1))) as [e1 E1]; [lia|].
  destruct (lookup_lt_is_Some_2 l (N.to_nat (p - 1))) as [e2 E2]; [lia|].
  rewrite E1 in Hp. cbn in Hp. rewrite (H2 e2) in Hp by (done || lia).
  pose proof (good_match h _ _ _ _ _ Hg Hgl E1 E2 Hp) as H.
  by replace (S (N.to_nat (p - 1))) with (N.to_nat p) in H by lia.
Qed.

(** The request of a recorded leader fits. *)
Lemma carries_ok l req :
  carries l req -> Forall RaftLog.entry_fits l -> N.of_nat (length l) + 1 < U64 ->
  ae_prev_log_index req + N.of_nat (length (ae_entries req)) <= N.of_nat (length l) /\
  Forall RaftLog.entry_fits (to_persisted <$> ae_entries req).
Proof.
  intros (H1 & _ & H3) Hf Hl. pose proof (prefix_length _ _ H3) as Hlen.
  rewrite length_app, length_take, length_fmap in Hlen. split; [lia|].
  destruct H3 as [r Hr]. rewrite Hr in Hf. by apply Forall_app in Hf as [[_ Hf]%Forall_app _].
Qed.

(** The follower's log after an accepted request. *)
Lemma accepted_entries h n m l req :
  log_node h (node_id_ n) n -> good h l -> carries l req ->
  Forall RaftLog.entry_fits l -> N.of_nat (length l) + 1 < U64 ->
  prev_ok req (log_ n) = true ->
  log_ m = (match ae_entries req with
            | [] => log_ n
            | _ => RaftLog.truncate_and_append_ok (ae_prev_log_index req)
                     (to_persisted <$> ae_entries req) (log_ n)
            end) ->
  RaftLog.snapshot_last_index_ (log_ m) = 0 /\ RaftLog.snapshot_last_term_ (log_ m) = 0 /\
  entries m = (match ae_entries req with
               | [] => entries n
               | _ => take (N.to_nat (ae_prev_log_index req)
                            + length (ae_entries req)) l
               end) /\
  take (N.to_nat (ae_prev_log_index req)) (entries n) =
    take (N.to_nat (ae_prev_log_index req)) l.
Proof.
  intros [Hw Hs _ Hg _ _ Hst] Hgl Hc Hf Hl Hp El.
  destruct (prev_ok_agrees h n l req) as [Hle Ht]; [done..|].
  destruct (carries_ok l req Hc Hf Hl) as [Hb He]. split_and!; [| | |done].
  1,2: rewrite El; destruct (ae_entries req) as [|x xs] eqn:E; [done|];
    pose proof Hw as (_ & [Hfl _] & _);
    match goal with |- context [RaftLog.truncate_and_append_ok ?k ?new ?l] =>
      destruct (RaftLog.truncate_snapshot k new l Hfl) as (E1 & E2 & _) end;
    [rewrite length_fmap; lia|congruence].
  - unfold entries at 1. rewrite El. destruct (ae_entries req) as [|x xs] eqn:E; [done|].
    pose proof Hw as (_ & [Hfl _] & _).
    rewrite RaftLog.truncate_and_append_eq by (done || (rewrite length_fmap; lia)).
    rewrite RaftLog.persist_ok, Hs. cbn [snd RaftLog.entries_ RaftLog.with_file RaftLog.with_entries].
    rewrite N.sub_0_r. change (N.to_nat (0 - _)) with O. rewrite drop_0. fold (entries n). rewrite Ht.
    destruct Hc as (H1 & _ & H3). rewrite E in H3. pose proof (prefix_length _ _ H3) as Hlen.
    apply (prefix_take _ _ (N.to_nat (ae_prev_log_index req) + length (x :: xs))) in H3.
    + rewrite <-H3. symmetry. apply take_ge. rewrite length_app, length_take, length_fmap. lia.
    + rewrite length_app, length_take, length_fmap. lia.
Qed.

(** What the record knows of the term of a request. *)
Lemma led_by_log ps votes h c trm i :
  log_inv ps votes h c -> led_by h trm i ->
  elected ps votes trm i /\ good h (leader_log h trm) /\
  Forall RaftLog.entry_fits (leader_log h trm) /\ N.of_nat (length (leader_log h trm)) + 1 < U64.
Proof.
  intros Hlog (ld & E & <-). unfold leader_log. rewrite E. cbn.
  destruct (li_terms _ _ _ _ Hlog _ _ E) as [? ? [? ?] _]. done.
Qed.

Lemma log_move_append ps votes h c i n now draw src req :
  inv ps votes c -> log_inv ps votes h c -> nodes c !! i = Some n ->
  packet_inv votes (AppendReq src i req) -> log_packet ps h (AppendReq src i req) ->
  log_move ps votes h i n (handle_append_entries now draw req n).1.
Proof.
  intros Hinv Hlog Hn Hu (Hne & Hid & Hled & Hc).
  pose proof (inv_nodes _ _ _ Hinv _ _ Hn) as Hi. pose proof (li_nodes _ _ _ _ Hlog _ _ Hn) as Hl.
  destruct (led_by_log _ _ _ _ _ _ Hlog Hled) as (_ & Hgl & Hfit & Hlen).
  destruct (carries_ok _ _ Hc Hfit Hlen) as [Hb He].
  pose proof (append_cases now draw req n) as Hcs.
  assert (wf (handle_append_entries now draw req n).1) as Hwm.
  { apply handle_append_entries_wf; [|apply Hl]. split_and!; [done|lia|done]. }
  destruct (handle_append_entries now draw req n) as [m resp]. cbn [fst] in *.
  destruct Hcs as [(_ & -> & _)|[(Ht & Hr & Et & _ & El & _)|(Ht & Hr & Et & _ & Hp & El & _)]].
  - apply log_move_same; try done.
  - pose proof Hl as [Hw Hs Hrm Hg _ _ Hst].
    assert (entries m = entries n) as Ee by (unfold entries; by rewrite El).
    split; [done|by rewrite El|by rewrite Ee|lia|congruence|left; by rewrite Ee|congruence..|by rewrite El].
  - pose proof Hl as [Hw Hs Hrm Hg _ _ _]. rewrite <-(ni_id _ _ _ _ Hi) in Hl.
    destruct (accepted_entries h n m _ req Hl Hgl Hc Hfit Hlen Hp El) as (Es & Est & Ee & _).
    split; [done|done| |lia|congruence|left|congruence..|done]; rewrite Ee;
      destruct (ae_entries req); [done| |done|].
    + rewrite length_take. lia.
    + eapply good_prefix; [apply prefix_of_take|done].
Qed.

(** The reply to a request: the leader's position for the follower. *)
Lemma append_reply_next n dst req resp :
  next_ok n -> carries (entries n) req -> N.of_nat (length (entries n)) + 1 < U64 -> wf n ->
  next_ok (append_reply (ae_term req) dst (ae_prev_log_index req)
             (N.of_nat (length (ae_entries req))) resp n) \/
  role_ (append_reply (ae_term req) dst (ae_prev_log_index req)
           (N.of_nat (length (ae_entries req))) resp n) <> Leader.
Proof.
  intros Hx Hc Hb Hw. destruct (carries_ok _ _ Hc (wf_entries n Hw) Hb) as [Hle _].
  unfold append_reply. case_bool_decide; [by right|left]. case_match; [|done]. case_match.
  - match goal with |- next_ok (advance_commit_index_locked ?x) =>
      apply (next_ok_core x); [apply core_advance|apply advance_indices|] end.
    intros j Hj. cbn [next_index_ with_indices]. change (entries (with_indices _ _ n)) with (entries n).
    rewrite !u64_add_small by (rewrite ?u64_add_small; lia).
    destruct (decide (dst = j)) as [->|Hne]; [rewrite at_or_0_insert; lia|].
    rewrite at_or_0_insert_ne by done. by apply Hx.
  - intros j Hj. specialize (Hx j Hj). cbn [next_index_ with_indices].
    change (entries (with_indices _ _ n)) with (entries n).
    destruct (decide (dst = j)) as [->|Hne]; [|by rewrite at_or_0_insert_ne].
    rewrite at_or_0_insert. case_bool_decide; [|done]. rewrite u64_sub_le by lia. lia.
Qed.

Lemma append_reply_log trm dst prev sent resp n :
  log_ (append_reply trm dst prev sent resp n) = log_ n /\
  (role_ (append_reply trm dst prev sent resp n) = Candidate -> role_ n = Candidate /\
   current_term (append_reply trm dst prev sent resp n) = current_term n).
Proof.
  unfold append_reply. case_bool_decide; [done|]. case_match; [|done]. case_match; [|done].
  match goal with |- context [advance_commit_index_locked ?x] =>
    destruct (core_eq _ _ (core_advance x)) as (_ & _ & E & El & Er) end.
  unfold current_term. rewrite E, El, Er. done.
Qed.

Lemma log_move_reply ps votes h c i n dst req resp :
  inv ps votes c -> log_inv ps votes h c -> nodes c !! i = Some n ->
  packet_inv votes (AppendResp i dst req resp) -> log_packet ps h (AppendResp i dst req resp) ->
  log_move ps votes h i n
    (append_reply (ae_term req) dst (ae_prev_log_index req)
       (N.of_nat (length (ae_entries req))) resp n).
Proof.
  intros Hinv Hlog Hn Hu (Hne & Hid & Hled & Hc).
  pose proof (inv_nodes _ _ _ Hinv _ _ Hn) as Hi. pose proof (li_nodes _ _ _ _ Hlog _ _ Hn) as Hl.
  set (e := EvAppendReply (ae_term req) dst (ae_prev_log_index req)
              (N.of_nat (length (ae_entries req))) resp).
  change (log_move ps votes h i n (run e n)).
  assert (keeps n (run e n)) as Hk by by apply run_keeps.
  apply log_move_log; [done|done|apply run_wf_event; [done|apply Hl]|apply append_reply_log
    | |done|apply run_vote_le; [done|apply Hi]|apply append_reply_log].
  intros Hr. pose proof Hk as (E1 & E2 & Hk'). destruct (Hk' Hr) as [Hrn Etn].
  pose proof (ln_leader _ _ _ Hl Hrn) as [Q EQ]. pose proof (ln_next _ _ _ Hl Hrn) as Hx.
  destruct (decide (current_term n = ae_term req)) as [Et|Et].
  - assert (leader_log h (ae_term req) = entries n) as Ell
      by (unfold leader_log; by rewrite <-Et, EQ).
    rewrite Ell in Hc. destruct (append_reply_next n dst req resp Hx Hc) as [?|?]; [apply Hl..|done|done].
  - assert (run e n = n \/ role_ (run e n) = Follower) as [->|?]; [|done|congruence].
    cbn [run e]. unfold append_reply. case_bool_decide; [by right|]. unfold is_leader_of.
    rewrite (bool_decide_eq_false_2 (current_term n = _)), andb_false_r by done. by left.
Qed.

(** ** Requests on the wire *)

(** A leader of [trm] builds a request that carries a segment of its log. *)
Lemma send_build_carries h i n trm nx req :
  log_node h i n -> 1 <= nx <= N.of_nat (length (entries n)) + 1 ->
  send_build trm nx n = Some req ->
  is_leader_of trm n = true /\ ae_term req = trm /\ ae_leader_commit req = commit_index_ n /\
  carries (entries n) req /\
  take (N.to_nat (ae_prev_log_index req)) (entries n) ++ (to_persisted <$> ae_entries req)
    = entries n.
Proof.
  intros [Hw Hs Hrm Hg _ _ _] Hnx Hb. pose proof Hw as (_ & [Hf _] & _).
  assert (is_leader_of trm n = true /\ ae_term req = trm /\ ae_leader_commit req = commit_index_ n /\
          ae_prev_log_term req = RaftLog.term_at (log_ n) (nx -u 1)) as (E1 & E2 & E3 & E4).
  { unfold send_build in Hb. destruct (is_leader_of trm n); [|done]. by injection Hb as <-. }
  destruct (send_build_entries trm nx n req) as (Ep & Elen & Hent);
    [done|unfold is_u64; lia|unfold RaftLog.snapshot_last_index; lia
    |rewrite last_index_entries by done; lia|done|].
  rewrite last_index_entries in Elen by done.
  assert (take (N.to_nat (ae_prev_log_index req)) (entries n) ++ (to_persisted <$> ae_entries req)
          = entries n) as Eall.
  { rewrite <-(take_drop (N.to_nat (ae_prev_log_index req)) (entries n)) at 2. f_equal.
    apply list_eq. intros k. rewrite list_lookup_fmap, Hent, lookup_drop.
    rewrite entry_at_entries by (done || lia). f_equal. lia. }
  unfold carries. split_and!; [done|done|done| | |by rewrite Eall|done].
  - lia.
  - intros e Hpos He. rewrite E4, u64_sub_le, <-Ep by lia. clear Ep.
    rewrite RaftLog.term_at_entry, entry_at_entries by (done || lia). by rewrite He.
Qed.

Lemma leader_of_log h i n trm :
  log_node h i n -> is_leader_of trm n = true -> led_by h trm i /\ leader_log h trm = entries n.
Proof.
  intros Hl [Hr <-]%andb_bool_decide. destruct (ln_leader _ _ _ Hl Hr) as [Q E].
  unfold led_by, leader_log. rewrite E. split; [by eexists|done].
Qed.

Lemma replicate_packets ps votes h i n :
  node_inv ps votes i n -> log_node h i n -> role_ n = Leader ->
  Forall (log_packet ps h)
    (omap (fun j => SendTask i j (current_term n) <$> next_index_ n !! j) (stubs_ n)).
Proof.
  intros Hi Hl Hr. apply Forall_forall. intros p. rewrite list_elem_of_omap.
  intros (j & Hj & E). apply fmap_Some in E as (nx & En & ->).
  destruct (leader_of_log h i n (current_term n) Hl) as [Hled Ell].
  { unfold is_leader_of. by rewrite !bool_decide_eq_true_2. }
  pose proof (ln_next _ _ _ Hl Hr j Hj) as Hx. unfold at_or_0 in Hx. rewrite En in Hx.
  apply stubs_spec in Hj as [Hne Hin]. destruct Hi as [<- <- _ _ _ _ _].
  cbn. rewrite Ell. split_and!; [done|by apply elem_of_list_to_set|done|apply Hx|apply Hx].
Qed.

(** ** Every transition *)

Lemma transition_log ps votes h a c i n m out :
  inv ps votes c -> log_inv ps votes h c -> nodes c !! i = Some n -> transition c i n a m out ->
  log_move ps votes h i n m /\ Forall (log_packet ps h) out.
Proof.
  intros Hinv Hlog Hn Ht.
  pose proof (inv_nodes _ _ _ Hinv _ _ Hn) as Hi. pose proof (li_nodes _ _ _ _ Hlog _ _ Hn) as Hl.
  pose proof (inv_wire _ _ _ Hinv) as Hw. pose proof (li_wire _ _ _ _ Hlog) as Hlw.
  rewrite Forall_forall in Hw, Hlw.
  assert (log_move ps votes h i n n) as Hstill by (apply log_move_same; try done; apply Hl).
  destruct Ht as [a|a now|a et reply Hr|a now draw|a now draw src req Hin|a now draw Hroom
    |a now et results values Hpc Hf|a Hr|a dst trm nx Hin|a dst trm nx req Hin Hs
    |a dst trm nx req Hin Hb|cmd Hc Hroom|k now draw src req Hin|a dst req resp Hin
    |a now draw src req Hin|a dst req resp Hin].
  - by split.
  - split; [|done]. by apply (log_move_quiet _ _ _ _ _ (EvTick now)).
  - split; [|done]. apply (log_move_quiet _ _ _ _ _ (EvVoteReply et reply)); [done| |done..].
    destruct reply; [|done]. destruct Hr as [dst Hr]. by apply Hw in Hr as [? _].
  - split; [|done]. by apply (log_move_quiet _ _ _ _ _ (EvRestart now draw)).
  - split; [|by apply Forall_singleton].
    apply (log_move_quiet _ _ _ _ _ (EvRequestVote now draw req)); [done| |done..].
    apply Hw in Hin as (E & _ & ? & ?). split; [done|]. by rewrite E.
  - split; [by apply log_move_election|]. by apply Forall_fmap, Forall_true.
  - split; [|done]. by eapply log_move_finish.
  - split; [done|]. by eapply replicate_packets.
  - split; [done|]. apply Forall_singleton. by apply Hlw in Hin.
  - exfalso. unfold send_check in Hs. destruct (is_leader_of trm n); [|done].
    unfold RaftLog.snapshot_last_index in Hs. rewrite (ln_snap _ _ _ Hl) in Hs.
    by rewrite bool_decide_eq_false_2 in Hs by lia.
  - split; [done|]. apply Forall_singleton. apply Hlw in Hin as (Hne & Hid & _ & Hnx).
    assert (is_leader_of trm n = true) as Hlead
      by (unfold send_build in Hb; by destruct (is_leader_of trm n)).
    destruct (leader_of_log h i n trm Hl Hlead) as [Hled Ell]. rewrite Ell in Hnx.
    destruct (send_build_carries h i n trm nx req Hl Hnx Hb) as (_ & Et & _ & Hc & _).
    rewrite <-Et in Hled, Ell. cbn. rewrite Ell. done.
  - split; [|done]. by apply log_move_propose.
  - apply list_elem_of_lookup_2 in Hin. pose proof (Hw _ Hin). pose proof (Hlw _ Hin) as Hp.
    split; [by eapply log_move_append|]. by apply Forall_singleton.
  - split; [|done]. eapply log_move_reply; [done..|by apply Hw|by apply Hlw].
  - by apply Hlw in Hin.
  - by apply Hlw in Hin.
Qed.

Lemma log_inv_send ps votes h c c' out :
  log_inv ps votes h c -> nodes c' = nodes c -> wire c' = wire c ++ out ->
  Forall (log_packet ps h) out -> log_inv ps votes h c'.
Proof.
  intros [H1 H2 H3] En Ew Ho. split.
  - by rewrite En.
  - eapply map_Forall_impl; [exact H2|]. intros trm ld [? ? ? ?]. split; try done. by rewrite En.
  - rewrite Ew. by apply Forall_app.
Qed.

(** The ghost record of a step in which [i] moved to [m]. *)
Lemma log_inv_exec ps votes h a c c' :
  peers_ok ps -> inv ps votes c -> log_inv ps votes h c ->
  term_room a c = true -> plain_action a c = true -> exec a c = Some c' ->
  exists i n m out, nodes c !! i = Some n /\ transition c i n a m out /\
    nodes c' = <[i := m]> (nodes c) /\ wire c' = wire c ++ out /\
    let votes' := record_vote i m votes in
    inv ps votes' c' /\ log_inv ps votes' (lead ps votes' i m h) c' /\
    log_move ps votes h i n m.
Proof.
  intros Hps Hinv Hlog Hroom Hok He.
  destruct (exec_transition a c c' Hroom Hok He) as (i & n & m & out & Hmv & Hn & Htr & En & Ew).
  destruct (inv_exec ps votes a c c' Hps Hinv Hroom He) as (i' & Hmv' & x & Hx & Hinv').
  rewrite Hmv in Hmv'. injection Hmv' as <-. rewrite En, lookup_insert_eq in Hx. injection Hx as <-.
  exists i, n, m, out. do 4 (split; [done|]). cbv zeta.
  destruct (transition_log ps votes h a c i n m out) as [Hm Hout]; [done..|].
  split; [done|]. split; [|done].
  eapply log_inv_send; [by eapply log_inv_move|by rewrite En|done|].
  eapply Forall_impl; [exact Hout|]. intros p. apply log_packet_mono. by eapply lead_ext.
Qed.

Lemma log_inv_init ps : peers_ok ps -> log_inv ps ∅ ∅ (init ps).
Proof.
  intros [_ Hr]. split; [|done|done]. intros i n [Hi ->]%init_lookup.
  rewrite Forall_forall in Hr. apply Hr in Hi. split; [|done|done|apply good_nil|done..].
  split_and!; [done| |unfold is_i32; cbn; lia]. unfold create, reset_election_deadline_locked.
  cbn [log_ with_timers]. unfold RaftLog.open_file. apply RaftLog.wf_persist.
  split_and!; [done..|]. constructor.
Qed.

Lemma runs_log_inv ps c :
  peers_ok ps -> runs plain_action ps c -> exists votes h, inv ps votes c /\ log_inv ps votes h c.
Proof.
  intros Hps. induction 1 as [|a c c' _ (votes & h & Hinv & Hlog) Hroom Hok He].
  - exists ∅, ∅. split; [by apply inv_init|by apply log_inv_init].
  - destruct (log_inv_exec ps votes h a c c') as (i & n & m & out & _ & _ & _ & _ & ? & ? & _);
      [done..|]. by eexists _, _.
Qed.

(** C4: log matching.  In every execution in which no server compacts its log,
    whatever is lost, delayed, duplicated or reordered and whoever restarts,
    two servers whose logs hold an entry of the same term at some index hold
    the same entry at every index up to it. *)
Theorem log_matching (ps : list RaftPeer) (c : cluster) (i j : Z) (n m : t) (k k' : N)
    (e1 e2 : PersistedEntry) :
  peers_ok ps -> runs plain_action ps c ->
  nodes c !! i = Some n -> nodes c !! j = Some m ->
  RaftLog.entry_at (log_ n) k = Some e1 -> RaftLog.entry_at (log_ m) k = Some e2 ->
  term e1 = term e2 -> k' <= k ->
  RaftLog.entry_at (log_ n) k' = RaftLog.entry_at (log_ m) k'.
Proof.
  intros Hps Hr Hi Hj E1 E2 Et Hk. destruct (runs_log_inv ps c Hps Hr) as (votes & h & _ & Hlog).
  destruct (li_nodes _ _ _ _ Hlog _ _ Hi) as [_ S1 _ G1 _ _ _].
  destruct (li_nodes _ _ _ _ Hlog _ _ Hj) as [_ S2 _ G2 _ _ _].
  assert (0 < k) as H0.
  { unfold RaftLog.entry_at in E1. rewrite S1 in E1. by case_bool_decide; [|lia]. }
  rewrite entry_at_entries in E1, E2 by done.
  destruct (decide (k' = 0)) as [->|Hk0].
  { unfold RaftLog.entry_at. by rewrite !bool_decide_eq_true_2 by lia. }
  rewrite !entry_at_entries by (done || lia).
  pose proof (good_match h _ _ _ _ _ G1 G2 E1 E2 Et) as H.
  apply (f_equal (fun l => l !! N.to_nat (k' - 1))) in H.
  by rewrite !lookup_take, !decide_True in H by lia.
Qed.

Definition entry_of (k : N) (i : Z) (c : cluster) : option PersistedEntry :=
  n ← nodes c !! i; RaftLog.entry_at (log_ n) k.

Lemma entry_of_Some k i c e :
  entry_of k i c = Some e ->
  exists n, nodes c !! i = Some n /\ RaftLog.entry_at (log_ n) k = Some e.
Proof. by intros (n & ? & ?)%bind_Some; exists n. Qed.

Lemma stale_schedule_entries :
  (fun c => (entry_of 1 1 c, entry_of 1 2 c)) <$>
    exec_ok plain_action stale_schedule (init three_peers) =
  Some (Some (MkEntry 1 "a"), Some (MkEntry 1 "a")).
Proof. vm_compute. reflexivity. Qed.

(** The schedule of [late_append_loses_committed_command] is such an
    execution; afterwards servers 1 and 2 agree on index 1. *)
Lemma log_matching_witness :
  exists c n m, runs plain_action three_peers c /\
    nodes c !! 1%Z = Some n /\ nodes c !! 2%Z = Some m /\
    RaftLog.entry_at (log_ n) 1 = RaftLog.entry_at (log_ m) 1.
Proof.
  pose proof stale_schedule_entries as H. apply fmap_Some in H as (c & E & [= H1 H2]).
  apply (exec_ok_runs _ three_peers) in E; [|constructor].
  symmetry in H1, H2. apply entry_of_Some in H1 as (n & En & H1).
  apply entry_of_Some in H2 as (m & Em & H2). exists c, n, m. split_and!; [done..|].
  apply (log_matching three_peers c 1 2 n m 1 1 (MkEntry 1 "a") (MkEntry 1 "a"));
    [apply three_peers_ok|done..].
Defined.
