(* ===== verification/RaftSafety.v ===== *)
(** * State machine safety

    [RaftNet.late_append_loses_committed_command] shows that a late
    AppendEntries can destroy committed entries.  This file shows that
    nothing else can: in every execution in which no server compacts, no
    empty command is proposed and no delivered AppendEntries cuts entries that
    agree with it, a leader holds every entry committed in earlier terms, and
    the commands applied by two servers are prefixes of one another. *)

From S2P Require Import Prelude Storage RaftState RaftLog RaftNode RaftNodeInv RaftApply RaftReplication RaftNet RaftLogMatch.
Import RaftNode.

(** ** The condition on the schedule *)

(** Some entry of the request disagrees with the entry the log holds at its
    index. *)
Definition conflicts (req : AppendEntriesRequest) (l : RaftLog.t) : bool :=
  existsb (fun '(k, e) =>
    let i := ae_prev_log_index req + 1 + N.of_nat k in
    RaftLog.has_real_entry_at l i && negb (RaftLog.term_at l i =?? le_term e))
    (imap pair (ae_entries req)).

(** The request does not cut entries off a log that agrees with it. *)
Definition fresh_append (req : AppendEntriesRequest) (l : RaftLog.t) : bool :=
  (ae_entries req =?? []) ||
  (RaftLog.last_index l <=?? ae_prev_log_index req + N.of_nat (length (ae_entries req))) ||
  conflicts req l.

Definition safe_action (a : action) (c : cluster) : bool :=
  plain_action a c &&
  match a with
  | APropose _ cmd => negb (cmd =?? "")
  | ADeliver k _ _ =>
    match wire c !! k with
    | Some (AppendReq _ dst req) =>
      from_option (fun n => fresh_append req (log_ n)) true (nodes c !! dst)
    | _ => true
    end
  | _ => true
  end.

(** ** Lists with a common prefix *)

Lemma prefix_total {A} (l1 l2 l : list A) :
  l1 `prefix_of` l -> l2 `prefix_of` l -> (length l1 <= length l2)%nat -> l1 `prefix_of` l2.
Proof.
  intros H1 H2 Hlen. destruct (prefix_weak_total l1 l2 l H1 H2) as [?|H]; [done|].
  pose proof (prefix_length _ _ H). by rewrite (prefix_length_eq l2 l1) by (done || lia).
Qed.

(** Terms along a log do not decrease and are at most [b]. *)
Definition ordered (b : N) (l : list PersistedEntry) : Prop :=
  (forall j k e1 e2, (j <= k)%nat -> l !! j = Some e1 -> l !! k = Some e2 -> term e1 <= term e2) /\
  Forall (fun e => term e <= b) l.

Lemma ordered_prefix b l l' : l' `prefix_of` l -> ordered b l -> ordered b l'.
Proof.
  intros Hp [H1 H2]. split.
  - intros j k e1 e2 Hjk E1 E2. by eapply H1; [|eapply prefix_lookup_Some..].
  - destruct Hp as [r ->]. by apply Forall_app in H2 as [? _].
Qed.

Lemma ordered_weaken b b' l : b <= b' -> ordered b l -> ordered b' l.
Proof. intros Hb [H1 H2]. split; [done|]. eapply Forall_impl; [exact H2|]. cbn. lia. Qed.

Lemma ordered_snoc b l e : ordered b l -> term e = b -> ordered b (l ++ [e]).
Proof.
  intros [H1 H2] He. split.
  - intros j k e1 e2 Hjk E1 E2. apply lookup_app_Some in E2 as [E2|[Hk E2]].
    + rewrite lookup_app_l in E1; [by eapply H1|]. apply lookup_lt_Some in E2. lia.
    + apply list_lookup_singleton_Some in E2 as [_ <-].
      apply list_elem_of_lookup_2, elem_of_app in E1 as [E1|E1].
      * rewrite Forall_forall in H2. rewrite He. by apply H2.
      * apply list_elem_of_singleton in E1 as ->. done.
  - apply Forall_app. split; [done|]. constructor; [lia|constructor].
Qed.

Lemma ordered_lookup b l k e : ordered b l -> l !! k = Some e -> term e <= b.
Proof. intros [_ H] E. exact (Forall_lookup_1 _ _ _ _ H E). Qed.

(** ** Committed entries

    Positions are 0-based here: position [k] is index [k + 1]. *)

(** The leader of [trm] wrote position [k] of its log itself. *)
Definition own (h : leaders) (trm : N) (k : nat) : Prop :=
  exists e, leader_log h trm !! k = Some e /\ term e = trm.

(** [l] agrees with the log of the leader of [trm] up to position [k]. *)
Definition contains (h : leaders) (trm : N) (k : nat) (l : list PersistedEntry) : Prop :=
  take (S k) (leader_log h trm) `prefix_of` l.

#[export] Instance contains_dec h trm k l : Decision (contains h trm k l).
Proof. unfold contains. apply _. Defined.

(** [(v, trm, p)]: while in term [trm], server [v] held the first [p] entries
    of the log of the leader of [trm]. *)
Abbreviation ack_history := (gset (Z * N * nat)).

Definition acked (acks : ack_history) (v : Z) (trm : N) (k : nat) : Prop :=
  exists p, (v, trm, p) ∈ acks /\ (k < p)%nat.

(** The leader of a later term [u] does not hold the entry. *)
Definition lost (h : leaders) (trm : N) (k : nat) (u : N) : Prop :=
  trm < u /\ exists ld, h !! u = Some ld /\ ~ contains h trm k (llog ld).

(** An entry of the leader's own term on a majority. *)
Definition committed (ps : list RaftPeer) (h : leaders) (acks : ack_history)
    (trm : N) (k : nat) : Prop :=
  own h trm k /\
  exists Q : gset Z, Q ⊆ ids ps /\ N.of_nat (length ps) / 2 + 1 <= N.of_nat (size Q) /\
    forall v, v ∈ Q -> acked acks v trm k.

(** The first [c] entries of [l] are committed, by a leader of term at most [b]. *)
Definition commit_ok (ps : list RaftPeer) (h : leaders) (acks : ack_history)
    (b : N) (c : N) (l : list PersistedEntry) : Prop :=
  c = 0 \/ exists trm k, committed ps h acks trm k /\ trm <= b /\ c <= N.of_nat (S k) /\
    take (N.to_nat c) (leader_log h trm) `prefix_of` l.

(** ** They survive the growth of the record *)

Lemma own_lt h trm k : own h trm k -> (k < length (leader_log h trm))%nat.
Proof. intros (e & E & _). by apply lookup_lt_Some in E. Qed.

Lemma own_mono h h' trm k : hext h h' -> own h trm k -> own h' trm k.
Proof.
  intros Hx (e & E & Et). exists e. split; [|done].
  eapply prefix_lookup_Some; [done|by apply leader_log_mono].
Qed.

Lemma own_back h h' trm k :
  hext h h' -> (k < length (leader_log h trm))%nat -> own h' trm k -> own h trm k.
Proof.
  intros Hx Hk (e & E & Et). exists e. split; [|done].
  destruct (lookup_lt_is_Some_2 _ _ Hk) as [e' E'].
  pose proof (prefix_lookup_Some _ _ _ _ E' (leader_log_mono h h' trm Hx)). congruence.
Qed.

Lemma contains_ext h h' trm k l :
  hext h h' -> (k < length (leader_log h trm))%nat -> contains h' trm k l <-> contains h trm k l.
Proof.
  intros Hx Hk. unfold contains.
  rewrite (prefix_take (leader_log h trm) (leader_log h' trm)); [done|by apply leader_log_mono|lia].
Qed.

(** A later leader that lacks an entry never gets it. *)
Lemma lost_mono h h' trm k u :
  hext h h' -> ordered trm (leader_log h trm) -> own h trm k -> lost h trm k u -> lost h' trm k u.
Proof.
  intros Hx Ho Hown (Hlt & ld & E & Hn). split; [done|].
  destruct (Hx _ _ E) as (ld' & E' & _ & _ & (rest & Er & Hr)). exists ld'. split; [done|].
  rewrite (contains_ext h h') by (done || by apply own_lt). unfold contains in *. rewrite Er.
  intros Hp. apply Hn. destruct (decide (S k <= length (llog ld))%nat) as [Hle|Hgt].
  - eapply prefix_total; [exact Hp|by apply prefix_app_r|]. rewrite length_take. lia.
  - exfalso. destruct (lookup_lt_is_Some_2 (leader_log h trm) (length (llog ld))) as [e He].
    { pose proof (own_lt _ _ _ Hown). lia. }
    assert (take (S k) (leader_log h trm) !! length (llog ld) = Some e) as Ht
      by (by rewrite lookup_take, decide_True by lia).
    pose proof (prefix_lookup_Some _ _ _ _ Ht Hp) as H.
    rewrite lookup_app_r in H by lia. pose proof (Forall_lookup_1 _ _ _ _ Hr H) as Hu. cbn in Hu.
    pose proof (ordered_lookup _ _ _ _ Ho He). lia.
Qed.

Lemma acked_mono acks acks' v trm k : acks ⊆ acks' -> acked acks v trm k -> acked acks' v trm k.
Proof. intros Hs (p & ? & ?). exists p. auto. Qed.

Lemma committed_mono ps h h' acks acks' trm k :
  hext h h' -> acks ⊆ acks' -> committed ps h acks trm k -> committed ps h' acks' trm k.
Proof.
  intros Hx Hs (Ho & Q & ? & ? & HQ). split; [by eapply own_mono|]. exists Q. split_and!; [done..|].
  intros v Hv. eapply acked_mono; eauto.
Qed.

Lemma commit_ok_mono ps h h' acks acks' b b' c l :
  hext h h' -> acks ⊆ acks' -> b <= b' -> commit_ok ps h acks b c l -> commit_ok ps h' acks' b' c l.
Proof.
  intros Hx Hs Hb [?|(trm & k & Hc & ? & Hk & Hp)]; [by left|right]. exists trm, k.
  split_and!; [by eapply committed_mono|lia|done|]. destruct Hc as [Ho _].
  rewrite <-(prefix_take (leader_log h trm)); [done|by apply leader_log_mono|].
  pose proof (own_lt _ _ _ Ho). lia.
Qed.

Lemma commit_ok_prefix ps h acks b c l l' :
  l `prefix_of` l' -> commit_ok ps h acks b c l -> commit_ok ps h acks b c l'.
Proof.
  intros Hp [?|(trm & k & ? & ? & ? & ?)]; [by left|right]. exists trm, k.
  split_and!; [done..|by etrans].
Qed.

Lemma commit_ok_le ps h acks b c c' l :
  c' <= c -> commit_ok ps h acks b c l -> commit_ok ps h acks b c' l.
Proof.
  intros Hc [?|(trm & k & ? & ? & ? & Hp)]; [left; lia|right]. exists trm, k.
  split_and!; [done..|lia|]. etrans; [|exact Hp].
  replace (take (N.to_nat c') (leader_log h trm))
    with (take (N.to_nat c') (take (N.to_nat c) (leader_log h trm)));
    [apply prefix_of_take|]. rewrite take_take. f_equal. lia.
Qed.

(** ** The invariant *)

(** The log with which a server stood for election in a term. *)
Abbreviation cand_history := (gmap (N * Z) (list PersistedEntry)).

(** Every positive [match_index_] of the leader was acknowledged. *)
Definition match_ok (ps : list RaftPeer) (acks : ack_history) (i : Z) (n : t) : Prop :=
  forall j x, match_index_ n !! j = Some x ->
    j ∈ ids ps /\ j <> i /\ (x = 0 \/ (j, current_term n, N.to_nat x) ∈ acks).

(** An acknowledged entry is in [l], or a leader of a term at most [b] lacks it. *)
Definition kept (h : leaders) (b : N) (trm : N) (k : nat) (l : list PersistedEntry) : Prop :=
  contains h trm k l \/ exists u, lost h trm k u /\ u <= b.

Record safe_node (ps : list RaftPeer) (h : leaders) (cands : cand_history) (acks : ack_history)
    (i : Z) (n : t) : Prop := {
  sn_ordered : ordered (current_term n) (entries n);
  sn_cand : role_ n = Candidate -> cands !! (current_term n, i) = Some (entries n);
  sn_self : role_ n = Leader -> (i, current_term n, length (entries n)) ∈ acks;
  sn_match : role_ n = Leader -> match_ok ps acks i n;
  sn_commit : commit_ok ps h acks (current_term n) (commit_index_ n) (entries n);
  sn_aligned : aligned n;
  sn_acks : forall trm p, (i, trm, p) ∈ acks ->
    trm <= current_term n /\ (p <= length (leader_log h trm))%nat;
  sn_kept : forall trm k, own h trm k -> acked acks i trm k ->
    kept h (current_term n) trm k (entries n);
}.

Definition safe_cand (h : leaders) (c : cluster) (key : N * Z) (cl : list PersistedEntry) : Prop :=
  (exists b, b < key.1 /\ ordered b cl) /\ good h cl /\
  exists x, nodes c !! key.2 = Some x /\ key.1 <= current_term x.

Record safe_term (ps : list RaftPeer) (votes : history) (cands : cand_history)
    (trm : N) (ld : leadership) : Prop := {
  st_ordered : ordered trm (llog ld);
  st_nonempty : Forall (fun e => command e <> "") (llog ld);
  st_electors : electors ld ⊆ ids ps;
  st_majority : N.of_nat (length ps) / 2 + 1 <= N.of_nat (size (electors ld));
  st_votes : forall v, v ∈ electors ld -> (v, trm, owner ld) ∈ votes;
  st_cand : exists cl, cands !! (trm, owner ld) = Some cl /\ cl `prefix_of` llog ld;
}.

(** A vote that helped to elect [x]: what the voter had acknowledged before is
    in the log [x] stood with. *)
Definition safe_vote (h : leaders) (cands : cand_history) (acks : ack_history)
    (v : Z) (trm : N) (x : Z) : Prop :=
  exists cl, cands !! (trm, x) = Some cl /\
  forall u k, u < trm -> own h u k -> acked acks v u k ->
    (forall ld, h !! trm = Some ld -> v ∈ electors ld) ->
    contains h u k cl \/ exists w, lost h u k w /\ w < trm.

Definition request_end (req : AppendEntriesRequest) : nat :=
  N.to_nat (ae_prev_log_index req) + length (ae_entries req).

Definition safe_packet (ps : list RaftPeer) (h : leaders) (cands : cand_history)
    (acks : ack_history) (p : packet) : Prop :=
  match p with
  | VoteReq src _ req =>
    exists cl, cands !! (rv_term req, src) = Some cl /\
      rv_last_log_index req = N.of_nat (length cl) /\
      rv_last_log_term req = from_option term 0 (last cl)
  | AppendReq _ _ req =>
    commit_ok ps h acks (ae_term req) (ae_leader_commit req)
      (take (request_end req) (leader_log h (ae_term req)))
  | AppendResp _ dst req resp =>
    aer_success resp = true -> (dst, ae_term req, request_end req) ∈ acks
  | _ => True
  end.

Record safe_inv (ps : list RaftPeer) (votes : history) (h : leaders) (cands : cand_history)
    (acks : ack_history) (c : cluster) : Prop := {
  si_nodes : map_Forall (safe_node ps h cands acks) (nodes c);
  si_cands : map_Forall (safe_cand h c) cands;
  si_terms : map_Forall (safe_term ps votes cands) h;
  si_votes : forall v trm x, (v, trm, x) ∈ votes -> safe_vote h cands acks v trm x;
  si_wire : Forall (safe_packet ps h cands acks) (wire c);
}.

(** ** Leader completeness *)

Lemma completeness ps votes h cands acks c trm k u ld :
  safe_inv ps votes h cands acks c -> committed ps h acks trm k ->
  trm < u -> h !! u = Some ld -> contains h trm k (llog ld).
Proof.
  intros Hs (Hown & Q & HQ & Hm & Hack). revert ld.
  induction u as [u IH] using (well_founded_induction N.lt_wf_0). intros ld Hlt E.
  destruct (si_terms _ _ _ _ _ _ Hs _ _ E) as [_ _ He Hem Hev (cl & Ecl & Hcl)].
  destruct (quorums_meet ps Q (electors ld)) as (v & HvQ & Hve); [done..|].
  destruct (si_votes _ _ _ _ _ _ Hs v u (owner ld)) as (cl' & Ecl' & Hv); [by apply Hev|].
  rewrite Ecl in Ecl'. injection Ecl' as <-.
  destruct (Hv trm k) as [Hc|(w & (Hw & ldw & Ew & Hn) & Hwu)]; [done|done|by apply Hack| |..].
  - intros ld' E'. by simplify_eq.
  - unfold contains in *. by etrans.
  - exfalso. apply Hn. by apply (IH w).
Qed.

(** What is committed is in the log of every leader of the same or a later term. *)
Lemma commit_ok_leader ps votes h cands acks c b cm l u ld :
  safe_inv ps votes h cands acks c -> commit_ok ps h acks b cm l -> b <= u -> h !! u = Some ld ->
  exists X, X `prefix_of` l /\ X `prefix_of` llog ld /\ length X = N.to_nat cm.
Proof.
  intros Hs [->|(trm & k & Hc & Hb & Hk & Hp)] Hu E; [exists []; split_and!; [apply prefix_nil..|done]|].
  exists (take (N.to_nat cm) (leader_log h trm)). pose proof (own_lt _ _ _ (proj1 Hc)).
  split_and!; [done| |rewrite length_take; lia].
  destruct (decide (trm = u)) as [->|Hne].
  - unfold leader_log. rewrite E. apply prefix_of_take.
  - etrans; [|eapply completeness; [done|done| |done]; lia].
    replace (take (N.to_nat cm) (leader_log h trm))
      with (take (N.to_nat cm) (take (S k) (leader_log h trm))); [apply prefix_of_take|].
    rewrite take_take. f_equal. lia.
Qed.

(** ** One server moves *)

(** The candidacies after server [i] moved to [m]. *)
Definition stand (i : Z) (m : t) (cands : cand_history) : cand_history :=
  match role_ m with
  | Candidate => <[(current_term m, i) := entries m]> cands
  | _ => cands
  end.

Record safe_move (ps : list RaftPeer) (h h' : leaders) (cands : cand_history)
    (acks new : ack_history) (i : Z) (n m : t) : Prop := {
  sm_ordered : ordered (current_term m) (entries m);
  sm_cand : role_ m = Candidate -> entries m = entries n /\
    ((role_ n = Candidate /\ current_term m = current_term n) \/ current_term n < current_term m);
  sm_new : forall x, x ∈ new -> exists p, x = (i, current_term m, p) /\
    (p <= length (leader_log h' (current_term m)))%nat /\
    take p (leader_log h' (current_term m)) `prefix_of` entries m;
  sm_self : role_ m = Leader -> (i, current_term m, length (entries m)) ∈ acks ∪ new;
  sm_match : role_ m = Leader -> match_ok ps (acks ∪ new) i m;
  sm_commit : commit_ok ps h' (acks ∪ new) (current_term m) (commit_index_ m) (entries m);
  sm_aligned : aligned m;
  sm_kept : forall trm k, own h trm k -> trm <= current_term n ->
    contains h trm k (entries n) -> kept h (current_term m) trm k (entries m);
  sm_vote : voted_for m = (-1)%Z \/
    (current_term m = current_term n /\ voted_for m = voted_for n) \/
    (exists cl, stand i m cands !! (current_term m, voted_for m) = Some cl /\
     forall trm k, trm < current_term m -> own h trm k -> contains h trm k (entries n) ->
       contains h trm k cl \/ exists u, lost h trm k u /\ u < current_term m);
  sm_win : role_ m = Leader ->
    (role_ n = Leader \/ role_ n = Candidate /\ entries m = entries n) /\
    current_term m = current_term n;
}.

(** A candidacy on record is not changed. *)
Lemma stand_ext_gen ps votes h cands acks c i n m :
  safe_inv ps votes h cands acks c -> nodes c !! i = Some n ->
  (role_ m = Candidate -> entries m = entries n /\
    ((role_ n = Candidate /\ current_term m = current_term n) \/ current_term n < current_term m)) ->
  cands ⊆ stand i m cands.
Proof.
  intros Hsafe Hn Hcand. unfold stand. destruct (role_ m) eqn:Hr; try done. apply map_subseteq_spec.
  intros key cl E. destruct (decide (key = (current_term m, i))) as [->|Hne];
    [|by rewrite lookup_insert_ne]. rewrite lookup_insert_eq.
  destruct (Hcand eq_refl) as [Ee [[Hc Et]|Hlt]].
  - rewrite Et in E. rewrite (sn_cand _ _ _ _ _ _ (si_nodes _ _ _ _ _ _ Hsafe _ _ Hn) Hc) in E.
    congruence.
  - destruct (si_cands _ _ _ _ _ _ Hsafe _ _ E) as (_ & _ & x & Hx & Hle). cbn in *. simplify_eq.
    lia.
Qed.

Section Move.
Context (ps : list RaftPeer) (votes : history) (h : leaders) (cands : cand_history).
Context (acks new : ack_history) (c : cluster) (i : Z) (n m : t).
Let votes' := record_vote i m votes.
Let h' := lead ps votes' i m h.
Context (Hinv : inv ps votes c).
Context (Honce : forall v trm c1 c2, (v, trm, c1) ∈ votes' -> (v, trm, c2) ∈ votes' -> c1 = c2).
Context (Hlog : log_inv ps votes h c) (Hsafe : safe_inv ps votes h cands acks c).
Context (Hn : nodes c !! i = Some n).
Context (Hlm : log_move ps votes h i n m) (Hsm : safe_move ps h h' cands acks new i n m).

Lemma move_hext : hext h h'.
Proof. by eapply lead_ext. Qed.

Lemma stand_ext : cands ⊆ stand i m cands.
Proof. eapply stand_ext_gen; [done|done|apply Hsm]. Qed.

Lemma stand_new key cl :
  stand i m cands !! key = Some cl ->
  cands !! key = Some cl \/ (key = (current_term m, i) /\ cl = entries n /\
                             current_term n < current_term m).
Proof.
  unfold stand. destruct (role_ m) eqn:Hr; auto.
  intros [[<- <-]|[_ ?]]%lookup_insert_Some; auto.
  destruct (sm_cand _ _ _ _ _ _ _ _ _ Hsm Hr) as [-> [[Hc Et]|Hlt]]; [left|by right].
  rewrite Et. by apply (sn_cand _ _ _ _ _ _ (si_nodes _ _ _ _ _ _ Hsafe _ _ Hn)).
Qed.

Lemma own_ordered trm k : own h trm k -> ordered trm (leader_log h trm).
Proof.
  intros (e & E & _). unfold leader_log in *. destruct (h !! trm) as [ld|] eqn:El; [|done].
  apply (si_terms _ _ _ _ _ _ Hsafe _ _ El).
Qed.

Lemma lost_move trm k u : own h trm k -> lost h trm k u -> lost h' trm k u.
Proof.
  intros Ho. apply lost_mono; [apply move_hext|by eapply own_ordered|done].
Qed.

Lemma kept_move b b' trm k l : own h trm k -> b <= b' -> kept h b trm k l -> kept h' b' trm k l.
Proof.
  intros Ho Hb [Hc|(u & Hu & ?)]; [left|right].
  - apply (contains_ext h h'); [apply move_hext|by apply own_lt|done].
  - exists u. split; [by apply lost_move|lia].
Qed.

(** Acknowledgements of other terms are old ones. *)
Lemma acked_old v trm k x :
  nodes c !! v = Some x -> acked (acks ∪ new) v trm k ->
  (v, trm) <> (i, current_term m) -> own h' trm k -> acked acks v trm k /\ own h trm k.
Proof.
  intros Hx (p & [Hp|Hp]%elem_of_union & Hk) Hne Ho.
  - split; [by exists p|]. eapply own_back; [apply move_hext| |done].
    destruct (sn_acks _ _ _ _ _ _ (si_nodes _ _ _ _ _ _ Hsafe _ _ Hx) trm p Hp). lia.
  - exfalso. apply (sm_new _ _ _ _ _ _ _ _ _ Hsm) in Hp as (q & E & _). congruence.
Qed.

Lemma move_term : current_term n <= current_term m.
Proof. apply Hlm. Qed.

Lemma move_node : safe_node ps h' (stand i m cands) (acks ∪ new) i m.
Proof.
  pose proof (si_nodes _ _ _ _ _ _ Hsafe _ _ Hn) as Hsn. pose proof move_term as Ht.
  split; try apply Hsm.
  - intros Hr. unfold stand. rewrite Hr. apply lookup_insert_eq.
  - intros trm p [Hp|Hp]%elem_of_union.
    + destruct (sn_acks _ _ _ _ _ _ Hsn _ _ Hp) as [? ?]. split; [lia|].
      pose proof (prefix_length _ _ (leader_log_mono h h' trm move_hext)). lia.
    + apply (sm_new _ _ _ _ _ _ _ _ _ Hsm) in Hp as (q & [= -> ->] & ? & _). done.
  - intros trm k Ho (p & [Hp|Hp]%elem_of_union & Hk).
    + destruct (sn_acks _ _ _ _ _ _ Hsn _ _ Hp) as [Hle Hlen].
      assert (own h trm k) as Ho' by (eapply own_back; [apply move_hext|lia|done]).
      destruct (sn_kept _ _ _ _ _ _ Hsn trm k) as [Hc|Hl]; [done|by exists p| |].
      * eapply kept_move; [done|reflexivity|]. by apply (sm_kept _ _ _ _ _ _ _ _ _ Hsm).
      * eapply kept_move; [done|exact Ht|]. by right.
    + apply (sm_new _ _ _ _ _ _ _ _ _ Hsm) in Hp as (q & [= -> ->] & Hq & Hpre). left.
      unfold contains. etrans; [|exact Hpre].
      replace (take (S k) (leader_log h' (current_term m)))
        with (take (S k) (take q (leader_log h' (current_term m)))); [apply prefix_of_take|].
      rewrite take_take. f_equal. lia.
Qed.

Lemma move_other j x :
  nodes c !! j = Some x -> j <> i -> safe_node ps h' (stand i m cands) (acks ∪ new) j x.
Proof.
  intros Hx Hne. pose proof (si_nodes _ _ _ _ _ _ Hsafe _ _ Hx) as [H1 H2 H3 H4 H5 H6 H7 H8].
  split; [done|..|done| |].
  - intros Hr. eapply lookup_weaken; [by apply H2|apply stand_ext].
  - intros Hr. apply elem_of_union_l. auto.
  - intros Hr k y E. destruct (H4 Hr k y E) as (? & ? & [?|?]); split_and!; [done|done|by left|done..|].
    right. by apply elem_of_union_l.
  - eapply commit_ok_mono; [apply move_hext|apply union_subseteq_l|reflexivity|done].
  - intros trm p [Hp|Hp]%elem_of_union.
    + destruct (H7 _ _ Hp). split; [done|].
      pose proof (prefix_length _ _ (leader_log_mono h h' trm move_hext)). lia.
    + apply (sm_new _ _ _ _ _ _ _ _ _ Hsm) in Hp as (q & [= -> ->] & _). done.
  - intros trm k Ho Ha. destruct (acked_old j trm k x) as [Ha' Ho']; [done|done| |done|].
    { congruence. }
    eapply kept_move; [done|reflexivity|]. by apply H8.
Qed.

Lemma move_cands : map_Forall (safe_cand h' (set_node i m c)) (stand i m cands).
Proof.
  intros key cl E. pose proof move_term as Ht. apply stand_new in E as [E|(-> & -> & Hlt)].
  - destruct (si_cands _ _ _ _ _ _ Hsafe _ _ E) as (Hb & Hg & x & Hx & Hle).
    split_and!; [done|eapply good_mono; [apply move_hext|done]|]. cbn.
    destruct (decide (key.2 = i)) as [Ek|Hne].
    + exists m. rewrite Ek in Hx |- *. simplify_eq. rewrite lookup_insert_eq. split; [done|]. lia.
    + exists x. by rewrite lookup_insert_ne.
  - split_and!.
    + exists (current_term n). split; [done|]. apply (si_nodes _ _ _ _ _ _ Hsafe _ _ Hn).
    + eapply good_mono; [apply move_hext|]. apply (li_nodes _ _ _ _ Hlog _ _ Hn).
    + exists m. cbn. by rewrite lookup_insert_eq.
Qed.

(** The leadership of the server that moved. *)
Lemma move_leadership Q :
  role_ m = Leader ->
  (forall ld, h !! current_term m = Some ld -> electors ld = Q) ->
  (h !! current_term m = None -> Q = voters ps votes' (current_term m) i) ->
  safe_term ps votes' (stand i m cands) (current_term m) (MkLeadership i Q (entries m)).
Proof.
  intros Hr HQ1 HQ2. pose proof (sm_aligned _ _ _ _ _ _ _ _ _ Hsm) as (Hne & _).
  destruct (lm_leader _ _ _ _ _ _ Hlm Hr) as [Hel Hex].
  destruct (h !! current_term m) as [ld|] eqn:E.
  - destruct (Hex ld eq_refl) as [Eo Hx]. rewrite <-(HQ1 ld eq_refl).
    destruct (si_terms _ _ _ _ _ _ Hsafe _ _ E) as [_ _ H1 H2 H3 (cl & Ecl & Hcl)].
    rewrite Eo in *. split; cbn; [apply Hsm|done|done|done| |].
    + intros v Hv. apply record_vote_mono. auto.
    + exists cl. split; [eapply lookup_weaken; [done|apply stand_ext]|].
      etrans; [done|by eapply extends_prefix].
  - rewrite (HQ2 eq_refl). destruct Hel as (P & HP1 & HP2 & HP3).
    split; cbn; [apply Hsm|done| | | |].
    + intros v Hv. by apply elem_of_filter in Hv as [_ ?].
    + assert (size P <= size (voters ps votes' (current_term m) i))%nat; [|lia].
      apply subseteq_size. intros v Hv. apply elem_of_filter.
      split; [apply record_vote_mono|]; auto.
    + intros v Hv. by apply elem_of_filter in Hv as [? _].
    + destruct (sm_win _ _ _ _ _ _ _ _ _ Hsm Hr) as [[Hl|[Hc Ee]] Et].
      * exfalso. destruct (ln_leader _ _ _ (li_nodes _ _ _ _ Hlog _ _ Hn) Hl) as [Q' E'].
        congruence.
      * exists (entries n). rewrite Ee. split; [|done].
        eapply lookup_weaken; [|apply stand_ext]. rewrite Et.
        by apply (sn_cand _ _ _ _ _ _ (si_nodes _ _ _ _ _ _ Hsafe _ _ Hn)).
Qed.

Lemma move_terms : map_Forall (safe_term ps votes' (stand i m cands)) h'.
Proof.
  intros trm ld E. assert (h !! trm = Some ld \/ (role_ m = Leader /\ trm = current_term m /\
    ld = MkLeadership i (from_option electors (voters ps votes' (current_term m) i)
           (h !! current_term m)) (entries m))) as [H|(Hr & -> & ->)].
  { unfold h', lead in E. destruct (role_ m); [by left..|].
    apply lookup_insert_Some in E as [[<- <-]|[_ ?]]; [by right|by left]. }
  - destruct (si_terms _ _ _ _ _ _ Hsafe _ _ H) as [H1 H2 H3 H4 H5 (cl & Ecl & Hcl)].
    split; [done..| |].
    + intros v Hv. apply record_vote_mono. auto.
    + exists cl. split; [eapply lookup_weaken; [done|apply stand_ext]|done].
  - apply move_leadership; [done| |].
    + intros ld ->. done.
    + intros ->. done.
Qed.

(** A vote already on record. *)
Lemma move_old_vote v trm x :
  (v, trm, x) ∈ votes -> safe_vote h' (stand i m cands) (acks ∪ new) v trm x.
Proof.
  intros Hv. destruct (si_votes _ _ _ _ _ _ Hsafe _ _ _ Hv) as (cl & Ecl & H).
  exists cl. split; [eapply lookup_weaken; [done|apply stand_ext]|].
  intros u k Hu Ho Ha He. destruct (inv_voters _ _ _ Hinv _ _ _ Hv) as [y Hy].
  destruct (acked_old v u k y Hy Ha) as [Ha' Ho']; [|done|].
  { intros [= -> ->]. simplify_eq. pose proof move_term.
    destruct (ni_past _ _ _ _ (inv_nodes _ _ _ Hinv _ _ Hn) _ _ Hv) as [_ [?|[? _]]]; lia. }
  destruct (H u k Hu Ho' Ha') as [Hc|(w & Hw & ?)].
  - intros ld E. destruct (move_hext _ _ E) as (ld' & E' & _ & <- & _). by apply He.
  - left. apply (contains_ext h h'); [apply move_hext|by apply own_lt|done].
  - right. exists w. split; [by apply lost_move|done].
Qed.

(** The vote just cast. *)
Lemma move_new_vote cl :
  (i, current_term m, voted_for m) ∉ votes -> (i, current_term m, voted_for m) ∈ votes' ->
  stand i m cands !! (current_term m, voted_for m) = Some cl ->
  (forall trm k, trm < current_term m -> own h trm k -> contains h trm k (entries n) ->
     contains h trm k cl \/ exists u, lost h trm k u /\ u < current_term m) ->
  safe_vote h' (stand i m cands) (acks ∪ new) i (current_term m) (voted_for m).
Proof.
  intros Hnew Hin Ecl H. exists cl. split; [done|]. intros u k Hu Ho Ha He.
  destruct (acked_old i u k n Hn Ha) as [Ha' Ho']; [|done|].
  { intros [=]. lia. }
  assert (forall w, lost h u k w -> w < current_term m -> 
    contains h' u k cl \/ exists w, lost h' u k w /\ w < current_term m) as Hlost.
  { intros w Hw ?. right. exists w. split; [by apply lost_move|done]. }
  destruct (sn_kept _ _ _ _ _ _ (si_nodes _ _ _ _ _ _ Hsafe _ _ Hn) u k Ho' Ha')
    as [Hc|(w & Hw & Hle)].
  - destruct (H u k Hu Ho' Hc) as [?|(w & ? & ?)]; [left|by eapply Hlost].
    apply (contains_ext h h'); [apply move_hext|by apply own_lt|done].
  - apply (Hlost w Hw). pose proof move_term.
    destruct (decide (w = current_term m)) as [->|?]; [exfalso|lia].
    destruct Hw as (_ & ld & E & _). destruct (move_hext _ _ E) as (ld' & E' & _ & Eq & _).
    pose proof (He ld' E') as Hel. rewrite Eq in Hel.
    pose proof (st_votes _ _ _ _ _ (si_terms _ _ _ _ _ _ Hsafe _ _ E) _ Hel) as Hv.
    apply Hnew. replace (voted_for m) with (owner ld); [done|].
    eapply Honce; [by apply record_vote_mono|done].
Qed.

Lemma move_votes v trm x : (v, trm, x) ∈ votes' -> safe_vote h' (stand i m cands) (acks ∪ new) v trm x.
Proof.
  intros Hv. destruct (decide ((v, trm, x) ∈ votes)) as [Hold|Hnew]; [by apply move_old_vote|].
  pose proof Hv as [?|[Hne [= -> -> ->]]]%elem_of_record_vote; [done|].
  destruct (sm_vote _ _ _ _ _ _ _ _ _ Hsm) as [?|[[Et Ev]|(cl & Ecl & H)]]; [done| |].
  - exfalso. apply Hnew. rewrite Et, Ev. rewrite Ev in Hne.
    by apply (inv_nodes _ _ _ Hinv _ _ Hn).
  - by eapply move_new_vote.
Qed.

Lemma move_packet p :
  log_packet ps h p -> safe_packet ps h cands acks p ->
  safe_packet ps h' (stand i m cands) (acks ∪ new) p.
Proof.
  destruct p as [src dst req|? ? ? ?|? ? ? ?|? ? ? ?|src dst req|src dst req resp|? ? ?|? ? ? ?]; try done.
  - intros _ (cl & Ecl & ?). exists cl. split; [|done]. eapply lookup_weaken; [done|apply stand_ext].
  - intros (_ & _ & _ & Hc) Hp. cbn in *.
    assert (request_end req <= length (leader_log h (ae_term req)))%nat as Hlen.
    { destruct Hc as (H1 & _ & H3). apply prefix_length in H3.
      rewrite length_app, length_take, length_fmap in H3. unfold request_end. lia. }
    rewrite <-(prefix_take (leader_log h (ae_term req))); [|apply leader_log_mono, move_hext|done].
    eapply commit_ok_mono; [apply move_hext|apply union_subseteq_l|reflexivity|done].
  - intros _ Hp Hs. apply elem_of_union_l. auto.
Qed.

Lemma safe_inv_move out :
  Forall (safe_packet ps h' (stand i m cands) (acks ∪ new)) out ->
  safe_inv ps votes' h' (stand i m cands) (acks ∪ new) (send out (set_node i m c)).
Proof.
  intros Hout. split.
  - intros j x Hx. cbn in Hx. apply lookup_insert_Some in Hx as [[<- <-]|[Hne Hx]].
    + apply move_node.
    + by apply move_other.
  - exact move_cands.
  - apply move_terms.
  - apply move_votes.
  - cbn. apply Forall_app. split; [|done]. apply Forall_forall. intros p Hp.
    pose proof (li_wire _ _ _ _ Hlog) as H1. pose proof (si_wire _ _ _ _ _ _ Hsafe) as H2.
    rewrite Forall_forall in H1, H2. apply move_packet; auto.
Qed.
End Move.

(** ** Critical sections that do not touch the log *)

(** A leader holds its own log. *)
Definition self_ack (i : Z) (m : t) : ack_history :=
  match role_ m with
  | Leader => {[ (i, current_term m, length (entries m)) ]}
  | _ => ∅
  end.

Lemma self_ack_leader i m acks :
  role_ m = Leader -> (i, current_term m, length (entries m)) ∈ acks ∪ self_ack i m.
Proof. intros Hr. unfold self_ack. rewrite Hr. apply elem_of_union_r, elem_of_singleton. done. Qed.

Lemma self_ack_new ps votes h i m x :
  x ∈ self_ack i m -> exists p, x = (i, current_term m, p) /\
    (p <= length (leader_log (lead ps votes i m h) (current_term m)))%nat /\
    take p (leader_log (lead ps votes i m h) (current_term m)) `prefix_of` entries m.
Proof.
  unfold self_ack. destruct (role_ m) eqn:Hr; [by intros ?%elem_of_empty..|].
  intros ->%elem_of_singleton. eexists. split; [done|]. unfold leader_log, lead.
  rewrite Hr, lookup_insert_eq. cbn. split; [done|]. apply prefix_of_take.
Qed.

Lemma match_ok_mono ps acks acks' i n m :
  acks ⊆ acks' -> match_index_ m = match_index_ n -> current_term m = current_term n ->
  match_ok ps acks i n -> match_ok ps acks' i m.
Proof.
  intros Hs Em Et H j x Hx. rewrite Em in Hx. destruct (H j x Hx) as (? & ? & [?|?]).
  - split_and!; [done..|by left].
  - split_and!; [done..|]. right. rewrite Et. auto.
Qed.

Lemma safe_move_log ps votes h cands acks i n m :
  let h' := lead ps votes i m h in
  safe_node ps h cands acks i n -> hext h h' -> log_ m = log_ n -> current_term n <= current_term m ->
  (role_ m = Candidate ->
    (role_ n = Candidate /\ current_term m = current_term n) \/ current_term n < current_term m) ->
  (voted_for m = (-1)%Z \/ (current_term m = current_term n /\ voted_for m = voted_for n) \/
   (exists cl, stand i m cands !! (current_term m, voted_for m) = Some cl /\
    forall trm k, trm < current_term m -> own h trm k -> contains h trm k (entries n) ->
      contains h trm k cl \/ exists u, lost h trm k u /\ u < current_term m)) ->
  (role_ m = Leader ->
    (role_ n = Leader \/ role_ n = Candidate) /\ current_term m = current_term n) ->
  (role_ m = Leader -> match_ok ps (acks ∪ self_ack i m) i m) ->
  (commit_index_ m = commit_index_ n \/
   commit_ok ps h' (acks ∪ self_ack i m) (current_term m) (commit_index_ m) (entries m)) ->
  aligned m -> safe_move ps h h' cands acks (self_ack i m) i n m.
Proof.
  intros h' Hs Hx El Ht Hc Hv Hw Hm Hk Ha.
  assert (entries m = entries n) as Ee by (unfold entries; by rewrite El).
  split; [..|done| |done|].
  - rewrite Ee. eapply ordered_weaken; [exact Ht|apply Hs].
  - auto.
  - intros x. apply self_ack_new.
  - apply self_ack_leader.
  - done.
  - destruct Hk as [Ec|?]; [|done]. rewrite Ec, Ee.
    eapply commit_ok_mono; [exact Hx|apply union_subseteq_l|exact Ht|apply Hs].
  - intros trm k _ _ H. left. by rewrite Ee.
  - intros Hr. destruct (Hw Hr) as [[?|?] ?]; split; auto.
Qed.

(** ** Votes *)

Lemma last_term_entries n :
  RaftLog.snapshot_last_term_ (log_ n) = 0 ->
  RaftLog.last_term (log_ n) = from_option term 0 (last (entries n)).
Proof. intros Hs. unfold RaftLog.last_term, entries. destruct (last _); [done|by rewrite Hs]. Qed.

Lemma good_last h l e : good h l -> last l = Some e -> l `prefix_of` leader_log h (term e).
Proof.
  intros Hg He. rewrite last_lookup in He. pose proof (lookup_lt_Some _ _ _ He).
  specialize (Hg _ _ He). by rewrite take_ge in Hg by lia.
Qed.

(** A log that passes the [log_ok] test against one that holds an entry
    committed by an earlier leader holds it too, or some leader in between
    lost it. *)
Lemma up_to_date h trm k l cl b u :
  good h l -> good h cl -> ordered b cl -> ordered trm (leader_log h trm) -> b < u ->
  (forall j k e1 e2, (j <= k)%nat -> l !! j = Some e1 -> l !! k = Some e2 -> term e1 <= term e2) ->
  own h trm k -> contains h trm k l ->
  from_option term 0 (last l) < from_option term 0 (last cl) \/
  (from_option term 0 (last cl) = from_option term 0 (last l) /\ (length l <= length cl)%nat) ->
  contains h trm k cl \/ exists w, lost h trm k w /\ w < u.
Proof.
  intros Hg Hgc Hoc Hot Hb Hol (e & Ee & Et) Hc Hlog.
  assert (l !! k = Some e) as El.
  { eapply prefix_lookup_Some; [|exact Hc]. by rewrite lookup_take, decide_True by lia. }
  pose proof (lookup_lt_Some _ _ _ El) as Hlen.
  destruct (last l) as [el|] eqn:Ell.
  2: { apply last_None in Ell. subst. done. }
  assert (trm <= term el) as Hle.
  { rewrite <-Et. rewrite last_lookup in Ell. eapply Hol; [|exact El|exact Ell]. lia. }
  destruct (last cl) as [ec|] eqn:Elc; cbn in Hlog.
  2: { apply last_None in Elc. subst. cbn in Hlog. lia. }
  pose proof (good_last h cl ec Hgc Elc) as Hpc.
  destruct Hlog as [Hlt|[Heq Hll]].
  - set (s := term ec) in *. destruct (decide (contains h trm k (leader_log h s))) as [Hin|Hno].
    + left. unfold contains in *. eapply prefix_total; [exact Hin|exact Hpc|].
      rewrite length_take. destruct (decide (S k <= length cl)%nat); [lia|exfalso].
      rewrite last_lookup in Elc. pose proof (lookup_lt_Some _ _ _ Elc) as Hl.
      pose proof (prefix_lookup_Some _ _ _ _ Elc Hpc) as H1.
      destruct (lookup_lt_is_Some_2 (leader_log h trm) (pred (length cl))) as [x Hx].
      { apply lookup_lt_Some in Ee. lia. }
      assert (take (S k) (leader_log h trm) !! pred (length cl) = Some x) as Hx'
        by (by rewrite lookup_take, decide_True by lia).
      pose proof (prefix_lookup_Some _ _ _ _ Hx' Hin) as H2. simplify_eq.
      pose proof (ordered_lookup _ _ _ _ Hot Hx). lia.
    + right. exists s. split; [|].
      * split; [lia|]. unfold leader_log in Hno, Hpc. destruct (h !! s) as [ld|] eqn:Es; [by exists ld|].
        exfalso. cbn in Hpc. apply prefix_nil_inv in Hpc. by subst.
      * apply last_Some_elem_of in Elc. destruct Hoc as [_ Hoc]. rewrite Forall_forall in Hoc.
        specialize (Hoc _ Elc). cbn in Hoc. lia.
  - left. unfold contains in *. etrans; [exact Hc|].
    pose proof (good_last h l el Hg Ell) as Hpl. rewrite Heq in Hpc.
    by eapply prefix_total.
Qed.

(** ** The critical sections as moves *)

(** The vote, the commit index and the match indices after a quiet event. *)
Lemma quiet_votes e n :
  quiet e = true -> (forall now draw req, e <> EvRequestVote now draw req) -> wf n ->
  voted_for (run e n) = (-1)%Z \/
  (current_term (run e n) = current_term n /\ voted_for (run e n) = voted_for n).
Proof.
  destruct e; try done; intros _ Hne Hw; cbn [run].
  - by edestruct Hne.
  - right. unfold tick. case_match; [done|]. by case_match.
  - destruct reply as [r|]; [|by right]. cbn. case_bool_decide; [|by right].
    case_bool_decide; [by left|by right].
  - right. unfold current_term, voted_for. rewrite create_state; [done|apply Hw].
Qed.

Lemma quiet_commit e n :
  quiet e = true -> RaftLog.snapshot_last_index_ (log_ n) = 0 -> wf n ->
  (commit_index_ (run e n) = commit_index_ n \/ commit_index_ (run e n) = 0) /\
  (role_ (run e n) = Leader -> match_index_ (run e n) = match_index_ n).
Proof.
  destruct e; try done; intros _ Hs Hw; cbn [run].
  - unfold handle_request_vote. fold (adopt (rv_term req) n).
    assert (commit_index_ (adopt (rv_term req) n) = commit_index_ n /\
            match_index_ (adopt (rv_term req) n) = match_index_ n) as [E1 E2]
      by (unfold adopt; by case_bool_decide).
    set (x := adopt (rv_term req) n) in *. clearbody x.
    case_bool_decide; [by split; [left|]|]. case_match; by split; [left|].
  - unfold tick. case_match; [by split; [left|]|]. case_match; by split; [left|].
  - destruct reply as [r|]; [|by split; [left|]]. cbn.
    case_bool_decide; [|by split; [left|]]. case_bool_decide; by split; [left|].
  - split; [right|done]. destruct (create_wf (node_id_ n) (peers_ n) now draw n Hw) as (_ & _ & El);
      [apply Hw|]. change (RaftLog.snapshot_last_index_ (log_ (create (node_id_ n) (peers_ n)
        (PersistentState.file_ (state_ n)) (RaftLog.file_ (log_ n)) now draw)) = 0). by rewrite El.
Qed.

(** ** Advancing the commit index *)

Lemma compute_majority lst mi cs cm trm term_at r :
  compute_new_commit_index lst mi cs cm trm term_at = Some r -> cm < r ->
  cs / 2 + 1 <= N.of_nat (count_ge r (lst :: (map_to_list mi).*2)) /\ term_at r = trm.
Proof.
  unfold compute_new_commit_index. intros (x & Hx & [= Hr])%bind_Some Hlt.
  destruct (_ && _) eqn:E in Hr; [|lia]. subst x. apply andb_bool_decide in E as [_ Et].
  split; [|done]. apply sorted_count_ge in Hx as [Hx _]; [|apply StronglySorted_merge_sort; apply _].
  rewrite (count_ge_perm _ _ _ (merge_sort_Permutation N_ge _)) in Hx. lia.
Qed.

Lemma advance_commit n :
  commit_index_ (advance_commit_index_locked n) = commit_index_ n \/
  (commit_index_ n < commit_index_ (advance_commit_index_locked n) /\
   cluster_size n / 2 + 1 <=
     N.of_nat (count_ge (commit_index_ (advance_commit_index_locked n))
                 (RaftLog.last_index (log_ n) :: (map_to_list (match_index_ n)).*2)) /\
   RaftLog.term_at (log_ n) (commit_index_ (advance_commit_index_locked n)) = current_term n).
Proof.
  unfold advance_commit_index_locked. destruct (compute_new_commit_index _ _ _ _ _ _) as [r|] eqn:E;
    [|by left]. case_bool_decide as Hlt; [|by left]. right. rewrite commit_apply. cbn [commit_index_ with_commit].
  by destruct (compute_majority _ _ _ _ _ _ _ E Hlt).
Qed.

Lemma count_ge_filter r (l : list (Z * N)) :
  count_ge r l.*2 = length (filter (fun p => r <= p.2) l).
Proof.
  induction l as [|[j x] l IH]; [done|]. cbn [fmap list_fmap]. rewrite count_ge_cons, filter_cons, IH.
  cbn. by case_decide.
Qed.

Lemma NoDup_fst_filter r (l : list (Z * N)) :
  NoDup l.*1 -> NoDup (filter (fun p => r <= p.2) l).*1.
Proof.
  induction l as [|[j x] l IH]; [done|]. cbn [fmap list_fmap]. intros [Hj Hl]%NoDup_cons.
  rewrite filter_cons. cbn. case_decide; [|auto]. apply NoDup_cons. split; [|auto].
  intros (y & Ey & Hy)%list_elem_of_fmap. apply Hj. apply list_elem_of_filter in Hy as [_ Hy].
  apply list_elem_of_fmap. by exists y.
Qed.

(** The servers counted by the commit rule acknowledged the entry. *)
Lemma advance_committed ps votes h acks i n r :
  node_inv ps votes i n -> log_node h i n -> role_ n = Leader -> match_ok ps acks i n ->
  (i, current_term n, length (entries n)) ∈ acks -> 0 < r -> current_term n <> 0 ->
  cluster_size n / 2 + 1 <=
    N.of_nat (count_ge r (RaftLog.last_index (log_ n) :: (map_to_list (match_index_ n)).*2)) ->
  RaftLog.term_at (log_ n) r = current_term n ->
  committed ps h acks (current_term n) (N.to_nat r - 1) /\ r <= N.of_nat (length (entries n)).
Proof.
  intros Hi Hl Hr Hm Hself H0 Ht0 Hmaj Ht. pose proof Hl as [Hw Hs _ _ Hld _ _].
  destruct (Hld Hr) as [Q EQ].
  assert (leader_log h (current_term n) = entries n) as Ell by (unfold leader_log; by rewrite EQ).
  assert (r <= RaftLog.last_index (log_ n)) as Hle.
  { apply term_at_nonzero_le. by rewrite Ht. }
  rewrite last_index_entries in Hle, Hmaj by done. split; [|done].
  rewrite count_ge_cons, decide_True, count_ge_filter in Hmaj by done.
  set (js := filter (fun p => r <= p.2) (map_to_list (match_index_ n))) in *.
  assert (forall j, j ∈ js.*1 -> j ∈ ids ps /\ j <> i /\
            exists x, r <= x /\ (j, current_term n, N.to_nat x) ∈ acks) as Hjs.
  { intros j ([j' x] & -> & Hx)%list_elem_of_fmap. apply list_elem_of_filter in Hx as [Hrx Hx].
    apply elem_of_map_to_list in Hx. cbn in *. destruct (Hm _ _ Hx) as (? & ? & [?|?]); [lia|].
    split_and!; [done..|]. by exists x. }
  split.
  - rewrite RaftLog.term_at_entry, entry_at_entries in Ht by (done || lia || apply Hw).
    destruct (lookup_lt_is_Some_2 (entries n) (N.to_nat (r - 1))) as [e Ee]; [lia|].
    exists e. rewrite Ell. replace (N.to_nat r - 1)%nat with (N.to_nat (r - 1)) by lia.
    split; [done|]. by rewrite Ee in Ht.
  - exists ({[ i ]} ∪ list_to_set js.*1). split_and!.
    + apply union_subseteq. split; [apply singleton_subseteq_l, Hi|].
      intros j Hj%elem_of_list_to_set. by apply Hjs in Hj as [? _].
    + rewrite size_union, size_singleton, size_list_to_set.
      * rewrite length_fmap. unfold cluster_size in Hmaj. rewrite (ni_peers _ _ _ _ Hi) in Hmaj. lia.
      * apply NoDup_fst_filter, NoDup_fst_map_to_list.
      * apply disjoint_singleton_l. rewrite elem_of_list_to_set. intros Hj%Hjs. by destruct Hj as (_ & ? & _).
    + intros v [->%elem_of_singleton|Hv%elem_of_list_to_set]%elem_of_union.
      * exists (length (entries n)). split; [done|lia].
      * destruct (Hjs v Hv) as (_ & _ & x & ? & ?). exists (N.to_nat x). split; [done|lia].
Qed.

Lemma node_inv_eq ps votes i n m :
  node_inv ps votes i n -> node_id_ m = node_id_ n -> peers_ m = peers_ n -> state_ m = state_ n ->
  role_ m = role_ n -> node_inv ps votes i m.
Proof.
  intros [B1 B2 B3 B4 B5 B6 B7] E1 E2 E3 E4.
  assert (current_term m = current_term n /\ voted_for m = voted_for n) as [Et Ev]
    by (unfold current_term, voted_for; by rewrite E3).
  split; rewrite ?Et, ?Ev, ?E1, ?E2, ?E4; try done. by eapply state_wf_eq.
Qed.

(** The commit index of a leader after [advance_commit_index_locked]. *)
Lemma advance_commit_ok ps votes h acks i n :
  node_inv ps votes i n -> log_node h i n -> role_ n = Leader -> match_ok ps acks i n ->
  (i, current_term n, length (entries n)) ∈ acks -> current_term n <> 0 ->
  commit_ok ps h acks (current_term n) (commit_index_ n) (entries n) ->
  commit_ok ps h acks (current_term n) (commit_index_ (advance_commit_index_locked n)) (entries n).
Proof.
  intros Hi Hl Hr Hm Hself Ht0 Hc. destruct (advance_commit n) as [->|(Hlt & Hmaj & Ht)]; [done|].
  set (r := commit_index_ (advance_commit_index_locked n)) in *. clearbody r.
  destruct (advance_committed ps votes h acks i n r) as [Hcm Hle]; [done..|lia|done|done|done|].
  right. exists (current_term n), (N.to_nat r - 1)%nat. split_and!; [done|done|lia|].
  destruct (ln_leader _ _ _ Hl Hr) as [Q EQ]. unfold leader_log. rewrite EQ. apply prefix_of_take.
Qed.

(** ** Accepted requests *)

Lemma append_state now draw req n :
  state_ (handle_append_entries now draw req n).1 = state_ (adopt (ae_term req) n).
Proof.
  unfold handle_append_entries. fold (adopt (ae_term req) n).
  case_bool_decide; [done|]. case_match; [|done]. cbn [fst].
  case_bool_decide; [|by case_match].
  match goal with |- state_ (apply_committed_entries_locked ?m) = _ =>
    destruct (core_eq _ _ (core_apply m)) as (_ & _ & -> & _) end.
  by case_match.
Qed.

Lemma adopt_vote trm n m :
  state_ m = state_ (adopt trm n) ->
  voted_for m = (-1)%Z \/ (current_term m = current_term n /\ voted_for m = voted_for n).
Proof.
  unfold voted_for, current_term. intros ->. unfold adopt. case_bool_decide; [by left|by right].
Qed.

Lemma carries_lookup l req k e :
  carries l req -> ae_entries req !! k = Some e ->
  l !! (N.to_nat (ae_prev_log_index req) + k)%nat = Some (to_persisted e).
Proof.
  intros (H1 & _ & H3) He. eapply prefix_lookup_Some; [|exact H3].
  rewrite lookup_app_r; rewrite length_take; [|lia].
  rewrite list_lookup_fmap. replace (_ - _)%nat with k by lia. by rewrite He.
Qed.

Lemma conflicts_spec req n :
  wf n -> RaftLog.snapshot_last_index_ (log_ n) = 0 -> conflicts req (log_ n) = true ->
  exists k e x, ae_entries req !! k = Some e /\
    entries n !! (N.to_nat (ae_prev_log_index req) + k)%nat = Some x /\ term x <> le_term e.
Proof.
  intros Hw Hs Hc. apply existsb_exists in Hc as ([k e] & Hin & H). apply list_elem_of_In in Hin.
  apply elem_of_lookup_imap in Hin as (k' & e' & [= -> ->] & Hk).
  set (i := ae_prev_log_index req + 1 + N.of_nat k') in H.
  apply andb_true_iff in H as [Hr Ht]. pose proof Hw as (_ & [Hf _] & _).
  apply RaftLog.has_real_entry_iff in Hr as [x Hx]; [|done].
  apply negb_true_iff, bool_decide_eq_false in Ht.
  rewrite RaftLog.term_at_entry, Hx in Ht by (done || unfold i; lia).
  rewrite entry_at_entries in Hx by (done || unfold i; lia).
  exists k', e', x. split_and!; [done| |done]. rewrite <-Hx. f_equal. unfold i. lia.
Qed.

(** What the follower's log and the leader's log have in common survives a
    fresh request. *)
Lemma fresh_keeps X n m l req :
  wf n -> RaftLog.snapshot_last_index_ (log_ n) = 0 -> carries l req ->
  entries m = (match ae_entries req with [] => entries n | _ => take (request_end req) l end) ->
  fresh_append req (log_ n) = true ->
  X `prefix_of` entries n -> X `prefix_of` l -> X `prefix_of` entries m.
Proof.
  intros Hw Hs Hc Em Hfr HXn HXl. rewrite Em. destruct (ae_entries req) as [|x xs] eqn:E; [done|].
  assert (request_end req <= length l)%nat as Hend.
  { destruct Hc as (H1 & _ & H3). apply prefix_length in H3.
    rewrite length_app, length_take, length_fmap in H3. unfold request_end. lia. }
  eapply prefix_total; [exact HXl|apply prefix_of_take|]. rewrite length_take.
  pose proof (prefix_length _ _ HXl). pose proof (prefix_length _ _ HXn) as Hn.
  unfold fresh_append in Hfr. rewrite !orb_true_iff, !bool_decide_eq_true in Hfr.
  destruct Hfr as [[Hfr|Hfr]|Hfr]; [by rewrite E in Hfr| |].
  - rewrite last_index_entries in Hfr by done. unfold request_end in *. lia.
  - apply conflicts_spec in Hfr as (k & e & y & Ek & Ey & Hne); [|done..].
    pose proof (lookup_lt_Some _ _ _ Ek). pose proof (carries_lookup _ _ _ _ Hc Ek) as El.
    destruct (decide (length X <= N.to_nat (ae_prev_log_index req) + k)%nat) as [?|Hgt].
    + unfold request_end in *. lia.
    + exfalso. destruct (lookup_lt_is_Some_2 X (N.to_nat (ae_prev_log_index req) + k)) as [z Hz]; [lia|].
      pose proof (prefix_lookup_Some _ _ _ _ Hz HXn). pose proof (prefix_lookup_Some _ _ _ _ Hz HXl).
      simplify_eq.
Qed.

Lemma commit_ok_transfer ps votes h cands acks c b cm l l' u ld :
  safe_inv ps votes h cands acks c -> b <= u -> h !! u = Some ld ->
  (forall X, X `prefix_of` l -> X `prefix_of` llog ld -> X `prefix_of` l') ->
  commit_ok ps h acks b cm l -> commit_ok ps h acks b cm l'.
Proof.
  intros Hs Hb E HX Hc. destruct (commit_ok_leader _ _ _ _ _ _ _ _ _ _ _ Hs Hc Hb E) as (X & H1 & H2 & Hl).
  destruct Hc as [?|(trm & k & Hc & ? & ? & Hp)]; [by left|right]. exists trm, k.
  split_and!; [done..|]. replace (take (N.to_nat cm) (leader_log h trm)) with X; [by apply HX|].
  pose proof (own_lt _ _ _ (proj1 Hc)).
  assert (length (take (N.to_nat cm) (leader_log h trm)) = length X) as El
    by (rewrite length_take; lia).
  apply prefix_length_eq; [|lia]. eapply prefix_total; [exact H1|exact Hp|lia].
Qed.

(** The applied entries of the follower are in the request or before it. *)
Lemma append_keeps_applied X n l req now draw :
  aligned n -> wf n -> RaftLog.snapshot_last_index_ (log_ n) = 0 -> carries l req ->
  Forall (fun e => command e <> "") l -> X `prefix_of` entries n -> X `prefix_of` l ->
  length X = N.to_nat (commit_index_ n) ->
  (ae_entries req <> [] -> (length X <= request_end req)%nat) ->
  event_keeps (EvAppendEntries now draw req) n.
Proof.
  intros (_ & _ & Ela & _) Hw Hs Hc Hne HXn HXl Hlen Hend. split.
  - apply Forall_lookup. intros k e Ek. pose proof (carries_lookup _ _ _ _ Hc Ek) as El.
    exact (Forall_lookup_1 _ _ _ _ Hne El).
  - destruct (ae_entries req) as [|x xs] eqn:E; [by left|]. right. specialize (Hend ltac:(done)).
    unfold request_end in Hend. rewrite E in Hend. split; [lia|]. intros i _ Hi1 Hi2.
    destruct (lookup_lt_is_Some_2 X (N.to_nat (i - 1))) as [z Hz]; [lia|].
    pose proof (prefix_lookup_Some _ _ _ _ Hz HXn) as Hzn.
    pose proof (prefix_lookup_Some _ _ _ _ Hz HXl) as Hzl.
    rewrite RaftLog.command_at_entry, entry_at_entries, Hzn by (done || lia || apply Hw). cbn.
    destruct (lookup_lt_is_Some_2 (x :: xs) (N.to_nat (i - ae_prev_log_index req - 1))) as [y Hy]; [lia|].
    rewrite Hy. cbn. rewrite <-E in Hy. pose proof (carries_lookup _ _ _ _ Hc Hy) as Hyl.
    replace (N.to_nat (ae_prev_log_index req) + N.to_nat (i - ae_prev_log_index req - 1))%nat
      with (N.to_nat (i - 1)) in Hyl by lia. rewrite Hyl in Hzl. by injection Hzl as <-.
Qed.

Section Moves.
Context (ps : list RaftPeer) (votes : history) (h : leaders) (cands : cand_history).
Context (acks : ack_history) (c : cluster) (i : Z) (n : t).
Context (Hinv : inv ps votes c) (Hlog : log_inv ps votes h c).
Context (Hsafe : safe_inv ps votes h cands acks c) (Hn : nodes c !! i = Some n).

(** The record after a move to [m]. *)
Let led (m : t) : leaders := lead ps (record_vote i m votes) i m h.

Lemma node_log : log_node h i n.
Proof. by apply (li_nodes _ _ _ _ Hlog). Qed.

Lemma node_safe : safe_node ps h cands acks i n.
Proof. by apply (si_nodes _ _ _ _ _ _ Hsafe). Qed.

Lemma led_ext m : log_move ps votes h i n m -> hext h (led m).
Proof. intros. by eapply lead_ext. Qed.

(** A quiet event, given what it does to the vote. *)
Lemma safe_move_event e :
  quiet e = true -> event_ok e n -> event_keeps e n ->
  (let m := run e n in
   voted_for m = (-1)%Z \/ (current_term m = current_term n /\ voted_for m = voted_for n) \/
   (exists cl, stand i m cands !! (current_term m, voted_for m) = Some cl /\
    forall trm k, trm < current_term m -> own h trm k -> contains h trm k (entries n) ->
      contains h trm k cl \/ exists u, lost h trm k u /\ u < current_term m)) ->
  let m := run e n in safe_move ps h (led m) cands acks (self_ack i m) i n m.
Proof.
  intros Hq He Hk Hv m. pose proof node_log as Hl. pose proof node_safe as Hs.
  pose proof (inv_nodes _ _ _ Hinv _ _ Hn) as Hi.
  pose proof (ln_wf _ _ _ Hl) as Hw. destruct (quiet_frame e n Hq Hw) as (El & _ & Hc).
  destruct (quiet_commit e n Hq (ln_snap _ _ _ Hl) Hw) as [Hcm Hmt].
  assert (keeps n m) as (_ & _ & Hkeep) by (apply run_keeps; by destruct e).
  apply safe_move_log; [done|apply led_ext; by apply log_move_quiet|done| |by auto|done|..].
  - apply vote_le_term, run_vote_le; [by apply event_ok_terms|apply Hi].
  - intros Hr. destruct (Hkeep Hr). auto.
  - intros Hr. destruct (Hkeep Hr). eapply match_ok_mono; [apply union_subseteq_l|by apply Hmt|done|].
    by apply Hs.
  - destruct Hcm as [?|E0]; [by left|]. right. by left.
  - apply run_aligned_event; [done|done|done|apply Hs].
Qed.

Lemma safe_move_quiet e :
  quiet e = true -> (forall now draw req, e <> EvRequestVote now draw req) ->
  event_ok e n ->
  let m := run e n in safe_move ps h (led m) cands acks (self_ack i m) i n m.
Proof.
  intros Hq Hne He. apply safe_move_event; [done|done|by destruct e|]. cbv zeta.
  destruct (quiet_votes e n) as [?|?]; [done|done|apply node_log|by left|by right; left].
Qed.

Lemma own_leader_ordered trm k : own h trm k -> ordered trm (leader_log h trm).
Proof.
  intros (e & E & _). unfold leader_log in *. destruct (h !! trm) as [ld|] eqn:El; [|done].
  apply (si_terms _ _ _ _ _ _ Hsafe _ _ El).
Qed.

(** The candidate's log passed the test of the voter. *)
Lemma vote_up_to_date src req cl trm k :
  cands !! (rv_term req, src) = Some cl -> rv_last_log_index req = N.of_nat (length cl) ->
  rv_last_log_term req = from_option term 0 (last cl) -> log_ok req (log_ n) = true ->
  own h trm k -> contains h trm k (entries n) ->
  contains h trm k cl \/ exists u, lost h trm k u /\ u < rv_term req.
Proof.
  intros Ecl Eli Elt Hok Ho Hc. pose proof node_log as Hl. pose proof node_safe as Hs.
  destruct (si_cands _ _ _ _ _ _ Hsafe _ _ Ecl) as ((b & Hb & Hoc) & Hgc & _). cbn in Hb.
  eapply up_to_date; [apply Hl|exact Hgc|exact Hoc|by eapply own_leader_ordered|exact Hb
    |apply Hs|done|done|].
  unfold log_ok in Hok. rewrite orb_true_iff, andb_bool_decide, bool_decide_eq_true in Hok.
  rewrite (last_term_entries n), (last_index_entries n), Eli, Elt in Hok by apply Hl.
  destruct Hok as [?|[? ?]]; [by left|right]. split; [done|lia].
Qed.

(** A granted vote. *)
Lemma safe_move_vote now draw src req :
  packet_inv votes (VoteReq src i req) -> safe_packet ps h cands acks (VoteReq src i req) ->
  let m := (handle_request_vote now draw req n).1 in
  safe_move ps h (led m) cands acks (self_ack i m) i n m.
Proof.
  intros (Esrc & Hne & Ht & Hi32) (cl & Ecl & Eli & Elt).
  apply (safe_move_event (EvRequestVote now draw req)); [done| |done|].
  { split; [done|]. by rewrite Esrc. }
  cbv zeta. pose proof node_log as Hl. pose proof node_safe as Hs.
  destruct (quiet_frame (EvRequestVote now draw req) n eq_refl (ln_wf _ _ _ Hl)) as (El & _ & Hc).
  assert (cands ⊆ stand i (run (EvRequestVote now draw req) n) cands) as Hsub.
  { eapply stand_ext_gen; [done|done|]. intros Hr. split; [by unfold entries; rewrite El|by auto]. }
  revert Hsub. clear El Hc. cbn [run]. unfold handle_request_vote. fold (adopt (rv_term req) n).
  destruct (adopt_frame (rv_term req) n) as (_ & _ & El & _ & _ & _ & Et).
  assert (voted_for (adopt (rv_term req) n) = (-1)%Z \/
          (current_term (adopt (rv_term req) n) = current_term n /\
           voted_for (adopt (rv_term req) n) = voted_for n)) as Hold
    by (unfold adopt; case_bool_decide; auto).
  set (x := adopt (rv_term req) n) in *. clearbody x.
  case_bool_decide as Hst; [destruct Hold; auto|].
  destruct (_ && _) eqn:Hg; [|destruct Hold; auto]. cbn [fst].
  apply andb_true_iff in Hg as [_ Hok]. intros Hsub. right. right.
  assert (current_term x = rv_term req) as Ex by lia.
  set (m := reset_election_deadline_locked _ _ _) in *.
  assert (current_term m = rv_term req /\ voted_for m = src) as [-> ->] by (by rewrite <-Ex, <-Esrc).
  exists cl. split; [by eapply lookup_weaken|]. intros trm k Hlt Ho Hcn.
  rewrite El in Hok. by eapply vote_up_to_date.
Qed.

(** A server stands for election and votes for itself. *)
Lemma safe_move_election now draw :
  current_term n + 1 < U64 ->
  let m := (start_election_begin now draw n).1 in
  safe_move ps h (led m) cands acks (self_ack i m) i n m /\
  Forall (safe_packet ps (led m) (stand i m cands) (acks ∪ self_ack i m))
    ((fun j => VoteReq i j (start_election_begin now draw n).2) <$> stubs_ n).
Proof.
  intros Hroom m. pose proof node_log as Hl. pose proof node_safe as Hs.
  pose proof (inv_nodes _ _ _ Hinv _ _ Hn) as Hi.
  assert (current_term m = current_term n + 1) as Et.
  { change (current_term n +u 1 = current_term n + 1). by apply u64_add_small. }
  assert (role_ m = Candidate /\ voted_for m = i /\ log_ m = log_ n /\
          commit_index_ m = commit_index_ n) as (Hr & Ev & El & Ec).
  { split_and!; try done. change (node_id_ n = i). apply Hi. }
  assert (stand i m cands !! (current_term m, i) = Some (entries n)) as Est.
  { unfold stand. rewrite Hr. apply lookup_insert_eq. }
  split.
  - apply safe_move_log; [done|apply led_ext; by apply log_move_election|done|lia|right; lia| |
      congruence|congruence|by left|].
    + right. right. exists (entries n). rewrite Ev. split; [done|]. by auto.
    + by apply (run_aligned_event (EvElectionBegin now draw)); [| |apply Hl|apply Hs].
  - apply Forall_fmap, Forall_true. intros j. exists (entries n).
    split_and!; [done| |].
    + change (RaftLog.last_index (log_ n) = N.of_nat (length (entries n))).
      apply last_index_entries; apply Hl.
    + change (RaftLog.last_term (log_ n) = from_option term 0 (last (entries n))).
      apply last_term_entries, Hl.
Qed.

(** The end of an election. *)
Lemma safe_move_finish now et values results :
  pc_of c i = Voting et results -> futures n results = Some values ->
  let m := start_election_finish now et values n in
  safe_move ps h (led m) cands acks (self_ack i m) i n m.
Proof.
  intros Hpc Hf m. pose proof node_log as Hl. pose proof node_safe as Hs.
  pose proof (inv_nodes _ _ _ Hinv _ _ Hn) as Hi.
  assert (log_move ps votes h i n m) as Hlm by (by eapply log_move_finish).
  assert (state_ m = state_ n /\ log_ m = log_ n /\ commit_index_ m = commit_index_ n /\
    (m = n \/ role_ n = Candidate /\ role_ m = Leader /\
       match_index_ m = list_to_map ((fun i => (i, 0)) <$> stubs_ n))) as (E1 & E2 & E3 & E4).
  { unfold m, start_election_finish. destruct (_ && _) eqn:E; [|auto].
    rewrite !andb_true_iff, !bool_decide_eq_true in E. destruct E as [[? _] _].
    do 3 (split; [reflexivity|]). right. split; [done|]. by split. }
  assert (current_term m = current_term n /\ voted_for m = voted_for n) as [Et Ev]
    by (unfold current_term, voted_for; by rewrite E1).
  apply safe_move_log; [done|by apply led_ext|done|lia| | | | |by left|].
  - intros Hr. left. destruct E4 as [E4|(_ & ? & _)]; [by rewrite <-E4 at 1|congruence].
  - auto.
  - intros Hr. split; [|done]. destruct E4 as [E4|(? & _)]; [left; by rewrite <-E4|by right].
  - intros Hr. destruct E4 as [E4|(_ & _ & Em)].
    + eapply match_ok_mono; [apply union_subseteq_l|by rewrite E4|done|].
      apply Hs. by rewrite <-E4.
    + intros j x Hx. rewrite Em in Hx. apply elem_of_list_to_map_2 in Hx.
      apply list_elem_of_fmap in Hx as (k & [= -> ->] & Hj%stubs_spec).
      destruct Hi as [<- <- _ _ _ _ _]. destruct Hj.
      split_and!; [by apply elem_of_list_to_set|done|by left].
  - by apply (run_aligned_event (EvElectionFinish now et values)); [| |apply Hl|apply Hs].
Qed.

Lemma safe_move_still : safe_move ps h (led n) cands acks (self_ack i n) i n n.
Proof.
  pose proof node_log as Hl. pose proof node_safe as Hs.
  apply safe_move_log; [done| |done|done|by auto|by auto|by auto| |by left|apply Hs].
  - unfold led. by rewrite (lead_known _ _ _ _ _ Hl).
  - intros Hr. eapply match_ok_mono; [apply union_subseteq_l|done|done|]. by apply Hs.
Qed.

(** A leader moves to [advance_commit_index_locked x]. *)
Lemma advance_move x :
  let m := advance_commit_index_locked x in
  log_move ps votes h i n m -> role_ n = Leader -> role_ x = Leader -> state_ x = state_ n ->
  node_id_ x = node_id_ n -> peers_ x = peers_ n ->
  commit_index_ x = commit_index_ n -> entries n `prefix_of` entries x ->
  match_ok ps (acks ∪ self_ack i m) i x ->
  commit_ok ps (led m) (acks ∪ self_ack i m) (current_term m) (commit_index_ m) (entries m) /\
  match_ok ps (acks ∪ self_ack i m) i m.
Proof.
  intros m Hlm Hrn Hrx Est Eid Eps Ec Hpre Hmt. pose proof node_log as Hl. pose proof node_safe as Hs.
  destruct (core_eq _ _ (core_advance x)) as (F1 & F2 & F3 & F4 & F5). fold m in F1, F2, F3, F4, F5.
  assert (current_term m = current_term x /\ current_term x = current_term n) as [Et Etn]
    by (unfold current_term; by rewrite F3, Est).
  assert (entries m = entries x) as Ee by (unfold entries; by rewrite F4).
  destruct (advance_indices x) as [Enx Emt]. fold m in Enx, Emt.
  split; [|by eapply match_ok_mono].
  rewrite Et, Ee. apply (advance_commit_ok ps votes (led m) _ i x); [| |done|done| | |].
  - apply (node_inv_eq ps votes i n); [|done|done|done|congruence].
    by apply (inv_nodes _ _ _ Hinv).
  - destruct (log_move_node ps votes (record_vote i m votes) h i n m Hlm (ln_good _ _ _ Hl))
      as [L1 L2 L3 L4 L5 L6 L7]. fold (led m) in L4, L5. rewrite Ee in L3, L4, L5. rewrite Et in L5.
    rewrite F4 in L2, L7. rewrite F5 in L5, L6. split; try done.
    + eapply wf_core; [apply core_advance|]. exact L1.
    + intros Hr. apply (next_ok_core m); [symmetry; apply core_advance|done|]. by apply L6.
  - rewrite <-Et, <-Ee. apply self_ack_leader. by rewrite F5.
  - rewrite Etn. destruct (sn_aligned _ _ _ _ _ _ Hs) as (_ & _ & _ & _ & _ & Ht). apply Ht. congruence.
  - rewrite Ec, Etn. eapply commit_ok_prefix; [exact Hpre|].
    eapply commit_ok_mono; [by apply led_ext|apply union_subseteq_l|reflexivity|apply Hs].
Qed.

Lemma safe_move_propose cmd :
  strlen cmd < U32 -> RaftLog.last_index (log_ n) + 2 < U64 -> cmd <> "" ->
  let m := (propose_begin cmd n).1 in
  safe_move ps h (led m) cands acks (self_ack i m) i n m.
Proof.
  intros Hc Hb Hne m. pose proof node_log as Hl. pose proof node_safe as Hs.
  pose proof (inv_nodes _ _ _ Hinv _ _ Hn) as Hi.
  destruct (decide (role_ n = Leader)) as [Hr|Hr].
  2: { assert (m = n) as -> by (unfold m, propose_begin; by destruct (role_ n)).
       apply safe_move_still. }
  assert (log_move ps votes h i n m) as Hlm by (by apply log_move_propose).
  destruct (propose_frame cmd n Hr) as (E1 & E2 & E3 & E4 & E5 & _ & _ & _ & E8).
  fold m in E1, E2, E3, E4, E5, E8.
  assert (entries n `prefix_of` entries m) as Hpre by (rewrite E5; by apply prefix_app_r).
  set (x := with_log (RaftLog.append_ok (current_term n) cmd (log_ n)) n).
  assert (m = advance_commit_index_locked x) as Em by (unfold m, propose_begin; by rewrite Hr).
  destruct (advance_move x) as [Hcm Hmt]; rewrite <-?Em; try done.
  { etrans; [exact Hpre|]. rewrite Em. unfold entries at 1.
    by destruct (core_eq _ _ (core_advance x)) as (_ & _ & _ & -> & _). }
  { apply (match_ok_mono ps acks _ i n); [apply union_subseteq_l|done|done|]. by apply Hs. }
  rewrite <-Em in Hcm, Hmt. split.
  - rewrite E2, E5. apply ordered_snoc; [apply Hs|done].
  - congruence.
  - intros y. apply self_ack_new.
  - apply self_ack_leader.
  - done.
  - done.
  - apply (run_aligned_event (EvPropose cmd)); [|done|apply Hl|apply Hs]. split; [lia|done].
  - intros trm k _ _ H. left. unfold contains in *. by etrans.
  - right. left. split; [done|]. unfold voted_for. rewrite Em.
    by destruct (core_eq _ _ (core_advance x)) as (_ & _ & -> & _).
  - auto.
Qed.

(** The reply to an AppendEntries. *)
Lemma reply_match dst req :
  dst ∈ ids ps -> dst <> i -> current_term n = ae_term req -> role_ n = Leader ->
  (dst, ae_term req, request_end req) ∈ acks ->
  ae_prev_log_index req + N.of_nat (length (ae_entries req)) < U64 ->
  let new_match := ae_prev_log_index req +u N.of_nat (length (ae_entries req)) in
  forall nx, match_ok ps acks i (with_indices nx
    (if at_or_0 (match_index_ n) dst <?? new_match then <[dst := new_match]> (match_index_ n)
     else <[dst := at_or_0 (match_index_ n) dst]> (match_index_ n)) n).
Proof.
  intros Hid Hne Et Hr Hack Hb new_match nx j y Hy.
  pose proof (sn_match _ _ _ _ _ _ node_safe Hr) as Hm. cbn [match_index_ with_indices] in Hy.
  change (current_term (with_indices _ _ n)) with (current_term n).
  assert (N.to_nat new_match = request_end req) as Enm.
  { unfold new_match. rewrite u64_add_small by done. unfold request_end. lia. }
  case_bool_decide; apply lookup_insert_Some in Hy as [[<- <-]|[_ Hy]]; try by apply Hm.
  - split_and!; [done..|]. right. by rewrite Enm, Et.
  - split_and!; [done..|]. unfold at_or_0. destruct (match_index_ n !! dst) as [z|] eqn:Ez; [|by left].
    cbn. by apply Hm in Ez as (_ & _ & ?).
Qed.

Lemma safe_move_reply dst req resp :
  packet_inv votes (AppendResp i dst req resp) -> log_packet ps h (AppendResp i dst req resp) ->
  safe_packet ps h cands acks (AppendResp i dst req resp) ->
  let m := append_reply (ae_term req) dst (ae_prev_log_index req)
             (N.of_nat (length (ae_entries req))) resp n in
  safe_move ps h (led m) cands acks (self_ack i m) i n m.
Proof.
  intros Hu Hlp Hack m. pose proof node_log as Hl. pose proof node_safe as Hs.
  assert (log_move ps votes h i n m) as Hlm by (by eapply log_move_reply).
  assert (aligned m) as Hal.
  { by apply (run_aligned_event (EvAppendReply (ae_term req) dst (ae_prev_log_index req)
      (N.of_nat (length (ae_entries req))) resp)); [| |apply Hl|apply Hs]. }
  destruct Hlp as (Hne & Hid & Hled & Hc).
  destruct (led_by_log _ _ _ _ _ _ Hlog Hled) as (_ & _ & Hfit & Hlen).
  destruct (carries_ok _ _ Hc Hfit Hlen) as [Hb _]. revert Hlm Hal. unfold m, append_reply.
  case_bool_decide as Hlt.
  { intros Hlm Hal. apply safe_move_log; try done;
      [apply (lm_term _ _ _ _ _ _ Hlm)|by left|by left]. }
  destruct (is_leader_of (ae_term req) n) eqn:El; [|intros _ _; apply safe_move_still].
  apply andb_bool_decide in El as [Hr Et]. destruct (aer_success resp) eqn:Eok.
  - cbv zeta. intros Hlm Hal. set (x := with_indices _ _ n) in *.
    set (y := advance_commit_index_locked x) in *.
    destruct (core_eq _ _ (core_advance x)) as (_ & _ & F3 & F4 & F5). fold y in F3, F4, F5.
    change (role_ x) with (role_ n) in F5. rewrite Hr in F5.
    assert (current_term y = current_term n /\ voted_for y = voted_for n) as [Ey Ev]
      by (unfold current_term, voted_for; by rewrite F3).
    destruct (advance_move x) as [Hcm Hmt]; try done.
    { eapply match_ok_mono; [apply union_subseteq_l|done|done|].
      apply reply_match; [done..|by apply Hack|lia]. }
    apply safe_move_log; [done|by apply led_ext|by rewrite F4|lia|congruence
      |by right; left|by auto|done|by right|done].
  - intros Hlm Hal. apply safe_move_log; try done; [by apply led_ext|by auto|by auto|by auto| |by left].
    intros _. apply (match_ok_mono ps acks _ i n); [apply union_subseteq_l|done|done|by apply Hs].
Qed.

(** The follower's log after it accepted a request of term [T]. *)
Lemma accepted_move req m ld :
  h !! ae_term req = Some ld -> carries (llog ld) req ->
  safe_packet ps h cands acks (AppendReq (owner ld) i req) ->
  fresh_append req (log_ n) = true -> current_term n <= ae_term req ->
  current_term m = ae_term req -> role_ m = Follower -> aligned m ->
  (voted_for m = (-1)%Z \/ (current_term m = current_term n /\ voted_for m = voted_for n)) ->
  entries m = (match ae_entries req with
               | [] => entries n
               | _ => take (request_end req) (llog ld)
               end) ->
  take (N.to_nat (ae_prev_log_index req)) (entries n) =
    take (N.to_nat (ae_prev_log_index req)) (llog ld) ->
  commit_index_ m = (if commit_index_ n <?? ae_leader_commit req
                     then N.min (ae_leader_commit req) (RaftLog.last_index (log_ m))
                     else commit_index_ n) ->
  safe_move ps h (led m) cands acks {[ (i, ae_term req, request_end req) ]} i n m.
Proof.
  intros E Hc Hpk Hfr Ht Et Hr Hal Hv Em Htk Ecm.
  pose proof node_log as [Hw Hs0 _ _ _ _ _]. pose proof node_safe as Hs.
  assert (led m = h) as -> by (unfold led; rewrite lead_follower; congruence).
  assert (leader_log h (ae_term req) = llog ld) as Ell by (unfold leader_log; by rewrite E).
  pose proof (si_terms _ _ _ _ _ _ Hsafe _ _ E) as Hst.
  assert (request_end req <= length (llog ld))%nat as Hend.
  { destruct Hc as (H1 & _ & H3). apply prefix_length in H3.
    rewrite length_app, length_take, length_fmap in H3. unfold request_end. lia. }
  assert (take (request_end req) (llog ld) `prefix_of` entries m) as Hpre.
  { rewrite Em. unfold request_end. destruct (ae_entries req) eqn:Ee; [|done]. cbn [length].
    rewrite Nat.add_0_r, <-Htk. apply prefix_of_take. }
  assert (forall X, X `prefix_of` entries n -> X `prefix_of` llog ld -> X `prefix_of` entries m)
    as HX by (intros X; by apply (fresh_keeps X n m (llog ld) req)).
  split; try congruence; try done.
  - rewrite Et, Em. destruct (ae_entries req).
    + eapply ordered_weaken; [exact Ht|apply Hs].
    + eapply ordered_prefix; [apply prefix_of_take|apply Hst].
  - intros x ->%elem_of_singleton. exists (request_end req). rewrite Et, Ell. done.
  - rewrite Et, Ecm. apply (commit_ok_mono ps h h acks _ (ae_term req) (ae_term req));
      [done|apply union_subseteq_l|done|]. case_bool_decide.
    + eapply commit_ok_le; [apply N.le_min_l|]. eapply commit_ok_prefix; [exact Hpre|].
      cbn in Hpk. by rewrite Ell in Hpk.
    + apply (commit_ok_mono ps h h acks acks (current_term n)); [done|done|done|].
      eapply commit_ok_transfer; [done|exact Ht|exact E|exact HX|apply Hs].
  - intros trm k Ho Hle Hcn. rewrite Et. destruct (decide (trm = ae_term req)) as [->|Hne].
    + left. apply HX; [done|]. rewrite Ell. apply prefix_of_take.
    + destruct (decide (contains h trm k (llog ld))); [left; by apply HX|right].
      exists (ae_term req). split; [|done]. split; [lia|]. by exists ld.
  - destruct Hv; auto.
Qed.

Lemma append_event_keeps req ld now draw :
  h !! ae_term req = Some ld -> carries (llog ld) req -> fresh_append req (log_ n) = true ->
  current_term n <= ae_term req -> event_keeps (EvAppendEntries now draw req) n.
Proof.
  intros E Hc Hfr Ht. pose proof node_log as [Hw Hs0 _ _ _ _ _]. pose proof node_safe as Hs.
  destruct (commit_ok_leader _ _ _ _ _ _ _ _ _ _ _ Hsafe (sn_commit _ _ _ _ _ _ Hs) Ht E)
    as (X & HX1 & HX2 & HX3).
  eapply (append_keeps_applied X n (llog ld)); [apply Hs|done|done|done| |done|done|done|].
  - apply (si_terms _ _ _ _ _ _ Hsafe _ _ E).
  - intros Hne. set (l := match ae_entries req with [] => entries n
                          | _ => take (request_end req) (llog ld) end).
    set (m := with_log (RaftLog.with_entries l (log_ n)) n).
    assert (X `prefix_of` entries m) as H by (by apply (fresh_keeps X n m (llog ld) req)).
    apply prefix_length in H. cbn in H. unfold l in H.
    destruct (ae_entries req); [done|]. rewrite length_take in H. lia.
Qed.

Lemma safe_move_append now draw src req :
  packet_inv votes (AppendReq src i req) -> log_packet ps h (AppendReq src i req) ->
  safe_packet ps h cands acks (AppendReq src i req) -> fresh_append req (log_ n) = true ->
  let m := (handle_append_entries now draw req n).1 in
  exists new, safe_move ps h (led m) cands acks new i n m /\
    (aer_success (handle_append_entries now draw req n).2 = true ->
     (i, ae_term req, request_end req) ∈ acks ∪ new).
Proof.
  intros Hu Hlp Hpk Hfr m. pose proof node_log as Hl. pose proof node_safe as Hs.
  pose proof (inv_nodes _ _ _ Hinv _ _ Hn) as Hi.
  pose proof Hlp as (Hne & Hid & Hled & Hc).
  assert (log_move ps votes h i n m) as Hlm by (by eapply log_move_append).
  destruct (led_by_log _ _ _ _ _ _ Hlog Hled) as (_ & Hgl & Hfit & Hlen).
  destruct (carries_ok _ _ Hc Hfit Hlen) as [Hb Hfe].
  destruct Hled as (ld & E & Eo).
  assert (leader_log h (ae_term req) = llog ld) as Ell by (unfold leader_log; by rewrite E).
  pose proof (append_state now draw req n) as Est. apply adopt_vote in Est. fold m in Est.
  pose proof (append_cases now draw req n) as Hcs.
  assert (current_term n <= ae_term req -> aligned m) as Hal.
  { intros Ht. apply (run_aligned_event (EvAppendEntries now draw req)); [| |apply Hl|apply Hs].
    - split_and!; [done|lia|done].
    - by eapply append_event_keeps; [|rewrite <-Ell|..]. }
  unfold m in *. destruct (handle_append_entries now draw req n) as [y resp]. cbn [fst snd] in *.
  destruct Hcs as [(_ & -> & Eok)|[(Ht & Hr & Et & Eok & El & Ec & _)|(Ht & Hr & Et & Eok & Hp & El & Ec)]].
  - exists (self_ack i n). split; [apply safe_move_still|congruence].
  - exists (self_ack i y). split; [|congruence].
    apply safe_move_log; [done|by apply led_ext|done|lia|congruence|destruct Est; auto|congruence..|by left|by auto].
  - rewrite <-(ni_id _ _ _ _ Hi) in Hl.
    destruct (accepted_entries h n y _ req Hl Hgl Hc Hfit Hlen Hp El) as (_ & _ & Ee & Htk).
    rewrite Ell in *. eexists. split; [|intros _; apply elem_of_union_r, elem_of_singleton; done].
    eapply accepted_move; try done. by auto.
Qed.
End Moves.

(** ** Every execution *)

(** The commit index a leader sends is committed. *)
Lemma build_commit ps votes h cands acks c i n trm nx req :
  log_inv ps votes h c -> safe_inv ps votes h cands acks c -> nodes c !! i = Some n ->
  1 <= nx <= N.of_nat (length (leader_log h trm)) + 1 -> send_build trm nx n = Some req ->
  commit_ok ps h acks (ae_term req) (ae_leader_commit req)
    (take (request_end req) (leader_log h (ae_term req))).
Proof.
  intros Hlog Hsafe Hn Hnx Hb. pose proof (li_nodes _ _ _ _ Hlog _ _ Hn) as Hl.
  assert (is_leader_of trm n = true) as Hlead
    by (unfold send_build in Hb; by destruct (is_leader_of trm n)).
  destruct (leader_of_log h i n trm Hl Hlead) as [_ Ell]. rewrite Ell in Hnx.
  destruct (send_build_carries h i n trm nx req Hl Hnx Hb) as (_ & Et & Ecm & Hc & Eall).
  rewrite Et, Ell, Ecm. apply andb_bool_decide in Hlead as [_ <-].
  rewrite take_ge; [apply (si_nodes _ _ _ _ _ _ Hsafe _ _ Hn)|].
  rewrite <-Eall. unfold request_end. rewrite length_app, length_take, length_fmap. lia.
Qed.

Lemma transition_safe ps votes h cands acks a c i n m out :
  inv ps votes c -> log_inv ps votes h c -> safe_inv ps votes h cands acks c ->
  nodes c !! i = Some n -> safe_action a c = true -> transition c i n a m out ->
  let h' := lead ps (record_vote i m votes) i m h in
  exists new, safe_move ps h h' cands acks new i n m /\
    Forall (safe_packet ps h' (stand i m cands) (acks ∪ new)) out.
Proof.
  intros Hinv Hlog Hsafe Hn Hok Ht h'.
  pose proof (inv_nodes _ _ _ Hinv _ _ Hn) as Hi. pose proof (li_nodes _ _ _ _ Hlog _ _ Hn) as Hl.
  pose proof (inv_wire _ _ _ Hinv) as Hw. pose proof (li_wire _ _ _ _ Hlog) as Hlw.
  pose proof (si_wire _ _ _ _ _ _ Hsafe) as Hsw. rewrite Forall_forall in Hw, Hlw, Hsw.
  assert (safe_move ps h (lead ps (record_vote i n votes) i n h) cands acks (self_ack i n) i n n)
    as Hstill by (by eapply safe_move_still).
  unfold h'. clear h'.
  destruct Ht as [a|a now|a et reply Hr|a now draw|a now draw src req Hin|a now draw Hroom
    |a now et results values Hpc Hf|a Hr|a dst trm nx Hin|a dst trm nx req Hin Hs
    |a dst trm nx req Hin Hb|cmd Hc Hroom|k now draw src req Hin|a dst req resp Hin
    |a now draw src req Hin|a dst req resp Hin].
  - by eexists.
  - eexists. split; [|done]. by eapply (safe_move_quiet _ _ _ _ _ _ _ _ Hinv Hlog Hsafe Hn (EvTick now)).
  - eexists. split; [|done].
    eapply (safe_move_quiet _ _ _ _ _ _ _ _ Hinv Hlog Hsafe Hn (EvVoteReply et reply)); [done|done|].
    destruct reply; [|done]. destruct Hr as [dst Hr]. by apply Hw in Hr as [? _].
  - eexists. split; [|done].
    by eapply (safe_move_quiet _ _ _ _ _ _ _ _ Hinv Hlog Hsafe Hn (EvRestart now draw)).
  - eexists. split; [|by apply Forall_singleton].
    eapply safe_move_vote; [done..|by apply Hw|by apply Hsw].
  - eexists. eapply safe_move_election; [done..|]. done.
  - eexists. split; [|done]. by eapply safe_move_finish.
  - eexists. split; [exact Hstill|]. apply Forall_forall. intros p. rewrite list_elem_of_omap.
    intros (j & _ & E). apply fmap_Some in E as (nx & _ & ->). done.
  - eexists. split; [exact Hstill|]. by apply Forall_singleton.
  - eexists. split; [exact Hstill|]. by apply Forall_singleton.
  - eexists. split; [exact Hstill|]. apply Forall_singleton. apply Hlw in Hin as (_ & _ & _ & Hnx).
    cbn. rewrite (lead_known _ _ _ _ _ Hl).
    eapply commit_ok_mono; [done|apply union_subseteq_l|reflexivity|by eapply build_commit].
  - eexists. split; [|done]. eapply safe_move_propose; [done..|].
    apply andb_true_iff in Hok as [_ Hok]. by apply negb_true_iff, bool_decide_eq_false in Hok.
  - unfold safe_action in Hok. rewrite Hin, Hn in Hok. cbn in Hok.
    apply list_elem_of_lookup_2 in Hin.
    destruct (safe_move_append _ _ _ _ _ _ _ _ Hinv Hlog Hsafe Hn now draw src req)
      as (new & Hm & Hack); [by apply Hw|by apply Hlw|by apply Hsw|done|].
    exists new. split; [done|]. by apply Forall_singleton.
  - eexists. split; [|done]. eapply safe_move_reply; [done..|by apply Hw|by apply Hlw|by apply Hsw].
  - by apply Hlw in Hin.
  - by apply Hlw in Hin.
Qed.

Lemma safe_inv_eq ps votes h cands acks c c' :
  nodes c' = nodes c -> wire c' = wire c ->
  safe_inv ps votes h cands acks c -> safe_inv ps votes h cands acks c'.
Proof.
  intros En Ew [H1 H2 H3 H4 H5]. split; [by rewrite En| |done|done|by rewrite Ew].
  intros key cl E. unfold safe_cand. rewrite En. by apply H2.
Qed.

Lemma safe_inv_exec ps votes h cands acks a c c' :
  peers_ok ps -> inv ps votes c -> log_inv ps votes h c -> safe_inv ps votes h cands acks c ->
  term_room a c = true -> safe_action a c = true -> exec a c = Some c' ->
  exists votes h cands acks,
    inv ps votes c' /\ log_inv ps votes h c' /\ safe_inv ps votes h cands acks c'.
Proof.
  intros Hps Hinv Hlog Hsafe Hroom Hok He.
  pose proof Hok as [Hplain _]%andb_true_iff.
  destruct (log_inv_exec ps votes h a c c') as (i & n & m & out & Hn & Htr & En & Ew & Hinv' & Hlog' & Hlm);
    [done..|].
  destruct (transition_safe ps votes h cands acks a c i n m out) as (new & Hsm & Hout); [done..|].
  eexists _, _, (stand i m cands), (acks ∪ new). split; [exact Hinv'|]. split; [exact Hlog'|].
  apply (safe_inv_eq _ _ _ _ _ (send out (set_node i m c))); [done..|].
  eapply safe_inv_move; try done. apply Hinv'.
Qed.

Lemma safe_inv_init ps : peers_ok ps -> safe_inv ps ∅ ∅ ∅ ∅ (init ps).
Proof.
  intros Hps. split; [|done|done|by intros ? ? ? ?%elem_of_empty|done].
  intros i n [Hi ->]%init_lookup. split; try done.
  - by left.
  - split_and!; [constructor|done..].
  - intros trm k (e & E & _). unfold leader_log in E. by rewrite lookup_empty in E.
Qed.

Lemma runs_safe_inv ps c :
  peers_ok ps -> runs safe_action ps c ->
  exists votes h cands acks,
    inv ps votes c /\ log_inv ps votes h c /\ safe_inv ps votes h cands acks c.
Proof.
  intros Hps. induction 1 as [|a c c' _ (votes & h & cands & acks & Hinv & Hlog & Hsafe) Hroom Hok He].
  - exists ∅, ∅, ∅, ∅. split; [by apply inv_init|]. split; [by apply log_inv_init|by apply safe_inv_init].
  - by eapply safe_inv_exec.
Qed.

(** ** The theorems *)

(** Two committed prefixes agree. *)
Lemma commits_agree ps votes h cands acks c b1 b2 c1 c2 l1 l2 :
  safe_inv ps votes h cands acks c ->
  commit_ok ps h acks b1 c1 l1 -> commit_ok ps h acks b2 c2 l2 -> c1 <= c2 ->
  take (N.to_nat c1) l1 = take (N.to_nat c1) l2.
Proof.
  assert (forall c1 c2 t1 k1 t2 k2 l1 l2, safe_inv ps votes h cands acks c ->
    committed ps h acks t1 k1 -> committed ps h acks t2 k2 -> t1 <= t2 ->
    c1 <= N.of_nat (S k1) -> c2 <= N.of_nat (S k2) ->
    take (N.to_nat c1) (leader_log h t1) `prefix_of` l1 ->
    take (N.to_nat c2) (leader_log h t2) `prefix_of` l2 ->
    take (N.to_nat (N.min c1 c2)) l1 = take (N.to_nat (N.min c1 c2)) l2) as Hle.
  { clear. intros c1 c2 t1 k1 t2 k2 l1 l2 Hs H1 H2 Ht Hc1 Hc2 P1 P2.
    pose proof (own_lt _ _ _ (proj1 H1)). pose proof (own_lt _ _ _ (proj1 H2)) as Hk2.
    assert (take (S k1) (leader_log h t1) `prefix_of` leader_log h t2) as Hp.
    { destruct (decide (t1 = t2)) as [->|Hne]; [apply prefix_of_take|].
      destruct (h !! t2) as [ld|] eqn:E; 
        [|unfold leader_log in Hk2; rewrite E in Hk2; cbn in Hk2; lia].
      unfold leader_log at 2. rewrite E.
      apply (completeness ps votes h cands acks c t1 k1 t2 ld); [done|done|lia|done]. }
    set (k := N.to_nat (N.min c1 c2)).
    rewrite <-(prefix_take _ _ k P1), <-(prefix_take _ _ k P2)
      by (rewrite length_take; unfold k; lia).
    rewrite !take_take.
    replace (k `min` N.to_nat c1)%nat with k by (unfold k; lia).
    replace (k `min` N.to_nat c2)%nat with k by (unfold k; lia).
    rewrite <-(prefix_take _ _ k Hp) by (rewrite length_take; unfold k; lia).
    rewrite take_take. f_equal. unfold k. lia. }
  intros Hs [->|(t1 & k1 & H1 & _ & Hc1 & P1)]; [done|].
  intros [->|(t2 & k2 & H2 & _ & Hc2 & P2)] Hc; [by replace c1 with 0 by lia|].
  replace (N.to_nat c1) with (N.to_nat (N.min c1 c2)) by lia.
  destruct (decide (t1 <= t2)) as [Ht|Ht]; [by apply (Hle c1 c2 t1 k1 t2 k2)|].
  rewrite N.min_comm. symmetry. apply (Hle c2 c1 t2 k2 t1 k1); try done. lia.
Qed.

Lemma runs_node ps c i n :
  peers_ok ps -> runs safe_action ps c -> nodes c !! i = Some n ->
  wf n /\ RaftLog.snapshot_last_index_ (log_ n) = 0 /\ aligned n.
Proof.
  intros Hps Hr Hi. destruct (runs_safe_inv ps c Hps Hr) as (votes & h & cands & acks & _ & Hlog & Hs).
  destruct (li_nodes _ _ _ _ Hlog _ _ Hi). split_and!; [done..|]. apply (si_nodes _ _ _ _ _ _ Hs _ _ Hi).
Qed.

(** The commands a server applied, from its log. *)
Lemma applied_take n :
  wf n -> RaftLog.snapshot_last_index_ (log_ n) = 0 -> aligned n ->
  applied_commands_ n = command <$> take (N.to_nat (commit_index_ n)) (entries n).
Proof.
  intros Hw Hs (_ & _ & Ela & Hle & -> & _). unfold RaftLog.snapshot_last_index. rewrite Hs, Ela.
  rewrite last_index_entries in Hle by done. pose proof Hw as (_ & [Hf _] & _).
  apply list_eq. intros k. unfold commands_in, index_range. rewrite !list_lookup_fmap.
  destruct (decide (k < N.to_nat (commit_index_ n))%nat).
  - rewrite lookup_seq_lt, lookup_take, decide_True by lia. cbn.
    rewrite RaftLog.command_at_entry, entry_at_entries by (done || lia).
    replace (N.to_nat (0 + 1 + N.of_nat k - 1)) with k by lia.
    destruct (lookup_lt_is_Some_2 (entries n) k) as [e ->]; [lia|done].
  - rewrite lookup_seq_ge, lookup_take_ge by lia. done.
Qed.

(** Servers that committed less applied a prefix. *)
Lemma applied_prefix ps c i j n m :
  peers_ok ps -> runs safe_action ps c -> nodes c !! i = Some n -> nodes c !! j = Some m ->
  commit_index_ n <= commit_index_ m -> applied_commands_ n `prefix_of` applied_commands_ m.
Proof.
  intros Hps Hr Hi Hj Hle. destruct (runs_node ps c i n Hps Hr Hi) as (W1 & S1 & A1).
  destruct (runs_node ps c j m Hps Hr Hj) as (W2 & S2 & A2). rewrite !applied_take by done.
  destruct (runs_safe_inv ps c Hps Hr) as (votes & h & cands & acks & _ & _ & Hs).
  rewrite (commits_agree ps votes h cands acks c (current_term n) (current_term m)
             (commit_index_ n) (commit_index_ m) (entries n) (entries m) Hs);
    [|apply (si_nodes _ _ _ _ _ _ Hs _ _ Hi)|apply (si_nodes _ _ _ _ _ _ Hs _ _ Hj)|done].
  replace (take (N.to_nat (commit_index_ n)) (entries m))
    with (take (N.to_nat (commit_index_ n)) (take (N.to_nat (commit_index_ m)) (entries m))).
  - rewrite fmap_take. apply prefix_of_take.
  - rewrite take_take. f_equal. lia.
Qed.

(** C2: state machine safety.  In every execution in which no server compacts
    its log, no empty command is proposed and no delivered AppendEntries cuts
    entries off a log that agrees with it, whatever is lost, delayed,
    duplicated or reordered and whoever restarts, the commands that two
    servers have applied are prefixes of one another. *)
Theorem state_machine_safety (ps : list RaftPeer) (c : cluster) (i j : Z) (n m : t) :
  peers_ok ps -> runs safe_action ps c ->
  nodes c !! i = Some n -> nodes c !! j = Some m ->
  applied_commands_ n `prefix_of` applied_commands_ m \/
  applied_commands_ m `prefix_of` applied_commands_ n.
Proof.
  intros Hps Hr Hi Hj. destruct (decide (commit_index_ n <= commit_index_ m)).
  - left. by eapply applied_prefix.
  - right. eapply applied_prefix; try done. lia.
Qed.

(** C3: leader completeness.  In the same executions, a leader's log holds every
    entry that any server of the same or an earlier term has committed. *)
Theorem leader_completeness (ps : list RaftPeer) (c : cluster) (i j : Z) (n m : t) (k : N) :
  peers_ok ps -> runs safe_action ps c ->
  nodes c !! i = Some n -> nodes c !! j = Some m ->
  role_ m = Leader -> current_term n <= current_term m -> 1 <= k <= commit_index_ n ->
  is_Some (RaftLog.entry_at (log_ n) k) /\
  RaftLog.entry_at (log_ m) k = RaftLog.entry_at (log_ n) k.
Proof.
  intros Hps Hr Hi Hj Hl Ht Hk. destruct (runs_node ps c i n Hps Hr Hi) as (_ & S1 & _).
  destruct (runs_safe_inv ps c Hps Hr) as (votes & h & cands & acks & _ & Hlog & Hs).
  destruct (li_nodes _ _ _ _ Hlog _ _ Hj) as [_ S2 _ _ Hld _ _]. destruct (Hld Hl) as [Q E].
  pose proof (sn_commit _ _ _ _ _ _ (si_nodes _ _ _ _ _ _ Hs _ _ Hi)) as Hc.
  destruct (commit_ok_leader _ _ _ _ _ _ _ _ _ _ _ Hs Hc Ht E) as (X & H1 & H2 & HX). cbn in H2.
  destruct (lookup_lt_is_Some_2 X (N.to_nat (k - 1))) as [e He]; [lia|].
  rewrite !entry_at_entries by (done || lia).
  rewrite (prefix_lookup_Some _ _ _ _ He H1), (prefix_lookup_Some _ _ _ _ He H2). by split.
Qed.

(** ** A schedule with two leaders *)

(** Server 1 commits "a" with server 2; server 2 is elected by server 3, brings
    it up to date and commits "c"; server 1 still leads term 1. *)
Definition handover_schedule : list action :=
  elect_1 ++
  [APropose 1 "a"; ATick 1 310; AReplicate 1; ADeliver 3 311 300; ADeliver 5 311 300;
   ADeliver 6 311 300; ADeliver 7 312 300;
   ATick 2 5000; AElection 2 5000 300; ADeliver 9 5001 300; ADeliver 10 5001 300; AVoteFail 2 1;
   AElectionDone 2 5010; APropose 2 "c"; ATick 2 5010; AReplicate 2; ADeliver 12 5011 300;
   ADeliver 13 5011 300; ADeliver 14 5011 300; ADeliver 15 5012 300; ATick 2 5061; AReplicate 2;
   ADeliver 17 5062 300; ADeliver 18 5062 300; ADeliver 19 5062 300; ADeliver 20 5062 300].

Definition summary (c : cluster) (i : Z) : option (list string * Role * N * N) :=
  (fun n => (applied_commands_ n, role_ n, current_term n, commit_index_ n)) <$> nodes c !! i.

Lemma handover_outcome :
  (fun c => (summary c 1, summary c 2)) <$> exec_ok safe_action handover_schedule (init three_peers) =
  Some (Some (["a"], Leader, 1, 1), Some (["a"; "c"], Leader, 2, 2)).
Proof. vm_compute. reflexivity. Qed.

(** The state it ends in. *)
Lemma handover_state :
  exists c n m, runs safe_action three_peers c /\
    nodes c !! 1%Z = Some n /\ nodes c !! 2%Z = Some m /\
    (applied_commands_ n, role_ n, current_term n, commit_index_ n) = (["a"], Leader, 1, 1) /\
    (applied_commands_ m, role_ m, current_term m, commit_index_ m) = (["a"; "c"], Leader, 2, 2).
Proof.
  pose proof handover_outcome as H. apply fmap_Some in H as (c & E & H).
  apply (exec_ok_runs _ three_peers) in E; [|constructor].
  injection H as H1 H2. symmetry in H1, H2.
  apply fmap_Some in H1 as (n & En & H1). apply fmap_Some in H2 as (m & Em & H2).
  exists c, n, m. split; [exact E|]. split; [exact En|]. split; [exact Em|].
  split; [exact (eq_sym H1)|exact (eq_sym H2)].
Qed.

(** The schedule that loses a command is excluded by [safe_action]. *)
Example stale_schedule_excluded :
  exec_ok safe_action stale_schedule (init three_peers) = None /\
  is_Some (exec_ok plain_action stale_schedule (init three_peers)).
Proof. split; [vm_compute; reflexivity|]. by eexists; vm_compute. Qed.

Lemma state_machine_safety_witness :
  exists c n m, nodes c !! 1%Z = Some n /\ nodes c !! 2%Z = Some m /\
    applied_commands_ n = ["a"] /\ applied_commands_ m = ["a"; "c"] /\
    (applied_commands_ n `prefix_of` applied_commands_ m \/
     applied_commands_ m `prefix_of` applied_commands_ n).
Proof.
  destruct handover_state as (c & n & m & Hr & En & Em & [= H1 _ _ _] & [= H2 _ _ _]).
  exists c, n, m. split; [exact En|]. split; [exact Em|]. split; [exact H1|]. split; [exact H2|].
  exact (state_machine_safety three_peers c 1 2 n m three_peers_ok Hr En Em).
Defined.

Lemma leader_completeness_witness :
  exists c n m, nodes c !! 1%Z = Some n /\ nodes c !! 2%Z = Some m /\
    role_ m = Leader /\ current_term n = 1 /\ current_term m = 2 /\
    is_Some (RaftLog.entry_at (log_ n) 1) /\
    RaftLog.entry_at (log_ m) 1 = RaftLog.entry_at (log_ n) 1.
Proof.
  destruct handover_state as (c & n & m & Hr & En & Em & [= _ _ T1 C1] & [= _ L2 T2 _]).
  exists c, n, m. do 5 (split; [done|]).
  apply (leader_completeness three_peers c 1 2 n m 1 three_peers_ok Hr En Em L2); [lia|].
  rewrite C1. lia.
Defined.
