(* ===== verification/HashRing.v ===== *)
(** * Placement of keys on shards ([src/cluster/routing.hpp], [src/cluster/hash_ring.hpp])

    The 64-bit FNV-1a hash, the virtual-node points and the sorted ring.  The
    ring is shown to implement a choice that does not mention sorting: the
    first point clockwise from the key's hash.  From that follow agreement
    between coordinators and minimal disruption when shards come and go. *)

From S2P Require Import Prelude.

(** ** Hashing *)

Definition FNV_OFFSET : N := 14695981039346656037.

Definition FNV_PRIME : N := 1099511628211.

Definition fnv1a_64 (s : string) : N :=
  foldl (fun h c => u64_mul (N.lxor h (N_of_ascii c)) FNV_PRIME) FNV_OFFSET (bytes_of s).

(** Routing by modulo; [None] is the division by zero. *)
Definition route_shard (external_id : string) (num_shards : N) : option N :=
  if num_shards =?? 0 then None else Some (fnv1a_64 external_id mod num_shards).

Definition well_mixed_hash (external_id : string) : N :=
  let h := fnv1a_64 external_id in
  fnv1a_64 (pretty h).

(** ** The ring *)

Definition VIRTUAL_NODES_PER_SHARD : nat := 200.

Definition chained_vnode_point (shard_id : Z) (vnode_index : nat) : N :=
  Nat.iter (S vnode_index) (fun h => fnv1a_64 (pretty h)) (fnv1a_64 (pretty shard_id)).

Abbreviation point := (N * Z)%type.

(** [operator<] of [std::pair]. *)
Definition point_le (p q : point) : Prop :=
  p.1 < q.1 \/ (p.1 = q.1 /\ (p.2 <= q.2)%Z).

#[export] Instance point_le_dec : RelDecision point_le.
Proof. intros p q. unfold point_le. apply _. Defined.

Module HashRing.

Definition points (shard_ids : list Z) : list point :=
  shard_ids ≫= fun sid =>
    (fun v => (chained_vnode_point sid v, sid)) <$> seq 0 VIRTUAL_NODES_PER_SHARD.

Definition build (shard_ids : list Z) : list point := merge_sort point_le (points shard_ids).

(** [std::lower_bound] and the wrap to the first point; [None] stands for the
    dereferenced end iterator of an empty ring. *)
Definition owner (h : N) (ring : list point) : option point :=
  match list_find (fun p => h <= p.1) ring with
  | Some (_, p) => Some p
  | None => head ring
  end.

Definition route (ring : list point) (external_id : string) : option Z :=
  snd <$> owner (well_mixed_hash external_id) ring.

Definition empty (ring : list point) : bool := match ring with [] => true | _ => false end.

Definition point_count (ring : list point) : nat := length ring.

End HashRing.
Import HashRing.

(** ** The order of [std::pair] is total *)

#[export] Instance point_le_trans : Transitive point_le.
Proof. intros [a1 a2] [b1 b2] [c1 c2]. unfold point_le. cbn. lia. Qed.

#[export] Instance point_le_total : Total point_le.
Proof. intros [a1 a2] [b1 b2]. unfold point_le. cbn. lia. Qed.

Lemma fnv1a_64_u64 s : is_u64 (fnv1a_64 s).
Proof.
  unfold fnv1a_64. assert (is_u64 FNV_OFFSET) as H by done. revert H.
  generalize FNV_OFFSET. induction (bytes_of s) as [|c l IH]; intros h Hh; [done|].
  cbn [foldl]. apply IH. apply u64_bound.
Qed.

(** ** The specification: first point clockwise *)

(** [p] comes no later than [q] on the way clockwise from [h]: points at or
    after [h] first, then by position, then by shard id. *)
Definition cw_le (h : N) (p q : point) : Prop :=
  match decide (h <= p.1), decide (h <= q.1) with
  | left _, right _ => True
  | right _, left _ => False
  | _, _ => point_le p q
  end.

(** [p] is the first of [ps] clockwise from [h]. *)
Definition first_clockwise (h : N) (ps : list point) (p : point) : Prop :=
  p ∈ ps /\ forall q, q ∈ ps -> cw_le h p q.

Lemma cw_le_antisym h p q : cw_le h p q -> cw_le h q p -> p = q.
Proof.
  unfold cw_le, point_le. destruct p as [p1 p2], q as [q1 q2]. cbn.
  repeat case_decide; intros; try done; f_equal; lia.
Qed.

Lemma first_clockwise_unique h ps p q :
  first_clockwise h ps p -> first_clockwise h ps q -> p = q.
Proof. intros [Hp Hp'] [Hq Hq']. eapply cw_le_antisym; eauto. Qed.

(** Only membership counts. *)
Lemma first_clockwise_subset h ps qs p :
  ps ⊆ qs -> p ∈ ps -> first_clockwise h qs p -> first_clockwise h ps p.
Proof. intros Hs Hp [_ Hq]. split; [done|]. auto. Qed.

Lemma sorted_lookup (l : list point) i j p q :
  StronglySorted point_le l -> l !! i = Some p -> l !! j = Some q -> (i <= j)%nat -> point_le p q.
Proof.
  intros Hs. revert i j. induction Hs as [|x l Hs IH Hx]; intros i j Hi Hj Hle; [done|].
  rewrite Forall_forall in Hx. destruct i as [|i], j as [|j]; simplify_eq/=; [|  |lia|].
  - unfold point_le. lia.
  - apply Hx. by eapply list_elem_of_lookup_2.
  - eapply IH; [done..|lia].
Qed.

Lemma owner_first h ring p :
  StronglySorted point_le ring -> owner h ring = Some p -> first_clockwise h ring p.
Proof.
  intros Hs. unfold owner. destruct (list_find _ ring) as [[i p']|] eqn:Hf.
  - intros [= ->]. apply list_find_Some in Hf as (Hi & Hp & Hbefore).
    split; [by eapply list_elem_of_lookup_2|]. intros q [j Hj]%list_elem_of_lookup_1.
    unfold cw_le. rewrite decide_True by done. case_decide as Hq; [|done].
    destruct (decide (j < i)%nat) as [Hlt|Hge]; [by destruct (Hbefore j q Hj Hlt)|].
    eapply sorted_lookup; [done..|lia].
  - intros Hh. apply list_find_None in Hf. rewrite head_lookup in Hh. rewrite Forall_forall in Hf.
    split; [by eapply list_elem_of_lookup_2|]. intros q Hq. unfold cw_le.
    rewrite !decide_False; [|by apply Hf|apply Hf; by eapply list_elem_of_lookup_2].
    apply list_elem_of_lookup_1 in Hq as [j Hj]. eapply sorted_lookup; [done..|lia].
Qed.

Lemma owner_is_Some h ring : ring <> [] -> is_Some (owner h ring).
Proof. intros Hne. unfold owner. destruct (list_find _ ring) as [[??]|]; [done|]. by destruct ring. Qed.

(** ** Points of a set of shards *)

Lemma elem_of_points p shard_ids :
  p ∈ points shard_ids <->
  p.2 ∈ shard_ids /\ exists v, (v < VIRTUAL_NODES_PER_SHARD)%nat /\ p.1 = chained_vnode_point p.2 v.
Proof.
  unfold points. rewrite list_elem_of_bind. setoid_rewrite list_elem_of_fmap. split.
  - intros (sid & (v & -> & Hv) & Hs). apply elem_of_seq in Hv. cbn [fst snd].
    split; [done|]. exists v. split; [lia|done].
  - intros (Hs & v & Hv & E). exists p.2. split; [|done]. exists v.
    rewrite <-E. split; [by destruct p|]. apply elem_of_seq. lia.
Qed.

Lemma points_mono ids1 ids2 : ids1 ⊆ ids2 -> points ids1 ⊆ points ids2.
Proof. intros Hs p. rewrite !elem_of_points. intros [? ?]. auto. Qed.

Lemma elem_of_build p ids : p ∈ build ids <-> p ∈ points ids.
Proof. unfold build. by rewrite merge_sort_Permutation. Qed.

Lemma build_nonempty ids : ids <> [] -> build ids <> [].
Proof.
  intros Hne Hb. destruct ids as [|i ids]; [done|].
  assert ((chained_vnode_point i 0, i) ∈ build (i :: ids)) as Hin.
  { apply elem_of_build, elem_of_points. split; [apply list_elem_of_here|].
    exists 0%nat. split; [unfold VIRTUAL_NODES_PER_SHARD; lia|done]. }
  rewrite Hb in Hin. by apply not_elem_of_nil in Hin.
Qed.

Lemma owner_build h ids p :
  owner h (build ids) = Some p <-> first_clockwise h (points ids) p.
Proof.
  assert (forall p, owner h (build ids) = Some p -> first_clockwise h (points ids) p) as H.
  { intros q Hq. apply owner_first in Hq as [Hq1 Hq2]; [|apply StronglySorted_merge_sort; apply _].
    split; [by apply elem_of_build|]. intros r Hr. apply Hq2. by apply elem_of_build. }
  split; [apply H|]. intros Hp. destruct (owner_is_Some h (build ids)) as [q Hq].
  - apply build_nonempty. intros ->. destruct Hp as [Hp _]. by apply not_elem_of_nil in Hp.
  - rewrite Hq. f_equal. eapply first_clockwise_unique; [by apply H|done].
Qed.

Lemma route_subset ids1 ids2 key sid :
  ids1 ⊆ ids2 -> sid ∈ ids1 -> route (build ids2) key = Some sid ->
  route (build ids1) key = Some sid.
Proof.
  unfold route. intros Hs Hin H. apply fmap_Some in H as ([pt s] & Ho & ->).
  apply owner_build in Ho. cbn [snd] in *.
  apply fmap_Some. exists (pt, s). split; [|done]. apply owner_build.
  eapply first_clockwise_subset; [by apply points_mono| |done].
  destruct Ho as [Hp _]. apply elem_of_points in Hp as [_ Hp]. apply elem_of_points. by split.
Qed.

(** ** Theorems *)

(** C29: routing is total and implements the clockwise choice.  For a non-empty
    set of shards every key has exactly one shard: the shard of the first
    virtual node at or after the key's hash, wrapping to the smallest point,
    with ties broken by shard id; that shard is one of those the ring was
    built from. *)
Theorem route_first_clockwise (ids : list Z) (key : string) :
  ids <> [] ->
  exists pt sid, route (build ids) key = Some sid /\ sid ∈ ids /\
    first_clockwise (well_mixed_hash key) (points ids) (pt, sid).
Proof.
  intros Hne. destruct (owner_is_Some (well_mixed_hash key) (build ids)) as [[pt sid] Ho].
  { by apply build_nonempty. }
  exists pt, sid. unfold route. rewrite Ho. apply owner_build in Ho. split_and!; [done| |done].
  destruct Ho as [Hp _]. by apply elem_of_points in Hp as [? _].
Qed.

Lemma route_first_clockwise_witness :
  exists pt sid, route (build [0; 1; 2]%Z) "vector-1" = Some sid /\ sid ∈ [0; 1; 2]%Z /\
    first_clockwise (well_mixed_hash "vector-1") (points [0; 1; 2]%Z) (pt, sid).
Proof. apply (route_first_clockwise [0; 1; 2]%Z "vector-1"). done. Defined.

(** C30: minimal disruption.  When a shard joins, a key either keeps its shard or
    moves to the new one; when a shard leaves, only its own keys move. *)
Theorem ring_change_moves_only_the_shard (ids : list Z) (s new : Z) (key : string) :
  (route (build (new :: ids)) key = Some s -> s <> new -> route (build ids) key = Some s) /\
  (route (build ids) key = Some s -> s <> new ->
   route (build (filter (fun i => i <> new) ids)) key = Some s).
Proof.
  split; intros Hr Hne.
  - eapply route_subset; [| |exact Hr]; [intros ?; apply list_elem_of_further|].
    unfold route in Hr. apply fmap_Some in Hr as ([pt s'] & Ho & ->).
    apply owner_build in Ho as [Hp _]. apply elem_of_points in Hp as [Hp _]. apply elem_of_cons in Hp. by destruct Hp.
  - eapply route_subset; [| |exact Hr].
    + intros i. rewrite list_elem_of_filter. tauto.
    + unfold route in Hr. apply fmap_Some in Hr as ([pt s'] & Ho & ->).
      apply owner_build in Ho as [Hp _]. apply elem_of_points in Hp as [Hp _].
      by apply list_elem_of_filter.
Qed.

(** coordinators agree.  The ring depends only on the set of shard ids, not
    on their order or multiplicity: two coordinators with the same shards
    route every key alike. *)
Theorem route_set_determined (ids1 ids2 : list Z) (key : string) :
  (forall i, i ∈ ids1 <-> i ∈ ids2) -> route (build ids1) key = route (build ids2) key.
Proof.
  intros Hs. assert (forall p, p ∈ points ids1 <-> p ∈ points ids2) as Hp.
  { intros p. by rewrite !elem_of_points, Hs. }
  unfold route. f_equal. apply option_eq. intros p. rewrite !owner_build.
  unfold first_clockwise. rewrite Hp. by setoid_rewrite Hp.
Qed.

Lemma route_set_determined_witness :
  route (build [2; 0; 1; 0]%Z) "k" = route (build [0; 1; 2]%Z) "k".
Proof.
  apply (route_set_determined [2; 0; 1; 0]%Z [0; 1; 2]%Z "k"). intros i.
  rewrite !elem_of_cons. tauto.
Defined.

Example fnv1a_64_a : fnv1a_64 "a" = 0xaf63dc4c8601ec8c.
Proof. vm_compute. reflexivity. Qed.

Example fnv1a_64_foobar : fnv1a_64 "foobar" = 0x85944171f73967e8.
Proof. vm_compute. reflexivity. Qed.
