(* ===== verification/IdMapStore.v ===== *)
(** * External ids to dense local ids ([src/cluster/id_map_store.hpp])

    An append-only file of length-prefixed records, replayed at startup into
    the two directions of the map.  Writes go through a byte budget: [None]
    for a disk that never fills up, [Some k] for one that accepts [k] more
    bytes; the source does not look at the stream state after writing. *)

From S2P Require Import Prelude.

Module IdMapStore.

Record t := Mk {
  file_ : bytes;
  forward_ : gmap string N;
  reverse_ : list string;
}.

(** One record: a 32-bit length, then that many bytes. *)
Definition record (external_id : string) : bytes :=
  let len := u32 (strlen external_id) in
  le_encode 4 len ++ take (N.to_nat len) (bytes_of external_id).

Definition accepted (budget : option nat) (data : bytes) : bytes :=
  match budget with None => data | Some k => take k data end.

Definition persist (budget : option nat) (external_id : string) (s : t) : t :=
  Mk (file_ s ++ accepted budget (record external_id)) (forward_ s) (reverse_ s).

(** The replay loop; [data] is what is left to read. *)
Fixpoint rebuild_loop (fuel : nat) (data : bytes) (s : t) : t :=
  match fuel with
  | O => s
  | S fuel' =>
    match data with
    | [] => s
    | _ =>
      if decide (length data < 4)%nat then s
      else
        let len := le_decode (take 4 data) in
        let rest := drop 4 data in
        if bsize rest <?? len then s
        else
          let external_id := string_of (take (N.to_nat len) rest) in
          let local_id := u32 (N.of_nat (length (reverse_ s))) in
          rebuild_loop fuel' (drop (N.to_nat len) rest)
            (Mk (file_ s) (<[external_id := local_id]> (forward_ s)) (reverse_ s ++ [external_id]))
    end
  end.

Definition rebuild_index (s : t) : t := rebuild_loop (length (file_ s)) (file_ s) s.

(** A new object on a path; a missing file is created empty. *)
Definition open_file (file : option bytes) : t :=
  rebuild_index (Mk (default [] file) ∅ []).

Definition assign (budget : option nat) (external_id : string) (s : t) : t * (N * bool) :=
  match forward_ s !! external_id with
  | Some local_id => (s, (local_id, false))
  | None =>
    let local_id := u32 (N.of_nat (length (reverse_ s))) in
    let s := persist budget external_id s in
    (Mk (file_ s) (<[external_id := local_id]> (forward_ s)) (reverse_ s ++ [external_id]),
     (local_id, true))
  end.

Definition lookup (external_id : string) (s : t) : option N := forward_ s !! external_id.

Definition reverse_lookup (local_id : N) (s : t) : string :=
  if bool_decide (N.of_nat (length (reverse_ s)) <= local_id) then ""
  else default "" (reverse_ s !! N.to_nat local_id).

Definition size (s : t) : N := N.of_nat (length (reverse_ s)).

Definition list_all_external_ids (s : t) : list string := reverse_ s.

(** ** Invariant *)

(** The forward map is the inverse of the id list, and both stay in range. *)
Definition maps_wf (s : t) : Prop :=
  N.of_nat (length (reverse_ s)) <= U32 /\
  forall e i, forward_ s !! e = Some i <-> (i < U32 /\ reverse_ s !! N.to_nat i = Some e).

(** The file holds exactly the ids, in order. *)
Definition file_wf (s : t) : Prop :=
  Forall (fun e => strlen e < U32) (reverse_ s) /\ file_ s = concat (record <$> reverse_ s).

Definition wf (s : t) : Prop := maps_wf s /\ file_wf s.

Lemma maps_wf_push e s :
  maps_wf s -> forward_ s !! e = None -> N.of_nat (length (reverse_ s)) < U32 ->
  maps_wf (Mk (file_ s) (<[e := N.of_nat (length (reverse_ s))]> (forward_ s)) (reverse_ s ++ [e])).
Proof.
  intros [Hl Hm] Hn Hlt. split; cbn [forward_ reverse_].
  { rewrite length_app. cbn. lia. }
  intros e' i. rewrite lookup_insert_Some, Hm, lookup_app. split.
  - intros [[<- <-]|[Hne [Hi Hr]]]; [|by rewrite Hr]. split; [done|].
    rewrite lookup_ge_None_2 by lia. by rewrite Nat2N.id, Nat.sub_diag.
  - intros [Hi Hr]. destruct (reverse_ s !! N.to_nat i) as [x|] eqn:Ex; simplify_eq.
    + right. split; [|done]. intros <-.
      assert (forward_ s !! e = Some i) as Hc by (by apply Hm). congruence.
    + left. apply lookup_ge_None in Ex.
      destruct (N.to_nat i - length (reverse_ s))%nat as [|k] eqn:Ek; [|done].
      simplify_eq/=. split; [done|lia].
Qed.

Lemma record_small e : strlen e < U32 -> record e = le_encode 4 (strlen e) ++ bytes_of e.
Proof.
  intros H. unfold record, u32. rewrite N.mod_small by done. f_equal. apply take_ge.
  rewrite length_bytes_of. unfold strlen. lia.
Qed.

Lemma length_record e : strlen e < U32 -> length (record e) = (4 + String.length e)%nat.
Proof. intros. rewrite record_small by done. by rewrite length_app, length_le_encode, length_bytes_of. Qed.

(** One turn of the replay loop. *)
Lemma rebuild_cons fuel e rest s :
  strlen e < U32 ->
  rebuild_loop (S fuel) (record e ++ rest) s =
  rebuild_loop fuel rest
    (Mk (file_ s) (<[e := u32 (N.of_nat (length (reverse_ s)))]> (forward_ s)) (reverse_ s ++ [e])).
Proof.
  intros He. rewrite record_small by done. rewrite <-app_assoc. cbn [rebuild_loop].
  destruct (le_encode 4 (strlen e) ++ bytes_of e ++ rest) as [|b l] eqn:E; [done|]. rewrite <-E.
  rewrite decide_False by (rewrite length_app, length_le_encode; lia).
  rewrite take_app_length', drop_app_length' by (by rewrite length_le_encode).
  rewrite le_decode_encode_4 by done.
  rewrite bool_decide_eq_false_2 by (rewrite bsize_app, bsize_bytes_of; lia).
  assert (N.to_nat (strlen e) = length (bytes_of e)) as El
    by (rewrite length_bytes_of; unfold strlen; lia).
  rewrite take_app_length', drop_app_length' by done. by rewrite string_of_bytes_of.
Qed.

(** A cut record ends the replay. *)
Lemma rebuild_cut fuel e k s :
  strlen e < U32 -> (k < length (record e))%nat -> rebuild_loop fuel (take k (record e)) s = s.
Proof.
  intros He Hk. destruct fuel as [|fuel]; [done|]. cbn [rebuild_loop].
  rewrite length_record in Hk by done.
  destruct (take k (record e)) as [|b l] eqn:E; [done|]. rewrite <-E.
  rewrite length_take, length_record by done. case_decide as Hd; [done|].
  rewrite record_small by done.
  rewrite take_take, (Nat.min_l 4 k) by lia.
  rewrite (take_app_length' (le_encode _ _) _ 4) by (by rewrite length_le_encode).
  rewrite le_decode_encode_4 by done. rewrite bool_decide_eq_true_2; [done|].
  unfold bsize. rewrite length_drop, length_take, length_app, length_le_encode, length_bytes_of.
  unfold strlen. lia.
Qed.

(** Replaying records pushes them in order. *)
Lemma rebuild_records es fuel rest s :
  Forall (fun e => strlen e < U32) es -> (length es <= fuel)%nat ->
  NoDup (reverse_ s ++ es) -> maps_wf s ->
  N.of_nat (length (reverse_ s) + length es) <= U32 ->
  exists fw, rebuild_loop fuel (concat (record <$> es) ++ rest) s =
    rebuild_loop (fuel - length es) rest (Mk (file_ s) fw (reverse_ s ++ es)) /\
    maps_wf (Mk (file_ s) fw (reverse_ s ++ es)).
Proof.
  intros He. revert fuel s. induction He as [|e es He Hes IH]; intros fuel s Hf Hd Hm Hl.
  { exists (forward_ s). rewrite app_nil_r, Nat.sub_0_r. split; [by destruct s|]. by destruct s. }
  cbn [length] in Hf, Hl. destruct fuel as [|fuel]; [lia|].
  cbn [fmap list_fmap concat]. rewrite <-app_assoc, rebuild_cons by done.
  unfold u32. rewrite N.mod_small by lia.
  assert (forward_ s !! e = None) as Hn.
  { apply eq_None_not_Some. intros [i [_ Hi]%Hm]. apply NoDup_app in Hd as (_ & Hd & _).
    apply (Hd e); [by eapply list_elem_of_lookup_2|apply list_elem_of_here]. }
  destruct (IH fuel (Mk (file_ s) (<[e := N.of_nat (length (reverse_ s))]> (forward_ s))
                        (reverse_ s ++ [e]))) as (fw & E & Hw).
  - lia.
  - cbn [reverse_]. by rewrite <-app_assoc.
  - apply maps_wf_push; [done..|lia].
  - cbn [reverse_]. rewrite length_app. cbn. lia.
  - exists fw. cbn [reverse_ file_ forward_ length] in *. rewrite <-app_assoc in E, Hw. done.
Qed.

Lemma maps_wf_eq f1 fw1 fw2 rv :
  maps_wf (Mk f1 fw1 rv) -> maps_wf (Mk f1 fw2 rv) -> fw1 = fw2.
Proof.
  intros [_ H1] [_ H2]. apply map_eq. intros e. apply option_eq. intros i.
  by rewrite H1, H2.
Qed.

Lemma maps_wf_NoDup s : maps_wf s -> NoDup (reverse_ s).
Proof.
  intros [Hl Hm]. apply NoDup_alt. intros i j e Hi Hj.
  pose proof (lookup_lt_Some _ _ _ Hi). pose proof (lookup_lt_Some _ _ _ Hj).
  assert (forward_ s !! e = Some (N.of_nat i)) as E1 by (apply Hm; rewrite Nat2N.id; split; [lia|done]).
  assert (forward_ s !! e = Some (N.of_nat j)) as E2 by (apply Hm; rewrite Nat2N.id; split; [lia|done]).
  rewrite E1 in E2. simplify_eq. lia.
Qed.

Lemma maps_wf_init f : maps_wf (Mk f ∅ []).
Proof.
  split; [done|]. intros e i. cbn [forward_ reverse_].
  rewrite lookup_empty, lookup_nil. split; [done|by intros [_ ?]].
Qed.

Lemma length_concat_records es : (length es <= length (concat (record <$> es)))%nat.
Proof.
  induction es as [|e es IH]; [done|]. cbn [fmap list_fmap concat length]. rewrite length_app.
  unfold record at 1. rewrite length_app, length_le_encode. cbn. lia.
Qed.

(** Opening a file of whole records followed by anything the replay ignores. *)
Lemma open_file_records es rest :
  Forall (fun e => strlen e < U32) es -> NoDup es -> N.of_nat (length es) <= U32 ->
  (forall fuel s, rebuild_loop fuel rest s = s) ->
  exists fw, open_file (Some (concat (record <$> es) ++ rest)) =
    Mk (concat (record <$> es) ++ rest) fw es /\ maps_wf (Mk (concat (record <$> es) ++ rest) fw es).
Proof.
  intros He Hd Hl Hr. unfold open_file, rebuild_index. cbn [from_option id file_].
  destruct (rebuild_records es (length (concat (record <$> es) ++ rest)) rest
              (Mk (concat (record <$> es) ++ rest) ∅ [])) as (fw & E & Hw); [done| |done| |done|].
  - rewrite length_app. pose proof (length_concat_records es). lia.
  - apply maps_wf_init.
  - exists fw. by rewrite E, Hr.
Qed.

(** ** Theorems *)

Lemma assign_wf e s : wf s -> size s < U32 -> strlen e < U32 -> wf (assign None e s).1.
Proof.
  intros [Hm [Hf Hfile]] Hs He. unfold assign. unfold size in Hs.
  destruct (forward_ s !! e) as [i|] eqn:E; [done|].
  unfold u32. rewrite N.mod_small by done. cbn [persist accepted file_ forward_ reverse_ fst].
  split; [by apply (maps_wf_push e s)|]. split; cbn.
  - apply Forall_app. split; [done|]. by constructor.
  - rewrite fmap_app, concat_app, <-Hfile. cbn. by rewrite app_nil_r.
Qed.

Lemma assign_frame (e : string) (s : t) :
  wf s -> size s < U32 -> strlen e < U32 ->
  let '(s', (i, fresh)) := assign None e s in
  wf s' /\ lookup e s' = Some i /\ reverse_lookup i s' = e /\
  fresh = bool_decide (lookup e s = None) /\
  (fresh = true -> i = size s /\ size s' = size s + 1) /\ (fresh = false -> s' = s) /\
  (forall e', e' <> e -> lookup e' s' = lookup e' s).
Proof.
  intros Hwf Hs He. pose proof (assign_wf e s Hwf Hs He) as Hwf'. revert Hwf'.
  destruct Hwf as [Hm _]. unfold assign, lookup. unfold size in Hs.
  destruct (forward_ s !! e) as [i|] eqn:E.
  - pose proof (proj1 (proj2 Hm e i) E) as [Hi Hr]. intros Hwf'. split_and!; try done.
    unfold reverse_lookup. rewrite Hr. apply lookup_lt_Some in Hr.
    by rewrite bool_decide_eq_false_2 by lia.
  - unfold u32. rewrite N.mod_small by done. cbn [persist accepted file_ forward_ reverse_ fst].
    intros Hwf'. split_and!; cbn [forward_ reverse_]; [done|..].
    + by rewrite lookup_insert_eq.
    + unfold reverse_lookup. cbn [reverse_]. rewrite length_app. cbn.
      rewrite bool_decide_eq_false_2 by lia. rewrite Nat2N.id, lookup_app_r by lia.
      by rewrite Nat.sub_diag.
    + done.
    + intros _. split; [done|]. unfold size. cbn. rewrite length_app. cbn. lia.
    + done.
    + intros e' Hne. by rewrite lookup_insert_ne.
Qed.

(** [assign] is a dense, stable numbering.  On a store in a consistent state
    a known id keeps its number and nothing changes; a new id gets the next
    number, can be looked up in both directions, and every other id keeps its
    number; the consistent state, file included, is preserved. *)
Theorem assign_spec (e : string) (s : t) :
  wf s -> size s < U32 -> strlen e < U32 ->
  let '(s', (i, fresh)) := assign None e s in
  wf s' /\ lookup e s' = Some i /\ reverse_lookup i s' = e /\
  fresh = bool_decide (lookup e s = None) /\
  (fresh = true -> i = size s /\ size s' = size s + 1) /\ (fresh = false -> s' = s) /\
  (forall e', e' <> e -> lookup e' s' = lookup e' s).
Proof. apply assign_frame. Qed.

(** a restart loses nothing.  Opening the file of a consistent store gives
    back the same store: the same ids under the same numbers. *)
Theorem id_map_reopen (s : t) : wf s -> open_file (Some (file_ s)) = s.
Proof.
  intros [Hm [Hf Hfile]]. pose proof (maps_wf_NoDup s Hm) as Hd.
  destruct (open_file_records (reverse_ s) []) as (fw & E & Hw); [done|done|apply Hm| |].
  { by intros [|fuel] s'. }
  rewrite app_nil_r, <-Hfile in E, Hw. rewrite E. destruct s as [f fw' rv]. f_equal.
  by eapply maps_wf_eq.
Qed.

(** a crash in the middle of a write loses at most that record.  A file that
    ends in a cut record reopens with exactly the ids before it, under the
    numbers they had. *)
Theorem id_map_torn_tail (s : t) (e : string) (k : nat) :
  wf s -> strlen e < U32 -> (k < length (record e))%nat ->
  let s' := open_file (Some (file_ s ++ take k (record e))) in
  list_all_external_ids s' = list_all_external_ids s /\
  (forall e', lookup e' s' = lookup e' s) /\ maps_wf s'.
Proof.
  intros [Hm [Hf Hfile]] He Hk. rewrite Hfile.
  destruct (open_file_records (reverse_ s) (take k (record e))) as (fw & -> & Hw);
    [done|by apply maps_wf_NoDup|apply Hm| |].
  { intros fuel s'. by apply rebuild_cut. }
  split_and!; [done| |done]. intros e'. unfold lookup. cbn [forward_]. apply option_eq. intros i.
  rewrite (proj2 Hw), (proj2 Hm). done.
Qed.

Definition sample : t := (assign None "beta" (assign None "alpha" (open_file None)).1).1.

Lemma sample_wf : wf sample.
Proof.
  assert (wf (open_file None)) as H0 by (split; [apply maps_wf_init|]; by split).
  pose proof (assign_wf "alpha" _ H0 eq_refl eq_refl) as H1.
  exact (assign_wf "beta" _ H1 eq_refl eq_refl).
Qed.

Lemma assign_spec_witness :
  let '(s', (i, fresh)) := assign None "gamma" sample in
  wf s' /\ lookup "gamma" s' = Some i /\ reverse_lookup i s' = "gamma" /\
  fresh = bool_decide (lookup "gamma" sample = None) /\
  (fresh = true -> i = size sample /\ size s' = size sample + 1) /\ (fresh = false -> s' = sample) /\
  (forall e', e' <> "gamma" -> lookup e' s' = lookup e' sample).
Proof. apply (assign_spec "gamma" sample); [apply sample_wf|done|done]. Defined.

Lemma id_map_reopen_witness : open_file (Some (file_ sample)) = sample.
Proof. apply (id_map_reopen sample). apply sample_wf. Defined.

Lemma id_map_torn_tail_witness :
  let s' := open_file (Some (file_ sample ++ take 6 (record "gamma"))) in
  list_all_external_ids s' = list_all_external_ids sample /\
  (forall e', lookup e' s' = lookup e' sample) /\ maps_wf s'.
Proof.
  apply (id_map_torn_tail sample "gamma" 6); [apply sample_wf|done|].
  rewrite length_record by done. cbn. lia.
Defined.

(** The store after a crash cut the record of "bb" and the server went on. *)
Definition after_torn_write : t :=
  (assign None "c" (open_file (Some (record "a" ++ take 5 (record "bb"))))).1.

(** the cut record is not removed.  After such a crash the next [assign] is
    appended behind the remains; at the next restart the id it stored is gone
    and its number belongs to a string nobody assigned. *)
Theorem torn_tail_poisons_next_id :
  lookup "c" after_torn_write = Some 1 /\
  let s := open_file (Some (file_ after_torn_write)) in
  lookup "c" s = None /\ reverse_lookup 1 s = string_of ["b"%char; "001"%char].
Proof. by vm_compute. Qed.

(** write errors are not noticed.  With a full disk [assign] still hands out
    a number; after a restart the id is unknown and the number is handed out
    again to the next id. *)
Theorem full_disk_reuses_local_id (e1 e2 : string) :
  e1 <> e2 ->
  let '(s1, (i1, fresh1)) := assign (Some O) e1 (open_file None) in
  let '(s2, (i2, fresh2)) := assign None e2 (open_file (Some (file_ s1))) in
  fresh1 = true /\ fresh2 = true /\ i1 = i2 /\ lookup e1 s2 = None.
Proof.
  intros Hne. unfold assign, open_file, rebuild_index. cbn.
  rewrite lookup_empty. cbn. rewrite lookup_empty. split_and!; [done..|]. unfold lookup. cbn.
  by rewrite lookup_insert_ne.
Qed.

Lemma full_disk_reuses_local_id_witness :
  let '(s1, (i1, fresh1)) := assign (Some O) "x" (open_file None) in
  let '(s2, (i2, fresh2)) := assign None "y" (open_file (Some (file_ s1))) in
  fresh1 = true /\ fresh2 = true /\ i1 = i2 /\ lookup "x" s2 = None.
Proof. apply (full_disk_reuses_local_id "x" "y"). done. Defined.

End IdMapStore.
