(* ===== verification/MetadataStore.v ===== *)
(** * Metadata of vectors ([src/include/storage/metadata_store.hpp])

    An append-only file of length-prefixed strings and an in-memory table of
    offsets by vector id.  The id itself is not written to the file. *)

From S2P Require Import Prelude.

Module MetadataHandler.

(** [offsets_]: [(offset, length)] by id. *)
Record t := Mk {
  file_ : bytes;
  offsets_ : list (N * N);
}.

Definition record (metadata : string) : bytes :=
  le_encode 4 (u32 (strlen metadata)) ++ bytes_of metadata.

(** [if (id >= offsets_.size()) offsets_.resize(id + 1000, {0, 0})]. *)
Definition grow (id : nat) (offsets : list (N * N)) : list (N * N) :=
  if decide (length offsets <= id)%nat then resize (id + 1000) (0, 0) offsets else offsets.

(** [None]: a negative id, for which the source resizes to a wrapped length
    or writes outside the vector. *)
Definition save_metadata (id : Z) (metadata : string) (s : t) : option t :=
  if metadata =?? "" then Some s
  else if bool_decide (id < 0)%Z then None
  else
    let offset := bsize (file_ s) in
    let length := strlen metadata in
    Some (Mk (file_ s ++ record metadata)
             (<[Z.to_nat id := (offset, length)]> (grow (Z.to_nat id) (offsets_ s)))).

Definition get_metadata (id : Z) (s : t) : string :=
  if bool_decide (id < 0)%Z then ""
  else
    match offsets_ s !! Z.to_nat id with
    | None => ""
    | Some (offset, len) =>
      if len =?? 0 then ""
      else
        let data := substr (file_ s) (offset + 4) len in
        if bsize data =?? len then string_of data else ""
    end.

(** The scan of the file; ids are counted from 0 in file order. *)
Fixpoint rebuild_loop (fuel : nat) (file : bytes) (pos : N) (current_id : nat)
    (offsets : list (N * N)) : list (N * N) :=
  match fuel with
  | O => offsets
  | S fuel' =>
    if pos <?? bsize file then
      if bsize file <?? pos + 4 then offsets
      else
        let len := read_le file pos 4 in
        rebuild_loop fuel' file (pos + 4 + len) (S current_id)
          (<[current_id := (pos, len)]> (grow current_id offsets))
    else offsets
  end.

Definition rebuild_index (s : t) : t :=
  Mk (file_ s) (rebuild_loop (length (file_ s)) (file_ s) 0 0 (offsets_ s)).

Definition open_file (file : option bytes) : t := rebuild_index (Mk (default [] file) []).

(** ** The table *)

Lemma grow_lookup id offs i x :
  offs !! i = Some x -> grow id offs !! i = Some x.
Proof.
  intros Hi. unfold grow. case_decide; [|done].
  pose proof (lookup_lt_Some _ _ _ Hi). by rewrite lookup_resize by lia.
Qed.

Lemma grow_new id offs i :
  offs !! i = None -> grow id offs !! i = None \/ grow id offs !! i = Some (0, 0).
Proof.
  intros Hi%lookup_ge_None. unfold grow. case_decide; [|left; by apply lookup_ge_None].
  destruct (decide (i < id + 1000)%nat).
  - right. by rewrite lookup_resize_new by lia.
  - left. by rewrite lookup_resize_old by lia.
Qed.

Lemma grow_length id offs : (id < length (grow id offs))%nat.
Proof. unfold grow. case_decide; [rewrite length_resize|]; lia. Qed.

(** Every entry points into the file. *)
Definition wf (s : t) : Prop :=
  forall i off len, offsets_ s !! i = Some (off, len) -> len = 0 \/ off + 4 + len <= bsize (file_ s).

Lemma substr_app_l (a b : bytes) off len :
  off + len <= bsize a -> substr (a ++ b) off len = substr a off len.
Proof.
  intros H. unfold substr, bsize in *. rewrite drop_app_le by lia.
  apply take_app_le. rewrite length_drop. lia.
Qed.

Lemma bsize_record m : bsize (record m) = 4 + strlen m.
Proof. unfold record. by autorewrite with nanodb. Qed.

Lemma substr_record pre m post :
  substr (pre ++ record m ++ post) (bsize pre + 4) (strlen m) = bytes_of m.
Proof.
  unfold record. rewrite <-app_assoc, app_assoc.
  replace (bsize pre + 4) with (bsize (pre ++ le_encode 4 (u32 (strlen m))))
    by (by autorewrite with nanodb).
  rewrite <-bsize_bytes_of. apply substr_app.
Qed.

(** What [get_metadata] returns for a table entry inside the file. *)
Lemma get_entry s id off len :
  (0 <= id)%Z -> offsets_ s !! Z.to_nat id = Some (off, len) -> len <> 0 ->
  bsize (substr (file_ s) (off + 4) len) = len ->
  get_metadata id s = string_of (substr (file_ s) (off + 4) len).
Proof.
  intros Hid Ho Hl Hb. unfold get_metadata. rewrite bool_decide_eq_false_2 by lia.
  rewrite Ho, bool_decide_eq_false_2 by done. by rewrite bool_decide_eq_true_2.
Qed.

(** An appended record does not change what the old entries read. *)
Lemma get_append s id' extra offs :
  wf s -> (forall x, offsets_ s !! Z.to_nat id' = Some x -> offs !! Z.to_nat id' = Some x) ->
  (offsets_ s !! Z.to_nat id' = None ->
   offs !! Z.to_nat id' = None \/ offs !! Z.to_nat id' = Some (0, 0)) ->
  get_metadata id' (Mk (file_ s ++ extra) offs) = get_metadata id' s.
Proof.
  intros Hw Hold Hnew. unfold get_metadata. case_bool_decide; [done|]. cbn [offsets_ file_].
  destruct (offsets_ s !! Z.to_nat id') as [[off len]|] eqn:E.
  - rewrite (Hold _ eq_refl). case_bool_decide as Hl; [done|].
    destruct (Hw _ _ _ E) as [?|Hb]; [done|]. by rewrite substr_app_l by lia.
  - by destruct (Hnew eq_refl) as [->| ->].
Qed.

Lemma save_wf id m s s' : wf s -> save_metadata id m s = Some s' -> wf s'.
Proof.
  intros Hw. unfold save_metadata. case_bool_decide; [by intros [= <-]|].
  case_bool_decide; [done|]. intros [= <-] i off len. cbn [offsets_ file_].
  rewrite bsize_app, bsize_record, list_lookup_insert_Some.
  intros [(-> & [= <- <-] & _)|[_ Hi]]; [lia|].
  destruct (offsets_ s !! i) as [[o l]|] eqn:E.
  - apply (grow_lookup (Z.to_nat id)) in E as E'. rewrite E' in Hi. simplify_eq.
    destruct (Hw _ _ _ E); lia.
  - apply (grow_new (Z.to_nat id)) in E as [E|E]; rewrite E in Hi; by simplify_eq; left.
Qed.

Lemma save_get_frame (id : Z) (m : string) (s : t) :
  wf s -> (0 <= id)%Z -> exists s',
    save_metadata id m s = Some s' /\ wf s' /\
    (m <> "" -> get_metadata id s' = m) /\ (m = "" -> s' = s) /\
    (forall id', id' <> id -> get_metadata id' s' = get_metadata id' s).
Proof.
  intros Hw Hid. pose proof (save_wf id m s) as Hsw. unfold save_metadata in *.
  case_bool_decide as Hm; [by exists s|].
  rewrite bool_decide_eq_false_2 in * by lia. eexists. split; [done|].
  split; [by apply Hsw|]. assert (strlen m <> 0) as Hsm by (by destruct m). split_and!.
  - intros _. pose proof (substr_record (file_ s) m []) as Hsub. rewrite app_nil_r in Hsub.
    erewrite get_entry; [| done | |done|]; cbn [offsets_ file_].
    + by rewrite Hsub, string_of_bytes_of.
    + apply list_lookup_insert_eq. apply grow_length.
    + by rewrite Hsub, bsize_bytes_of.
  - done.
  - intros id' Hne. destruct (decide (id' < 0)%Z) as [Hneg|].
    { unfold get_metadata. by rewrite bool_decide_eq_true_2. }
    assert (Z.to_nat id <> Z.to_nat id') as Hix by lia.
    apply get_append; [done|..]; rewrite list_lookup_insert_ne by done.
    + intros x. apply grow_lookup.
    + apply grow_new.
Qed.

(** a saved string is read back.  On a consistent store every non-negative
    id accepts metadata; a non-empty string is returned by the next
    [get_metadata] of that id, an empty one changes nothing, every other id
    keeps its metadata, and the store stays consistent. *)
Theorem save_then_get (id : Z) (m : string) (s : t) :
  wf s -> (0 <= id)%Z -> exists s',
    save_metadata id m s = Some s' /\ wf s' /\
    (m <> "" -> get_metadata id s' = m) /\ (m = "" -> s' = s) /\
    (forall id', id' <> id -> get_metadata id' s' = get_metadata id' s).
Proof. apply save_get_frame. Qed.

Lemma save_then_get_witness :
  exists s', save_metadata 7 "tag" (open_file None) = Some s' /\ wf s' /\
    ("tag" <> "" -> get_metadata 7 s' = "tag") /\ ("tag" = "" -> s' = open_file None) /\
    (forall id', id' <> 7%Z -> get_metadata id' s' = get_metadata id' (open_file None)).
Proof. apply (save_then_get 7 "tag" (open_file None)); [|done]. intros i off len. done. Defined.

(** ** The scan at startup *)

(** The table that numbers the records of a file from 0. *)
Definition numbered (ms : list string) (offs : list (N * N)) : Prop :=
  forall i,
    (forall m, ms !! i = Some m ->
      offs !! i = Some (bsize (concat (record <$> take i ms)), strlen m)) /\
    (ms !! i = None -> offs !! i = None \/ offs !! i = Some (0, 0)).

Lemma numbered_snoc ms m offs :
  numbered ms offs ->
  numbered (ms ++ [m])
    (<[length ms := (bsize (concat (record <$> ms)), strlen m)]> (grow (length ms) offs)).
Proof.
  intros Hn i. pose proof (grow_length (length ms) offs) as Hlen.
  destruct (decide (i = length ms)) as [->|Hne].
  - rewrite list_lookup_insert_eq by done. rewrite lookup_app_r, Nat.sub_diag by done. cbn.
    rewrite take_app_length. split; [|done]. by intros ? [= ->].
  - rewrite list_lookup_insert_ne by done. destruct (Hn i) as [H1 H2].
    destruct (decide (i < length ms)%nat).
    + rewrite lookup_app_l, take_app_le by lia. split; [|intros ?%lookup_ge_None; lia].
      intros m' Hm'. by apply grow_lookup, H1.
    + rewrite (lookup_ge_None_2 (ms ++ [m])) by (rewrite length_app; cbn; lia). split; [done|].
      intros _. destruct H2 as [E|E]; [by apply lookup_ge_None; lia|by apply grow_new|].
      right. by apply grow_lookup.
Qed.

Lemma rebuild_numbered ms pre fuel offs :
  Forall (fun m => strlen m < U32) ms -> (length ms <= fuel)%nat -> numbered pre offs ->
  numbered (pre ++ ms)
    (rebuild_loop fuel (concat (record <$> pre ++ ms)) (bsize (concat (record <$> pre)))
       (length pre) offs).
Proof.
  intros Hms. revert pre fuel offs.
  induction Hms as [|m ms Hm Hms IH]; intros pre fuel offs Hf Hn.
  - rewrite app_nil_r. destruct fuel as [|fuel]; [done|]. cbn [rebuild_loop].
    by rewrite bool_decide_eq_false_2 by lia.
  - cbn [length] in Hf. destruct fuel as [|fuel]; [lia|]. cbn [rebuild_loop].
    assert (concat (record <$> pre ++ m :: ms) =
            concat (record <$> pre) ++ le_encode 4 (strlen m) ++ bytes_of m ++ concat (record <$> ms)) as E.
    { rewrite fmap_app, concat_app. cbn [fmap list_fmap concat]. unfold record at 2, u32.
      by rewrite N.mod_small, <-app_assoc by done. }
    rewrite bool_decide_eq_true_2 by (rewrite E, bsize_app, bsize_app, bsize_le_encode; lia).
    rewrite bool_decide_eq_false_2 by (rewrite E, !bsize_app, bsize_le_encode; lia).
    rewrite E, read_le_app, le_decode_encode_4, <-E by (try apply length_le_encode; done).
    replace (S (length pre)) with (length (pre ++ [m])) by (rewrite length_app; cbn; lia).
    replace (bsize (concat (record <$> pre)) + 4 + strlen m)
      with (bsize (concat (record <$> pre ++ [m])))
      by (rewrite fmap_app, concat_app, bsize_app; cbn [fmap list_fmap concat];
          rewrite app_nil_r, bsize_record; lia).
    replace (pre ++ m :: ms) with ((pre ++ [m]) ++ ms) by (by rewrite <-app_assoc).
    apply IH; [lia|]. by apply numbered_snoc.
Qed.

Lemma numbered_get ms offs (i : nat) :
  Forall (fun m => m <> "") ms -> numbered ms offs ->
  get_metadata (Z.of_nat i) (Mk (concat (record <$> ms)) offs) = default "" (ms !! i).
Proof.
  intros Hne Hn. destruct (Hn i) as [H1 H2]. destruct (ms !! i) as [m|] eqn:E; cbn [from_option id].
  - pose proof (Forall_lookup_1 _ _ _ _ Hne E) as Hm. cbn in Hm.
    assert (strlen m <> 0) as Hsm by (by destruct m).
    assert (concat (record <$> ms) =
            concat (record <$> take i ms) ++ record m ++ concat (record <$> drop (S i) ms)) as Ec.
    { rewrite <-(take_drop_middle ms i m E) at 1. by rewrite fmap_app, concat_app. }
    erewrite get_entry; [|lia|cbn; rewrite Nat2Z.id; by apply H1|done|]; cbn [file_];
      rewrite Ec, substr_record; [by rewrite string_of_bytes_of|by rewrite bsize_bytes_of].
  - unfold get_metadata. rewrite bool_decide_eq_false_2 by lia. cbn [offsets_]. rewrite Nat2Z.id.
    by destruct (H2 eq_refl) as [->| ->].
Qed.

Lemma length_concat_metadata ms : (length ms <= length (concat (record <$> ms)))%nat.
Proof.
  induction ms as [|m ms IH]; [done|]. cbn [fmap list_fmap concat length]. rewrite length_app.
  unfold record at 1. rewrite length_app, length_le_encode. cbn. lia.
Qed.

(** Saving a list of [(id, metadata)] pairs in order. *)
Definition save_all (saves : list (Z * string)) (s : t) : option t :=
  foldl (fun acc '(id, m) => acc ≫= save_metadata id m) (Some s) saves.

Lemma save_all_snoc saves id m s :
  save_all (saves ++ [(id, m)]) s = save_all saves s ≫= save_metadata id m.
Proof. unfold save_all. by rewrite foldl_app. Qed.

Lemma save_all_file saves s s' :
  save_all saves s = Some s' -> Forall (fun m => m <> "") saves.*2 ->
  file_ s' = file_ s ++ concat (record <$> saves.*2).
Proof.
  revert s'. induction saves as [|[id m] saves IH] using rev_ind; intros s' Hs Hne.
  { injection Hs as <-. by rewrite app_nil_r. }
  rewrite save_all_snoc in Hs. destruct (save_all saves s) as [s1|] eqn:E; [|done].
  rewrite fmap_app in Hne. apply Forall_app in Hne as [Hne Hm]. cbn in Hm.
  inversion_clear Hm. cbn in Hs. unfold save_metadata in Hs.
  rewrite bool_decide_eq_false_2 in Hs by done. case_bool_decide; [done|]. injection Hs as <-.
  cbn [file_]. rewrite (IH s1) by done. rewrite !fmap_app, concat_app, app_assoc. cbn.
  by rewrite app_nil_r.
Qed.

(** The scan of a file of whole records. *)
Lemma open_records_numbered ms :
  Forall (fun m => strlen m < U32) ms ->
  numbered ms (offsets_ (open_file (Some (concat (record <$> ms))))).
Proof.
  intros Hf. unfold open_file, rebuild_index. cbn [file_ from_option id offsets_].
  refine (rebuild_numbered ms [] _ [] _ _ _); [exact Hf|apply length_concat_metadata|].
  intros j. by split; [|left].
Qed.

Lemma open_records ms (i : nat) :
  Forall (fun m => m <> "" /\ strlen m < U32) ms ->
  get_metadata (Z.of_nat i) (open_file (Some (concat (record <$> ms)))) = default "" (ms !! i).
Proof.
  intros Hf. apply (numbered_get ms (offsets_ (open_file (Some (concat (record <$> ms)))))).
  - eapply Forall_impl; [exact Hf|]. by intros ? [? ?].
  - apply open_records_numbered. eapply Forall_impl; [exact Hf|]. by intros ? [? ?].
Qed.

Lemma open_records_wf ms :
  Forall (fun m => strlen m < U32) ms -> wf (open_file (Some (concat (record <$> ms)))).
Proof.
  intros Hf i off len Hi. destruct (open_records_numbered ms Hf i) as [H1 H2].
  destruct (ms !! i) as [m|] eqn:E; [|destruct (H2 eq_refl) as [H|H]; rewrite H in Hi; simplify_eq; by left].
  rewrite (H1 _ eq_refl) in Hi. injection Hi as <- <-. right.
  change (file_ (open_file _)) with (concat (record <$> ms)).
  rewrite <-(take_drop_middle ms i m E) at 2.
  rewrite fmap_app, concat_app, bsize_app. cbn [fmap list_fmap concat]. rewrite bsize_app, bsize_record. lia.
Qed.

(** What a save appends. *)
Definition appended (m : string) : list string := if decide (m = "") then [] else [m].

Lemma save_file id m s s' :
  save_metadata id m s = Some s' -> file_ s' = file_ s ++ concat (record <$> appended m).
Proof.
  unfold save_metadata, appended. case_bool_decide; [rewrite decide_True by done|rewrite decide_False by done].
  - intros [= <-]. by rewrite app_nil_r.
  - case_bool_decide; [done|]. intros [= <-]. cbn. by rewrite app_nil_r.
Qed.

Lemma reopen_get saves s' (i : nat) :
  save_all saves (open_file None) = Some s' ->
  Forall (fun m => m <> "" /\ strlen m < U32) saves.*2 ->
  get_metadata (Z.of_nat i) (open_file (Some (file_ s'))) = default "" (saves.*2 !! i).
Proof.
  intros Hs Hf. rewrite (save_all_file _ _ _ Hs).
  - by apply open_records.
  - eapply Forall_impl; [exact Hf|]. by intros ? [? ?].
Qed.

(** a restart renumbers by position.  After any sequence of saves of
    non-empty metadata, whatever their ids, reopening the file gives the
    [i]-th string saved to id [i]. *)
Theorem reopen_by_position (saves : list (Z * string)) (s' : t) (i : nat) :
  save_all saves (open_file None) = Some s' ->
  Forall (fun m => m <> "" /\ strlen m < U32) saves.*2 ->
  get_metadata (Z.of_nat i) (open_file (Some (file_ s'))) = default "" (saves.*2 !! i).
Proof. apply reopen_get. Qed.

(** The source's own caveat made concrete: a vector without metadata before
    one with metadata, or metadata saved twice, shifts everything after it. *)
Lemma reopen_by_position_witness :
  exists s', save_all [(1%Z, "b"); (4%Z, "e")] (open_file None) = Some s' /\
    get_metadata 0 (open_file (Some (file_ s'))) = "b" /\ get_metadata 0 s' = "" /\
    get_metadata 4 (open_file (Some (file_ s'))) = "" /\ get_metadata 4 s' = "e".
Proof.
  destruct (save_all [(1%Z, "b"); (4%Z, "e")] (open_file None)) as [s'|] eqn:E; [|by vm_compute in E].
  exists s'. split; [done|].
  assert (forall i, get_metadata (Z.of_nat i) (open_file (Some (file_ s'))) =
            default "" (["b"; "e"] !! i)) as H.
  { intros i. apply (reopen_by_position [(1%Z, "b"); (4%Z, "e")] s' i E). by repeat constructor. }
  split; [apply (H 0%nat)|]. split; [|split; [apply (H 4%nat)|]].
  - vm_compute in E. by injection E as <-.
  - vm_compute in E. by injection E as <-.
Defined.

(** ** Ids in insertion order *)

Definition sequential (ms : list string) : list (Z * string) :=
  imap (fun i m => (Z.of_nat i, m)) ms.

Lemma sequential_snoc ms m : sequential (ms ++ [m]) = sequential ms ++ [(Z.of_nat (length ms), m)].
Proof. unfold sequential. rewrite imap_app. cbn. by rewrite Nat.add_0_r. Qed.

Lemma sequential_metadata ms : (sequential ms).*2 = ms.
Proof.
  induction ms as [|m ms IH] using rev_ind; [done|]. by rewrite sequential_snoc, fmap_app, IH.
Qed.

Lemma save_sequential ms :
  Forall (fun m => m <> "") ms ->
  exists s', save_all (sequential ms) (open_file None) = Some s' /\ wf s' /\
    forall i, get_metadata (Z.of_nat i) s' = default "" (ms !! i).
Proof.
  induction ms as [|m ms IH] using rev_ind; intros Hne.
  { exists (open_file None). split_and!; [done|by intros ???|]. intros i. unfold get_metadata.
    by rewrite bool_decide_eq_false_2 by lia. }
  apply Forall_app in Hne as [Hne Hm]. inversion_clear Hm.
  destruct (IH Hne) as (s1 & E1 & Hw1 & Hg1).
  destruct (save_get_frame (Z.of_nat (length ms)) m s1) as (s2 & E2 & Hw2 & Hg2 & _ & Hf2); [done|lia|].
  exists s2. split_and!; [by rewrite sequential_snoc, save_all_snoc, E1|done|]. intros i.
  destruct (decide (i = length ms)) as [->|Hi].
  - rewrite Hg2 by done. by rewrite lookup_app_r, Nat.sub_diag by done.
  - rewrite Hf2, Hg1 by lia. destruct (decide (i < length ms)%nat).
    + by rewrite lookup_app_l by lia.
    + by rewrite !lookup_ge_None_2 by (rewrite ?length_app; cbn; lia).
Qed.

(** the assumption the source states is sufficient.  When every vector
    0, 1, 2, ... is given non-empty metadata once and in that order, a restart
    preserves the metadata of every id. *)
Theorem sequential_saves_survive_restart (ms : list string) (i : nat) :
  Forall (fun m => m <> "" /\ strlen m < U32) ms ->
  exists s', save_all (sequential ms) (open_file None) = Some s' /\
    get_metadata (Z.of_nat i) s' = default "" (ms !! i) /\
    get_metadata (Z.of_nat i) (open_file (Some (file_ s'))) = default "" (ms !! i).
Proof.
  intros Hf. destruct (save_sequential ms) as (s' & E & _ & Hg).
  { eapply Forall_impl; [exact Hf|]. by intros ? [? ?]. }
  exists s'. split_and!; [done|done|].
  rewrite <-(sequential_metadata ms) at 1. apply reopen_get; [done|]. by rewrite sequential_metadata.
Qed.

Lemma sequential_saves_survive_restart_witness :
  exists s', save_all (sequential ["a"; "b"]) (open_file None) = Some s' /\
    get_metadata (Z.of_nat 1) s' = "b" /\
    get_metadata (Z.of_nat 1) (open_file (Some (file_ s'))) = "b".
Proof. apply (sequential_saves_survive_restart ["a"; "b"] 1). by repeat constructor. Defined.

End MetadataHandler.
