(* ===== verification/Float32.v ===== *)
(** * IEEE single precision ([float], [val_t] of [src/include/config/types.hpp])

    The C++ [float] as [spec_float] with 24 bits of precision and exponents
    up to 128, rounded to nearest even; comparisons with a NaN are false. *)

From Stdlib Require Export SpecFloat.
From S2P Require Import Prelude.

Definition prec32 : Z := 24.

Definition emax32 : Z := 128.

Definition float32 : Type := spec_float.

Definition fadd (x y : float32) : float32 := SFadd prec32 emax32 x y.

Definition fsub (x y : float32) : float32 := SFsub prec32 emax32 x y.

Definition fmul (x y : float32) : float32 := SFmul prec32 emax32 x y.

Definition fdiv (x y : float32) : float32 := SFdiv prec32 emax32 x y.

Definition fsqrt (x : float32) : float32 := SFsqrt prec32 emax32 x.

Definition fopp (x : float32) : float32 := SFopp x.

(** [x < y] and [x > y]. *)
Definition fltb (x y : float32) : bool := SFltb x y.

Definition fgtb (x y : float32) : bool := SFltb y x.

Definition is_nan (x : float32) : bool := match x with S754_nan => true | _ => false end.

Definition fzero : float32 := S754_zero false.

(** [static_cast<float>] of an integer. *)
Definition f_of_Z (z : Z) : float32 := binary_normalize prec32 emax32 z 0 false.

Definition fone : float32 := f_of_Z 1.

Definition fminus_one : float32 := f_of_Z (-1).

(** Truncation toward zero of a finite number. *)
Definition trunc_float (f : spec_float) : option Z :=
  match f with
  | S754_zero _ => Some 0%Z
  | S754_finite s m e =>
    Some (cond_Zopp s (if bool_decide (0 <= e)%Z then Z.shiftl (Zpos m) e
                       else Z.shiftr (Zpos m) (- e)))
  | _ => None
  end.

#[export] Instance spec_float_eq_dec : EqDecision spec_float.
Proof. solve_decision. Defined.

(** ** The order of the numbers

    [key] places every number on a lexicographic scale; the comparison of the
    hardware is the order of the keys. *)

Definition key (x : float32) : Z * Z * Z :=
  match x with
  | S754_infinity true => (-2, 0, 0)%Z
  | S754_finite true m e => (-1, - e, - Zpos m)%Z
  | S754_zero _ => (0, 0, 0)%Z
  | S754_finite false m e => (1, e, Zpos m)%Z
  | S754_infinity false => (2, 0, 0)%Z
  | S754_nan => (3, 0, 0)%Z
  end.

Definition key_lt (a b : Z * Z * Z) : Prop :=
  (a.1.1 < b.1.1)%Z \/ (a.1.1 = b.1.1 /\ ((a.1.2 < b.1.2)%Z \/ (a.1.2 = b.1.2 /\ (a.2 < b.2)%Z))).

Lemma fltb_key x y :
  is_nan x = false -> is_nan y = false -> fltb x y = true <-> key_lt (key x) (key y).
Proof.
  unfold fltb, SFltb, key_lt.
  destruct x as [[]|[]| |[] m1 e1], y as [[]|[]| |[] m2 e2]; intros Hx Hy; try done;
    cbn [SFcompare key fst snd]; try (split; [intros _; lia|done]); try (split; [done|lia]);
    change (Pos.compare_cont Eq m1 m2) with (Pos.compare m1 m2);
    destruct (Z.compare_spec e1 e2), (Pos.compare_spec m1 m2); cbn [CompOpp];
    (split; [try done; lia|try done; lia]).
Qed.

(** ** Strict weak orders

    What the standard library's heaps and sorts need of a comparison. *)
Class StrictWeakOrder {A : Type} (P : A -> Prop) (lt : A -> A -> bool) : Prop := {
  swo_irrefl x : P x -> lt x x = false;
  swo_trans x y z : P x -> P y -> P z -> lt x y = true -> lt y z = true -> lt x z = true;
  swo_cotrans x y z : P x -> P y -> P z -> lt x z = true -> lt x y = true \/ lt y z = true;
}.

#[export] Instance fltb_swo : StrictWeakOrder (fun x => is_nan x = false) fltb.
Proof.
  split.
  - intros x Hx. apply not_true_iff_false. rewrite fltb_key by done. unfold key_lt. lia.
  - intros x y z Hx Hy Hz. rewrite !fltb_key by done. unfold key_lt. lia.
  - intros x y z Hx Hy Hz. rewrite !fltb_key by done. unfold key_lt. lia.
Qed.

Lemma swo_map {A B : Type} (P : B -> Prop) (lt : B -> B -> bool) `{!StrictWeakOrder P lt} (f : A -> B) :
  StrictWeakOrder (fun a => P (f a)) (fun a b => lt (f a) (f b)).
Proof.
  split; intros x.
  - by apply swo_irrefl.
  - intros y z. by apply swo_trans.
  - intros y z. by apply swo_cotrans.
Qed.

Lemma swo_flip {A : Type} (P : A -> Prop) (lt : A -> A -> bool) `{!StrictWeakOrder P lt} :
  StrictWeakOrder P (fun a b => lt b a).
Proof.
  split; intros x.
  - by apply swo_irrefl.
  - intros y z Hx Hy Hz H1 H2. by apply (swo_trans z y x).
  - intros y z Hx Hy Hz H. destruct (swo_cotrans z y x Hz Hy Hx H); tauto.
Qed.

Lemma fltb_asym x y : fltb x y = true -> fltb y x = false.
Proof.
  intros H. destruct (is_nan x) eqn:Hx; [by destruct x|].
  destruct (is_nan y) eqn:Hy; [by destruct y, x as [[]|[]| |[]]|].
  destruct (fltb y x) eqn:E; [|done].
  pose proof (swo_trans (P := fun x => is_nan x = false) x y x Hx Hy Hx H E) as Ht.
  by rewrite (swo_irrefl (P := fun x => is_nan x = false)) in Ht.
Qed.
