(* ===== verification/PriorityQueue.v ===== *)
(** * [std::priority_queue] over [std::vector]

    The binary heap behind the queues of [src/include/index/hnsw.hpp]:
    [push] is [push_back] and [std::push_heap], [pop] is [std::pop_heap] and
    [pop_back], with the comparison given as a boolean function.  Both only
    move elements, whatever the comparison; with a strict weak order the top
    is a greatest element. *)

From S2P Require Import Prelude Float32.

Section queue.
Context {A : Type} (lt : A -> A -> bool).

(** Moves the parents of the hole down until [value] fits.  A hole moves to a
    smaller index, so the index is enough fuel. *)
Fixpoint push_up (fuel hole : nat) (value : A) (l : list A) : list A :=
  match fuel, hole with
  | S fuel', S h =>
    let parent := (h / 2)%nat in
    match l !! parent with
    | Some p => if lt p value then push_up fuel' parent value (<[hole := p]> l) else <[hole := value]> l
    | None => <[hole := value]> l
    end
  | _, _ => <[hole := value]> l
  end.

Definition push (value : A) (l : list A) : list A :=
  push_up (length l) (length l) value (l ++ [value]).

(** The greater child of the hole moves up until the hole has no two
    children; then an only child; then [value] is pushed up from there. *)
Fixpoint adjust_heap (fuel hole : nat) (value : A) (l : list A) : list A :=
  let right := (2 * hole + 2)%nat in
  let left := (2 * hole + 1)%nat in
  match fuel, l !! left, l !! right with
  | S fuel', Some a, Some b =>
    if lt b a then adjust_heap fuel' left value (<[hole := a]> l)
    else adjust_heap fuel' right value (<[hole := b]> l)
  | S fuel', Some a, None => push_up left left value (<[hole := a]> l)
  | _, _, _ => push_up hole hole value l
  end.

Definition top (l : list A) : option A := head l.

Definition pop (l : list A) : list A :=
  match last l with
  | None => []
  | Some value =>
    let rest := take (length l - 1) l in
    adjust_heap (length rest) 0 value rest
  end.

(** [while (!q.empty()) { out.push_back(q.top()); q.pop(); }] *)
Fixpoint pops (n : nat) (l : list A) : list A :=
  match n, top l with
  | S n', Some x => x :: pops n' (pop l)
  | _, _ => []
  end.

Definition drain (l : list A) : list A := pops (length l) l.

(** ** Elements are only moved *)

Lemma insert_swap i j x y (l : list A) :
  l !! i = Some x -> (j < length l)%nat -> i <> j -> <[i := y]> (<[j := x]> l) ≡ₚ <[j := y]> l.
Proof.
  intros Hi Hj Hij. assert (i < length l)%nat by (by eapply lookup_lt_Some).
  apply Permutation_inj. split; [by rewrite !length_insert|].
  exists (fun k => if decide (k = i) then j else if decide (k = j) then i else k). split.
  - intros a b. repeat case_decide; congruence.
  - intros k. repeat case_decide; subst.
    + rewrite !list_lookup_insert_eq by (rewrite ?length_insert; lia). done.
    + by rewrite list_lookup_insert_ne, list_lookup_insert_eq, list_lookup_insert_ne by done.
    + by rewrite !list_lookup_insert_ne by done.
Qed.

Lemma push_up_perm fuel hole value (l : list A) :
  (hole < length l)%nat -> push_up fuel hole value l ≡ₚ <[hole := value]> l.
Proof.
  revert hole l. induction fuel as [|fuel IH]; intros [|h] l Hh; cbn [push_up]; try done.
  destruct (l !! (h / 2)%nat) as [p|] eqn:Hp; [|done]. destruct (lt p value); [|done].
  assert (h / 2 <= h)%nat by (apply Nat.Div0.div_le_upper_bound; lia).
  rewrite IH by (rewrite length_insert; lia). apply insert_swap; [done|lia|lia].
Qed.

Lemma push_perm value l : push value l ≡ₚ value :: l.
Proof.
  unfold push. rewrite push_up_perm by (rewrite length_app; cbn; lia).
  rewrite list_insert_id by (by rewrite lookup_app_r, Nat.sub_diag by lia).
  by rewrite Permutation_app_comm.
Qed.

Lemma adjust_heap_perm fuel hole value (l : list A) :
  (hole < length l)%nat -> adjust_heap fuel hole value l ≡ₚ <[hole := value]> l.
Proof.
  revert hole l. induction fuel as [|fuel IH]; intros hole l Hh; cbn [adjust_heap]; [by apply push_up_perm|].
  destruct (l !! (2 * hole + 1)%nat) as [a|] eqn:Ha; [|by apply push_up_perm].
  pose proof (lookup_lt_Some _ _ _ Ha).
  destruct (l !! (2 * hole + 2)%nat) as [b|] eqn:Hb.
  - pose proof (lookup_lt_Some _ _ _ Hb).
    destruct (lt b a); (rewrite IH by (rewrite length_insert; lia); apply insert_swap; [done|lia|lia]).
  - rewrite push_up_perm by (rewrite length_insert; lia). apply insert_swap; [done|lia|lia].
Qed.

Lemma pop_perm x l : x :: pop (x :: l) ≡ₚ x :: l.
Proof.
  unfold pop. destruct (last (x :: l)) as [v|] eqn:E; [|by apply last_None in E].
  apply last_Some in E as [l' E]. rewrite E. rewrite length_app. cbn [length].
  replace (length l' + 1 - 1)%nat with (length l') by lia. rewrite take_app_length.
  destruct l' as [|y l']; [by simplify_list_eq|]. cbn in E. simplify_eq.
  rewrite adjust_heap_perm by (cbn; lia). cbn [insert list_insert].
  change (y :: v :: l' ≡ₚ (y :: l') ++ [v]). by rewrite Permutation_app_comm, Permutation_swap.
Qed.

Lemma pops_perm n l : n = length l -> pops n l ≡ₚ l.
Proof.
  revert l. induction n as [|n IH]; intros [|x l] Hn; try done. cbn [pops top head].
  pose proof (pop_perm x l) as Hp. apply (inj (cons x)) in Hp as Hp'.
  rewrite IH; [exact Hp|]. rewrite Hp'. cbn in Hn. lia.
Qed.

Lemma drain_perm l : drain l ≡ₚ l.
Proof. by apply pops_perm. Qed.

(** ** The top is a greatest element *)

Context (P : A -> Prop) `{!StrictWeakOrder P lt}.

Definition child (p c : nat) : Prop := (c = 2 * p + 1 \/ c = 2 * p + 2)%nat.

Definition heap (l : list A) : Prop :=
  forall p c x y, child p c -> l !! p = Some x -> l !! c = Some y -> lt x y = false.

(** A heap apart from what is stored at [h]. *)
Record heap_but (h : nat) (l : list A) : Prop := {
  hb_edge p c x y : p <> h -> c <> h -> child p c -> l !! p = Some x -> l !! c = Some y -> lt x y = false;
  hb_around p c x y : child p h -> child h c -> l !! p = Some x -> l !! c = Some y -> lt x y = false;
}.

Lemma lt_asym x y : P x -> P y -> lt x y = true -> lt y x = false.
Proof.
  intros Hx Hy H. apply not_true_iff_false. intros H'.
  pose proof (swo_trans x y x Hx Hy Hx H H'). by rewrite swo_irrefl in *.
Qed.

Lemma nlt_trans x y z : P x -> P y -> P z -> lt x y = false -> lt y z = false -> lt x z = false.
Proof.
  intros Hx Hy Hz H1 H2. apply not_true_iff_false. intros H.
  destruct (swo_cotrans x y z Hx Hy Hz H); congruence.
Qed.

Lemma heap_but_insert h v (l : list A) : heap_but h l -> heap_but h (<[h := v]> l).
Proof.
  intros [He Ha]. split.
  - intros p c x y Hp Hc Hch. rewrite !list_lookup_insert_ne by done. by apply He.
  - intros p c x y Hp Hc. unfold child in *. rewrite !list_lookup_insert_ne by lia. by apply Ha.
Qed.

Lemma push_up_heap fuel hole value (l : list A) :
  (hole <= fuel)%nat -> (hole < length l)%nat -> Forall P l -> P value -> heap_but hole l ->
  (forall c y, child hole c -> l !! c = Some y -> lt value y = false) ->
  heap (push_up fuel hole value l).
Proof.
  intros Hf Hlen HP Hv Hb Hc. revert hole l Hf Hlen HP Hb Hc.
  assert (forall hole l, (hole < length l)%nat -> heap_but hole l ->
    (forall c y, child hole c -> l !! c = Some y -> lt value y = false) ->
    (forall p x, child p hole -> l !! p = Some x -> lt x value = false) ->
    heap (<[hole := value]> l)) as Hdone.
  { intros hole l Hlen [He _] Hc Hp p c x y Hch.
    destruct (decide (p = hole)) as [->|Hph].
    - rewrite list_lookup_insert_eq by done. intros [= <-].
      unfold child in Hch. rewrite list_lookup_insert_ne by lia. by apply Hc.
    - rewrite list_lookup_insert_ne by done. intros Hx. destruct (decide (c = hole)) as [->|Hchl].
      + rewrite list_lookup_insert_eq by done. intros [= <-]. by eapply Hp.
      + rewrite list_lookup_insert_ne by done. intros Hy. by apply (He p c). }
  induction fuel as [|fuel IH]; intros [|h] l Hf Hlen HP Hb Hc; cbn [push_up]; try lia.
  1,2: apply Hdone; [done..|]; intros p x Hp; unfold child in Hp; lia.
  pose proof (Nat.div_mod_eq h 2) as Hdm. pose proof (Nat.mod_upper_bound h 2).
  set (q := (h / 2)%nat) in *. assert (child q (S h)) as Hq by (unfold child; lia).
  destruct (l !! q) as [p|] eqn:Hp; [|exfalso; apply lookup_ge_None in Hp; lia].
  assert (forall p', child p' (S h) -> p' = q) as Huniq by (unfold child in *; lia).
  destruct (lt p value) eqn:Hlt.
  2: { apply Hdone; [done..|]. intros p' x ->%Huniq. congruence. }
  assert (P p) as HPp by (by eapply Forall_lookup_1).
  apply IH; [lia|rewrite length_insert; lia|by apply Forall_insert| |].
  - destruct Hb as [He Ha]. split.
    + intros a b x y Haq Hbq Hch. unfold child in *.
      destruct (decide (a = S h)) as [->|].
      * rewrite list_lookup_insert_eq by done. intros [= <-]. rewrite list_lookup_insert_ne by lia.
        by apply (Ha q b).
      * rewrite list_lookup_insert_ne by done. destruct (decide (b = S h)) as [->|]; [lia|].
        rewrite list_lookup_insert_ne by done. by apply (He a b).
    + intros a b x y Haq Hqb. unfold child in *. rewrite list_lookup_insert_ne by lia. intros Hx.
      assert (lt x p = false) as Hxp by (apply (He a q x p); [lia|lia|done..]).
      destruct (decide (b = S h)) as [->|].
      * rewrite list_lookup_insert_eq by done. by intros [= <-].
      * rewrite list_lookup_insert_ne by done. intros Hy.
        apply (nlt_trans x p y); [by eapply Forall_lookup_1..|done|].
        apply (He q b); [lia|done|done|done|done].
  - intros c y Hch. destruct (decide (c = S h)) as [->|].
    + rewrite list_lookup_insert_eq by done. intros [= <-]. by apply lt_asym.
    + rewrite list_lookup_insert_ne by done. intros Hy. destruct Hb as [He _].
      assert (P y) by (by eapply Forall_lookup_1).
      apply (nlt_trans value p y); [done..|by apply lt_asym|].
      unfold child in *. apply (He q c); [lia|done|done|done|done].
Qed.

Lemma push_heap value l : Forall P l -> P value -> heap l -> heap (push value l).
Proof.
  intros HP Hv Hh. unfold push. apply push_up_heap; [done|rewrite length_app; cbn; lia| |done| |].
  - apply Forall_app. by repeat constructor.
  - split.
    + intros p c x y Hp Hc Hch. rewrite !lookup_app_Some, !list_lookup_singleton_Some.
      intros [Hx|[? [? _]]]; [|lia]. intros [Hy|[? [? _]]]; [|lia]. by apply (Hh p c).
    + intros p c x y Hp Hc. unfold child in *. rewrite !lookup_app_Some, !list_lookup_singleton_Some.
      intros _ [Hy|[? [? _]]]; [|lia]. apply lookup_lt_Some in Hy. lia.
  - intros c y Hch. unfold child in *. rewrite lookup_app_Some, list_lookup_singleton_Some.
    intros [Hy|[? [? _]]]; [|lia]. apply lookup_lt_Some in Hy. lia.
Qed.

(** Moving the greater child up moves the hole down. *)
Lemma heap_but_down h c v (l : list A) :
  child h c -> l !! c = Some v -> heap_but h l ->
  (forall c' y, child h c' -> l !! c' = Some y -> lt v y = false) ->
  heap_but c (<[h := v]> l).
Proof.
  intros Hch Hv [He Ha] Hmax. pose proof (lookup_lt_Some _ _ _ Hv). unfold child in *. split.
  - intros p d x y Hp Hd Hpd. unfold child in Hpd. destruct (decide (p = h)) as [->|].
    + rewrite list_lookup_insert_eq by lia. intros [= <-]. rewrite list_lookup_insert_ne by lia.
      by apply Hmax.
    + rewrite list_lookup_insert_ne by done. intros Hx. destruct (decide (d = h)) as [->|].
      * rewrite list_lookup_insert_eq by lia. intros [= <-]. by apply (Ha p c).
      * rewrite list_lookup_insert_ne by done. intros Hy. by apply (He p d).
  - intros p d x y Hp Hd. unfold child in Hp, Hd. assert (p = h) as -> by lia.
    rewrite list_lookup_insert_eq by lia. intros [= <-]. rewrite list_lookup_insert_ne by lia.
    intros Hy. apply (He c d); [lia|lia|done|done|done].
Qed.

Lemma adjust_heap_heap fuel hole value (l : list A) :
  (length l <= fuel + hole)%nat -> (hole < length l)%nat -> Forall P l -> P value -> heap_but hole l ->
  heap (adjust_heap fuel hole value l).
Proof.
  intros Hf Hlen HP Hv Hb. revert hole l Hf Hlen HP Hb.
  induction fuel as [|fuel IH]; intros hole l Hf Hlen HP Hb; cbn [adjust_heap]; [lia|].
  destruct (l !! (2 * hole + 1)%nat) as [a|] eqn:Ea.
  2: { apply push_up_heap; [done..|]. intros c y Hc Hy%lookup_lt_Some. apply lookup_ge_None in Ea.
       unfold child in Hc. lia. }
  pose proof (lookup_lt_Some _ _ _ Ea). assert (P a) by (by eapply Forall_lookup_1).
  destruct (l !! (2 * hole + 2)%nat) as [b|] eqn:Eb.
  - pose proof (lookup_lt_Some _ _ _ Eb). assert (P b) by (by eapply Forall_lookup_1).
    destruct (lt b a) eqn:Hba; (apply IH; [rewrite length_insert; lia..|by apply Forall_insert|];
      eapply heap_but_down; [unfold child; lia|done|done|]); intros c y [->| ->] Hy; simplify_eq.
    + by apply swo_irrefl.
    + by apply lt_asym.
    + done.
    + by apply swo_irrefl.
  - apply push_up_heap; [done|rewrite length_insert; lia|by apply Forall_insert|done| |].
    + eapply heap_but_down; [unfold child; lia|done|done|]. intros c y [->| ->] Hy; simplify_eq.
      by apply swo_irrefl.
    + intros c y Hc. unfold child in Hc. rewrite list_lookup_insert_ne by lia.
      intros Hy%lookup_lt_Some. apply lookup_ge_None in Eb. lia.
Qed.

Lemma pop_heap l : Forall P l -> heap l -> heap (pop l).
Proof.
  intros HP Hh. unfold pop. destruct (last l) as [v|] eqn:E; [|done].
  apply last_Some in E as [l' ->]. rewrite length_app. cbn [length].
  replace (length l' + 1 - 1)%nat with (length l') by lia. rewrite take_app_length.
  apply Forall_app in HP as [HP Hv]. inversion Hv as [|?? Hv' _]; subst. clear Hv.
  destruct l' as [|x l']; [intros p c ? ? _ ?%lookup_lt_Some; cbn in *; lia|].
  apply adjust_heap_heap; [lia|cbn; lia|done..|].
  assert (heap (x :: l')) as Hh'.
  { intros p c y z Hch Hy Hz. apply (Hh p c); [done|by apply lookup_app_l_Some..]. }
  split; [intros p c y z _ _; apply Hh'|]. intros p c y z Hp. unfold child in Hp. lia.
Qed.

Lemma heap_top l x y : Forall P l -> heap l -> top l = Some x -> y ∈ l -> lt x y = false.
Proof.
  intros HP Hh Hx [i Hi]%list_elem_of_lookup. assert (l !! 0%nat = Some x) as H0 by (by destruct l).
  assert (P x) by (by eapply Forall_lookup_1). revert y Hi.
  induction (lt_wf i) as [i _ IH]. intros y Hi. destruct i as [|i]; [simplify_eq; by apply swo_irrefl|].
  pose proof (Nat.div_mod_eq i 2). pose proof (Nat.mod_upper_bound i 2).
  pose proof (lookup_lt_Some _ _ _ Hi).
  destruct (lookup_lt_is_Some_2 l (i / 2)%nat) as [p Hp]; [lia|].
  apply (nlt_trans x p y); [done|by eapply Forall_lookup_1..|by apply (IH (i / 2)%nat); [lia|]|].
  apply (Hh (i / 2)%nat (S i)); [unfold child; lia|done..].
Qed.

(** The order in which elements leave the queue. *)
Lemma drain_sorted l : Forall P l -> heap l -> StronglySorted (fun x y => lt x y = false) (drain l).
Proof.
  intros HP Hh. unfold drain. remember (length l) as n eqn:Hn. revert l Hn HP Hh.
  induction n as [|n IH]; intros [|x l] Hn HP Hh; try by constructor. cbn [pops top head].
  pose proof (pop_perm x l) as Hp. apply (inj (cons x)) in Hp as Hp'.
  assert (length (pop (x :: l)) = n) as Hl by (rewrite Hp'; cbn in Hn; lia).
  assert (Forall P (pop (x :: l))) by (rewrite Hp'; by inversion HP).
  constructor; [apply IH; [done..|by apply pop_heap]|].
  apply Forall_forall. intros y. rewrite pops_perm by done. rewrite Hp'. intros Hy.
  apply (heap_top (x :: l)); [done|done|done|by right].
Qed.

Lemma heap_nil : heap [].
Proof. intros p c x y _ ?%lookup_lt_Some. cbn in *. lia. Qed.

End queue.
