(* ===== verification/IndexTypes.v ===== *)
(** * Types and constants of the vector index
    ([src/include/config/types.hpp], [src/include/config/constants.hpp]) *)

From S2P Require Import Prelude Float32.

Definition VECTOR_DIM : nat := 128.

(** Links of a node in the upper layers and in layer 0. *)
Definition M : Z := 16.

Definition M_MAX0 : Z := M * 2.

Definition EF_CONSTRUCTION : Z := 200.

Inductive DistanceMetric := L2 | Cosine | InnerProduct.

Record Result := MkResult { r_id : N; r_distance : float32; r_metadata : string }.

(** [operator<] and [operator>]. *)
Definition result_lt (a b : Result) : bool := fltb (r_distance a) (r_distance b).

Definition result_gt (a b : Result) : bool := fgtb (r_distance a) (r_distance b).

(** A distance that is a number. *)
Definition comparable (r : Result) : Prop := is_nan (r_distance r) = false.

#[export] Instance result_lt_swo : StrictWeakOrder comparable result_lt.
Proof. exact (swo_map _ fltb r_distance). Qed.

#[export] Instance result_gt_swo : StrictWeakOrder comparable result_gt.
Proof. exact (swo_flip comparable result_lt). Qed.
