(* ===== verification/FloatExact.v ===== *)
(** * Exact single-precision arithmetic

    Integers below [2^24] are [float] values, and sums, differences, products
    and fused multiply-adds whose exact result is such an integer are computed
    without rounding. *)

From S2P Require Import Prelude Float32.
Local Open Scope Z_scope.

(** [x * y + z] rounded once: what the compiler may emit for the source's
    multiplications followed by additions ([-mfma] in [src/CMakeLists.txt]). *)
Definition ffma (x y z : float32) : float32 :=
  match x, y, z with
  | S754_finite sx mx ex, S754_finite sy my ey, S754_finite sz mz ez =>
    let e := Z.min (ex + ey) ez in
    binary_normalize prec32 emax32
      (cond_Zopp (xorb sx sy) (Zpos (shl_align (mx * my) (ex + ey) e).1) +
       cond_Zopp sz (Zpos (shl_align mz ez e).1)) e false
  | S754_finite _ _ _, S754_finite _ _ _, S754_zero _ => fmul x y
  | S754_finite _ _ _, S754_finite _ _ _, _ => z
  | _, _, _ => fadd (fmul x y) z
  end.

(** ** Digits *)

Lemma digits2_log2 p : Zpos (digits2_pos p) = Z.log2 (Zpos p) + 1.
Proof.
  induction p as [p IH|p IH|]; cbn [digits2_pos]; [| |done].
  - rewrite Pos2Z.inj_succ, IH, Pos2Z.inj_xI, Z.log2_succ_double by done. lia.
  - rewrite Pos2Z.inj_succ, IH, Pos2Z.inj_xO, Z.log2_double by done. lia.
Qed.

Lemma Zdigits2_log2 z : 0 < z -> Zdigits2 z = Z.log2 z + 1.
Proof. destruct z; [lia| |lia]. intros _. apply digits2_log2. Qed.

Lemma iter_pos_nat {A} (f : A -> A) n x : iter_pos f n x = Nat.iter (Pos.to_nat n) f x.
Proof.
  revert x. induction n as [n IH|n IH|]; intros x; cbn [iter_pos]; [| |done].
  - rewrite !IH, Pos2Nat.inj_xI. cbn [Nat.iter].
    rewrite <-Nat.iter_add. replace (2 * Pos.to_nat n)%nat with (Pos.to_nat n + Pos.to_nat n)%nat by lia.
    by rewrite Nat.iter_swap.
  - rewrite !IH, Pos2Nat.inj_xO, <-Nat.iter_add. f_equal. lia.
Qed.

(** ** Shifting without loss *)

Lemma shr_1_double z : 0 < z -> shr_1 (Build_shr_record (2 * z) false false) = Build_shr_record z false false.
Proof. by destruct z. Qed.

Lemma iter_shr_exact n z :
  0 < z -> Nat.iter n shr_1 (Build_shr_record (z * 2 ^ Z.of_nat n) false false) = Build_shr_record z false false.
Proof.
  intros Hz. induction n as [|n IH]; [by rewrite Z.pow_0_r, Z.mul_1_r|].
  rewrite Nat.iter_succ_r. rewrite Nat2Z.inj_succ, Z.pow_succ_r by lia.
  replace (z * (2 * 2 ^ Z.of_nat n)) with (2 * (z * 2 ^ Z.of_nat n)) by ring.
  rewrite shr_1_double; [done|]. pose proof (Z.pow_pos_nonneg 2 (Z.of_nat n)). nia.
Qed.

Lemma shr_exact z e k :
  0 < z -> 0 <= k ->
  shr (Build_shr_record (z * 2 ^ k) false false) e k = (Build_shr_record z false false, e + k).
Proof.
  intros Hz Hk. destruct k as [|p|p]; [by rewrite Z.pow_0_r, Z.mul_1_r, Z.add_0_r| |lia].
  cbn [shr]. f_equal. rewrite iter_pos_nat.
  rewrite <-(iter_shr_exact (Pos.to_nat p) z Hz). by rewrite positive_nat_Z.
Qed.

Lemma iter_xO m d : Zpos (Pos.iter xO m d) = Zpos m * 2 ^ Zpos d.
Proof.
  revert m. induction d as [|d IH] using Pos.peano_ind; intros m.
  - cbn. lia.
  - rewrite Pos.iter_succ, Pos2Z.inj_succ, Z.pow_succ_r by lia.
    change (Zpos (xO (Pos.iter xO m d))) with (2 * Zpos (Pos.iter xO m d)). rewrite IH. ring.
Qed.

Lemma shl_align_value m e e' :
  e' <= e -> Zpos (shl_align m e e').1 = Zpos m * 2 ^ (e - e').
Proof.
  intros H. unfold shl_align. destruct (e' - e) as [|p|p] eqn:E; [|lia|].
  - replace (e - e') with 0 by lia. cbn. lia.
  - cbn [fst]. rewrite iter_xO. do 2 f_equal. lia.
Qed.

(** ** Integers as floats *)

Definition bits24 : Z := 16777216.

(** The exponent and the mantissa of a positive integer below [2^24]. *)
Definition expo (z : Z) : Z := Z.log2 z - 23.

Definition mant (z : Z) : positive := Z.to_pos (z * 2 ^ (- expo z)).

Lemma log2_bound z : 0 < z < bits24 -> 0 <= Z.log2 z <= 23.
Proof.
  intros Hz. split; [apply Z.log2_nonneg|]. assert (Z.log2 z < 24); [|lia].
  apply Z.log2_lt_pow2; [lia|]. exact (proj2 Hz).
Qed.

Lemma mant_value z : 0 < z < bits24 -> Zpos (mant z) = z * 2 ^ (- expo z).
Proof.
  intros Hz. pose proof (log2_bound z Hz). unfold mant, expo.
  rewrite Z2Pos.id; [done|]. apply Z.mul_pos_pos; [lia|]. apply Z.pow_pos_nonneg; lia.
Qed.

Lemma mant_log2 z : 0 < z < bits24 -> Z.log2 (Zpos (mant z)) = 23.
Proof.
  intros Hz. pose proof (log2_bound z Hz). rewrite mant_value by done. unfold expo.
  rewrite Z.log2_mul_pow2 by lia. lia.
Qed.

Lemma fexp_small z k :
  0 < z < bits24 -> fexp prec32 emax32 (Z.log2 z + 1 + k) = Z.max (expo z + k) (-149).
Proof. intros _. unfold fexp, emin, prec32, emax32, expo. lia. Qed.

(** A number that is an integer below [2^24] is not changed by rounding. *)
Lemma shr_fexp_exact m e z :
  0 < z < bits24 -> e <= expo z -> Zpos m = z * 2 ^ (- e) ->
  shr_fexp prec32 emax32 (Zpos m) e loc_Exact = (Build_shr_record (Zpos (mant z)) false false, expo z).
Proof.
  intros Hz He Hm. pose proof (log2_bound z Hz). unfold shr_fexp, shr_record_of_loc.
  rewrite Zdigits2_log2 by done. rewrite Hm. unfold expo in *.
  rewrite Z.log2_mul_pow2 by lia.
  replace (- e + Z.log2 z + 1 + e) with (Z.log2 z + 1 + 0) by lia.
  rewrite fexp_small by done. unfold expo. rewrite Z.max_l by lia.
  replace (z * 2 ^ (- e)) with (Zpos (mant z) * 2 ^ (Z.log2 z - 23 + 0 - e)).
  - rewrite shr_exact by lia. f_equal. lia.
  - rewrite mant_value by done. unfold expo. rewrite <-Z.mul_assoc, <-Z.pow_add_r by lia. do 2 f_equal. lia.
Qed.

Lemma round_aux_exact sx m e z :
  0 < z < bits24 -> e <= expo z -> Zpos m = z * 2 ^ (- e) ->
  binary_round_aux prec32 emax32 sx (Zpos m) e loc_Exact = S754_finite sx (mant z) (expo z).
Proof.
  intros Hz He Hm. pose proof (log2_bound z Hz). unfold binary_round_aux. rewrite (shr_fexp_exact m e z Hz He Hm).
  cbn [shr_m loc_of_shr_record round_nearest_even].
  rewrite (shr_fexp_exact (mant z) (expo z) z Hz) by (done || by apply mant_value). cbn [shr_m].
  unfold expo, prec32, emax32. rewrite (proj2 (Z.leb_le _ _)) by lia. done.
Qed.

Lemma round_exact sx m e z :
  0 < z < bits24 -> e <= 0 -> Zpos m = z * 2 ^ (- e) ->
  binary_round prec32 emax32 sx m e = S754_finite sx (mant z) (expo z).
Proof.
  intros Hz He Hm. pose proof (log2_bound z Hz). unfold binary_round.
  assert (Zpos (digits2_pos m) + e = Z.log2 z + 1 + 0) as ->.
  { rewrite digits2_log2, Hm, Z.log2_mul_pow2 by lia. lia. }
  rewrite fexp_small by done. rewrite Z.add_0_r, Z.max_l by (unfold expo; lia).
  destruct (Z.le_gt_cases (expo z) e) as [Hle|Hgt].
  - assert (shl_align m e (expo z) = (mant z, expo z)) as ->.
    { pose proof (shl_align_value m e (expo z) Hle) as Hv. destruct (shl_align m e (expo z)) as [m' e'] eqn:E.
      f_equal.
      - apply Pos2Z.inj. cbn [fst] in Hv. rewrite Hv, mant_value, Hm by done.
        rewrite <-Z.mul_assoc, <-Z.pow_add_r by lia. do 2 f_equal. lia.
      - unfold shl_align in E. destruct (expo z - e) eqn:Ed; injection E; intros; lia. }
    apply round_aux_exact; [done|lia|by apply mant_value].
  - assert (shl_align m e (expo z) = (m, e)) as ->.
    { unfold shl_align. destruct (expo z - e) eqn:Ed; [done|done|lia]. }
    apply round_aux_exact; [done|lia|done].
Qed.

(** The float of an integer. *)
Definition fint (z : Z) : float32 :=
  match z with
  | Z0 => S754_zero false
  | Zpos p => S754_finite false (mant (Zpos p)) (expo (Zpos p))
  | Zneg p => S754_finite true (mant (Zpos p)) (expo (Zpos p))
  end.

Lemma normalize_exact m e z szero :
  Z.abs z < bits24 -> e <= 0 -> m = z * 2 ^ (- e) -> (z = 0 -> szero = false) ->
  binary_normalize prec32 emax32 m e szero = fint z.
Proof.
  intros Hz He Hm Hs. pose proof (Z.pow_pos_nonneg 2 (- e)).
  destruct z as [|p|p]; cbn [fint].
  - rewrite Hm, Hs by done. done.
  - destruct m as [|m|m]; [nia| |nia]. apply round_exact; [lia|done|done].
  - destruct m as [|m|m]; [nia|nia|]. apply round_exact; [lia|done|lia].
Qed.

Lemma f_of_Z_fint z : Z.abs z < bits24 -> f_of_Z z = fint z.
Proof. intros Hz. unfold f_of_Z. apply normalize_exact; [done|done|cbn; lia|done]. Qed.

(** Cases of [fint]: zero, or a sign, a mantissa and an exponent. *)
Lemma fint_cases z :
  Z.abs z < bits24 ->
  (z = 0 /\ fint z = S754_zero false) \/
  exists s m e, fint z = S754_finite s m e /\ z <> 0 /\ -23 <= e <= 0 /\ Z.log2 (Zpos m) = 23 /\
    cond_Zopp s (Zpos m) = z * 2 ^ (- e).
Proof.
  intros Hz. destruct z as [|p|p]; [by left|right..].
  all: do 3 eexists; (split; [reflexivity|]); pose proof (log2_bound (Zpos p) ltac:(lia));
    (split; [lia|split; [unfold expo; lia|split; [apply mant_log2; lia|]]]); cbn [cond_Zopp];
    rewrite mant_value by lia; lia.
Qed.

Lemma cond_Zopp_mul s a b : cond_Zopp s a * b = cond_Zopp s (a * b).
Proof. destruct s; cbn; lia. Qed.

Lemma align_value s m e e' z :
  e' <= e -> e <= 0 -> cond_Zopp s (Zpos m) = z * 2 ^ (- e) ->
  cond_Zopp s (Zpos (shl_align m e e').1) = z * 2 ^ (- e').
Proof.
  intros He H0 Hm. rewrite shl_align_value, <-cond_Zopp_mul, Hm by done.
  rewrite <-Z.mul_assoc, <-Z.pow_add_r by lia. do 2 f_equal. lia.
Qed.

Lemma fadd_exact a b :
  Z.abs a < bits24 -> Z.abs b < bits24 -> Z.abs (a + b) < bits24 -> fadd (fint a) (fint b) = fint (a + b).
Proof.
  intros Ha Hb Hab.
  destruct (fint_cases a Ha) as [[-> Ea]|(sa & ma & ea & Ea & Ha0 & Hea & _ & Hma)].
  { rewrite Z.add_0_l. by destruct (fint_cases b Hb) as [[-> Eb]|(sb & mb & eb & -> & _)]. }
  destruct (fint_cases b Hb) as [[-> Eb]|(sb & mb & eb & Eb & Hb0 & Heb & _ & Hmb)].
  { rewrite Z.add_0_r, Ea. done. }
  rewrite Ea, Eb. unfold fadd, SFadd. apply normalize_exact; [done|lia| |done].
  change (fst ?p) with (p.1). rewrite (align_value sa ma ea _ a) by (lia || done).
  rewrite (align_value sb mb eb _ b) by (lia || done). ring.
Qed.

Lemma fsub_exact a b :
  Z.abs a < bits24 -> Z.abs b < bits24 -> Z.abs (a - b) < bits24 -> fsub (fint a) (fint b) = fint (a - b).
Proof.
  intros Ha Hb Hab.
  destruct (fint_cases a Ha) as [[-> Ea]|(sa & ma & ea & Ea & Ha0 & Hea & _ & Hma)].
  { rewrite Z.sub_0_l. by destruct b. }
  destruct (fint_cases b Hb) as [[-> Eb]|(sb & mb & eb & Eb & Hb0 & Heb & _ & Hmb)].
  { rewrite Z.sub_0_r, Ea. done. }
  rewrite Ea, Eb. unfold fsub, SFsub. apply normalize_exact; [done|lia| |done].
  change (fst ?p) with (p.1). rewrite (align_value sa ma ea _ a) by (lia || done).
  rewrite (align_value sb mb eb _ b) by (lia || done). ring.
Qed.

(** A product of two mantissas has its value at the sum of the exponents. *)
Lemma product_value sa sb ma mb ea eb a b :
  ea <= 0 -> eb <= 0 -> cond_Zopp sa (Zpos ma) = a * 2 ^ (- ea) -> cond_Zopp sb (Zpos mb) = b * 2 ^ (- eb) ->
  cond_Zopp (xorb sa sb) (Zpos (ma * mb)) = a * b * 2 ^ (- (ea + eb)).
Proof.
  intros Ha Hb Hma Hmb. replace (- (ea + eb)) with (- ea + - eb) by lia. rewrite Z.pow_add_r by lia.
  replace (a * b * (2 ^ (- ea) * 2 ^ (- eb))) with ((a * 2 ^ (- ea)) * (b * 2 ^ (- eb))) by ring.
  rewrite <-Hma, <-Hmb, Pos2Z.inj_mul. destruct sa, sb; cbn; lia.
Qed.

Lemma fmul_exact a b :
  Z.abs a < bits24 -> Z.abs b < bits24 -> a <> 0 -> b <> 0 -> Z.abs (a * b) < bits24 ->
  fmul (fint a) (fint b) = fint (a * b).
Proof.
  intros Ha Hb Ha0 Hb0 Hab.
  destruct (fint_cases a Ha) as [[-> _]|(sa & ma & ea & Ea & _ & Hea & Hla & Hma)]; [done|].
  destruct (fint_cases b Hb) as [[-> _]|(sb & mb & eb & Eb & _ & Heb & Hlb & Hmb)]; [done|].
  pose proof (product_value sa sb ma mb ea eb a b ltac:(lia) ltac:(lia) Hma Hmb) as Hp.
  rewrite Ea, Eb. unfold fmul, SFmul. set (z := Z.abs (a * b)) in *.
  pose proof (Z.pow_pos_nonneg 2 (- (ea + eb)) ltac:(lia) ltac:(lia)) as Hpow.
  assert (Zpos (ma * mb) = z * 2 ^ (- (ea + eb))) as Hz.
  { unfold z. destruct (xorb sa sb); cbn [cond_Zopp] in Hp; nia. }
  assert (0 < z) by nia.
  assert (ea + eb <= expo z) as He.
  { assert (46 <= Z.log2 (Zpos (ma * mb))) as Hl.
    { rewrite Pos2Z.inj_mul. pose proof (Z.log2_mul_below (Zpos ma) (Zpos mb) ltac:(lia) ltac:(lia)). lia. }
    rewrite Hz, Z.log2_mul_pow2 in Hl by lia. unfold expo. lia. }
  rewrite (round_aux_exact _ _ _ z) by (lia || done).
  destruct (a * b) as [|p|p] eqn:E; [lia| |]; cbn [fint]; destruct (xorb sa sb); cbn [cond_Zopp] in Hp;
    try (exfalso; nia); reflexivity.
Qed.

(** Multiply and add, in one rounding or in two. *)
Definition muladd (fused : bool) (x y acc : float32) : float32 :=
  if fused then ffma x y acc else fadd acc (fmul x y).

Lemma fint_zero_mul a b : Z.abs a < bits24 -> Z.abs b < bits24 -> a * b = 0 ->
  exists s, fmul (fint a) (fint b) = S754_zero s.
Proof.
  intros Ha Hb Hab.
  destruct (fint_cases a Ha) as [[-> ->]|(sa & ma & ea & -> & Ha0 & _)];
    destruct (fint_cases b Hb) as [[-> ->]|(sb & mb & eb & -> & Hb0 & _)]; try (by eexists); exfalso; nia.
Qed.

Lemma muladd_exact fused a b s :
  Z.abs a < bits24 -> Z.abs b < bits24 -> Z.abs s < bits24 -> Z.abs (a * b) < bits24 -> Z.abs (s + a * b) < bits24 ->
  muladd fused (fint a) (fint b) (fint s) = fint (s + a * b).
Proof.
  intros Ha Hb Hs Hab Hsum.
  assert (fadd (fint s) (fmul (fint a) (fint b)) = fint (s + a * b)) as Hplain.
  { destruct (Z.eq_dec (a * b) 0) as [E|E].
    - destruct (fint_zero_mul a b Ha Hb E) as [sg ->]. rewrite E, Z.add_0_r.
      destruct s; [by destruct sg|done|done].
    - rewrite fmul_exact by nia. by apply fadd_exact. }
  destruct fused; cbn [muladd]; [|done]. rewrite <-Hplain.
  destruct (fint_cases a Ha) as [[-> Ea]|(sa & ma & ea & Ea & Ha0 & Hea & Hla & Hma)].
  { rewrite Ea. by destruct b, s. }
  destruct (fint_cases b Hb) as [[-> Eb]|(sb & mb & eb & Eb & Hb0 & Heb & Hlb & Hmb)].
  { rewrite Ea, Eb. destruct s, sa; done. }
  rewrite Hplain. destruct (fint_cases s Hs) as [[-> Es]|(sc & mc & ec & Es & Hs0 & Hec & _ & Hmc)].
  { rewrite Z.add_0_l, <-fmul_exact by done. by rewrite Ea, Eb, Es. }
  rewrite Ea, Eb, Es. cbn [ffma]. apply normalize_exact; [done|lia| |done].
  pose proof (product_value sa sb ma mb ea eb a b ltac:(lia) ltac:(lia) Hma Hmb) as Hp.
  rewrite (align_value _ _ (ea + eb) _ (a * b)) by (lia || done).
  rewrite (align_value sc mc ec _ s) by (lia || done). ring.
Qed.

(** ** Signs *)

Lemma round_aux_opp sx m e l :
  binary_round_aux prec32 emax32 (negb sx) m e l = fopp (binary_round_aux prec32 emax32 sx m e l).
Proof.
  unfold binary_round_aux. destruct (shr_fexp _ _ m e l) as [r1 e1].
  destruct (shr_fexp _ _ _ e1 _) as [r2 e2]. destruct (shr_m r2); [done| |done]. by destruct (_ <=? _).
Qed.

Lemma normalize_opp m e :
  m <> 0 -> binary_normalize prec32 emax32 (- m) e false = fopp (binary_normalize prec32 emax32 m e false).
Proof.
  intros Hm. destruct m as [|m|m]; [done|..]; unfold Z.opp, binary_normalize, binary_round;
    destruct (shl_align _ _ _) as [m' e'].
  - exact (round_aux_opp false _ _ _).
  - exact (round_aux_opp true _ _ _).
Qed.

(** [y - x] is [-(x - y)], up to the sign of a zero. *)
Lemma fsub_swap x y :
  fsub y x = fopp (fsub x y) \/ exists s1 s2, fsub x y = S754_zero s1 /\ fsub y x = S754_zero s2.
Proof.
  destruct x as [sx|sx| |sx mx ex], y as [sy|sy| |sy my ey]; unfold fsub, SFsub;
    try (by left); try (by destruct sx, sy; eauto); try (by destruct sx; left); try (by destruct sy; left).
  rewrite (Z.min_comm ey ex). set (a := cond_Zopp sx _). set (b := cond_Zopp sy _).
  destruct (Z.eq_dec (a - b) 0) as [E|E].
  - right. replace (b - a) with 0 by lia. rewrite E. by do 2 eexists.
  - left. rewrite <-normalize_opp by done. f_equal. lia.
Qed.

Lemma fmul_opp x y : fmul (fopp x) (fopp y) = fmul x y.
Proof. destruct x as [[]|[]| |[]], y as [[]|[]| |[]]; reflexivity. Qed.

Lemma fmul_comm x y : fmul x y = fmul y x.
Proof.
  destruct x as [sx|sx| |sx mx ex], y as [sy|sy| |sy my ey]; unfold fmul, SFmul; try done;
    rewrite (xorb_comm sx sy); [done..|]. by rewrite (Pos.mul_comm mx my), (Z.add_comm ex ey).
Qed.

Lemma muladd_comm fused x y s : muladd fused x y s = muladd fused y x s.
Proof.
  destruct fused; cbn [muladd]; [|by rewrite fmul_comm].
  destruct x as [sx|sx| |sx mx ex], y as [sy|sy| |sy my ey]; cbn [ffma];
    try exact (f_equal (fun p => fadd p s) (fmul_comm _ _)).
  rewrite (Pos.mul_comm my mx), (Z.add_comm ey ex), (xorb_comm sy sx). 
  destruct s; [apply fmul_comm|done..].
Qed.

Lemma muladd_square_opp fused x s : muladd fused (fopp x) (fopp x) s = muladd fused x x s.
Proof.
  destruct fused; cbn [muladd]; [|by rewrite fmul_opp].
  destruct x as [[]|[]| |[] mx ex], s; reflexivity.
Qed.

(** Not below zero. *)
Definition nonneg (x : float32) : Prop :=
  match x with
  | S754_zero _ | S754_nan | S754_infinity false | S754_finite false _ _ => True
  | _ => False
  end.

Lemma nonneg_spec x : nonneg x <-> fltb x fzero = false.
Proof. by destruct x as [[]|[]| |[] m e]. Qed.

Lemma round_aux_nonneg m e l : nonneg (binary_round_aux prec32 emax32 false m e l).
Proof.
  unfold binary_round_aux. destruct (shr_fexp _ _ m e l) as [r1 e1].
  destruct (shr_fexp _ _ _ e1 _) as [r2 e2]. destruct (shr_m r2); [done| |done]. by destruct (_ <=? _).
Qed.

Lemma normalize_nonneg m e : 0 <= m -> nonneg (binary_normalize prec32 emax32 m e false).
Proof.
  intros Hm. destruct m as [|m|m]; [done| |lia]. cbn [binary_normalize]. unfold binary_round.
  destruct (shl_align _ _ _). apply round_aux_nonneg.
Qed.

Lemma fadd_nonneg x y : nonneg x -> nonneg y -> nonneg (fadd x y).
Proof.
  destruct x as [[]|[]| |[] mx ex], y as [[]|[]| |[] my ey]; intros Hx Hy; try done.
  unfold fadd, SFadd. apply normalize_nonneg. cbn [cond_Zopp]. lia.
Qed.

Lemma fsquare_nonneg x : nonneg (fmul x x).
Proof. destruct x as [[]|[]| |[] mx ex]; try done; unfold fmul, SFmul; cbn [xorb]; apply round_aux_nonneg. Qed.

Lemma muladd_square_nonneg fused x s : nonneg s -> nonneg (muladd fused x x s).
Proof.
  intros Hs. destruct fused; cbn [muladd]; [|apply fadd_nonneg; [done|apply fsquare_nonneg]].
  destruct x as [sx|sx| |sx mx ex]; cbn [ffma]; try (apply fadd_nonneg; [apply fsquare_nonneg|done]).
  destruct s as [ss|ss| |ss ms es]; [apply fsquare_nonneg|done|done|].
  apply normalize_nonneg. rewrite xorb_nilpotent. destruct ss; [done|]. cbn [cond_Zopp]. lia.
Qed.
