(* ===== verification/FloatRange.v ===== *)
(** * Ranges of single-precision results

    Every operation rounds to a number with at most 24 bits of mantissa, and
    the ones that the quantizer uses do not produce a NaN from numbers. *)

From S2P Require Import Prelude Float32 FloatExact.
Local Open Scope Z_scope.

(** A [float] that is not a NaN: finite values have a 24-bit mantissa and an
    exponent up to 104. *)
Definition number (x : float32) : Prop :=
  match x with
  | S754_nan => False
  | S754_finite _ m e => Zpos m < bits24 /\ e <= 104
  | _ => True
  end.

Definition finite (x : float32) : Prop :=
  match x with
  | S754_zero _ => True
  | S754_finite _ m e => Zpos m < bits24 /\ e <= 104
  | _ => False
  end.

Lemma finite_number x : finite x -> number x.
Proof. by destruct x. Qed.

Lemma number_not_nan x : number x -> is_nan x = false.
Proof. by destruct x. Qed.

(** ** Rounding *)

Lemma shr_1_half r : 0 <= shr_m r -> shr_m (shr_1 r) = shr_m r / 2.
Proof.
  destruct r as [[|[p|p|]|p] rb sb]; cbn [shr_m shr_1]; intros H; try done.
  - rewrite Pos2Z.inj_xI, Z.add_comm, Z.mul_comm, Z.div_add by done. done.
  - rewrite Pos2Z.inj_xO, Z.mul_comm, Z.div_mul by done. done.
Qed.

Lemma iter_shr_half n r : 0 <= shr_m r -> shr_m (Nat.iter n shr_1 r) = shr_m r / 2 ^ Z.of_nat n.
Proof.
  intros Hr. induction n as [|n IH]; [by rewrite Z.pow_0_r, Z.div_1_r|].
  change (Nat.iter (S n) shr_1 r) with (shr_1 (Nat.iter n shr_1 r)). rewrite shr_1_half, IH.
  - rewrite Z.div_div by lia. f_equal. rewrite Nat2Z.inj_succ, Z.pow_succ_r by lia. lia.
  - rewrite IH. apply Z.div_pos; lia.
Qed.

(** After [shr_fexp] at most 24 digits are left. *)
Lemma shr_fexp_digits m e l :
  0 <= m -> 0 <= shr_m (shr_fexp prec32 emax32 m e l).1 < bits24.
Proof.
  intros Hm. unfold shr_fexp.
  assert (shr_m (shr_record_of_loc m l) = m) as Hr by (by destruct l as [|[]]).
  set (n := fexp prec32 emax32 (Zdigits2 m + e) - e).
  assert (m < 2 ^ (24 + Z.max 0 n)) as Hlt.
  { destruct (Z.eq_dec m 0) as [->|Hne]; [apply Z.pow_pos_nonneg; lia|].
    apply Z.lt_le_trans with (2 ^ (Z.log2 m + 1)); [apply Z.log2_spec; lia|].
    apply Z.pow_le_mono_r; [lia|]. unfold n, fexp, emin, prec32, emax32. rewrite Zdigits2_log2 by lia. lia. }
  unfold shr. destruct n as [|p|p]; cbn [fst]; rewrite ?Hr; [split; [done|exact Hlt]| |split; [done|exact Hlt]].
  rewrite iter_pos_nat, iter_shr_half, Hr by (rewrite Hr; done). rewrite positive_nat_Z. split.
  - apply Z.div_pos; [done|]. apply Z.pow_pos_nonneg; lia.
  - apply Z.div_lt_upper_bound; [apply Z.pow_pos_nonneg; lia|]. rewrite Z.max_r in Hlt by lia.
    unfold bits24. rewrite Z.pow_add_r in Hlt by lia. change (2 ^ 24) with 16777216 in Hlt. lia.
Qed.

Lemma round_aux_number sx m e l : 0 <= m -> number (binary_round_aux prec32 emax32 sx m e l).
Proof.
  intros Hm. unfold binary_round_aux. destruct (shr_fexp _ _ m e l) as [r1 e1] eqn:E1.
  pose proof (shr_fexp_digits m e l Hm) as H1. rewrite E1 in H1. cbn [fst] in H1.
  set (m1 := round_nearest_even (shr_m r1) (loc_of_shr_record r1)).
  assert (0 <= m1) as Hm1.
  { unfold m1, round_nearest_even. destruct (loc_of_shr_record r1) as [|[]]; try lia. destruct (Z.even _); lia. }
  pose proof (shr_fexp_digits m1 e1 loc_Exact Hm1) as H2.
  destruct (shr_fexp _ _ m1 e1 loc_Exact) as [r2 e2]. cbn [fst] in H2.
  destruct (shr_m r2) as [|p|p]; [done| |lia]. destruct (Z.leb_spec e2 (emax32 - prec32)); [|done].
  split; [exact (proj2 H2)|]. unfold emax32, prec32 in *. lia.
Qed.

Lemma round_number sx m e : number (binary_round prec32 emax32 sx m e).
Proof. unfold binary_round. destruct (shl_align _ _ _) as [mz ez]. by apply round_aux_number. Qed.

Lemma normalize_number m e s : number (binary_normalize prec32 emax32 m e s).
Proof. destruct m; [done|apply round_number..]. Qed.

(** ** Operations *)

Lemma fsub_number x y : finite x -> finite y -> number (fsub x y).
Proof.
  destruct x as [sx|sx| |sx mx ex], y as [sy|sy| |sy my ey]; intros Hx Hy; try done.
  - unfold fsub, SFsub. by destruct sx, sy.
  - apply normalize_number.
Qed.

(** The sum of a finite number and another number. *)
Lemma fadd_number x y : finite x -> number y -> number (fadd x y).
Proof.
  destruct x as [sx|sx| |sx mx ex], y as [sy|sy| |sy my ey]; intros Hx Hy; try done.
  - unfold fadd, SFadd. by destruct sx, sy.
  - apply normalize_number.
Qed.

Lemma fadd_comm x y : fadd x y = fadd y x.
Proof.
  destruct x as [sx|sx| |sx mx ex], y as [sy|sy| |sy my ey]; unfold fadd, SFadd; try done.
  - by destruct sx, sy.
  - by destruct sx, sy.
  - rewrite Z.min_comm. by rewrite Z.add_comm.
Qed.

Lemma fdiv_number x y : number x -> finite y -> fltb fzero y = true -> number (fdiv x y).
Proof.
  destruct x as [sx|sx| |sx mx ex], y as [sy|sy| |sy my ey]; intros Hx Hy H0; try done.
  unfold fdiv, SFdiv. destruct (SFdiv_core_binary _ _ _ _ _ _) as [[q e'] l] eqn:E. apply round_aux_number.
  unfold SFdiv_core_binary in E.
  set (m' := match _ with Z0 => _ | Zpos _ => _ | Zneg _ => _ end) in E.
  assert (0 <= m') as Hm.
  { unfold m'. destruct (_ - _ - _); [lia|by apply Z.shiftl_nonneg|lia]. }
  pose proof (Z.div_pos m' (Zpos my) Hm) as Hq. unfold Z.div in Hq.
  destruct (Z.div_eucl m' (Zpos my)) as [q' r]. injection E as <- _ _. apply Hq. lia.
Qed.

Lemma fmul_number x y : number x -> finite y -> fltb fzero y = true -> number (fmul x y).
Proof.
  destruct x as [sx|sx| |sx mx ex], y as [sy|sy| |sy my ey]; intros Hx Hy H0; try done.
  by apply round_aux_number.
Qed.

Lemma muladd_number fused x y z :
  number x -> finite y -> fltb fzero y = true -> finite z -> number (muladd fused x y z).
Proof.
  intros Hx Hy H0 Hz. pose proof (fmul_number x y Hx Hy H0) as Hm.
  destruct fused; cbn [muladd]; [|by apply fadd_number].
  destruct x as [sx|sx| |sx mx ex], y as [sy|sy| |sy my ey]; try done; cbn [ffma];
    [rewrite fadd_comm; by apply fadd_number..|].
  destruct z as [sz|sz| |sz mz ez]; [done|done|done|apply normalize_number].
Qed.

(** ** Truncation *)

(** A number between [-k] and [k], an integer below [2^24], truncates to an
    integer between them. *)
Lemma trunc_between v k :
  0 < k < bits24 -> number v -> fltb v (fint (- k)) = false -> fltb (fint k) v = false ->
  exists z, trunc_float v = Some z /\ - k <= z <= k.
Proof.
  intros Hk Hv Hlo Hhi.
  destruct k as [|p|p]; [lia| |lia]. change (- Zpos p) with (Zneg p) in Hlo. cbn [fint] in Hlo, Hhi.
  assert (is_nan v = false) as Hn by (by apply number_not_nan).
  apply not_true_iff_false in Hlo, Hhi. rewrite fltb_key in Hlo, Hhi by done. unfold key_lt in Hlo, Hhi.
  pose proof (mant_value (Zpos p) Hk) as Hmant. pose proof (log2_bound _ Hk) as Hlog.
  destruct v as [s|[]| |s m e]; cbn [key fst snd] in *; try done; try lia; [by exists 0; split; [|lia]|].
  destruct Hv as [Hv _]. cbn [trunc_float]. eexists. split; [done|].
  assert (expo (Zpos p) <= 0) as He by (unfold expo; lia).
  assert (e < expo (Zpos p) \/ (e = expo (Zpos p) /\ Zpos m <= Zpos (mant (Zpos p)))) as Hcase
    by (destruct s; cbn [fst snd] in *; lia).
  assert (0 <= (if bool_decide (0 <= e) then Z.shiftl (Zpos m) e else Z.shiftr (Zpos m) (- e)) <= Zpos p) as Hz;
    [|destruct s; cbn [cond_Zopp]; lia].
  case_bool_decide as Hb.
  - assert (e = 0 /\ expo (Zpos p) = 0) as [-> H0] by lia. rewrite H0 in Hmant. change (2 ^ (- 0)) with 1 in Hmant. rewrite Z.shiftl_0_r. lia.
  - rewrite Z.shiftr_div_pow2 by lia. split; [apply Z.div_pos; [lia|apply Z.pow_pos_nonneg; lia]|].
    apply Z.div_le_upper_bound; [apply Z.pow_pos_nonneg; lia|]. rewrite Z.mul_comm.
    destruct Hcase as [Hlt|[-> Hle]]; [|lia].
    apply Z.le_trans with (2 ^ Z.log2 (Zpos p) * 2 ^ (- e)).
    + rewrite <-Z.pow_add_r by lia. apply Z.le_trans with (2 ^ 24); [unfold bits24 in Hv; lia|].
      apply Z.pow_le_mono_r; [lia|]. unfold expo in Hlt. lia.
    + apply Z.mul_le_mono_nonneg_r; [apply Z.pow_nonneg; lia|]. apply Z.log2_spec. lia.
Qed.
