(* ===== verification/Distance.v ===== *)
(** * Distance kernels ([src/src/index/distance.cpp])

    A [__m256] register is a list of eight lanes.  Every kernel accumulates
    eight partial results over the blocks of eight components, adds the lanes
    up and continues with the components that are left.  [fused] says whether
    the compiler merges a multiplication and the addition that follows it into
    one instruction. *)

From S2P Require Import Prelude Float32 IndexTypes FloatExact.

Section kernels.
Variable fused : bool.

(** The blocks of eight: lane [k] of [acc] is updated with component [k] of
    each block. *)
Fixpoint lanes (op : float32 -> float32 -> float32 -> float32) (blocks : nat)
    (a b acc : list float32) : list float32 :=
  match blocks with
  | O => acc
  | S n => lanes op n (drop 8 a) (drop 8 b)
             (zip_with (fun s p => op s p.1 p.2) acc (zip (take 8 a) (take 8 b)))
  end.

(** The loop over blocks, the horizontal reduction and the scalar tail. *)
Definition reduce (op : float32 -> float32 -> float32 -> float32) (a b : list float32) (dim : nat) : float32 :=
  let n := (dim / 8)%nat in
  let total := foldl fadd fzero (lanes op n a b (replicate 8 fzero)) in
  foldl (fun s p => op s p.1 p.2) total
    (zip (take (dim - 8 * n) (drop (8 * n) a)) (take (dim - 8 * n) (drop (8 * n) b))).

Definition square_diff (s x y : float32) : float32 := let d := fsub x y in muladd fused d d s.

Definition l2_distance (a b : list float32) (dim : nat) : float32 := reduce square_diff a b dim.

Definition dot_step (s x y : float32) : float32 := muladd fused x y s.

(** [1e-10f] *)
Definition norm_epsilon : float32 := S754_finite false 14411519 (-57).

Definition cosine_distance (a b : list float32) (dim : nat) : float32 :=
  let dot := reduce dot_step a b dim in
  let na := reduce (fun s x _ => dot_step s x x) a b dim in
  let nb := reduce (fun s _ y => dot_step s y y) a b dim in
  let denom := fmul (fsqrt na) (fsqrt nb) in
  if fltb denom norm_epsilon then fone else fsub fone (fdiv dot denom).

Definition inner_product_distance (a b : list float32) (dim : nat) : float32 :=
  fopp (reduce dot_step a b dim).

Definition compute_distance (a b : list float32) (dim : nat) (metric : DistanceMetric) : float32 :=
  match metric with
  | Cosine => cosine_distance a b dim
  | InnerProduct => inner_product_distance a b dim
  | L2 => l2_distance a b dim
  end.

(** [get_distance], the old name of the L2 kernel. *)
Definition get_distance (a b : list float32) (dim : nat) : float32 := l2_distance a b dim.

(** ** Exchanging the arguments *)

Lemma zip_swap_op (op op' : float32 -> float32 -> float32 -> float32) acc (a b : list float32) :
  (forall s x y, op s x y = op' s y x) ->
  zip_with (fun s p => op s p.1 p.2) acc (zip a b) = zip_with (fun s p => op' s p.1 p.2) acc (zip b a).
Proof.
  intros Hop. revert acc b. induction a as [|x a IH]; intros [|s acc] [|y b]; try done.
  cbn. by rewrite Hop, IH.
Qed.

Lemma lanes_swap op op' n a b acc :
  (forall s x y, op s x y = op' s y x) -> lanes op n a b acc = lanes op' n b a acc.
Proof.
  intros Hop. revert a b acc. induction n as [|n IH]; intros a b acc; [done|]. cbn [lanes].
  by rewrite (zip_swap_op op op' acc (take 8 a) (take 8 b) Hop), IH.
Qed.

Lemma reduce_swap op op' a b dim :
  (forall s x y, op s x y = op' s y x) -> reduce op a b dim = reduce op' b a dim.
Proof.
  intros Hop. unfold reduce. rewrite (lanes_swap op op' _ _ _ _ Hop).
  generalize (foldl fadd fzero (lanes op' (dim / 8) b a (replicate 8 fzero))).
  generalize (take (dim - 8 * (dim / 8)) (drop (8 * (dim / 8)) a)) (take (dim - 8 * (dim / 8)) (drop (8 * (dim / 8)) b)).
  intros k. induction k as [|x k IH]; intros [|y m] s; try done. cbn. by rewrite Hop, IH.
Qed.

Lemma square_diff_swap s x y : square_diff s x y = square_diff s y x.
Proof.
  unfold square_diff. destruct (fsub_swap x y) as [->|(s1 & s2 & -> & ->)]; [by rewrite muladd_square_opp|].
  by destruct fused, s1, s2.
Qed.

(** The three metrics are symmetric, to the last bit: with either way of
    compiling the multiply-add, whatever the components (infinities and NaNs
    included) and whatever the dimension, the order of the two vectors does
    not matter. *)
Theorem compute_distance_symmetric (a b : list float32) (dim : nat) (metric : DistanceMetric) :
  compute_distance a b dim metric = compute_distance b a dim metric.
Proof.
  destruct metric; cbn [compute_distance].
  - apply reduce_swap, square_diff_swap.
  - unfold cosine_distance. rewrite (reduce_swap dot_step dot_step a b) by (intros; apply muladd_comm).
    rewrite (reduce_swap (fun s x _ => dot_step s x x) (fun s _ y => dot_step s y y) a b) by done.
    rewrite (reduce_swap (fun s _ y => dot_step s y y) (fun s x _ => dot_step s x x) a b) by done.
    by rewrite (fmul_comm (fsqrt _)).
  - unfold inner_product_distance. f_equal. apply reduce_swap. intros. apply muladd_comm.
Qed.

(** ** The L2 distance is not negative *)

Section fold.
Context (op : float32 -> float32 -> float32 -> float32) (Q : float32 -> Prop).
Hypotheses (Hop : forall s x y, Q s -> Q (op s x y)) (Hadd : forall x y, Q x -> Q y -> Q (fadd x y)) (H0 : Q fzero).

Lemma lanes_keep n a b acc : Forall Q acc -> Forall Q (lanes op n a b acc).
Proof.
  revert a b acc. induction n as [|n IH]; intros a b acc Hacc; [done|]. cbn [lanes]. apply IH.
  generalize (zip (take 8 a) (take 8 b)). intros ps. revert ps.
  induction Hacc as [|s acc Hs _ IH']; intros [|p ps]; try by constructor. cbn. constructor; [by apply Hop|done].
Qed.

Lemma foldl_keep {B} (f : float32 -> B -> float32) (R : B -> Prop) l s :
  (forall s x, Q s -> R x -> Q (f s x)) -> Forall R l -> Q s -> Q (foldl f s l).
Proof.
  intros Hf Hl. revert s. induction Hl as [|x l Hx _ IH]; intros s Hs; [done|]. cbn. by apply IH, Hf.
Qed.

Lemma reduce_keep a b dim : Q (reduce op a b dim).
Proof.
  unfold reduce. apply (foldl_keep _ (fun _ => True)); [by intros; apply Hop|by apply Forall_true|].
  apply (foldl_keep _ Q); [done| |done]. apply lanes_keep. by repeat constructor.
Qed.
End fold.

Lemma l2_nonneg a b dim : nonneg (l2_distance a b dim).
Proof.
  unfold l2_distance. apply reduce_keep; [|apply fadd_nonneg|done]. intros s x y Hs. by apply muladd_square_nonneg.
Qed.

(** The L2 distance is never negative: the comparison with zero that a
    caller could make is false for every pair of vectors. *)
Theorem l2_distance_nonneg (a b : list float32) (dim : nat) :
  fltb (l2_distance a b dim) fzero = false.
Proof. apply nonneg_spec, l2_nonneg. Qed.

(** ** Exactness on integers *)

(** The sum of [g] over two lists. *)
Fixpoint zsum2 (g : Z -> Z -> Z) (a b : list Z) : Z :=
  match a, b with
  | x :: a, y :: b => g x y + zsum2 g a b
  | _, _ => 0
  end%Z.

Definition zsum (l : list Z) : Z := foldr Z.add 0%Z l.

Lemma zsum_cons x l : zsum (x :: l) = (x + zsum l)%Z.
Proof. done. Qed.

Lemma zsum_abs_nonneg l : (0 <= zsum (Z.abs <$> l))%Z.
Proof. induction l as [|x l IH]; [done|]. rewrite fmap_cons, zsum_cons. lia. Qed.

Definition zabs2 (g : Z -> Z -> Z) (x y : Z) : Z := Z.abs (g x y).

Lemma zabs2_nonneg g a b : (0 <= zsum2 (zabs2 g) a b)%Z.
Proof. revert b. induction a as [|x a IH]; intros [|y b]; cbn; try lia. specialize (IH b). unfold zabs2 at 1. lia. Qed.

Lemma zsum2_split g n a b :
  zsum2 g a b = (zsum2 g (take n a) (take n b) + zsum2 g (drop n a) (drop n b))%Z.
Proof.
  revert a b. induction n as [|n IH]; intros a b; [by rewrite !take_0, !drop_0; destruct a, b|].
  destruct a as [|x a], b as [|y b]; cbn [take drop zsum2]; try lia.
  - by destruct (drop n a).
  - rewrite (IH a b). lia.
Qed.

Section exact.
Context (op : float32 -> float32 -> float32 -> float32) (g : Z -> Z -> Z).

(** [op] computes [s + g x y] when the numbers stay below [2^24]. *)
Hypothesis op_exact : forall s x y,
  (Z.abs x < bits24)%Z -> (Z.abs y < bits24)%Z -> (Z.abs s + Z.abs (g x y) < bits24)%Z ->
  op (fint s) (fint x) (fint y) = fint (s + g x y).

Definition small (l : list Z) : Prop := Forall (fun z => Z.abs z < bits24)%Z l.

Lemma tail_exact a b s :
  small a -> small b -> (Z.abs s + zsum2 (zabs2 g) a b < bits24)%Z ->
  foldl (fun s p => op s p.1 p.2) (fint s) (zip (fint <$> a) (fint <$> b)) = fint (s + zsum2 g a b).
Proof.
  intros Ha. revert b s. induction Ha as [|x a Hx Ha IH]; intros [|y b] s Hb Hs; cbn in *; try by rewrite Z.add_0_r.
  apply Forall_cons in Hb as [Hy Hb]. unfold zabs2 in Hs at 1. pose proof (zabs2_nonneg g a b).
  rewrite op_exact by lia. rewrite (IH b) by (done || lia). f_equal. lia.
Qed.

(** One block: the lanes stay exact, and their sum grows by the block's. *)
Lemma block_exact acc a b :
  length a = length acc -> length b = length acc -> small a -> small b ->
  (zsum (Z.abs <$> acc) + zsum2 (zabs2 g) a b < bits24)%Z ->
  exists acc', zip_with (fun s p => op s p.1 p.2) (fint <$> acc) (zip (fint <$> a) (fint <$> b)) = fint <$> acc' /\
    length acc' = length acc /\ zsum acc' = (zsum acc + zsum2 g a b)%Z /\
    (zsum (Z.abs <$> acc') <= zsum (Z.abs <$> acc) + zsum2 (zabs2 g) a b)%Z.
Proof.
  revert a b. induction acc as [|s acc IH]; intros [|x a] [|y b] Hla Hlb Ha Hb Hs; try done.
  { exists []. cbn. done. }
  apply Forall_cons in Ha as [Hx Ha]. apply Forall_cons in Hb as [Hy Hb].
  rewrite !fmap_cons, !zsum_cons in *. cbn [length zsum2] in *.
  pose proof (zabs2_nonneg g a b). unfold zabs2 in Hs at 1.
  pose proof (zsum_abs_nonneg acc).
  destruct (IH a b) as (acc' & E & Hl & Hsum & Habs); [lia|lia|done|done|lia|].
  exists ((s + g x y)%Z :: acc'). rewrite !fmap_cons, !zsum_cons. cbn. rewrite E, op_exact by lia.
  split_and!; [done|lia|lia|]. unfold zabs2 at 1. lia.
Qed.

Lemma lanes_exact n a b acc :
  length a = (8 * n)%nat -> length b = (8 * n)%nat -> length acc = 8%nat -> small a -> small b ->
  (zsum (Z.abs <$> acc) + zsum2 (zabs2 g) a b < bits24)%Z ->
  exists acc', lanes op n (fint <$> a) (fint <$> b) (fint <$> acc) = fint <$> acc' /\
    zsum acc' = (zsum acc + zsum2 g a b)%Z /\ (zsum (Z.abs <$> acc') <= zsum (Z.abs <$> acc) + zsum2 (zabs2 g) a b)%Z.
Proof.
  revert a b acc. induction n as [|n IH]; intros a b acc Hla Hlb Hl Ha Hb Hs.
  { destruct a, b; try done. exists acc. cbn. split_and!; [done|lia|lia]. }
  cbn [lanes]. rewrite <-!fmap_take, <-!fmap_drop.
  rewrite (zsum2_split (zabs2 g) 8) in Hs |- *. rewrite (zsum2_split g 8).
  pose proof (zabs2_nonneg g (drop 8 a) (drop 8 b)).
  destruct (block_exact acc (take 8 a) (take 8 b)) as (acc1 & E & Hl1 & Hsum1 & Habs1).
  { rewrite length_take. lia. }
  { rewrite length_take. lia. }
  1,2: by apply Forall_take.
  { lia. }
  rewrite E. destruct (IH (drop 8 a) (drop 8 b) acc1) as (acc2 & E2 & Hsum2 & Habs2).
  1,2: rewrite length_drop; lia.
  { lia. }
  1,2: by apply Forall_drop.
  { lia. }
  exists acc2. split; [done|]. lia.
Qed.

Lemma sum_exact acc s :
  (Z.abs s + zsum (Z.abs <$> acc) < bits24)%Z -> foldl fadd (fint s) (fint <$> acc) = fint (s + zsum acc).
Proof.
  revert s. induction acc as [|x acc IH]; intros s Hs; [cbn; by rewrite Z.add_0_r|].
  rewrite !fmap_cons, !zsum_cons in *. cbn [foldl].
  pose proof (zsum_abs_nonneg acc).
  rewrite fadd_exact by lia. rewrite IH by lia. f_equal. lia.
Qed.

Lemma reduce_exact a b dim :
  length a = dim -> length b = dim -> small a -> small b -> (zsum2 (zabs2 g) a b < bits24)%Z ->
  reduce op (fint <$> a) (fint <$> b) dim = fint (zsum2 g a b).
Proof.
  intros Hla Hlb Ha Hb Hs. unfold reduce. set (n := (dim / 8)%nat).
  assert (8 * n <= dim)%nat as Hn by (apply Nat.Div0.mul_div_le).
  rewrite (zsum2_split (zabs2 g) (8 * n)) in Hs. rewrite (zsum2_split g (8 * n)).
  pose proof (zabs2_nonneg g (take (8 * n) a) (take (8 * n) b)).
  pose proof (zabs2_nonneg g (drop (8 * n) a) (drop (8 * n) b)).
  assert (forall k : list float32, lanes op n (fint <$> a) (fint <$> b) k =
    lanes op n (fint <$> take (8 * n) a) (fint <$> take (8 * n) b) k) as Hcut.
  { intros k. clear. revert a b k. generalize n. intros m. induction m as [|m IH]; intros a b k; [done|]. cbn [lanes].
    rewrite <-!fmap_take, <-!fmap_drop, !take_take, Nat.min_l by lia.
    rewrite (IH (drop 8 a) (drop 8 b)). rewrite !take_drop_commute.
    replace (8 + 8 * m)%nat with (8 * S m)%nat by lia. done. }
  rewrite Hcut. destruct (lanes_exact n (take (8 * n) a) (take (8 * n) b) (replicate 8 0%Z)) as (acc & E & Hsum & Habs).
  1,2: rewrite length_take; lia.
  { done. }
  1,2: by apply Forall_take.
  { cbn [replicate fmap list_fmap zsum foldr]. lia. }
  change (replicate 8 fzero) with (fint <$> replicate 8 0%Z). rewrite E.
  change (zsum (replicate 8 0%Z)) with 0%Z in Hsum. change (zsum (Z.abs <$> replicate 8 0%Z)) with 0%Z in Habs.
  change fzero with (fint 0). rewrite sum_exact by lia. rewrite Hsum, <-!fmap_drop, <-!fmap_take.
  rewrite (take_ge (drop (8 * n) a)), (take_ge (drop (8 * n) b)) by (rewrite length_drop; lia).
  rewrite tail_exact; [f_equal; lia|by apply Forall_drop..|].
  pose proof (zabs2_nonneg g (take (8 * n) a) (take (8 * n) b)).
  assert (forall k l, Z.abs (zsum2 g k l) <= zsum2 (zabs2 g) k l)%Z as Htri.
  { intros k. induction k as [|x k IH]; intros [|y l]; cbn; try lia. specialize (IH l). unfold zabs2 at 1. lia. }
  specialize (Htri (take (8 * n) a) (take (8 * n) b)). lia.
Qed.
End exact.

Definition sqdiff (x y : Z) : Z := ((x - y) * (x - y))%Z.

Lemma square_diff_exact s x y :
  (Z.abs x < bits24)%Z -> (Z.abs y < bits24)%Z -> (Z.abs s + Z.abs (sqdiff x y) < bits24)%Z ->
  square_diff (fint s) (fint x) (fint y) = fint (s + sqdiff x y).
Proof.
  unfold sqdiff. intros Hx Hy Hs. unfold square_diff.
  assert (Z.abs (x - y) < bits24)%Z by (unfold bits24 in *; nia).
  rewrite fsub_exact by done. apply muladd_exact; lia.
Qed.

(** C33: On vectors of integers the L2 kernel is exact.  If the components are
    integers below [2^24] in absolute value and the sum of the squared
    differences is below [2^24], the eight lanes, the horizontal reduction and
    the scalar tail together return exactly that sum, for every dimension and
    with or without fused instructions. *)
Theorem l2_distance_exact (a b : list Z) (dim : nat) :
  length a = dim -> length b = dim -> small a -> small b -> (zsum2 sqdiff a b < bits24)%Z ->
  l2_distance (f_of_Z <$> a) (f_of_Z <$> b) dim = f_of_Z (zsum2 sqdiff a b).
Proof.
  intros Hla Hlb Ha Hb Hs.
  assert (forall l, small l -> f_of_Z <$> l = fint <$> l) as Hf.
  { intros l Hl. induction Hl as [|z l Hz _ IH]; [done|]. cbn. by rewrite f_of_Z_fint, IH. }
  assert (forall k l, zsum2 (zabs2 sqdiff) k l = zsum2 sqdiff k l) as Habs.
  { intros k. induction k as [|x k IH]; intros [|y l]; cbn; try done. rewrite IH. f_equal. unfold zabs2, sqdiff. apply Z.abs_eq, Z.square_nonneg. }
  assert (0 <= zsum2 sqdiff a b)%Z by (rewrite <-Habs; apply zabs2_nonneg).
  rewrite !Hf, f_of_Z_fint by (done || lia). apply reduce_exact; [apply square_diff_exact|done..|]. by rewrite Habs.
Qed.
End kernels.

(** ** Examples *)

Lemma l2_distance_exact_witness :
  l2_distance true (f_of_Z <$> [1; 2; 3; 4; 5; 6; 7; 8; 9]%Z) (f_of_Z <$> [0; 2; 3; 4; 5; 6; 7; 8; 6]%Z) 9 = f_of_Z 10.
Proof.
  apply (l2_distance_exact true [1; 2; 3; 4; 5; 6; 7; 8; 9]%Z [0; 2; 3; 4; 5; 6; 7; 8; 6]%Z 9).
  - done.
  - done.
  - by repeat constructor.
  - by repeat constructor.
  - done.
Defined.

(** The cosine distance can be negative.  The kernel is documented to
    return a value in the range from 0 to 2, but the rounded product of the two
    rounded square roots may be smaller than the dot product: the vector whose
    [VECTOR_DIM] components are all one is at the distance [-2^-23] from
    itself, that is, nearer than zero. *)
Theorem cosine_distance_below_zero (fused : bool) :
  let v := replicate VECTOR_DIM fone in
  cosine_distance fused v v VECTOR_DIM = S754_finite true 8388608 (-46) /\
  fltb (cosine_distance fused v v VECTOR_DIM) fzero = true.
Proof. destruct fused; vm_compute; split; reflexivity. Qed.
