(* ===== verification/Quantizer.v ===== *)
(** * Scalar quantizer ([src/include/index/quantizer.hpp])

    Per-dimension ranges learned from a sample, and the map from [float]
    components to signed bytes and back.  [None] is undefined behaviour: a read
    behind the end of an array, a conversion of a number that a byte cannot
    hold, or signed overflow.  [fused] is as in [Distance]. *)

From S2P Require Import Prelude Storage Float32 FloatExact FloatRange IndexTypes Distance.
Local Open Scope Z_scope.

Module ScalarQuantizer.

Record t := Mk {
  min_ : list float32;
  max_ : list float32;
  dim_ : nat;
  trained_ : bool;
}.

Definition create : t := Mk [] [] 0 false.

(** [std::numeric_limits<float>::max()] and [lowest()]. *)
Definition FLT_MAX : float32 := S754_finite false 16777215 104.

Definition FLT_LOWEST : float32 := S754_finite true 16777215 104.

(** ** Training *)

Definition lower (x lo : float32) : float32 := if fltb x lo then x else lo.

Definition upper (x hi : float32) : float32 := if fgtb x hi then x else hi.

(** The loop over the components of one vector. *)
Definition train_one (dim : nat) (v : list float32) (r : list float32 * list float32)
    : option (list float32 * list float32) :=
  if bool_decide (length v < dim)%nat then None
  else Some (zip_with lower (take dim v) r.1, zip_with upper (take dim v) r.2).

Fixpoint train_all (dim : nat) (vecs : list (list float32)) (r : list float32 * list float32)
    : option (list float32 * list float32) :=
  match vecs with
  | [] => Some r
  | v :: vecs => r ← train_one dim v r; train_all dim vecs r
  end.

Definition train (vecs : list (list float32)) (q : t) : option t :=
  match vecs with
  | [] => Some q
  | v :: _ =>
    let dim := length v in
    r ← train_all dim vecs (replicate dim FLT_MAX, replicate dim FLT_LOWEST);
    Some (Mk r.1 r.2 dim true)
  end.

(** ** Quantization *)

Definition not_trained : string := "ScalarQuantizer: call train() before quantize()/dequantize()".

(** [std::clamp] *)
Definition clamp (v lo hi : float32) : float32 := if fltb v lo then lo else if fltb hi v then hi else v.

(** [1e-9f] *)
Definition range_epsilon : float32 := S754_finite false 9007199 (-53).

Definition int8_of (f : float32) : option Z :=
  z ← trunc_float f; if bool_decide (-128 <= z <= 127) then Some z else None.

Section fused.
Variable fused : bool.

Definition quantize_one (lo hi x : float32) : option Z :=
  let range := fsub hi lo in
  let normalized := if fgtb range range_epsilon then fdiv (fsub x lo) range else fzero in
  int8_of (clamp (muladd fused normalized (f_of_Z 254) (f_of_Z (-127))) (f_of_Z (-127)) (f_of_Z 127)).

(** [for (size_t i = 0; i < dim; ++i)] *)
Definition quantize (input : list float32) (dim : nat) (q : t) : option (outcome (list Z)) :=
  if negb (trained_ q) then Some (Throw not_trained)
  else
    out ← mapM (fun i => lo ← min_ q !! i; hi ← max_ q !! i; x ← input !! i; quantize_one lo hi x) (seq 0 dim);
    Some (Ret out).

Definition dequantize_one (lo hi : float32) (b : Z) : float32 :=
  let range := fsub hi lo in
  let normalized := fdiv (fadd (f_of_Z b) (f_of_Z 127)) (f_of_Z 254) in
  muladd fused normalized range lo.

Definition dequantize (input : list Z) (dim : nat) (q : t) : option (outcome (list float32)) :=
  if negb (trained_ q) then Some (Throw not_trained)
  else
    out ← mapM (fun i => lo ← min_ q !! i; hi ← max_ q !! i; b ← input !! i; Some (dequantize_one lo hi b)) (seq 0 dim);
    Some (Ret out).
End fused.

(** ** Distance of quantized vectors *)

(** A value of type [int32_t]; overflow is undefined. *)
Definition int32_of (z : Z) : option Z := if bool_decide (-2147483648 <= z <= 2147483647) then Some z else None.

Definition distance_step (sum : Z) (a b : Z) : option Z :=
  diff ← int32_of (a - b); sq ← int32_of (diff * diff); int32_of (sum + sq).

Fixpoint distance_loop (a b : list Z) (dim : nat) (sum : Z) : option Z :=
  match dim with
  | O => Some sum
  | S dim =>
    match a, b with
    | x :: a, y :: b => sum ← distance_step sum x y; distance_loop a b dim sum
    | _, _ => None
    end
  end.

Definition quantize_distance (a b : list Z) (dim : nat) : option Z := distance_loop a b dim 0.

Definition is_trained (q : t) : bool := trained_ q.

Definition dim (q : t) : nat := dim_ q.

Definition min_vals (q : t) : list float32 := min_ q.

Definition max_vals (q : t) : list float32 := max_ q.

(** ** One component *)

Lemma fsub_self x : finite x -> exists s, fsub x x = S754_zero s.
Proof.
  destruct x as [s|s| |s m e]; intros Hx; try done; unfold fsub, SFsub; [by destruct s; eexists|].
  rewrite Z.sub_diag. by eexists.
Qed.

(** A positive number divided by itself is one. *)
Lemma fdiv_self x : finite x -> fltb fzero x = true -> fdiv x x = fone.
Proof.
  destruct x as [s|s| |[] m e]; intros Hx H0; try done. unfold fdiv, SFdiv, SFdiv_core_binary.
  rewrite !Z.sub_diag. cbn [xorb]. change (fexp prec32 emax32 0) with (-24). change (Z.min (-24) 0) with (-24).
  change (0 - -24) with 24. cbn match. rewrite Z.shiftl_mul_pow2 by lia.
  pose proof (Z_div_mult_full (2 ^ 24) (Zpos m) ltac:(lia)) as Hd. pose proof (Z_mod_mult (2 ^ 24) (Zpos m)) as Hm.
  rewrite Z.mul_comm in Hd, Hm. unfold Z.div in Hd. unfold Z.modulo in Hm.
  destruct (Z.div_eucl (Zpos m * 2 ^ 24) (Zpos m)) as [q r]. subst q r.
  assert (new_location (Zpos m) 0 = loc_Exact) as -> by (unfold new_location, new_location_even, new_location_odd; by destruct (Z.even _)).
  vm_compute. reflexivity.
Qed.

Lemma quantize_one_range fused lo hi x :
  finite lo -> finite hi -> finite x -> finite (fsub hi lo) ->
  exists z, quantize_one fused lo hi x = Some z /\ -127 <= z <= 127.
Proof.
  intros Hlo Hhi Hx Hr. unfold quantize_one.
  set (normalized := if fgtb _ _ then _ else _).
  assert (number normalized) as Hn.
  { unfold normalized. destruct (fgtb (fsub hi lo) range_epsilon) eqn:E; [|done].
    apply fdiv_number; [by apply fsub_number|done|]. unfold fgtb in E.
    apply (swo_trans fzero range_epsilon (fsub hi lo)); [done|done|by apply number_not_nan, finite_number|done|done]. }
  assert (number (muladd fused normalized (f_of_Z 254) (f_of_Z (-127)))) as Hv
    by (apply muladd_number; [done|vm_compute; done..]).
  set (v := muladd _ _ _ _) in *. unfold clamp, int8_of. rewrite !f_of_Z_fint by done.
  destruct (fltb v (fint (-127))) eqn:E1; [by exists (-127)|].
  destruct (fltb (fint 127) v) eqn:E2; [by exists 127|].
  destruct (trunc_between v 127) as (z & -> & Hz); [done|done|done|done|].
  exists z. cbn [mbind option_bind]. rewrite bool_decide_eq_true_2 by lia. done.
Qed.

(** The ends of the range map to the smallest and the largest byte. *)
Lemma quantize_one_ends fused lo hi :
  finite lo -> finite hi -> finite (fsub hi lo) -> fgtb (fsub hi lo) range_epsilon = true ->
  quantize_one fused lo hi lo = Some (-127) /\ quantize_one fused lo hi hi = Some 127.
Proof.
  intros Hlo Hhi Hr E. unfold quantize_one. rewrite E.
  assert (fltb fzero (fsub hi lo) = true) as H0.
  { apply (swo_trans fzero range_epsilon (fsub hi lo)); [done|done|by apply number_not_nan, finite_number|done|done]. }
  split.
  - destruct (fsub_self lo Hlo) as [s ->].
    assert (exists s', fdiv (S754_zero s) (fsub hi lo) = S754_zero s') as [s' ->]
      by (destruct (fsub hi lo) as [|[]| |[]]; try done; by eexists).
    by destruct fused, s'.
  - rewrite (fdiv_self _ Hr H0). by destruct fused.
Qed.

(** ** What training learns *)

(** The running minimum or maximum of a sequence. *)
Section extremum.
Context (lt : float32 -> float32 -> bool) `{!StrictWeakOrder (fun x => is_nan x = false) lt}.

Definition pick (best x : float32) : float32 := if lt x best then x else best.

Lemma foldl_pick best xs :
  is_nan best = false -> Forall (fun x => is_nan x = false) xs ->
  let r := foldl pick best xs in
  r ∈ best :: xs /\ is_nan r = false /\ forall x, x ∈ best :: xs -> lt x r = false.
Proof.
  cbn zeta. intros Hb Hxs. revert best Hb. induction Hxs as [|x xs Hx Hxs IH]; intros best Hb; cbn [foldl].
  { split; [left|]. split; [done|]. intros y ->%list_elem_of_singleton. by apply swo_irrefl. }
  assert (is_nan (pick best x) = false) as Hp by (unfold pick; by destruct (lt x best)).
  destruct (IH _ Hp) as (Hin & Hr & Hmin). split; [|split; [done|]].
  - apply elem_of_cons in Hin as [->|Hin]; [|by do 2 right]. unfold pick. destruct (lt x best); [by right; left|by left].
  - set (r := foldl pick (pick best x) xs) in *. intros y Hy.
    assert (lt (pick best x) r = false) as Hpr by (apply Hmin; by left).
    assert (forall z, is_nan z = false -> lt z (pick best x) = false -> lt z r = false) as Hchain.
    { intros z Hz Hzp. apply not_true_iff_false. intros Hzr.
      destruct (swo_cotrans z (pick best x) r Hz Hp Hr Hzr); congruence. }
    apply elem_of_cons in Hy as [->|[->|Hy]%elem_of_cons]; [apply Hchain; [done|]..|by apply Hmin; right].
    + unfold pick. destruct (lt x best) eqn:E; [|by apply swo_irrefl]. apply not_true_iff_false. intros E'.
      pose proof (swo_trans x best x Hx Hb Hx E E'). by rewrite swo_irrefl in H.
    + unfold pick. destruct (lt x best) eqn:E; [by apply swo_irrefl|done].
Qed.

(** Started from a value that every element replaces. *)
Lemma foldl_pick_seed seed x xs :
  is_nan seed = false -> Forall (fun x => is_nan x = false) (x :: xs) -> lt x seed = true \/ x = seed ->
  let r := foldl pick seed (x :: xs) in r ∈ x :: xs /\ forall y, y ∈ x :: xs -> lt y r = false.
Proof.
  intros Hs [Hx Hxs]%Forall_cons Hseed. cbn [foldl].
  assert (pick seed x = x) as -> by (unfold pick; destruct Hseed as [->| ->]; [done|by destruct (lt seed seed)]).
  destruct (foldl_pick x xs Hx Hxs) as (Hin & _ & Hmin). done.
Qed.
End extremum.

Definition column (i : nat) (vecs : list (list float32)) : list float32 := omap (fun v => v !! i) vecs.

Lemma train_all_columns dim vecs r :
  Forall (fun v => dim <= length v)%nat vecs -> length r.1 = dim -> length r.2 = dim ->
  exists r', train_all dim vecs r = Some r' /\ length r'.1 = dim /\ length r'.2 = dim /\
    forall i, (i < dim)%nat ->
      r'.1 !! i = (fun lo => foldl (pick fltb) lo (column i vecs)) <$> r.1 !! i /\
      r'.2 !! i = (fun hi => foldl (pick fgtb) hi (column i vecs)) <$> r.2 !! i.
Proof.
  intros Hv. revert r. induction Hv as [|v vecs Hv _ IH]; intros r H1 H2; cbn [train_all].
  { exists r. split_and!; [done..|]. intros i Hi. cbn [column omap foldl].
    by destruct (lookup_lt_is_Some_2 r.1 i ltac:(lia)) as [? ->], (lookup_lt_is_Some_2 r.2 i ltac:(lia)) as [? ->]. }
  unfold train_one. rewrite bool_decide_eq_false_2 by lia. cbn [mbind option_bind].
  destruct (IH (zip_with lower (take dim v) r.1, zip_with upper (take dim v) r.2)) as (r' & -> & Hl1 & Hl2 & Hr);
    [cbn; rewrite length_zip_with, length_take; lia..|].
  exists r'. split_and!; [done..|]. intros i Hi. destruct (Hr i Hi) as [-> ->]. cbn [fst snd].
  rewrite !lookup_zip_with, lookup_take_lt by lia.
  destruct (lookup_lt_is_Some_2 v i ltac:(lia)) as [x Hx], (lookup_lt_is_Some_2 r.1 i ltac:(lia)) as [lo ->],
    (lookup_lt_is_Some_2 r.2 i ltac:(lia)) as [hi ->].
  unfold column. rewrite !Hx. cbn. by rewrite Hx.
Qed.

Lemma max_seed x : finite x -> fltb x FLT_MAX = true \/ x = FLT_MAX.
Proof.
  intros Hx. destruct (decide (x = FLT_MAX)); [by right|left]. apply fltb_key; [by apply number_not_nan, finite_number|done|].
  destruct x as [|[]| |[] m e]; try done; unfold key_lt; cbn; try lia. destruct Hx as [Hm He]. unfold bits24 in Hm.
  destruct (decide (e = 104)) as [->|]; [|lia]. destruct (decide (Zpos m = 16777215)) as [E|]; [|lia].
  injection E as ->. done.
Qed.

Lemma lowest_seed x : finite x -> fgtb x FLT_LOWEST = true \/ x = FLT_LOWEST.
Proof.
  intros Hx. destruct (decide (x = FLT_LOWEST)); [by right|left]. apply fltb_key; [done|by apply number_not_nan, finite_number|].
  destruct x as [|[]| |[] m e]; try done; unfold key_lt; cbn; try lia. destruct Hx as [Hm He]. unfold bits24 in Hm.
  destruct (decide (e = 104)) as [->|]; [|lia]. destruct (decide (Zpos m = 16777215)) as [E|]; [|lia].
  injection E as ->. done.
Qed.

#[local] Instance fgtb_swo : StrictWeakOrder (fun x => is_nan x = false) fgtb.
Proof. exact (swo_flip _ fltb). Qed.

(** A sample: vectors of one dimension with finite components. *)
Record sample (dim : nat) (vecs : list (list float32)) : Prop := {
  sm_some : vecs <> [];
  sm_dim : Forall (fun v => length v = dim) vecs;
  sm_finite : Forall (Forall finite) vecs;
}.

(** The range of dimension [i]: the least and the greatest of its values. *)
Definition range_of (i : nat) (vecs : list (list float32)) (lo hi : float32) : Prop :=
  lo ∈ column i vecs /\ hi ∈ column i vecs /\
  forall x, x ∈ column i vecs -> fltb x lo = false /\ fltb hi x = false.

Lemma column_finite i vecs : Forall (Forall finite) vecs -> Forall finite (column i vecs).
Proof.
  intros H. induction H as [|v vecs Hv _ IH]; [constructor|]. unfold column. cbn [omap list_omap].
  destruct (v !! i) as [x|] eqn:E; [|done]. constructor; [|done]. by apply (Forall_lookup_1 _ _ _ _ Hv E).
Qed.

Lemma train_spec dim vecs q :
  sample dim vecs ->
  exists q', train vecs q = Some q' /\ trained_ q' = true /\ dim_ q' = dim /\ length (min_ q') = dim /\ length (max_ q') = dim /\
    forall i, (i < dim)%nat -> exists lo hi, min_ q' !! i = Some lo /\ max_ q' !! i = Some hi /\ range_of i vecs lo hi.
Proof.
  intros [Hne Hdim Hfin]. destruct vecs as [|v vecs]; [done|]. unfold train.
  assert (length v = dim) as Hv by (by apply Forall_cons in Hdim as [? _]). rewrite Hv.
  destruct (train_all_columns dim (v :: vecs) (replicate dim FLT_MAX, replicate dim FLT_LOWEST)) as (r & -> & H1 & H2 & Hr).
  { apply (Forall_impl _ _ _ Hdim). intros u Hu. lia. }
  1,2: apply length_replicate.
  cbn [mbind option_bind]. eexists. split; [done|]. cbn [trained_ dim_ min_ max_]. split_and!; [done..|].
  intros i Hi. destruct (Hr i Hi) as [-> ->]. cbn [fst snd]. rewrite !lookup_replicate_2 by done. cbn [fmap option_fmap option_map].
  do 2 eexists. split; [done|]. split; [done|].
  pose proof (column_finite i (v :: vecs) Hfin) as Hcol.
  destruct (lookup_lt_is_Some_2 v i ltac:(lia)) as [x Hx].
  assert (column i (v :: vecs) = x :: column i vecs) as E by (unfold column; cbn; by rewrite Hx).
  rewrite E in Hcol |- *. pose proof (proj1 (Forall_cons_1 _ _ _ Hcol)) as Hxf.
  assert (Forall (fun y => is_nan y = false) (x :: column i vecs)) as Hnan.
  { apply (Forall_impl _ _ _ Hcol). intros y Hy. by apply number_not_nan, finite_number. }
  destruct (foldl_pick_seed fltb FLT_MAX x (column i vecs) eq_refl Hnan (max_seed x Hxf)) as [Hlo1 Hlo2].
  destruct (foldl_pick_seed fgtb FLT_LOWEST x (column i vecs) eq_refl Hnan (lowest_seed x Hxf)) as [Hhi1 Hhi2].
  unfold range_of. rewrite E. split; [done|]. split; [done|]. intros y Hy. split; [by apply Hlo2|exact (Hhi2 y Hy)].
Qed.

Lemma mapM_seq_spec {A} (f : nat -> option A) n (P : nat -> A -> Prop) :
  (forall i, (i < n)%nat -> exists y, f i = Some y /\ P i y) ->
  exists ys, mapM f (seq 0 n) = Some ys /\ length ys = n /\ forall i y, ys !! i = Some y -> P i y.
Proof.
  intros Hf. assert (exists ys, mapM f (seq 0 n) = Some ys) as [ys Hys].
  { apply mapM_is_Some_2. apply Forall_forall. intros i Hi%elem_of_seq. destruct (Hf i) as (y & E & _); [lia|by exists y]. }
  exists ys. split; [done|]. apply mapM_Some in Hys. pose proof (Forall2_length _ _ _ Hys) as Hl. rewrite length_seq in Hl.
  split; [done|]. intros i y Hy. pose proof (lookup_lt_Some _ _ _ Hy) as Hi.
  assert (seq 0 n !! i = Some i) as Hs by (apply lookup_seq; lia).
  pose proof (Forall2_lookup_lr _ _ _ _ _ _ Hys Hs Hy) as Hfi. cbn in Hfi. destruct (Hf i) as (y' & E & HP); [lia|]. congruence.
Qed.

(** C34: A trained quantizer maps every finite vector to bytes.  After training
    on vectors of one dimension whose components are finite and whose
    differences in each dimension do not overflow, [quantize] of a vector of
    that dimension succeeds without undefined behaviour, every byte is between
    -127 and 127 also for components outside the range of the sample, and in
    a dimension with a range the least value of the sample is mapped to -127
    and the greatest to 127. *)
Theorem quantize_trained (fused : bool) (dim : nat) (vecs : list (list float32)) (q : t) (x : list float32) :
  sample dim vecs -> (forall i a b, a ∈ column i vecs -> b ∈ column i vecs -> finite (fsub a b)) ->
  length x = dim -> Forall finite x ->
  exists q' out, train vecs q = Some q' /\ quantize fused x dim q' = Some (Ret out) /\ length out = dim /\
    Forall (fun z => -127 <= z <= 127) out /\
    forall i lo hi, min_ q' !! i = Some lo -> max_ q' !! i = Some hi ->
      range_of i vecs lo hi /\
      (fgtb (fsub hi lo) range_epsilon = true ->
       (x !! i = Some lo -> out !! i = Some (-127)) /\ (x !! i = Some hi -> out !! i = Some 127)).
Proof.
  intros Hsm Hdiff Hlen Hx. destruct (train_spec dim vecs q Hsm) as (q' & E & Ht & _ & Hl1 & Hl2 & Hr). exists q'.
  destruct (mapM_seq_spec (fun i => lo ← min_ q' !! i; hi ← max_ q' !! i; x ← x !! i; quantize_one fused lo hi x) dim
    (fun i z => -127 <= z <= 127 /\ exists lo hi y, min_ q' !! i = Some lo /\ max_ q' !! i = Some hi /\ x !! i = Some y /\
       range_of i vecs lo hi /\ quantize_one fused lo hi y = Some z)) as (out & Eout & Hlo & Hout).
  { intros i Hi. destruct (Hr i Hi) as (lo & hi & -> & -> & Hrange). destruct (lookup_lt_is_Some_2 x i ltac:(lia)) as [y Hy].
    rewrite Hy. cbn [mbind option_bind]. pose proof (column_finite i vecs (sm_finite _ _ Hsm)) as Hcol. rewrite Forall_forall in Hcol.
    destruct (quantize_one_range fused lo hi y) as (z & Ez & Hz); [by apply Hcol, Hrange|by apply Hcol, Hrange| | |].
    { by apply (Forall_lookup_1 _ _ _ _ Hx Hy). }
    { apply (Hdiff i); apply Hrange. }
    exists z. split; [done|]. split; [done|]. by exists lo, hi, y. }
  exists out. split; [done|]. unfold quantize. rewrite Ht. cbn [negb]. rewrite Eout. cbn [mbind option_bind].
  split; [done|]. split; [done|]. split.
  { apply Forall_lookup. intros i z Hz. by destruct (Hout i z Hz) as [? _]. }
  intros i lo hi Hmin Hmax. pose proof (lookup_lt_Some _ _ _ Hmin) as Hi. rewrite Hl1 in Hi.
  destruct (lookup_lt_is_Some_2 out i ltac:(lia)) as [z Hz]. rewrite Hz.
  destruct (Hout i z Hz) as (_ & lo' & hi' & y & H1 & H2 & Hy & Hrange & Hq).
  rewrite Hmin in H1. rewrite Hmax in H2. injection H1 as <-. injection H2 as <-.
  split; [done|]. intros Heps. rewrite Hy. pose proof (column_finite i vecs (sm_finite _ _ Hsm)) as Hcol. rewrite Forall_forall in Hcol.
  destruct (quantize_one_ends fused lo hi) as [E1 E2]; [by apply Hcol, Hrange|by apply Hcol, Hrange|by apply (Hdiff i); apply Hrange|done|].
  split; intros [= ->]; congruence.
Qed.

(** ** Integer distances *)

Definition int8 (z : Z) : Prop := -128 <= z <= 127.

Lemma distance_loop_exact a b n sum :
  (n <= length a)%nat -> (n <= length b)%nat -> Forall int8 a -> Forall int8 b ->
  0 <= sum -> sum + 65025 * Z.of_nat n <= 2147483647 ->
  distance_loop a b n sum = Some (sum + zsum2 sqdiff (take n a) (take n b)).
Proof.
  revert a b sum. induction n as [|n IH]; intros [|x a] [|y b] sum Ha Hb Fa Fb Hs Hle; cbn [length] in *; try lia;
    cbn [distance_loop take zsum2]; try (f_equal; lia).
  apply Forall_cons in Fa as [Hx Fa]. apply Forall_cons in Fb as [Hy Fb]. unfold int8 in Hx, Hy.
  assert (0 <= sqdiff x y <= 65025) as Hsq.
  { unfold sqdiff. pose proof (Z.square_nonneg (x - y)). pose proof (Z.mul_nonneg_nonneg (255 - (x - y)) (255 + (x - y))). lia. }
  unfold distance_step, int32_of. rewrite bool_decide_eq_true_2 by lia. cbn [mbind option_bind].
  change ((x - y) * (x - y)) with (sqdiff x y). rewrite bool_decide_eq_true_2 by lia. cbn [mbind option_bind].
  rewrite bool_decide_eq_true_2 by lia. cbn [mbind option_bind]. rewrite IH by (done || lia). f_equal. lia.
Qed.

(** The integer distance is exact up to 33025 dimensions.  For vectors of
    that many bytes or fewer no intermediate result of [quantize_distance]
    leaves the range of [int32_t], and the result is the sum of the squared
    differences; with one more dimension the sum of the largest differences
    overflows, which is undefined. *)
Theorem quantize_distance_exact (a b : list Z) (dim : nat) :
  length a = dim -> length b = dim -> Forall int8 a -> Forall int8 b -> Z.of_nat dim <= 33025 ->
  quantize_distance a b dim = Some (zsum2 sqdiff a b) /\
  quantize_distance (replicate 33026 (-128)) (replicate 33026 127) 33026 = None.
Proof.
  intros Ha Hb Fa Fb Hd. split; [|vm_compute; reflexivity].
  unfold quantize_distance. rewrite distance_loop_exact by (done || lia). rewrite !take_ge by lia. done.
Qed.

(** ** Examples *)

(** Two vectors of dimension 2, and one outside their range. *)
Lemma quantize_trained_witness :
  exists q out, train [[fone; fzero]; [f_of_Z 3; fzero]] create = Some q /\
    quantize true [f_of_Z 7; f_of_Z 9] 2 q = Some (Ret out) /\ Forall (fun z => -127 <= z <= 127) out.
Proof.
  destruct (quantize_trained true 2 [[fone; fzero]; [f_of_Z 3; fzero]] create [f_of_Z 7; f_of_Z 9])
    as (q & out & Ht & Hq & _ & Hr & _).
  - split; [discriminate|by repeat constructor|by repeat constructor].
  - intros [|[|i]] a b Ha Hb; cbn in Ha, Hb;
      repeat (apply elem_of_cons in Ha as [->|Ha]); try (by apply not_elem_of_nil in Ha);
      repeat (apply elem_of_cons in Hb as [->|Hb]); try (by apply not_elem_of_nil in Hb); vm_compute; repeat split; discriminate.
  - reflexivity.
  - by repeat constructor.
  - exists q, out. split; [exact Ht|]. split; [exact Hq|exact Hr].
Defined.

Lemma quantize_distance_exact_witness : quantize_distance [-127; 5] [127; 5] 2 = Some 64516.
Proof.
  destruct (quantize_distance_exact [-127; 5] [127; 5] 2) as [E _].
  - reflexivity.
  - reflexivity.
  - repeat constructor; unfold int8; lia.
  - repeat constructor; unfold int8; lia.
  - lia.
  - exact E.
Defined.

End ScalarQuantizer.
