(* ===== verification/Hnsw.v ===== *)
(** * The HNSW index ([src/include/index/hnsw.hpp], [src/include/index/graph_node.hpp])

    The index lives in a memory-mapped file: a header and one fixed-size node
    per id.  [image] is that file as the index reads it; a slot that was never
    written reads as zero bytes.  [None] is an access outside the file or
    outside an array, which the source does not check.  Calls run one at a
    time: the locks order concurrent insertions, and are kept only as the
    length of [node_locks_], which decides whether [add_link] does anything. *)

From S2P Require Import Prelude Storage MemoryMap MetadataStore Float32 PriorityQueue IndexTypes FloatExact Distance.

(** ** The file *)

Definition MAX_LAYERS : nat := 4.

Record Node := MkNode {
  n_id : N;
  n_max_layer : Z;
  n_deleted : bool;
  n_vector : list float32;
  n_neighbors : list (list N);
  n_counts : list Z;
}.

(** The constructor copies at most [VECTOR_DIM] components; [garbage] is what
    the memory of the array held before. *)
Definition new_node (garbage : list float32) (external_id : N) (level : Z) (vec_data : list float32) : Node :=
  let v := take VECTOR_DIM vec_data in
  MkNode external_id level false (resize VECTOR_DIM fzero (v ++ drop (length v) garbage))
    (replicate MAX_LAYERS (replicate (Z.to_nat M_MAX0) (U32 - 1))) (replicate MAX_LAYERS 0%Z).

(** A slot of zero bytes. *)
Definition zero_node : Node :=
  MkNode 0 0 false (replicate VECTOR_DIM fzero) (replicate MAX_LAYERS (replicate (Z.to_nat M_MAX0) 0))
    (replicate MAX_LAYERS 0%Z).

Record FileHeader := MkHeader {
  magic : N;
  h_element_count : N;
  h_entry_point_id : Z;
  h_max_layer : Z;
}.

Definition NANODB_MAGIC : N := 1313096192.

Definition HEADER_SIZE : N := 64.

(** [sizeof(Node)]: 12 + 4 * 128 + 4 * 4 * 32 + 4 * 4, rounded up to 32. *)
Definition SIZEOF_NODE : N := 1056.

Record image := MkImage {
  i_size : N;
  i_header : FileHeader;
  i_nodes : gmap N Node;
}.

#[export] Instance image_contents : Contents image := {|
  c_size := i_size;
  c_empty := MkImage 0 (MkHeader 0 0 0 0) ∅;
  c_extend n i := MkImage n (i_header i) (i_nodes i);
|}.

#[export] Instance image_contents_laws : ContentsLaws image.
Proof. by split. Qed.

(** [offset + sizeof(Node)] of a slot. *)
Definition slot_end (id : N) : N := HEADER_SIZE + id * SIZEOF_NODE + SIZEOF_NODE.

Definition get_node (id : N) (i : image) : option Node :=
  if slot_end id <=?? i_size i then Some (default zero_node (i_nodes i !! id)) else None.

Definition put_node (id : N) (n : Node) (i : image) : option image :=
  if slot_end id <=?? i_size i then Some (MkImage (i_size i) (i_header i) (<[id := n]> (i_nodes i))) else None.

(** [neighbors[layer][0 .. neighbor_counts[layer]]] *)
Definition links (n : Node) (layer : nat) : option (list N) :=
  count ← n_counts n !! layer;
  row ← n_neighbors n !! layer;
  if bool_decide (count <= Z.of_nat (length row))%Z then Some (take (Z.to_nat count) row) else None.

Section hnsw.
Variable fused : bool.

(** ** Searching one layer *)

Section search.
Context (metric : DistanceMetric) (img : image).

Definition distance_to (query : list float32) (id : N) : option float32 :=
  n ← get_node id img; Some (compute_distance fused query (n_vector n) VECTOR_DIM metric).

Record frontier := MkFrontier {
  f_visited : gset N;
  f_candidates : list Result;  (* min-heap *)
  f_found : list Result;       (* max-heap *)
}.

(** One neighbour of the node that is being expanded. *)
Definition visit (query : list float32) (ef : Z) (visited_size neighbor_id : N) (st : frontier) : option frontier :=
  if (visited_size <=?? neighbor_id) || bool_decide (neighbor_id ∈ f_visited st) then Some st
  else
    let visited := {[neighbor_id]} ∪ f_visited st in
    n ← get_node neighbor_id img;
    let dist := compute_distance fused query (n_vector n) VECTOR_DIM metric in
    let found := f_found st in
    closer ← (if bool_decide (Z.of_nat (length found) < ef)%Z then Some true
              else t ← top found; Some (fltb dist (r_distance t)));
    if (closer : bool) then
      let candidates := push result_gt (MkResult neighbor_id dist "") (f_candidates st) in
      let found :=
        if n_deleted n then found
        else
          let found := push result_lt (MkResult neighbor_id dist "") found in
          if bool_decide (ef < Z.of_nat (length found))%Z then pop result_lt found else found in
      Some (MkFrontier visited candidates found)
    else Some (MkFrontier visited (f_candidates st) found).

Fixpoint visit_all (query : list float32) (ef : Z) (visited_size : N) (ids : list N) (st : frontier) : option frontier :=
  match ids with
  | [] => Some st
  | id :: ids => st ← visit query ef visited_size id st; visit_all query ef visited_size ids st
  end.

(** [!found_results.empty() && curr.distance > found_results.top().distance &&
    found_results.size() >= (size_t)ef] *)
Definition stop_here (ef : Z) (curr : Result) (found : list Result) : bool :=
  match top found with
  | None => false
  | Some t => fgtb (r_distance curr) (r_distance t) && bool_decide (ef <= Z.of_nat (length found))%Z
  end.

(** The loop over candidates.  Every candidate is a visited id, and an id is
    visited once: the number of ids is enough fuel. *)
Fixpoint search_loop (fuel : nat) (query : list float32) (ef : Z) (layer : nat) (visited_size : N) (st : frontier)
    : option (list Result) :=
  match top (f_candidates st) with
  | None => Some (f_found st)
  | Some curr =>
    match fuel with
    | O => None
    | S fuel' =>
      let st := MkFrontier (f_visited st) (pop result_gt (f_candidates st)) (f_found st) in
      if stop_here ef curr (f_found st) then Some (f_found st)
      else
        n ← get_node (r_id curr) img;
        ids ← links n layer;
        st ← visit_all query ef visited_size ids st;
        search_loop fuel' query ef layer visited_size st
    end
  end.

Definition search_layer (element_count entry_point : N) (query : list float32) (ef : Z) (layer : nat)
    : option (list Result) :=
  let visited_size := N.max entry_point element_count +u 2000 in
  n ← get_node entry_point img;
  let d := compute_distance fused query (n_vector n) VECTOR_DIM metric in
  let start := MkResult entry_point d "" in
  let found := if n_deleted n then [] else push result_lt start [] in
  let visited := if entry_point <?? visited_size then {[entry_point]} else ∅ in
  search_loop (S (S (N.to_nat visited_size))) query ef layer visited_size
    (MkFrontier visited (push result_gt start []) found).

(** ** Greedy descent *)

(** The [for] loop over the neighbours of one node. *)
Fixpoint greedy_scan (query : list float32) (ids : list N) (dist : float32) (curr : N) (changed : bool)
    : option (float32 * N * bool) :=
  match ids with
  | [] => Some (dist, curr, changed)
  | n_id :: ids =>
    d ← distance_to query n_id;
    if fltb d dist then greedy_scan query ids d n_id true else greedy_scan query ids dist curr changed
  end.

(** [while (changed)].  Every round but the last ends on a node that is
    closer than all nodes before: the number of slots is enough fuel. *)
Fixpoint greedy_layer (fuel : nat) (query : list float32) (layer : nat) (dist : float32) (curr : N)
    : option (float32 * N) :=
  match fuel with
  | O => None
  | S fuel' =>
    n ← get_node curr img;
    ids ← links n layer;
    '(dist, curr, changed) ← greedy_scan query ids dist curr false;
    if (changed : bool) then greedy_layer fuel' query layer dist curr else Some (dist, curr)
  end.

(** The slots of the file. *)
Definition slots (i : image) : N := (i_size i - HEADER_SIZE) / SIZEOF_NODE.

(** [for (int l = hi; l > lo; l--)], the layers in the order of the loop. *)
Definition layers_down (hi lo : Z) : list Z := (fun k => (hi - Z.of_nat k)%Z) <$> seq 0 (Z.to_nat (hi - lo)).

Definition layer_index (l : Z) : option nat := if bool_decide (0 <= l)%Z then Some (Z.to_nat l) else None.

Fixpoint descend (query : list float32) (layers : list Z) (dist : float32) (curr : N) : option (float32 * N) :=
  match layers with
  | [] => Some (dist, curr)
  | l :: layers =>
    layer ← layer_index l;
    '(dist, curr) ← greedy_layer (S (S (N.to_nat (slots img)))) query layer dist curr;
    descend query layers dist curr
  end.

End search.

(** ** Links *)

(** The farthest of the neighbours: [max_d] and [max_idx]. *)
Fixpoint farthest (metric : DistanceMetric) (img : image) (vec : list float32) (ids : list N) (i : nat)
    (max_d : float32) (max_idx : Z) : option (float32 * Z) :=
  match ids with
  | [] => Some (max_d, max_idx)
  | n_id :: ids =>
    d ← distance_to metric img vec n_id;
    if fgtb d max_d then farthest metric img vec ids (S i) d (Z.of_nat i)
    else farthest metric img vec ids (S i) max_d max_idx
  end.

(** [neighbors[layer][pos] = dest], with the new count. *)
Definition set_neighbor (n : Node) (layer pos : nat) (dest : N) (count : Z) : option Node :=
  row ← n_neighbors n !! layer;
  if bool_decide (pos < length row)%nat
  then Some (MkNode (n_id n) (n_max_layer n) (n_deleted n) (n_vector n)
               (<[layer := <[pos := dest]> row]> (n_neighbors n)) (<[layer := count]> (n_counts n)))
  else None.

Definition max_conn (layer : nat) : Z := if bool_decide (layer = 0%nat) then M_MAX0 else M.

Definition add_link (metric : DistanceMetric) (locks src dest : N) (layer : nat) (img : image) : option image :=
  if locks <=?? src then Some img
  else
    n ← get_node src img;
    count ← n_counts n !! layer;
    if bool_decide (count < max_conn layer)%Z then
      pos ← layer_index count;
      n ← set_neighbor n layer pos dest (count + 1);
      put_node src n img
    else
      dest_dist ← distance_to metric img (n_vector n) dest;
      ids ← links n layer;
      '(max_d, max_idx) ← farthest metric img (n_vector n) ids 0 fminus_one (-1)%Z;
      if fltb dest_dist max_d && negb (bool_decide (max_idx = -1)%Z) then
        n ← set_neighbor n layer (Z.to_nat max_idx) dest count;
        put_node src n img
      else Some img.

(** The links between a new node and the neighbours selected for it. *)
Fixpoint link_all (metric : DistanceMetric) (locks id : N) (layer : nat) (selected : list N) (img : image) : option image :=
  match selected with
  | [] => Some img
  | n_id :: selected =>
    img ← add_link metric locks id n_id layer img;
    img ← add_link metric locks n_id id layer img;
    link_all metric locks id layer selected img
  end.

(** The selection of neighbours: the queue is popped [M] times. *)
Definition select_neighbors (candidates : list Result) : list N := r_id <$> pops result_lt (Z.to_nat M) candidates.

(** [for (int l = std::min(level, current_max_layer_); l >= 0; l--)] *)
Fixpoint connect (metric : DistanceMetric) (locks element_count id : N) (query : list float32) (layers : list Z)
    (curr : N) (img : image) : option image :=
  match layers with
  | [] => Some img
  | l :: layers =>
    layer ← layer_index l;
    candidates ← search_layer metric img element_count curr query EF_CONSTRUCTION layer;
    let selected := select_neighbors candidates in
    img ← link_all metric locks id layer selected img;
    connect metric locks element_count id query layers (default curr (head selected)) img
  end.

(** ** The index *)

Record t := Mk {
  storage_ : MMapHandler.t;
  disk_ : gmap string image;
  metadata_storage_ : MetadataHandler.t;
  metric_ : DistanceMetric;
  entry_point_id_ : N;
  current_max_layer_ : Z;
  element_count_ : N;
  node_locks_ : N;
}.

(** [(id_t)-1] *)
Definition NO_ENTRY : N := U32 - 1.

Definition data (s : t) : option image := MMapHandler.get_data (storage_ s) (disk_ s).

Definition with_data (img : image) (s : t) : t :=
  Mk (storage_ s) (<[MMapHandler.file_path_ (storage_ s) := img]> (disk_ s)) (metadata_storage_ s) (metric_ s)
     (entry_point_id_ s) (current_max_layer_ s) (element_count_ s) (node_locks_ s).

Definition with_counters (entry : N) (layer : Z) (count : N) (s : t) : t :=
  Mk (storage_ s) (disk_ s) (metadata_storage_ s) (metric_ s) entry layer count (node_locks_ s).

Definition with_metadata (m : MetadataHandler.t) (s : t) : t :=
  Mk (storage_ s) (disk_ s) m (metric_ s) (entry_point_id_ s) (current_max_layer_ s) (element_count_ s) (node_locks_ s).

(** The counters, written to the header. *)
Definition header_of (s : t) (h : FileHeader) : FileHeader :=
  MkHeader (magic h) (u32 (element_count_ s)) (u32_to_i32 (entry_point_id_ s)) (current_max_layer_ s).

Definition persist_header (s : t) : option t :=
  img ← data s;
  if HEADER_SIZE <=?? i_size img
  then Some (with_data (MkImage (i_size img) (header_of s (i_header img)) (i_nodes img)) s) else None.

(** The constructor. *)
Definition create (storage : MMapHandler.t) (disk : gmap string image) (meta_file : option bytes)
    (metric : DistanceMetric) : option t :=
  img ← MMapHandler.get_data storage disk;
  if HEADER_SIZE <=?? i_size img then
    let h := i_header img in
    let meta := MetadataHandler.open_file meta_file in
    if magic h =?? NANODB_MAGIC
    then Some (Mk storage disk meta metric (i32_to_u32 (h_entry_point_id h)) (h_max_layer h) (h_element_count h)
                  (h_element_count h + 10000))
    else Some (with_data (MkImage (i_size img) (MkHeader NANODB_MAGIC 0 (-1) (-1)) (i_nodes img))
                 (Mk storage disk meta metric NO_ENTRY (-1) 0 10000))
  else None.

(** What one insertion draws from its environment: the outcomes of
    [dist(rng_) < 0.03], the old contents of the stack, and the outcome of the
    system calls of [resize]. *)
Record draws := MkDraws {
  d_up : nat -> bool;
  d_garbage : list float32;
  d_sys : MMapHandler.syscalls;
}.

(** [while (r < 0.03 && level < config::M)], from the draw number [n] on. *)
Fixpoint levels_from (up : nat -> bool) (fuel n : nat) : nat :=
  match fuel with
  | O => O
  | S fuel' => if up n then S (levels_from up fuel' (S n)) else O
  end.

Definition get_random_level (d : draws) : Z := Z.of_nat (levels_from (d_up d) (Z.to_nat M) 0).

Definition RESIZE_STEP : N := 10485760.

(** Makes room for [id]: one step of 10 MB, and locks for it if it then has
    none. *)
Definition expand (sc : MMapHandler.syscalls) (id : N) (s : t) : outcome unit * t :=
  let size := MMapHandler.get_size (storage_ s) in
  if size <?? slot_end id then
    let '(r, h, disk) := MMapHandler.resize sc (size +u RESIZE_STEP) (storage_ s) (disk_ s) in
    let locks := match r with
                 | Ret _ => if node_locks_ s <=?? id then N.max (node_locks_ s) (u32 (id + 10000)) else node_locks_ s
                 | Throw _ => node_locks_ s
                 end in
    (r, Mk h disk (metadata_storage_ s) (metric_ s) (entry_point_id_ s) (current_max_layer_ s) (element_count_ s) locks)
  else (Ret tt, s).

Definition save_metadata (id : N) (metadata : string) (s : t) : option t :=
  if metadata =?? "" then Some s
  else m ← MetadataHandler.save_metadata (u32_to_i32 id) metadata (metadata_storage_ s); Some (with_metadata m s).

(** Counts the new element, writes the header and the metadata. *)
Definition finish_insert (id : N) (metadata : string) (s : t) : option t :=
  s ← persist_header (with_counters (entry_point_id_ s) (current_max_layer_ s) (element_count_ s +u 1) s);
  save_metadata id metadata s.

(** The insertion of a node that is not the first: descent, links, and a new
    entry point when the level is a new maximum. *)
Definition insert_linked (id : N) (level : Z) (query : list float32) (metadata : string) (s : t) : option t :=
  img ← data s;
  dist ← distance_to (metric_ s) img query (entry_point_id_ s);
  '(dist, curr) ← descend (metric_ s) img query (layers_down (current_max_layer_ s) level) dist (entry_point_id_ s);
  img ← connect (metric_ s) (node_locks_ s) (element_count_ s) id query
          (layers_down (Z.min level (current_max_layer_ s)) (-1)) curr img;
  let s := with_data img s in
  let s := if bool_decide (current_max_layer_ s < level)%Z then with_counters id level (element_count_ s) s else s in
  finish_insert id metadata s.

(** [None] is undefined behaviour; an exception leaves the state it had. *)
Definition insert (d : draws) (vec_data : list float32) (id : N) (metadata : string) (s : t) : option (outcome unit * t) :=
  let level := get_random_level d in
  let node := new_node (d_garbage d) id level vec_data in
  match expand (d_sys d) id s with
  | (Throw w, s) => Some (Throw w, s)
  | (Ret _, s) =>
    img ← data s;
    img ← put_node id node img;
    let s := with_data img s in
    s ← (if entry_point_id_ s =?? NO_ENTRY
         then finish_insert id metadata (with_counters id level (element_count_ s) s)
         else insert_linked id level (n_vector node) metadata s);
    Some (Ret tt, s)
  end.

(** The live ones of the results, nearest first, with their metadata. *)
Fixpoint collect (img : image) (m : MetadataHandler.t) (rs : list Result) : option (list Result) :=
  match rs with
  | [] => Some []
  | r :: rs =>
    n ← get_node (r_id r) img;
    rest ← collect img m rs;
    Some (if n_deleted n then rest
          else MkResult (r_id r) (r_distance r) (MetadataHandler.get_metadata (u32_to_i32 (r_id r)) m) :: rest)
  end.

(** [(size_t)k] of an [int]. *)
Definition size_t_of_int (k : Z) : N := Z.to_N (k mod Z.of_N U64).

Definition search (query : list float32) (k : Z) (s : t) : option (list Result) :=
  if entry_point_id_ s =?? NO_ENTRY then Some []
  else if bool_decide (length query < VECTOR_DIM)%nat then None
  else
    img ← data s;
    dist ← distance_to (metric_ s) img query (entry_point_id_ s);
    '(dist, curr) ← descend (metric_ s) img query (layers_down (current_max_layer_ s) 0) dist (entry_point_id_ s);
    found ← search_layer (metric_ s) img (element_count_ s) curr query (Z.max 100 k) 0;
    results ← collect img (metadata_storage_ s) (drain result_lt found);
    Some (take (N.to_nat (N.min (size_t_of_int k) (N.of_nat (length results)))) (reverse results)).

(** The test [offset + sizeof(Node) > storage_.get_size()] of the accessors. *)
Definition out_of_range (id : N) (s : t) : bool := MMapHandler.get_size (storage_ s) <?? slot_end id.

Definition mark_deleted (n : Node) : Node :=
  MkNode (n_id n) (n_max_layer n) true (n_vector n) (n_neighbors n) (n_counts n).

Definition delete_vector (id : N) (s : t) : option t :=
  if out_of_range id s then Some s
  else
    img ← data s;
    n ← get_node id img;
    if n_deleted n then Some s
    else
      img ← put_node id (mark_deleted n) img;
      let s := with_data img s in
      persist_header (with_counters (entry_point_id_ s) (current_max_layer_ s) (element_count_ s -u 1) s).

Definition get_metadata (id : N) (s : t) : string :=
  MetadataHandler.get_metadata (u32_to_i32 id) (metadata_storage_ s).

Definition is_deleted (id : N) (s : t) : option bool :=
  if out_of_range id s then Some false
  else img ← data s; n ← get_node id img; Some (n_deleted n).

Definition get_vector_data (id : N) (s : t) : option (list float32) :=
  if out_of_range id s then Some []
  else img ← data s; n ← get_node id img; Some (if n_deleted n then [] else n_vector n).

Definition size (s : t) : N := element_count_ s.

Definition metric (s : t) : DistanceMetric := metric_ s.

End hnsw.
