(* ===== verification/SpinLock.v ===== *)
(** * The spin lock ([src/include/concurrency/spinlock.hpp])

    Threads that change shared memory under one [SpinLock], with every access
    a step of its own: [test_and_set], the load of the memory, the store of
    the changed memory and [clear].  [add_link] of [src/include/index/hnsw.hpp]
    is such a critical section on the node that it links from. *)

From stdpp Require Import relations.
From S2P Require Import Prelude Storage MemoryMap MetadataStore Float32 PriorityQueue IndexTypes FloatExact Distance Hnsw.

Section spinlock.
Context {S : Type} (f : nat -> S -> S).

(** Where a thread is.  [Spinning] is inside [lock]. *)
Inductive phase :=
| Spinning
| Entered
| Loaded (copy : S)
| Stored
| Released.

Record config := MkConfig {
  flag : bool;
  memory : S;
  threads : list phase;
}.

(** [n] threads that call [lock]. *)
Definition initial (s : S) (n : nat) : config := MkConfig false s (replicate n Spinning).

Inductive step : config -> config -> Prop :=
| step_test_and_set b s ts i :
    ts !! i = Some Spinning ->
    step (MkConfig b s ts) (MkConfig true s (if b then ts else <[i := Entered]> ts))
| step_load b s ts i :
    ts !! i = Some Entered -> step (MkConfig b s ts) (MkConfig b s (<[i := Loaded s]> ts))
| step_store b s ts i v :
    ts !! i = Some (Loaded v) -> step (MkConfig b s ts) (MkConfig b (f i v) (<[i := Stored]> ts))
| step_clear b s ts i :
    ts !! i = Some Stored -> step (MkConfig b s ts) (MkConfig false s (<[i := Released]> ts)).

(** Between [lock] and [unlock]. *)
Definition holds (p : phase) : bool := match p with Entered | Loaded _ | Stored => true | _ => false end.

(** Past the store. *)
Definition changed (p : phase) : bool := match p with Stored | Released => true | _ => false end.

(** ** Invariant *)

(** [order] lists the threads whose changes the memory has, oldest first. *)
Record lock_inv (s0 : S) (n : nat) (c : config) (order : list nat) : Prop := {
  li_threads : length (threads c) = n;
  li_exclusive i j p q : threads c !! i = Some p -> threads c !! j = Some q -> holds p = true -> holds q = true -> i = j;
  li_flag i p : threads c !! i = Some p -> holds p = true -> flag c = true;
  li_owner : flag c = true -> exists i p, threads c !! i = Some p /\ holds p = true;
  li_copy i v : threads c !! i = Some (Loaded v) -> v = memory c;
  li_nodup : NoDup order;
  li_order i : i ∈ order <-> exists p, threads c !! i = Some p /\ changed p = true;
  li_memory : memory c = foldl (fun s i => f i s) s0 order;
}.

Lemma lock_inv_initial s n : lock_inv s n (initial s n) [].
Proof.
  assert (forall i p, threads (initial s n) !! i = Some p -> p = Spinning) as H.
  { intros i p Hp. cbn in Hp. by apply lookup_replicate in Hp as [-> _]. }
  split; cbn [initial flag memory].
  - apply length_replicate.
  - intros i j p q ->%H. done.
  - intros i p ->%H. done.
  - done.
  - intros i v Hi%H. done.
  - constructor.
  - intros i. split; [by intros ?%not_elem_of_nil|]. intros (p & ->%H & ?). done.
  - done.
Qed.

(** A thread after thread [i] has moved from [p] to [p']. *)
Lemma thread_after (ts : list phase) i j p p' q :
  ts !! i = Some p -> <[i := p']> ts !! j = Some q <-> (j = i /\ q = p') \/ (j <> i /\ ts !! j = Some q).
Proof.
  intros Hi. rewrite list_lookup_insert_Some. pose proof (lookup_lt_Some _ _ _ Hi).
  split; [intros [(-> & -> & _)|(? & ?)]; auto|]. intros [(-> & ->)|(? & ?)]; auto.
Qed.

Lemma holder_unique s0 n c order i j p q :
  lock_inv s0 n c order -> threads c !! i = Some p -> holds p = true -> threads c !! j = Some q -> j <> i -> holds q = false.
Proof.
  intros H Hi Hp Hj Hne. apply not_true_iff_false. intros Hq. by apply Hne, (li_exclusive _ _ _ _ H j i q p).
Qed.

(** The step of the thread that has the lock, without releasing it. *)
Lemma lock_inv_holder s0 n b s ts order i p p' s' order' :
  lock_inv s0 n (MkConfig b s ts) order -> ts !! i = Some p -> holds p = true -> holds p' = true ->
  (forall v, p' = Loaded v -> v = s') -> NoDup order' ->
  (forall j, j ∈ order' <-> j ∈ order \/ (j = i /\ changed p' = true)) -> (changed p = true -> changed p' = true) ->
  s' = foldl (fun s i => f i s) s0 order' -> lock_inv s0 n (MkConfig b s' (<[i := p']> ts)) order'.
Proof.
  intros Hinv Hi Hp Hp' Hcopy Hnd Hord Hch Hmem.
  assert (forall j q, j <> i -> ts !! j = Some q -> holds q = false) as Hother
    by (intros j q Hne Hj; exact (holder_unique _ _ _ _ i j p q Hinv Hi Hp Hj Hne)).
  split; cbn [flag memory threads]; try done.
  - rewrite length_insert. apply Hinv.
  - intros j k q r [[-> ->]|[Hj Hjq]]%(thread_after ts i _ p p' _ Hi) [[-> ->]|[Hk Hkr]]%(thread_after ts i _ p p' _ Hi) Hq Hr;
      [done|by rewrite (Hother k r)in Hr|by rewrite (Hother j q) in Hq|by rewrite (Hother j q) in Hq].
  - intros j q _ _. by apply (li_flag _ _ _ _ Hinv i p).
  - intros _. exists i, p'. split; [|done]. apply (thread_after ts i i p p' p' Hi). by left.
  - intros j v [[-> E]|[Hj Hjq]]%(thread_after ts i _ p p' _ Hi); [by apply Hcopy|]. by specialize (Hother _ _ Hj Hjq).
  - intros j. rewrite Hord, (li_order _ _ _ _ Hinv). cbn [threads]. setoid_rewrite (thread_after ts i j p p' _ Hi). split.
    + intros [(q & Hq & Hc)|[-> Hc]]; [|by exists p'; auto].
      destruct (decide (j = i)) as [->|Hne]; [|by exists q; auto]. rewrite Hi in Hq. injection Hq as <-. by exists p'; auto.
    + intros (q & [[-> ->]|[Hne Hq]] & Hc); [by right|left; by exists q].
Qed.

Lemma lock_inv_step s0 n c c' order :
  lock_inv s0 n c order -> step c c' -> exists order', lock_inv s0 n c' order'.
Proof.
  intros Hinv Hstep. destruct Hstep as [b s ts i Hi|b s ts i Hi|b s ts i v Hi|b s ts i Hi].
  - destruct b; [by exists order|]. exists order.
    assert (forall j q, ts !! j = Some q -> holds q = false) as Hfree.
    { intros j q Hj. apply not_true_iff_false. intros Hq. by pose proof (li_flag _ _ _ _ Hinv j q Hj Hq). }
    split; cbn [flag memory threads]; try apply Hinv.
    + rewrite length_insert. apply Hinv.
    + intros j k q r [[-> ->]|[Hj Hjq]]%(thread_after ts i _ _ _ _ Hi) [[-> ->]|[Hk Hkr]]%(thread_after ts i _ _ _ _ Hi) Hq Hr;
        [done|by rewrite (Hfree k r) in Hr|by rewrite (Hfree j q) in Hq|by rewrite (Hfree j q) in Hq].
    + done.
    + intros _. exists i, Entered. split; [|done]. apply (thread_after ts i i _ _ _ Hi). by left.
    + intros j v [[-> E]|[Hj Hjq]]%(thread_after ts i _ _ _ _ Hi); [done|]. by specialize (Hfree _ _ Hjq).
    + intros j. rewrite (li_order _ _ _ _ Hinv). cbn [threads]. setoid_rewrite (thread_after ts i j _ _ _ Hi). split.
      * intros (q & Hq & Hc). exists q. split; [|done]. right. split; [|done]. intros ->. rewrite Hi in Hq. by injection Hq as <-.
      * intros (q & [[-> ->]|[Hne Hq]] & Hc); [done|by exists q].
  - exists order. apply (lock_inv_holder s0 n b s ts order i Entered); try done; [congruence|apply Hinv| |apply Hinv].
    intros j. split; [by left|]. by intros [?|[_ ?]].
  - pose proof (li_copy _ _ _ _ Hinv i v Hi) as ->. cbn [memory] in *.
    assert (i ∉ order) as Hni by (intros (p & Hp & Hc)%(li_order _ _ _ _ Hinv); cbn in Hp; rewrite Hi in Hp; by injection Hp as <-).
    exists (order ++ [i]). apply (lock_inv_holder s0 n b s ts order i (Loaded s)); try done.
    + apply NoDup_app. split; [apply Hinv|]. split; [|apply NoDup_singleton]. intros j Hj ->%list_elem_of_singleton. done.
    + intros j. rewrite elem_of_app, list_elem_of_singleton. naive_solver.
    + rewrite foldl_snoc. f_equal. apply Hinv.
  - exists order.
    assert (forall j q, j <> i -> ts !! j = Some q -> holds q = false) as Hother
      by (intros j q Hne Hj; exact (holder_unique _ _ _ _ i j Stored q Hinv Hi eq_refl Hj Hne)).
    split; cbn [flag memory threads]; try apply Hinv.
    + rewrite length_insert. apply Hinv.
    + intros j k q r [[-> ->]|[Hj Hjq]]%(thread_after ts i _ _ _ _ Hi) _ Hq; [done|]. by rewrite (Hother j q) in Hq.
    + intros j q [[-> ->]|[Hj Hjq]]%(thread_after ts i _ _ _ _ Hi) Hq; [done|]. by rewrite (Hother j q) in Hq.
    + done.
    + intros j v [[-> E]|[Hj Hjq]]%(thread_after ts i _ _ _ _ Hi); [done|]. by specialize (Hother _ _ Hj Hjq).
    + intros j. rewrite (li_order _ _ _ _ Hinv). cbn [threads]. setoid_rewrite (thread_after ts i j _ _ _ Hi). split.
      * intros (q & Hq & Hc). destruct (decide (j = i)) as [->|Hne]; [by exists Released; auto|by exists q; auto].
      * intros (q & [[-> ->]|[Hne Hq]] & Hc); [by exists Stored|by exists q].
Qed.

Lemma lock_inv_reachable s0 n c : rtc step (initial s0 n) c -> exists order, lock_inv s0 n c order.
Proof.
  intros H. apply (rtc_ind_r (R := step) (fun c => exists order, lock_inv s0 n c order) (initial s0 n)).
  - exists []. apply lock_inv_initial.
  - intros c1 c2 _ Hs [order Ho]. by apply (lock_inv_step s0 n c1 c2 order).
  - done.
Qed.

(** ** Progress *)

(** Steps that a thread has left. *)
Definition remaining (p : phase) : nat :=
  match p with Spinning => 4 | Entered => 3 | Loaded _ => 2 | Stored => 1 | Released => 0 end.

Definition remaining_all (ts : list phase) : nat := foldr Nat.add 0%nat (remaining <$> ts).

Lemma remaining_insert ts i p p' :
  ts !! i = Some p -> (remaining p' < remaining p)%nat -> (remaining_all (<[i := p']> ts) < remaining_all ts)%nat.
Proof.
  revert i. induction ts as [|q ts IH]; intros [|i] Hi Hlt; try done.
  - injection Hi as ->. change (remaining p' + remaining_all ts < remaining p + remaining_all ts)%nat. lia.
  - change (remaining q + remaining_all (<[i := p']> ts) < remaining q + remaining_all ts)%nat. specialize (IH i Hi Hlt). lia.
Qed.

#[local] Instance released_dec (p : phase) : Decision (p = Released).
Proof. destruct p; (by left) || (by right). Defined.

Definition finished (c : config) : Prop := Forall (fun p => p = Released) (threads c).

Lemma progress s0 n c :
  rtc step (initial s0 n) c -> finished c \/ exists c', step c c' /\ (remaining_all (threads c') < remaining_all (threads c))%nat.
Proof.
  intros Hreach. destruct (lock_inv_reachable s0 n c Hreach) as [order Hinv]. destruct c as [b s ts].
  destruct b.
  - right. destruct (li_owner _ _ _ _ Hinv eq_refl) as (i & p & Hi & Hp). cbn [threads] in *.
    destruct p as [| |v| |]; try done; eexists; (split; [by econstructor|]); cbn [threads];
      eapply remaining_insert; try exact Hi; cbn; lia.
  - destruct (decide (Forall (fun p => p = Released) ts)) as [Hf|Hf]; [by left|right].
    assert (exists i p, ts !! i = Some p /\ p <> Released) as (i & p & Hi & Hp).
    { clear -Hf. induction ts as [|q ts IH]; [by destruct Hf|]. destruct (decide (q = Released)) as [->|Hq].
      - destruct IH as (i & p & Hi & Hp); [intros HF; by apply Hf; constructor|]. by exists (Datatypes.S i), p.
      - by exists 0%nat, q. }
    assert (p = Spinning) as ->.
    { destruct p as [| |v| |]; try done; by pose proof (li_flag _ _ _ _ Hinv i _ Hi eq_refl). }
    eexists. split; [by eapply step_test_and_set|]. cbn [threads]. eapply remaining_insert; [exact Hi|cbn; lia].
Qed.

Lemma lock_inv_finished s0 n c order : lock_inv s0 n c order -> finished c -> order ≡ₚ seq 0 n.
Proof.
  intros Hinv Hf. apply NoDup_Permutation; [apply Hinv|apply NoDup_seq|]. intros i.
  rewrite (li_order _ _ _ _ Hinv), elem_of_seq. rewrite <-(li_threads _ _ _ _ Hinv). split.
  - intros (p & Hp%lookup_lt_Some & _). lia.
  - intros [_ Hi]. destruct (lookup_lt_is_Some_2 (threads c) i ltac:(lia)) as [p Hp]. exists p. split; [done|].
    by rewrite (Forall_lookup_1 _ _ _ _ Hf Hp).
Qed.

(** The spin lock serialises its critical sections.  Any number of threads
    that each load the memory, change it and store it back between [lock] and
    [unlock], in any interleaving: at most one of them is between the two
    calls, and the memory is always the result of running the changes that
    have been stored one after the other; once every thread has returned these
    are the changes of all of them, each exactly once. *)
Theorem spinlock_serialises (s0 : S) (n : nat) (c : config) :
  rtc step (initial s0 n) c ->
  (forall i j p q, threads c !! i = Some p -> threads c !! j = Some q -> holds p = true -> holds q = true -> i = j) /\
  exists order, NoDup order /\ memory c = foldl (fun s i => f i s) s0 order /\
    (forall i, i ∈ order <-> exists p, threads c !! i = Some p /\ changed p = true) /\
    (finished c -> order ≡ₚ seq 0 n).
Proof.
  intros Hreach. destruct (lock_inv_reachable s0 n c Hreach) as [order Hinv]. split; [apply Hinv|].
  exists order. split; [apply Hinv|]. split; [apply Hinv|]. split; [apply Hinv|]. by apply (lock_inv_finished s0 n c).
Qed.

(** The spin lock has no deadlock.  Whatever the threads have done so far,
    there is a schedule in which every one of them gets the lock and returns,
    and at every point some step brings them nearer to it. *)
Theorem spinlock_finishes (s0 : S) (n : nat) (c : config) :
  rtc step (initial s0 n) c -> exists c', rtc step c c' /\ finished c'.
Proof.
  remember (remaining_all (threads c)) as m eqn:Em. revert c Em. induction (lt_wf m) as [m _ IH]. intros c -> Hreach.
  destruct (progress s0 n c Hreach) as [Hf|(c1 & Hs & Hlt)]; [by exists c|].
  destruct (IH _ Hlt c1 eq_refl) as (c2 & Hr & Hf); [by eapply rtc_r|]. exists c2. split; [by eapply rtc_l|done].
Qed.
End spinlock.

(** ** Concurrent links from one node *)

Section links.
Context (fused : bool) (metric : DistanceMetric) (locks src : N) (layer : nat).

(** Node [src] has the neighbours [ids], and room for [m] more. *)
Definition room (img : image) (ids : list N) (m : nat) : Prop :=
  exists n row, get_node src img = Some n /\ n_counts n !! layer = Some (Z.of_nat (length ids)) /\
    n_neighbors n !! layer = Some row /\ links n layer = Some ids /\
    (Z.of_nat (length ids + m) <= max_conn layer)%Z /\ (max_conn layer <= Z.of_nat (length row))%Z.

Lemma add_link_appends dest img ids m :
  src < locks -> room img ids (S m) ->
  exists img', add_link fused metric locks src dest layer img = Some img' /\ room img' (ids ++ [dest]) m /\
    forall id, id <> src -> i_nodes img' !! id = i_nodes img !! id.
Proof.
  intros Hsrc (n & row & Hg & Hc & Hrow & Hl & Hmax & Hlen). unfold add_link. rewrite bool_decide_eq_false_2 by lia.
  rewrite Hg. cbn [mbind option_bind]. rewrite Hc. cbn [mbind option_bind]. rewrite bool_decide_eq_true_2 by lia.
  unfold layer_index. rewrite bool_decide_eq_true_2 by lia. cbn [mbind option_bind]. rewrite Nat2Z.id.
  unfold set_neighbor. rewrite Hrow. cbn [mbind option_bind]. rewrite bool_decide_eq_true_2 by lia. cbn [mbind option_bind].
  assert (slot_end src <= i_size img) as Hr by (unfold get_node in Hg; by case_bool_decide).
  set (n' := MkNode _ _ _ _ _ _). unfold put_node. rewrite bool_decide_eq_true_2 by done. eexists. split; [done|].
  assert (ids = take (length ids) row) as Hids.
  { unfold links in Hl. rewrite Hc in Hl. cbn [mbind option_bind] in Hl. rewrite Hrow in Hl. cbn [mbind option_bind] in Hl.
    rewrite bool_decide_eq_true_2 in Hl by lia. rewrite Nat2Z.id in Hl. by injection Hl. }
  split; [|intros id Hne; by apply lookup_insert_ne].
  exists n', (<[length ids := dest]> row). split.
  { unfold get_node. cbn [i_size i_nodes]. rewrite bool_decide_eq_true_2 by done. by rewrite lookup_insert_eq. }
  cbn [n' n_counts n_neighbors]. rewrite !list_lookup_insert_eq by (eapply lookup_lt_Some; eassumption).
  split; [f_equal; rewrite length_app; cbn [length]; lia|]. split; [done|]. split.
  - unfold links. cbn [n' n_counts n_neighbors]. rewrite !list_lookup_insert_eq by (eapply lookup_lt_Some; eassumption).
    cbn [mbind option_bind]. rewrite length_insert, bool_decide_eq_true_2 by lia. f_equal.
    replace (Z.to_nat (Z.of_nat (length ids) + 1)) with (S (length ids)) by lia.
    rewrite (take_S_r _ _ dest) by (apply list_lookup_insert_eq; lia). rewrite take_insert_ge by done. by rewrite <-Hids.
  - rewrite length_app, length_insert. cbn [length]. lia.
Qed.

(** The critical section of thread [i]: [add_link(src, dest i, layer)].  A source
    without a lock makes [add_link] return before [lock]; here the thread goes
    through the lock and changes nothing. *)
Definition link_to (dest : nat -> N) (i : nat) (o : option image) : option image :=
  img ← o; add_link fused metric locks src (dest i) layer img.

Lemma link_all_to dest order img ids m :
  src < locks -> room img ids (length order + m) ->
  exists img', foldl (fun o i => link_to dest i o) (Some img) order = Some img' /\ room img' (ids ++ (dest <$> order)) m /\
    forall id, id <> src -> i_nodes img' !! id = i_nodes img !! id.
Proof.
  intros Hsrc. revert img ids. induction order as [|i order IH]; intros img ids Hr; cbn [foldl fmap list_fmap].
  { exists img. by rewrite app_nil_r. }
  destruct (add_link_appends (dest i) img ids (length order + m) Hsrc Hr) as (i1 & E & Hr1 & Ho1).
  cbn [link_to mbind option_bind]. rewrite E. destruct (IH i1 _ Hr1) as (i2 & E2 & Hr2 & Ho2). exists i2. split; [done|].
  rewrite <-app_assoc in Hr2. split; [done|]. intros id Hne. by rewrite Ho2, Ho1.
Qed.

(** A source that has no lock gets no links. *)
Lemma link_none dest order img :
  locks <= src -> foldl (fun o i => link_to dest i o) (Some img) order = Some img.
Proof.
  intros Hsrc. induction order as [|i order IH]; [done|]. cbn [foldl link_to mbind option_bind]. unfold add_link.
  by rewrite bool_decide_eq_true_2.
Qed.

(** C21: No link is lost, if the node has a lock.  Several threads add links from
    the same node at the same time, in any interleaving, and all return.  If the
    node has a lock, [src < locks], and room for all the links, its neighbours
    are then the old ones followed by the new ones of all threads, in some
    order, and no other node has changed.  If it has none, [add_link] returns
    without a word and the file is what it was. *)
Theorem no_link_lost (dest : nat -> N) (img : image) (ids : list N) (n : nat) (c : config) :
  rtc (step (link_to dest)) (initial (Some img) n) c -> finished c ->
  (src < locks -> room img ids n ->
   exists order img' node, order ≡ₚ seq 0 n /\ memory c = Some img' /\ get_node src img' = Some node /\
     links node layer = Some (ids ++ (dest <$> order)) /\ forall id, id <> src -> i_nodes img' !! id = i_nodes img !! id) /\
  (locks <= src -> memory c = Some img).
Proof.
  intros Hreach Hf. destruct (lock_inv_reachable (link_to dest) (Some img) n c Hreach) as [order Hinv].
  pose proof (lock_inv_finished (link_to dest) (Some img) n c order Hinv Hf) as Hp. rewrite (li_memory _ _ _ _ _ Hinv).
  split; [|intros Hsrc; by apply link_none]. intros Hsrc Hroom.
  destruct (link_all_to dest order img ids 0 Hsrc) as (img' & E & (node & row & Hg & _ & _ & Hl & _) & Ho).
  { by rewrite (Permutation_length Hp), length_seq, Nat.add_0_r. }
  by exists order, img', node.
Qed.
End links.

(** ** Examples *)

(** One thread from [lock] to [unlock]. *)
Lemma one_thread {S : Type} (f : nat -> S -> S) (s : S) : rtc (step f) (initial s 1) (MkConfig false (f 0%nat s) [Released]).
Proof.
  eapply rtc_l; [by apply (step_test_and_set f false s [Spinning] 0)|]. cbn.
  eapply rtc_l; [by apply (step_load f true s [Entered] 0)|]. cbn.
  eapply rtc_l; [by apply (step_store f true s [Loaded s] 0 s)|]. cbn.
  apply rtc_once. by apply (step_clear f true (f 0%nat s) [Stored] 0).
Qed.

(** Two threads, of which the second spins while the first has the lock. *)
Lemma two_threads {S : Type} (f : nat -> S -> S) (s : S) :
  rtc (step f) (initial s 2) (MkConfig false (f 1%nat (f 0%nat s)) [Released; Released]).
Proof.
  eapply rtc_l; [by apply (step_test_and_set f false s [Spinning; Spinning] 0)|]. cbn.
  eapply rtc_l; [by apply (step_test_and_set f true s [Entered; Spinning] 1)|]. cbn.
  eapply rtc_l; [by apply (step_load f true s [Entered; Spinning] 0)|]. cbn.
  eapply rtc_l; [by apply (step_store f true s [Loaded s; Spinning] 0 s)|]. cbn.
  eapply rtc_l; [by apply (step_clear f true (f 0%nat s) [Stored; Spinning] 0)|]. cbn.
  eapply rtc_l; [by apply (step_test_and_set f false (f 0%nat s) [Released; Spinning] 1)|]. cbn.
  eapply rtc_l; [by apply (step_load f true (f 0%nat s) [Released; Entered] 1)|]. cbn.
  eapply rtc_l; [by apply (step_store f true (f 0%nat s) [Released; Loaded (f 0%nat s)] 1 (f 0%nat s))|]. cbn.
  apply rtc_once. by apply (step_clear f true (f 1%nat (f 0%nat s)) [Released; Stored] 1).
Qed.

Lemma spinlock_serialises_witness :
  exists order, 5 = foldl (fun s i => s + 5) 0 order /\ order ≡ₚ [0%nat].
Proof.
  destruct (spinlock_serialises (fun _ s => s + 5) 0 1 _ (one_thread _ 0)) as (_ & order & _ & Hm & _ & Hp).
  exists order. split; [exact Hm|]. apply Hp. repeat constructor.
Defined.

Lemma spinlock_finishes_witness : exists c, rtc (step (fun _ s => s + 5)) (initial 0 3) c /\ finished c.
Proof. apply (spinlock_finishes (fun _ s => s + 5) 0 3). apply rtc_refl. Defined.

Definition lonely_image : image := MkImage 10000 (MkHeader NANODB_MAGIC 1 0 0) {[0 := new_node [] 0 0 []]}.

(** Two threads that link node 0 to 3 and to 4. *)
Lemma no_link_lost_witness :
  exists order img' node, order ≡ₚ [0%nat; 1%nat] /\
    rtc (step (link_to true L2 10 0 0 (fun i => 3 + N.of_nat i))) (initial (Some lonely_image) 2)
      (MkConfig false (Some img') [Released; Released]) /\
    get_node 0 img' = Some node /\ links node 0 = Some ((fun i => 3 + N.of_nat i) <$> order).
Proof.
  set (f := link_to true L2 10 0 0 (fun i => 3 + N.of_nat i)). pose proof (two_threads f (Some lonely_image)) as Hr.
  destruct (no_link_lost true L2 10 0 0 (fun i => 3 + N.of_nat i) lonely_image [] 2
    (MkConfig false (f 1%nat (f 0%nat (Some lonely_image))) [Released; Released])) as [Hyes _].
  - exact Hr.
  - repeat constructor.
  - destruct Hyes as (order & img' & node & Hp & Hm & Hg & Hl & _).
    + reflexivity.
    + exists (new_node [] 0 0 []), (replicate 32 (U32 - 1)). split; [reflexivity|]. split; [reflexivity|]. split; [reflexivity|].
      split; [reflexivity|]. split; vm_compute; discriminate.
    + exists order, img', node. cbn [memory] in Hm. rewrite <-Hm. split; [exact Hp|]. split; [exact Hr|]. split; [exact Hg|exact Hl].
Defined.
