(* ===== verification/HnswInv.v ===== *)
(** * The HNSW index: its invariant

    Nodes keep their arrays at full size and link only to slots of the file.
    Under that invariant no search leaves the file, every loop ends, and the
    results of a search are live nodes with their distances. *)

From S2P Require Import Prelude Storage MemoryMap MetadataStore Float32 PriorityQueue IndexTypes FloatExact Distance Hnsw.

Definition in_range (i : image) (id : N) : Prop := slot_end id <= i_size i.

(** A slot that has been written. *)
Definition occupied (i : image) (id : N) : Prop := is_Some (i_nodes i !! id).

Record node_wf (i : image) (n : Node) : Prop := {
  nw_vector : length (n_vector n) = VECTOR_DIM;
  nw_neighbors : length (n_neighbors n) = MAX_LAYERS;
  nw_rows : Forall (fun row => length row = Z.to_nat M_MAX0) (n_neighbors n);
  nw_counts : length (n_counts n) = MAX_LAYERS;
  nw_count layer c : n_counts n !! layer = Some c -> (0 <= c <= max_conn layer)%Z;
  nw_links layer ids : links n layer = Some ids -> Forall (occupied i) ids;
}.

Record image_wf (i : image) : Prop := {
  iw_header : HEADER_SIZE <= i_size i;
  iw_nodes id n : i_nodes i !! id = Some n -> in_range i id /\ node_wf i n;
}.

Lemma max_conn_bound layer : (max_conn layer <= M_MAX0)%Z.
Proof. unfold max_conn. by case_bool_decide. Qed.

Lemma links_replicate n layer k x :
  n_neighbors n = replicate MAX_LAYERS (replicate k x) -> n_counts n = replicate MAX_LAYERS 0%Z ->
  (layer < MAX_LAYERS)%nat -> links n layer = Some [].
Proof.
  intros Hn Hc Hl. unfold links. rewrite Hn, Hc, !lookup_replicate_2 by done. cbn [mbind option_bind].
  by rewrite bool_decide_eq_true_2 by lia.
Qed.

Lemma links_layer n layer ids : links n layer = Some ids -> is_Some (n_counts n !! layer).
Proof. unfold links. destruct (n_counts n !! layer); [by eexists|done]. Qed.

(** A node with no links is well-formed. *)
Lemma unlinked_wf i n x :
  length (n_vector n) = VECTOR_DIM -> n_neighbors n = replicate MAX_LAYERS (replicate (Z.to_nat M_MAX0) x) ->
  n_counts n = replicate MAX_LAYERS 0%Z -> node_wf i n.
Proof.
  intros Hv Hn Hc. split; [done|by rewrite Hn|by rewrite Hn; repeat constructor|by rewrite Hc| |].
  - intros layer c. rewrite Hc, lookup_replicate. intros [-> _]. unfold max_conn. unfold M_MAX0, M. case_bool_decide; lia.
  - intros layer ids Hl. destruct (links_layer _ _ _ Hl) as [c Hlen]. rewrite Hc in Hlen.
    apply lookup_replicate in Hlen as [_ Hlen]. rewrite (links_replicate n layer _ x Hn Hc Hlen) in Hl.
    injection Hl as <-. constructor.
Qed.

Lemma zero_node_wf i : node_wf i zero_node.
Proof. by apply (unlinked_wf i zero_node 0). Qed.

Lemma get_node_wf i id : image_wf i -> in_range i id -> exists n, get_node id i = Some n /\ node_wf i n.
Proof.
  intros [_ Hn] Hr. unfold get_node. rewrite bool_decide_eq_true_2 by done.
  destruct (i_nodes i !! id) as [n|] eqn:E; cbn [default]; eexists; (split; [done|]); [by apply (Hn id)|apply zero_node_wf].
Qed.

Lemma occupied_node i id :
  image_wf i -> occupied i id -> exists n, i_nodes i !! id = Some n /\ get_node id i = Some n /\ node_wf i n.
Proof.
  intros [_ Hn] [n E]. destruct (Hn id n E) as [Hr Hw]. exists n. split_and!; [done| |done].
  unfold get_node. rewrite bool_decide_eq_true_2 by done. by rewrite E.
Qed.

Lemma occupied_in_range i id : image_wf i -> occupied i id -> in_range i id.
Proof. intros [_ Hn] [n E]. by apply (Hn id n). Qed.

Lemma links_wf i n layer :
  node_wf i n -> (layer < MAX_LAYERS)%nat -> exists ids, links n layer = Some ids /\ Forall (occupied i) ids.
Proof.
  intros Hw Hl. destruct Hw as [_ Hlen Hrows Hclen Hc Hids].
  destruct (lookup_lt_is_Some_2 (n_counts n) layer) as [c Ec]; [lia|].
  destruct (lookup_lt_is_Some_2 (n_neighbors n) layer) as [row Er]; [lia|].
  assert (links n layer = Some (take (Z.to_nat c) row)) as E.
  { unfold links. rewrite Ec, Er. cbn [mbind option_bind]. rewrite bool_decide_eq_true_2; [done|].
    rewrite (Forall_lookup_1 _ _ _ _ Hrows Er). specialize (Hc layer c Ec). pose proof (max_conn_bound layer).
    unfold M_MAX0, M in *. lia. }
  exists (take (Z.to_nat c) row). split; [done|by apply (Hids layer)].
Qed.

Section search.
Context (fused : bool) (metric : DistanceMetric) (img : image) (query : list float32).

Definition dist_of (n : Node) : float32 := compute_distance fused query (n_vector n) VECTOR_DIM metric.

(** No distance from the query is a NaN. *)
Definition numeric : Prop := forall id n, i_nodes img !! id = Some n -> is_nan (dist_of n) = false.

(** A live node, with its distance. *)
Definition good (r : Result) : Prop :=
  exists n, i_nodes img !! r_id r = Some n /\ n_deleted n = false /\ r_distance r = dist_of n.

(** A node of the file, with its distance. *)
Definition measured (r : Result) : Prop := exists n, i_nodes img !! r_id r = Some n /\ r_distance r = dist_of n.

Lemma good_measured r : good r -> measured r.
Proof. intros (n & H & _ & Hd). by exists n. Qed.

Lemma measured_comparable rs : numeric -> Forall measured rs -> Forall comparable rs.
Proof.
  intros Hn Hm. eapply Forall_impl; [exact Hm|]. intros r (n & Hg & Hd). unfold comparable. rewrite Hd. by eapply Hn.
Qed.

Lemma goods_comparable rs : numeric -> Forall good rs -> Forall comparable rs.
Proof. intros Hn Hg. apply measured_comparable; [done|]. eapply Forall_impl; [exact Hg|apply good_measured]. Qed.

Section bounds.
Context (ef : Z) (visited_size : N).

Record search_inv (st : frontier) : Prop := {
  si_visited id : id ∈ f_visited st -> id < visited_size /\ occupied img id;
  si_candidates : Forall measured (f_candidates st);
  si_found : Forall good (f_found st);
  si_nodup : NoDup (r_id <$> f_found st);
  si_seen id : id ∈ r_id <$> f_found st -> id ∈ f_visited st \/ visited_size <= id;
  si_length : (Z.of_nat (length (f_found st)) <= ef)%Z;
  si_heaps : numeric -> heap result_lt (f_found st) /\ heap result_gt (f_candidates st);
}.

(** Unvisited ids and waiting candidates: what is left to do. *)
Definition cost (st : frontier) : nat :=
  (N.to_nat visited_size - base.size (f_visited st) + length (f_candidates st))%nat.

Lemma size_below (X : gset N) n : (forall x, x ∈ X -> x < n) -> (base.size X <= N.to_nat n)%nat.
Proof.
  intros H. assert (X ⊆ list_to_set (N.of_nat <$> seq 0 (N.to_nat n))) as Hsub.
  { intros x Hx. apply elem_of_list_to_set, list_elem_of_fmap. exists (N.to_nat x).
    specialize (H x Hx). split; [lia|]. apply elem_of_seq. lia. }
  apply subseteq_size in Hsub. rewrite size_list_to_set in Hsub.
  - rewrite length_fmap, length_seq in Hsub. lia.
  - apply NoDup_fmap_2; [apply _|apply NoDup_seq].
Qed.

Lemma push_measured {A} lt (r : A) rs (P : A -> Prop) : P r -> Forall P rs -> Forall P (push lt r rs).
Proof. intros Hr Hrs. rewrite push_perm. by constructor. Qed.

Lemma pop_Forall {A} (lt : A -> A -> bool) (P : A -> Prop) rs : Forall P rs -> Forall P (pop lt rs).
Proof.
  destruct rs as [|r rs]; [done|]. intros H. pose proof (pop_perm lt r rs) as Hp.
  assert (Forall P (r :: pop lt (r :: rs))) as H' by (by rewrite Hp). by inversion H'.
Qed.

Lemma pop_ids (lt : Result -> Result -> bool) (rs : list Result) id : id ∈ r_id <$> pop lt rs -> id ∈ r_id <$> rs.
Proof.
  destruct rs as [|r rs]; [done|]. intros H. pose proof (pop_perm lt r rs) as Hp.
  rewrite <-Hp. cbn. by right.
Qed.

Lemma pop_NoDup (lt : Result -> Result -> bool) (rs : list Result) : NoDup (r_id <$> rs) -> NoDup (r_id <$> pop lt rs).
Proof.
  destruct rs as [|r rs]; [done|]. intros H. pose proof (pop_perm lt r rs) as Hp.
  rewrite <-Hp in H. cbn in H. by apply NoDup_cons in H as [_ H].
Qed.

Lemma pop_length {A} (lt : A -> A -> bool) (x : A) rs : length (pop lt (x :: rs)) = length rs.
Proof. pose proof (pop_perm lt x rs) as Hp. apply Permutation_length in Hp. cbn in Hp. lia. Qed.

(** The found queue after a live node has been added. *)
Definition add_found (r : Result) (found : list Result) : list Result :=
  let found := push result_lt r found in
  if bool_decide (ef < Z.of_nat (length found))%Z then pop result_lt found else found.

Lemma add_found_spec r found (visited : gset N) :
  good r -> r_id r ∉ visited -> r_id r < visited_size -> (0 < ef)%Z ->
  Forall good found -> NoDup (r_id <$> found) ->
  (forall id, id ∈ r_id <$> found -> id ∈ visited \/ visited_size <= id) ->
  (Z.of_nat (length found) <= ef)%Z -> (numeric -> heap result_lt found) ->
  let found' := add_found r found in
  Forall good found' /\ NoDup (r_id <$> found') /\
  (forall id, id ∈ r_id <$> found' -> id = r_id r \/ id ∈ r_id <$> found) /\
  (Z.of_nat (length found') <= ef)%Z /\ (numeric -> heap result_lt found').
Proof.
  intros Hr Hv Hlt Hef Hg Hnd Hseen Hlen Hh. cbn zeta. unfold add_found.
  assert (Forall good (push result_lt r found)) as Hg' by (by apply push_measured).
  assert (NoDup (r_id <$> push result_lt r found)) as Hnd'.
  { rewrite push_perm. cbn. apply NoDup_cons. split; [|done]. intros [?|?]%Hseen; [done|lia]. }
  assert (numeric -> heap result_lt (push result_lt r found)) as Hh'.
  { intros Hn. apply (push_heap _ comparable); [by apply goods_comparable| |by apply Hh].
    assert (Forall comparable [r]) as Hc by (by apply goods_comparable; repeat constructor). by inversion Hc. }
  assert (length (push result_lt r found) = S (length found)) as Hl by (by rewrite push_perm).
  assert (forall id, id ∈ r_id <$> push result_lt r found -> id = r_id r \/ id ∈ r_id <$> found) as Hids.
  { intros id. rewrite push_perm. cbn. rewrite elem_of_cons. done. }
  case_bool_decide as Hd; [|split_and!; [done|done|done|lia|done]].
  split_and!.
  - by apply pop_Forall.
  - by apply pop_NoDup.
  - intros id Hid%pop_ids. by apply Hids.
  - destruct (push result_lt r found) as [|x l] eqn:E; [done|]. rewrite pop_length. cbn in Hl. lia.
  - intros Hn. apply (pop_heap _ comparable); [|by apply Hh'].
    by apply goods_comparable.
Qed.

(** What [visit] does once the node is there and close enough. *)
Lemma visit_eq neighbor_id n st :
  neighbor_id < visited_size -> neighbor_id ∉ f_visited st -> get_node neighbor_id img = Some n ->
  (0 < ef)%Z -> (Z.of_nat (length (f_found st)) <= ef)%Z ->
  let r := MkResult neighbor_id (dist_of n) "" in
  let visited := {[neighbor_id]} ∪ f_visited st in
  visit fused metric img query ef visited_size neighbor_id st =
    Some (if bool_decide (Z.of_nat (length (f_found st)) < ef)%Z || from_option (fun t => fltb (dist_of n) (r_distance t)) true (top (f_found st))
          then MkFrontier visited (push result_gt r (f_candidates st))
                 (if n_deleted n then f_found st else add_found r (f_found st))
          else MkFrontier visited (f_candidates st) (f_found st)).
Proof.
  intros Hlt Hv Hg Hef Hlen. cbn zeta. unfold visit.
  rewrite bool_decide_eq_false_2 by lia. rewrite bool_decide_eq_false_2 by done. cbn [orb]. rewrite Hg.
  cbn [mbind option_bind]. change (compute_distance fused query (n_vector n) VECTOR_DIM metric) with (dist_of n).
  destruct (bool_decide (Z.of_nat (length (f_found st)) < ef)%Z) eqn:Hd; cbn [orb]; [reflexivity|].
  apply bool_decide_eq_false in Hd.
  destruct (f_found st) as [|x l]; [cbn in Hd; lia|]. cbn [top head from_option mbind option_bind].
  destruct (fltb _ _); reflexivity.
Qed.

Lemma visit_spec neighbor_id st :
  image_wf img -> (0 < ef)%Z -> occupied img neighbor_id -> search_inv st ->
  exists st', visit fused metric img query ef visited_size neighbor_id st = Some st' /\
    search_inv st' /\ (cost st' <= cost st)%nat.
Proof.
  intros Hw Hef Hr Hinv. destruct (decide (visited_size <= neighbor_id)) as [Hge|Hlt].
  { exists st. unfold visit. rewrite bool_decide_eq_true_2 by done. done. }
  destruct (decide (neighbor_id ∈ f_visited st)) as [Hin|Hnin].
  { exists st. unfold visit. rewrite (bool_decide_eq_true_2 (_ ∈ _)) by done. rewrite orb_true_r. done. }
  destruct (occupied_node img neighbor_id Hw Hr) as (n & Hl & Hg & _).
  destruct Hinv as [Hvis Hc Hf Hnd Hseen Hlen Hh].
  rewrite (visit_eq neighbor_id n st) by (done || lia). eexists. split; [reflexivity|].
  set (r := MkResult neighbor_id (dist_of n) ""). set (visited := {[neighbor_id]} ∪ f_visited st).
  assert (measured r) as Hmr by (by exists n).
  assert (forall id, id ∈ visited -> id < visited_size /\ occupied img id) as Hvis'.
  { intros id [->%elem_of_singleton|Hid]%elem_of_union; [split; [lia|done]|by apply Hvis]. }
  assert (base.size visited = S (base.size (f_visited st))) as Hsize.
  { unfold visited. rewrite size_union, size_singleton by set_solver. lia. }
  assert (base.size visited <= N.to_nat visited_size)%nat as Hbound.
  { apply size_below. intros x Hx. by apply Hvis'. }
  destruct (_ || _); (split; [|unfold cost; cbn [f_visited f_candidates]; rewrite ?push_perm; cbn [length]; lia]).
  2: { split; cbn [f_visited f_candidates f_found]; try done.
       intros id Hid. destruct (Hseen id Hid); [left; unfold visited; set_solver|by right]. }
  assert (Forall measured (push result_gt r (f_candidates st))) as Hc' by (by apply push_measured).
  assert (numeric -> heap result_gt (push result_gt r (f_candidates st))) as Hhc.
  { intros Hn. apply (push_heap _ comparable); [by apply measured_comparable| |by apply Hh].
    assert (Forall comparable [r]) as Hr' by (by apply measured_comparable; repeat constructor). by inversion Hr'. }
  destruct (n_deleted n) eqn:Edel.
  - split; cbn [f_visited f_candidates f_found]; try done.
    + intros id Hid. destruct (Hseen id Hid); [left; unfold visited; set_solver|by right].
    + intros Hn. split; [by apply Hh|by apply Hhc].
  - destruct (add_found_spec r (f_found st) (f_visited st)) as (Hg' & Hnd' & Hids & Hlen' & Hh');
      [by exists n|done|cbn; lia|done|done|done|done|done|by intros Hn; apply Hh|].
    split; cbn [f_visited f_candidates f_found]; try done.
    + intros id [->|Hid]%Hids; [left; unfold visited; cbn; set_solver|].
      destruct (Hseen id Hid); [left; unfold visited; set_solver|by right].
    + intros Hn. split; [by apply Hh'|by apply Hhc].
Qed.

Lemma visit_all_spec ids st :
  image_wf img -> (0 < ef)%Z -> Forall (occupied img) ids -> search_inv st ->
  exists st', visit_all fused metric img query ef visited_size ids st = Some st' /\
    search_inv st' /\ (cost st' <= cost st)%nat.
Proof.
  intros Hw Hef Hids. revert st. induction Hids as [|id ids Hid _ IH]; intros st Hinv; [by exists st|].
  cbn [visit_all]. destruct (visit_spec id st Hw Hef Hid Hinv) as (st1 & -> & Hinv1 & Hc1). cbn [mbind option_bind].
  destruct (IH st1 Hinv1) as (st2 & -> & Hinv2 & Hc2). exists st2. split_and!; [done|done|lia].
Qed.

(** The results of a layer search. *)
Record layer_results (found : list Result) : Prop := {
  lr_good : Forall good found;
  lr_nodup : NoDup (r_id <$> found);
  lr_length : (Z.of_nat (length found) <= ef)%Z;
  lr_heap : numeric -> heap result_lt found;
}.

Lemma inv_results st : search_inv st -> layer_results (f_found st).
Proof. intros [_ _ Hf Hnd _ Hlen Hh]. split; [done..|]. intros Hn. by apply Hh. Qed.

Lemma pop_candidate st curr :
  search_inv st -> top (f_candidates st) = Some curr ->
  let st' := MkFrontier (f_visited st) (pop result_gt (f_candidates st)) (f_found st) in
  search_inv st' /\ measured curr /\ (cost st' < cost st)%nat.
Proof.
  intros [Hvis Hc Hf Hnd Hseen Hlen Hh] Ht st'. destruct (f_candidates st) as [|x l] eqn:E; [done|].
  cbn in Ht. injection Ht as ->. split_and!.
  - split; cbn [f_visited f_candidates f_found]; try done.
    + by apply pop_Forall.
    + intros Hn. destruct (Hh Hn). split; [done|]. apply (pop_heap _ comparable); [by apply measured_comparable|done].
  - by inversion Hc.
  - unfold cost, st'. cbn [f_visited f_candidates]. rewrite pop_length, E. cbn. lia.
Qed.

(** The loop ends with enough fuel, whatever the graph. *)
Lemma search_loop_spec fuel layer st :
  image_wf img -> (0 < ef)%Z -> (layer < MAX_LAYERS)%nat -> search_inv st ->
  (cost st < fuel)%nat ->
  exists found, search_loop fused metric img fuel query ef layer visited_size st = Some found /\ layer_results found.
Proof.
  intros Hw Hef Hl. revert st. induction fuel as [|fuel IH]; intros st Hinv Hfuel; [lia|]. cbn [search_loop].
  destruct (top (f_candidates st)) as [curr|] eqn:Et.
  2: { eexists. split; [done|by apply inv_results]. }
  destruct (pop_candidate st curr Hinv Et) as (Hinv' & (n0 & Hn0 & _) & Hcost). cbn zeta in *. cbn [f_found].
  destruct (stop_here ef curr (f_found st)).
  { eexists. split; [done|by apply inv_results]. }
  destruct (occupied_node img (r_id curr) Hw ltac:(by eexists)) as (n & _ & -> & Hn). cbn [mbind option_bind].
  destruct (links_wf img n layer Hn Hl) as (ids & -> & Hids). cbn [mbind option_bind].
  destruct (visit_all_spec ids _ Hw Hef Hids Hinv') as (st2 & -> & Hinv2 & Hc2). cbn [mbind option_bind].
  apply IH; [done|lia].
Qed.
End bounds.

(** A layer search succeeds on every well-formed file. *)
Lemma search_layer_spec element_count entry_point ef layer :
  image_wf img -> occupied img entry_point -> (0 < ef)%Z -> (layer < MAX_LAYERS)%nat ->
  exists found, search_layer fused metric img element_count entry_point query ef layer = Some found /\
    layer_results ef found.
Proof.
  intros Hw Hr Hef Hl. unfold search_layer. set (vs := N.max entry_point element_count +u 2000).
  destruct (occupied_node img entry_point Hw Hr) as (n & Hlk & Hg & _). rewrite Hg. cbn [mbind option_bind].
  set (start := MkResult entry_point (compute_distance fused query (n_vector n) VECTOR_DIM metric) "").
  assert (measured start) as Hm by (by exists n).
  set (visited := if entry_point <?? vs then {[entry_point]} else (∅ : gset N)).
  assert (forall id, id ∈ visited -> id = entry_point /\ entry_point < vs) as Hv.
  { intros id. unfold visited. case_bool_decide; set_solver. }
  apply search_loop_spec; [done..| |].
  - split; cbn [f_visited f_candidates f_found].
    + intros id [-> ?]%Hv. done.
    + by apply push_measured.
    + destruct (n_deleted n) eqn:Ed; [done|]. apply push_measured; [by exists n|done].
    + destruct (n_deleted n); [constructor|]. rewrite push_perm. apply NoDup_singleton.
    + intros id Hid. assert (id = entry_point) as ->.
      { destruct (n_deleted n); [by apply elem_of_nil in Hid|]. rewrite push_perm in Hid. by apply list_elem_of_singleton in Hid. }
      unfold visited. case_bool_decide; [left; set_solver|right; lia].
    + destruct (n_deleted n); cbn; lia.
    + intros Hn. assert (comparable start) as Hs.
      { assert (Forall comparable [start]) as Hc by (by apply measured_comparable; repeat constructor). by inversion Hc. }
      split; [destruct (n_deleted n); [apply heap_nil|]|];
        (apply (push_heap _ comparable); [constructor|done|apply heap_nil]).
  - unfold cost. cbn [f_visited f_candidates]. rewrite push_perm. cbn [length]. lia.
Qed.
End search.
