(* ===== verification/HnswGreedy.v ===== *)
(** * The HNSW index: greedy descent

    The [while (changed)] loops of [insert] and [search] end, because every
    round moves to a strictly closer node, and they end on a node that none of
    its neighbours improves on. *)

From S2P Require Import Prelude Storage MemoryMap MetadataStore Float32 PriorityQueue IndexTypes FloatExact Distance Hnsw HnswInv.

Lemma in_range_slots i id : HEADER_SIZE <= i_size i -> in_range i id <-> id < slots i.
Proof.
  intros Hh. unfold in_range, slot_end, slots. unfold SIZEOF_NODE, HEADER_SIZE in *.
  pose proof (N.div_mod (i_size i - 64) 1056 ltac:(done)). pose proof (N.mod_lt (i_size i - 64) 1056 ltac:(done)).
  set (q := (i_size i - 64) / 1056) in *. set (r := (i_size i - 64) mod 1056) in *. clearbody q r. lia.
Qed.

Lemma fltb_numbers x y : fltb x y = true -> is_nan x = false /\ is_nan y = false.
Proof. by destruct x as [[]|[]| |[]], y as [[]|[]| |[]]. Qed.

Lemma fltb_trans x y z : fltb x y = true -> fltb y z = true -> fltb x z = true.
Proof.
  intros H1 H2. destruct (fltb_numbers _ _ H1), (fltb_numbers _ _ H2).
  by apply (swo_trans (P := fun x => is_nan x = false) x y z).
Qed.

Lemma fltb_irrefl x : fltb x x = false.
Proof.
  destruct (is_nan x) eqn:E; [by destruct x|]. by apply (swo_irrefl (P := fun x => is_nan x = false)).
Qed.

Section greedy.
Context (fused : bool) (metric : DistanceMetric) (img : image) (query : list float32).
Hypothesis Hw : image_wf img.

Abbreviation dist_of := (dist_of fused metric query).

Definition dist_at (id : N) : float32 := dist_of (default zero_node (i_nodes img !! id)).

Lemma distance_to_at id : in_range img id -> distance_to fused metric img query id = Some (dist_at id).
Proof. intros H. unfold distance_to, get_node. by rewrite bool_decide_eq_true_2. Qed.

(** The slots closer than [dist]. *)
Definition closer (dist : float32) : list N :=
  filter (fun id => fltb (dist_at id) dist = true) (N.of_nat <$> seq 0 (N.to_nat (slots img))).

Lemma closer_bound dist : (length (closer dist) <= N.to_nat (slots img))%nat.
Proof.
  unfold closer. rewrite length_filter. rewrite length_fmap, length_seq. done.
Qed.

Lemma closer_decreases id dist :
  in_range img id -> fltb (dist_at id) dist = true -> (length (closer (dist_at id)) < length (closer dist))%nat.
Proof.
  intros Hr Hlt. apply in_range_slots in Hr; [|apply Hw].
  assert (id :: closer (dist_at id) ⊆+ closer dist) as Hsub; [|apply submseteq_length in Hsub; cbn in Hsub; lia].
  apply NoDup_submseteq.
  - apply NoDup_cons. split.
    + unfold closer. rewrite list_elem_of_filter. intros [H _]. by rewrite fltb_irrefl in H.
    + apply NoDup_filter, NoDup_fmap_2; [apply _|apply NoDup_seq].
  - intros x [->|Hx]%elem_of_cons; unfold closer in *; rewrite list_elem_of_filter in *.
    + split; [done|]. apply list_elem_of_fmap. exists (N.to_nat id). split; [lia|]. apply elem_of_seq. lia.
    + destruct Hx as [Hx Hin]. split; [|done]. by eapply fltb_trans.
Qed.

(** A scan of the neighbours: the closest of them and of the current node. *)
Lemma greedy_scan_spec ids dist curr changed :
  Forall (occupied img) ids ->
  exists dist' curr' changed', greedy_scan fused metric img query ids dist curr changed = Some (dist', curr', changed') /\
    (forall id, id ∈ ids -> fltb (dist_at id) dist' = false) /\
    ((dist' = dist /\ curr' = curr /\ changed' = changed) \/
     (changed' = true /\ occupied img curr' /\ dist' = dist_at curr' /\ fltb dist' dist = true)).
Proof.
  intros Hids. revert dist curr changed. induction Hids as [|id ids Hid _ IH]; intros dist curr changed.
  { do 3 eexists. split; [done|]. split; [by intros ? ?%elem_of_nil|by left]. }
  cbn [greedy_scan]. rewrite distance_to_at by (by apply occupied_in_range). cbn [mbind option_bind].
  destruct (fltb (dist_at id) dist) eqn:Hlt.
  - destruct (IH (dist_at id) id true) as (d' & c' & ch' & E & Hmin & Hcase). exists d', c', ch'. split; [done|].
    assert (fltb d' dist = true /\ fltb (dist_at id) d' = false) as [Hd Hn].
    { destruct Hcase as [(-> & _)|(_ & _ & _ & H)]; [by rewrite fltb_irrefl|]. split; [by eapply fltb_trans|].
      apply not_true_iff_false. intros H'. pose proof (fltb_trans _ _ _ H H') as Hc. by rewrite fltb_irrefl in Hc. }
    split.
    + intros x [->|Hx]%elem_of_cons; [done|by apply Hmin].
    + right. destruct Hcase as [(-> & -> & ->)|(? & ? & ? & _)]; done.
  - destruct (IH dist curr changed) as (d' & c' & ch' & E & Hmin & Hcase). exists d', c', ch'. split; [done|]. split; [|done].
    intros x [->|Hx]%elem_of_cons; [|by apply Hmin].
    destruct Hcase as [(-> & _)|(_ & _ & _ & H)]; [done|].
    apply not_true_iff_false. intros H'. pose proof (fltb_trans _ _ _ H' H). congruence.
Qed.

Lemma greedy_loop_spec fuel layer dist curr :
  (layer < MAX_LAYERS)%nat -> occupied img curr -> (length (closer dist) < fuel)%nat ->
  exists dist' curr', greedy_layer fused metric img fuel query layer dist curr = Some (dist', curr') /\
    occupied img curr' /\ (dist = dist_at curr -> dist' = dist_at curr') /\ (dist' = dist \/ fltb dist' dist = true) /\
    forall n ids id, get_node curr' img = Some n -> links n layer = Some ids -> id ∈ ids -> fltb (dist_at id) dist' = false.
Proof.
  intros Hl. revert dist curr. induction fuel as [|fuel IH]; intros dist curr Hr Hfuel; [lia|]. cbn [greedy_layer].
  destruct (occupied_node img curr Hw Hr) as (n & _ & Hg & Hn). rewrite Hg. cbn [mbind option_bind].
  destruct (links_wf img n layer Hn Hl) as (ids & Hids & Hin). rewrite Hids. cbn [mbind option_bind].
  destruct (greedy_scan_spec ids dist curr false Hin) as (d' & c' & ch' & -> & Hmin & Hcase). cbn [mbind option_bind].
  destruct Hcase as [(-> & -> & ->)|(-> & Hr' & -> & Hlt)].
  - exists dist, curr. split_and!; [done..|by left|]. intros n' ids' id Hg' Hids' Hid. simplify_eq. by apply Hmin.
  - destruct (IH (dist_at c') c' Hr') as (d2 & c2 & E & Hr2 & Hd2 & Hle & Hopt).
    { pose proof (closer_decreases c' dist (occupied_in_range _ _ Hw Hr') Hlt). lia. }
    exists d2, c2. split_and!; [done|done|by intros; apply Hd2| |done].
    right. destruct Hle as [->|Hle]; [done|by eapply fltb_trans].
Qed.

(** One layer, with the fuel of [descend]. *)
Lemma greedy_layer_spec layer dist curr :
  (layer < MAX_LAYERS)%nat -> occupied img curr ->
  exists dist' curr',
    greedy_layer fused metric img (S (S (N.to_nat (slots img)))) query layer dist curr = Some (dist', curr') /\
    occupied img curr' /\ (dist = dist_at curr -> dist' = dist_at curr') /\ (dist' = dist \/ fltb dist' dist = true) /\
    forall n ids id, get_node curr' img = Some n -> links n layer = Some ids -> id ∈ ids -> fltb (dist_at id) dist' = false.
Proof. intros Hl Hr. apply greedy_loop_spec; [done|done|]. pose proof (closer_bound dist). lia. Qed.

(** The layers of [layers_down hi lo]. *)
Lemma layers_down_bound hi lo l : l ∈ layers_down hi lo <-> (lo < l <= hi)%Z.
Proof.
  unfold layers_down. rewrite list_elem_of_fmap. split.
  - intros (k & -> & Hk%elem_of_seq). lia.
  - intros H. exists (Z.to_nat (hi - l)). rewrite elem_of_seq. lia.
Qed.

Lemma descend_spec layers dist curr :
  Forall (fun l => 0 <= l < Z.of_nat MAX_LAYERS)%Z layers -> occupied img curr -> dist = dist_at curr ->
  exists curr', descend fused metric img query layers dist curr = Some (dist_at curr', curr') /\
    occupied img curr' /\ (dist_at curr' = dist \/ fltb (dist_at curr') dist = true).
Proof.
  intros Hls. revert dist curr. induction Hls as [|l layers Hl _ IH]; intros dist curr Hr Hd.
  { exists curr. rewrite Hd. split_and!; [done|done|by left]. }
  cbn [descend]. unfold layer_index. rewrite bool_decide_eq_true_2 by lia. cbn [mbind option_bind].
  destruct (greedy_layer_spec (Z.to_nat l) dist curr) as (d1 & c1 & -> & Hr1 & Hd1 & Hle1 & _); [lia|done|].
  cbn [mbind option_bind]. destruct (IH d1 c1 Hr1 (Hd1 Hd)) as (c2 & E & Hr2 & Hle2). exists c2. split_and!; [done..|].
  destruct Hle2 as [->|Hle2]; [done|]. right. destruct Hle1 as [->|Hle1]; [done|by eapply fltb_trans].
Qed.

Lemma descend_app layers layers' dist curr :
  descend fused metric img query (layers ++ layers') dist curr =
  '(d, c) ← descend fused metric img query layers dist curr; descend fused metric img query layers' d c.
Proof.
  revert dist curr. induction layers as [|l layers IH]; intros dist curr; [done|]. cbn [descend app].
  destruct (layer_index l) as [layer|]; [|done]. cbn [mbind option_bind].
  destruct (greedy_layer _ _ _ _ _ _ _ _) as [[d c]|]; [|done]. apply IH.
Qed.

Lemma layers_down_last hi : (0 < hi)%Z -> layers_down hi 0 = layers_down hi 1 ++ [1%Z].
Proof.
  intros H. unfold layers_down. replace (Z.to_nat (hi - 0)) with (S (Z.to_nat (hi - 1))) by lia.
  rewrite seq_S, fmap_app. f_equal. cbn. f_equal. lia.
Qed.

(** The descent to layer 0 ends in a local minimum of layer 1. *)
Lemma descend_local_min hi dist curr curr' :
  (0 < hi < Z.of_nat MAX_LAYERS)%Z -> occupied img curr -> dist = dist_at curr ->
  descend fused metric img query (layers_down hi 0) dist curr = Some (dist_at curr', curr') ->
  forall n ids id, get_node curr' img = Some n -> links n 1 = Some ids -> id ∈ ids -> fltb (dist_at id) (dist_at curr') = false.
Proof.
  intros Hhi Ho Hd. rewrite layers_down_last, descend_app by lia.
  destruct (descend_spec (layers_down hi 1) dist curr) as (c1 & -> & Ho1 & _); [|done..|].
  { apply Forall_forall. intros l Hl%layers_down_bound. lia. }
  cbn [mbind option_bind descend]. change (layer_index 1) with (Some 1%nat). cbn [mbind option_bind].
  destruct (greedy_layer_spec 1 (dist_at c1) c1) as (d2 & c2 & -> & _ & _ & _ & Hmin); [unfold MAX_LAYERS; lia|done|].
  cbn [mbind option_bind]. by intros [= -> ->].
Qed.
End greedy.
