(* ===== verification/HnswUpdate.v ===== *)
(** * The HNSW index: insertion and deletion keep the invariant

    Links are added inside the arrays of the two nodes and change neither
    vectors nor tombstones.  An insertion whose level is one of the
    [MAX_LAYERS] layers and whose slot is reached by one extension of the file
    succeeds; the same facts are then the promises a shard needs of its
    index. *)

From S2P Require Import Prelude Storage MemoryMap MetadataStore Float32 PriorityQueue IndexTypes FloatExact Distance.
From S2P Require Import Hnsw HnswInv HnswGreedy.

(** ** Nodes *)

Lemma occupied_dom i id : occupied i id <-> id ∈ dom (i_nodes i).
Proof. unfold occupied. by rewrite elem_of_dom. Qed.

Lemma node_wf_mono i i' n : dom (i_nodes i) ⊆ dom (i_nodes i') -> node_wf i n -> node_wf i' n.
Proof.
  intros Hd [Hv Hn Hr Hc Hcnt Hl]. split; [done..|]. intros layer ids H. eapply Forall_impl; [by apply (Hl layer)|].
  intros id. rewrite !occupied_dom. apply Hd.
Qed.

(** The vector and the tombstone of a slot. *)
Definition payload (i : image) (id : N) : option (list float32 * bool) :=
  (fun n => (n_vector n, n_deleted n)) <$> get_node id i.

(** Two files that differ only in links. *)
Record same_payload (i i' : image) : Prop := {
  sp_size : i_size i' = i_size i;
  sp_header : i_header i' = i_header i;
  sp_dom : dom (i_nodes i') = dom (i_nodes i);
  sp_payload id : payload i' id = payload i id;
}.

#[export] Instance same_payload_refl : Reflexive same_payload.
Proof. by intros i. Qed.

#[export] Instance same_payload_trans : Transitive same_payload.
Proof. intros a b c [H1 H2 H3 H4] [H5 H6 H7 H8]. split; [congruence..|]. intros id. by rewrite H8, H4. Qed.

Lemma same_occupied i i' id : same_payload i i' -> occupied i id <-> occupied i' id.
Proof. intros H. rewrite !occupied_dom. by rewrite (sp_dom _ _ H). Qed.

Lemma get_node_in_range i id n : get_node id i = Some n -> in_range i id.
Proof. unfold get_node. by case_bool_decide. Qed.

Lemma put_node_spec img id n :
  image_wf img -> in_range img id -> node_wf img n ->
  exists img', put_node id n img = Some img' /\ image_wf img' /\ i_size img' = i_size img /\
    i_header img' = i_header img /\ dom (i_nodes img') = {[id]} ∪ dom (i_nodes img) /\ get_node id img' = Some n /\
    (forall id', id' <> id -> get_node id' img' = get_node id' img).
Proof.
  intros [Hh Hn] Hr Hw. unfold put_node. rewrite bool_decide_eq_true_2 by done.
  assert (dom (i_nodes img) ⊆ dom (<[id := n]> (i_nodes img))) as Hd by (rewrite dom_insert; set_solver).
  eexists. split; [done|]. split_and!; [|done|done|by apply dom_insert_L| |].
  - split; [done|]. cbn [i_nodes]. intros id' n'. rewrite lookup_insert_Some.
    intros [[<- <-]|[_ H]]; [split; [done|]|destruct (Hn _ _ H) as [? ?]; split; [done|]];
      (eapply node_wf_mono; [|done]); done.
  - unfold get_node. cbn [i_size i_nodes]. rewrite bool_decide_eq_true_2 by done. by rewrite lookup_insert_eq.
  - intros id' Hid. unfold get_node. cbn [i_size i_nodes]. by rewrite lookup_insert_ne.
Qed.

(** A node replaced by one with the same vector and tombstone. *)
Lemma relink_spec img id n n' :
  image_wf img -> occupied img id -> get_node id img = Some n -> node_wf img n' ->
  n_vector n' = n_vector n -> n_deleted n' = n_deleted n ->
  exists img', put_node id n' img = Some img' /\ image_wf img' /\ same_payload img img'.
Proof.
  intros Hw Ho Hg Hn' Hv Hd. destruct (put_node_spec img id n' Hw) as (img' & E & Hw' & Hs & Hh & Hdom & Hg' & Hother);
    [by eapply get_node_in_range|done|]. exists img'. split_and!; [done|done|]. split; [done|done| |].
  - apply occupied_dom in Ho. set_solver.
  - intros id'. unfold payload. destruct (decide (id' = id)) as [->|]; [|by rewrite Hother].
    rewrite Hg', Hg. cbn. by rewrite Hv, Hd.
Qed.

(** The neighbours of a node after one of them has been set: any property of
    the old ones and of the new one. *)
Lemma set_neighbor_links (P : N -> Prop) img n n' layer pos dest count c :
  node_wf img n -> n_counts n !! layer = Some c -> set_neighbor n layer pos dest count = Some n' ->
  (forall k, (k < Z.to_nat count)%nat -> k <> pos -> (k < Z.to_nat c)%nat) -> P dest ->
  (forall layer' ids, links n layer' = Some ids -> Forall P ids) ->
  forall layer' ids, links n' layer' = Some ids -> Forall P ids.
Proof.
  intros [_ Hn Hrows Hclen Hcnt _] Hc Hset Hk Hdest Hl layer' ids.
  unfold set_neighbor in Hset. pose proof (lookup_lt_Some _ _ _ Hc) as Hlay. rewrite Hclen in Hlay.
  destruct (n_neighbors n !! layer) as [row|] eqn:Er; [|done]. cbn [mbind option_bind] in Hset.
  pose proof (Forall_lookup_1 _ _ _ _ Hrows Er) as Hrow. cbn in Hrow.
  case_bool_decide; [|done]. injection Hset as <-.
  unfold links. cbn [n_neighbors n_counts]. destruct (decide (layer' = layer)) as [->|Hne].
  2: { rewrite !list_lookup_insert_ne by done. apply Hl. }
  rewrite !list_lookup_insert_eq by lia. cbn [mbind option_bind].
  case_bool_decide as Hb; [|done]. intros [= <-]. apply Forall_lookup_2. intros k x.
  rewrite lookup_take_Some, list_lookup_insert_Some.
  intros [[(-> & -> & _)|[Hne Hx]] Hkc]; [done|].
  assert (links n layer = Some (take (Z.to_nat c) row)) as Hlinks.
  { unfold links. rewrite Hc, Er. cbn [mbind option_bind]. rewrite bool_decide_eq_true_2; [done|].
    specialize (Hcnt layer c Hc). pose proof (max_conn_bound layer). rewrite Hrow. unfold M_MAX0, M in *. lia. }
  apply (Forall_lookup_1 _ _ k x (Hl layer _ Hlinks)). rewrite lookup_take_Some. split; [done|]. apply Hk; [lia|done].
Qed.

Lemma set_neighbor_spec img n layer pos dest count c :
  node_wf img n -> n_counts n !! layer = Some c -> (pos < Z.to_nat M_MAX0)%nat -> occupied img dest ->
  (0 <= count <= max_conn layer)%Z ->
  (forall k, (k < Z.to_nat count)%nat -> k <> pos -> (k < Z.to_nat c)%nat) ->
  exists n', set_neighbor n layer pos dest count = Some n' /\ node_wf img n' /\
    n_vector n' = n_vector n /\ n_deleted n' = n_deleted n.
Proof.
  intros Hnw Hc Hpos Hdest Hcount Hk. pose proof Hnw as [Hv Hn Hrows Hclen Hcnt Hl].
  pose proof (lookup_lt_Some _ _ _ Hc) as Hlay. rewrite Hclen in Hlay.
  destruct (lookup_lt_is_Some_2 (n_neighbors n) layer) as [row Er]; [lia|].
  pose proof (Forall_lookup_1 _ _ _ _ Hrows Er) as Hrow. cbn in Hrow.
  destruct (set_neighbor n layer pos dest count) as [n'|] eqn:E.
  2: { unfold set_neighbor in E. rewrite Er in E. cbn [mbind option_bind] in E.
       by rewrite bool_decide_eq_true_2 in E by (rewrite Hrow; done). }
  exists n'. split; [done|].
  pose proof (set_neighbor_links (occupied img) img n n' layer pos dest count c Hnw Hc E Hk Hdest Hl) as Hl'.
  unfold set_neighbor in E. rewrite Er in E. cbn [mbind option_bind] in E. case_bool_decide; [|done].
  injection E as <-. split; [|done]. split; cbn [n_vector n_neighbors n_counts].
  - done.
  - by rewrite length_insert.
  - apply Forall_insert; [done|]. by rewrite length_insert.
  - by rewrite length_insert.
  - intros layer' c'. rewrite list_lookup_insert_Some. intros [(<- & <- & _)|[_ H']]; [done|by apply Hcnt].
  - exact Hl'.
Qed.

(** ** Links *)

Section link.
Context (fused : bool) (metric : DistanceMetric).

Lemma farthest_spec img vec ids i max_d max_idx :
  image_wf img -> Forall (occupied img) ids ->
  exists d idx, farthest fused metric img vec ids i max_d max_idx = Some (d, idx) /\
    (idx = max_idx \/ (Z.of_nat i <= idx < Z.of_nat i + Z.of_nat (length ids))%Z).
Proof.
  intros Hw Hids. revert i max_d max_idx. induction Hids as [|id ids Hid _ IH]; intros i max_d max_idx.
  { do 2 eexists. split; [done|by left]. }
  cbn [farthest]. rewrite (distance_to_at fused metric img vec id (occupied_in_range _ _ Hw Hid)). cbn [mbind option_bind].
  destruct (fgtb _ _).
  - destruct (IH (S i) (dist_at fused metric img vec id) (Z.of_nat i)) as (d & idx & -> & H).
    exists d, idx. split; [done|]. right. cbn [length]. lia.
  - destruct (IH (S i) max_d max_idx) as (d & idx & -> & H). exists d, idx. split; [done|]. cbn [length].
    destruct H as [->|H]; [by left|right; lia].
Qed.

Lemma add_link_spec locks src dest layer img :
  image_wf img -> occupied img src -> occupied img dest -> (layer < MAX_LAYERS)%nat ->
  exists img', add_link fused metric locks src dest layer img = Some img' /\ image_wf img' /\ same_payload img img'.
Proof.
  intros Hw Hs Hd Hl. unfold add_link. case_bool_decide; [by exists img|].
  destruct (occupied_node img src Hw Hs) as (n & _ & Hg & Hn). rewrite Hg. cbn [mbind option_bind].
  destruct (lookup_lt_is_Some_2 (n_counts n) layer) as [c Ec]; [by rewrite (nw_counts _ _ Hn)|].
  rewrite Ec. cbn [mbind option_bind]. pose proof (nw_count _ _ Hn layer c Ec) as Hc.
  pose proof (max_conn_bound layer) as Hmax. case_bool_decide as Hroom.
  - unfold layer_index. rewrite bool_decide_eq_true_2 by lia. cbn [mbind option_bind].
    destruct (set_neighbor_spec img n layer (Z.to_nat c) dest (c + 1) c) as (n' & -> & Hn' & Hv & Hdel);
      [done|done|unfold M_MAX0, M in *; lia|done|lia|lia|].
    cbn [mbind option_bind]. by apply (relink_spec img src n n').
  - rewrite (distance_to_at fused metric img (n_vector n) dest (occupied_in_range _ _ Hw Hd)). cbn [mbind option_bind].
    destruct (links_wf img n layer Hn Hl) as (ids & Hids & Hin). rewrite Hids. cbn [mbind option_bind].
    destruct (farthest_spec img (n_vector n) ids 0 fminus_one (-1) Hw Hin) as (d & idx & -> & Hidx).
    cbn [mbind option_bind]. destruct (fltb _ _ && _) eqn:Eb; [|by exists img].
    apply andb_true_iff in Eb as [_ Hne%negb_true_iff%bool_decide_eq_false]. destruct Hidx as [?|Hidx]; [done|].
    assert (length ids <= Z.to_nat c)%nat as Hlen.
    { unfold links in Hids. rewrite Ec in Hids. destruct (n_neighbors n !! layer); [|done].
      cbn [mbind option_bind] in Hids. case_bool_decide; [|done]. injection Hids as <-. rewrite length_take. lia. }
    destruct (set_neighbor_spec img n layer (Z.to_nat idx) dest c c) as (n' & -> & Hn' & Hv & Hdel);
      [done|done|unfold M_MAX0, M in *; lia|done|lia|lia|].
    cbn [mbind option_bind]. by apply (relink_spec img src n n').
Qed.

Lemma link_all_spec locks id layer selected img :
  image_wf img -> occupied img id -> Forall (occupied img) selected -> (layer < MAX_LAYERS)%nat ->
  exists img', link_all fused metric locks id layer selected img = Some img' /\ image_wf img' /\ same_payload img img'.
Proof.
  intros Hw Hid Hsel Hl. revert img Hw Hid Hsel. induction selected as [|x selected IH]; intros img Hw Hid Hsel.
  { by exists img. }
  apply Forall_cons in Hsel as [Hx Hsel]. cbn [link_all].
  destruct (add_link_spec locks id x layer img Hw Hid Hx Hl) as (i1 & -> & Hw1 & Hp1). cbn [mbind option_bind].
  destruct (add_link_spec locks x id layer i1 Hw1) as (i2 & -> & Hw2 & Hp2);
    [by apply (same_occupied _ _ _ Hp1)..|done|]. cbn [mbind option_bind].
  pose proof (transitivity Hp1 Hp2) as Hp. destruct (IH i2 Hw2) as (i3 & -> & Hw3 & Hp3).
  - by apply (same_occupied _ _ _ Hp).
  - eapply Forall_impl; [exact Hsel|]. intros y Hy. by apply (same_occupied _ _ _ Hp).
  - exists i3. split_and!; [done|done|]. by etransitivity.
Qed.

Lemma pops_Forall {A} (lt : A -> A -> bool) (P : A -> Prop) n l : Forall P l -> Forall P (pops lt n l).
Proof.
  revert l. induction n as [|n IH]; intros [|x l] Hl; cbn [pops top head]; try by constructor.
  constructor; [by inversion Hl|]. apply IH. by apply pop_Forall.
Qed.

Lemma select_occupied query ef img found :
  layer_results fused metric img query ef found -> Forall (occupied img) (select_neighbors found).
Proof.
  intros [Hg _ _ _]. unfold select_neighbors. apply Forall_fmap, (pops_Forall _ (fun r => occupied img (r_id r))).
  eapply Forall_impl; [exact Hg|]. intros r (n & Hn & _). by eexists.
Qed.

Lemma connect_spec locks element_count id query layers curr img :
  image_wf img -> occupied img id -> occupied img curr -> Forall (fun l => 0 <= l < Z.of_nat MAX_LAYERS)%Z layers ->
  exists img', connect fused metric locks element_count id query layers curr img = Some img' /\
    image_wf img' /\ same_payload img img'.
Proof.
  intros Hw Hid Hcurr Hls. revert curr img Hw Hid Hcurr.
  induction Hls as [|l layers Hl _ IH]; intros curr img Hw Hid Hcurr; [by exists img|].
  cbn [connect]. unfold layer_index. rewrite bool_decide_eq_true_2 by lia. cbn [mbind option_bind].
  destruct (search_layer_spec fused metric img query element_count curr EF_CONSTRUCTION (Z.to_nat l))
    as (found & -> & Hres); [done|done|done|lia|]. cbn [mbind option_bind].
  pose proof (select_occupied _ _ _ _ Hres) as Hsel.
  destruct (link_all_spec locks id (Z.to_nat l) (select_neighbors found) img) as (i1 & -> & Hw1 & Hp1);
    [done|done|done|lia|]. cbn [mbind option_bind].
  destruct (IH (default curr (head (select_neighbors found))) i1 Hw1) as (i2 & -> & Hw2 & Hp2).
  - by apply (same_occupied _ _ _ Hp1).
  - apply (same_occupied _ _ _ Hp1). by destruct Hsel.
  - exists i2. split_and!; [done|done|]. by etransitivity.
Qed.
End link.

(** ** The index *)

Record index_wf (s : t) (img : image) : Prop := {
  ix_mapped : MMapHandler.mapped (storage_ s) (disk_ s) img;
  ix_image : image_wf img;
  ix_meta : MetadataHandler.wf (metadata_storage_ s);
  ix_entry : (entry_point_id_ s = NO_ENTRY /\ current_max_layer_ s = (-1)%Z) \/
             (entry_point_id_ s <> NO_ENTRY /\ occupied img (entry_point_id_ s) /\
              0 <= current_max_layer_ s < Z.of_nat MAX_LAYERS)%Z;
  ix_magic : magic (i_header img) = NANODB_MAGIC;
  ix_header : i_header img = header_of s (i_header img);
}.

Lemma with_data_mapped img img' s :
  MMapHandler.mapped (storage_ s) (disk_ s) img -> i_size img' = i_size img ->
  MMapHandler.mapped (storage_ (with_data img' s)) (disk_ (with_data img' s)) img'.
Proof.
  intros [Hd Hs] Hsz. unfold MMapHandler.mapped, MMapHandler.get_data in *. cbn.
  destruct (MMapHandler.data_ (storage_ s)); [done|done|]. rewrite lookup_insert_eq. split; [done|].
  rewrite Hs. cbn. congruence.
Qed.

(** The header of a file replaced by the counters of the index. *)
Definition with_header (s : t) (img : image) : image :=
  MkImage (i_size img) (header_of s (i_header img)) (i_nodes img).

Lemma with_header_wf s img : image_wf img -> image_wf (with_header s img).
Proof.
  intros [Hh Hn]. split; [done|]. intros id n H. destruct (Hn id n H) as [Hr Hw]. split; [done|].
  by eapply node_wf_mono; [|exact Hw].
Qed.

Lemma with_header_payload s img id : payload (with_header s img) id = payload img id.
Proof. done. Qed.

(** The metadata of an id that fits in an [int]. *)
Definition INT_LIMIT : N := 2147483648.

Lemma u32_to_i32_small id : id < INT_LIMIT -> u32_to_i32 id = Z.of_N id.
Proof. unfold u32_to_i32, INT_LIMIT. intros. by rewrite decide_True. Qed.

Lemma u32_to_i32_inj a b : a < U32 -> b < U32 -> u32_to_i32 a = u32_to_i32 b -> a = b.
Proof. unfold u32_to_i32, U32. intros. repeat case_decide; lia. Qed.

(** What an insertion leaves alone, and what it adds, apart from the file. *)
Record inserted (id : N) (metadata : string) (s s' : t) : Prop := {
  in_count : element_count_ s' = element_count_ s +u 1;
  in_metric : metric_ s' = metric_ s;
  in_metadata : metadata <> "" -> get_metadata id s' = metadata;
  in_no_metadata : metadata = "" -> get_metadata id s' = get_metadata id s;
  in_other id' : id' < U32 -> id' <> id -> get_metadata id' s' = get_metadata id' s;
}.

Lemma finish_insert_spec id metadata s img :
  MMapHandler.mapped (storage_ s) (disk_ s) img -> image_wf img -> MetadataHandler.wf (metadata_storage_ s) ->
  (entry_point_id_ s <> NO_ENTRY /\ occupied img (entry_point_id_ s) /\ 0 <= current_max_layer_ s < Z.of_nat MAX_LAYERS)%Z ->
  magic (i_header img) = NANODB_MAGIC -> id < INT_LIMIT ->
  exists s' img', finish_insert id metadata s = Some s' /\ index_wf s' img' /\ i_size img' = i_size img /\
    dom (i_nodes img') = dom (i_nodes img) /\
    (forall id', payload img' id' = payload img id') /\ inserted id metadata s s'.
Proof.
  intros Hm Hw Hmeta He Hmag Hid. unfold finish_insert.
  set (s1 := with_counters (entry_point_id_ s) (current_max_layer_ s) (element_count_ s +u 1) s).
  assert (persist_header s1 = Some (with_data (with_header s1 img) s1)) as ->.
  { unfold persist_header, data. cbn [storage_ disk_ s1 with_counters]. rewrite (proj1 Hm). cbn [mbind option_bind].
    rewrite bool_decide_eq_true_2 by apply Hw. done. }
  cbn [mbind option_bind]. set (s2 := with_data (with_header s1 img) s1).
  assert (MMapHandler.mapped (storage_ s2) (disk_ s2) (with_header s1 img)) as Hm2.
  { apply (with_data_mapped img); [exact Hm|done]. }
  destruct (MetadataHandler.save_get_frame (Z.of_N id) metadata (metadata_storage_ s) Hmeta) as (m' & Es & Hmw & Hne & He' & Ho); [lia|].
  assert (exists s3, save_metadata id metadata s2 = Some s3 /\ s3 = with_metadata m' s2) as (s3 & -> & ->).
  { unfold save_metadata. rewrite u32_to_i32_small by done. case_bool_decide as Hd.
    - rewrite (He' Hd). eexists. split; [done|]. by destruct s.
    - cbn [metadata_storage_ s2 with_data s1 with_counters]. rewrite Es. cbn [mbind option_bind]. by eexists. }
  exists (with_metadata m' s2), (with_header s1 img). split; [done|]. split; [|split; [done|split; [done|split; [done|]]]].
  - split; [exact Hm2|by apply with_header_wf|done|right; exact He|done|done].
  - split; try done; unfold get_metadata; cbn [metadata_storage_ with_metadata].
    + intros Hd. rewrite u32_to_i32_small by done. by apply Hne.
    + intros Hd. by rewrite (He' Hd).
    + intros id' Hu Hd. apply Ho. rewrite <-(u32_to_i32_small id) by done. intros E. apply Hd.
      apply u32_to_i32_inj; [done|unfold INT_LIMIT, U32 in *; lia|done].
Qed.

(** [expand] reaches the slot of an id at most one behind the last. *)
(** The size of the file after room was made for [id]. *)
Definition grown_size (id size : N) : N := if size <?? slot_end id then size + RESIZE_STEP else size.

Lemma grown_size_le id size : size <= grown_size id size.
Proof. unfold grown_size. case_bool_decide; lia. Qed.

Lemma expand_spec id s img :
  index_wf s img -> id < INT_LIMIT -> id <= slots img ->
  exists s' img', expand MMapHandler.all_succeed id s = (Ret tt, s') /\
    MMapHandler.mapped (storage_ s') (disk_ s') img' /\ image_wf img' /\ in_range img' id /\
    i_size img' = grown_size id (i_size img) /\ i_nodes img' = i_nodes img /\ i_header img' = i_header img /\
    metadata_storage_ s' = metadata_storage_ s /\ metric_ s' = metric_ s /\
    entry_point_id_ s' = entry_point_id_ s /\ current_max_layer_ s' = current_max_layer_ s /\
    element_count_ s' = element_count_ s.
Proof.
  intros [Hm Hw _ _ _ _] Hlim Hid. unfold expand.
  pose proof (iw_header _ Hw) as Hh. pose proof (proj2 Hm) as Hsz. cbn [c_size image_contents] in Hsz.
  unfold grown_size. rewrite Hsz. case_bool_decide as Hlt.
  2: { exists s, img. split_and!; try done; unfold in_range; lia. }
  assert (i_size img +u RESIZE_STEP = i_size img + RESIZE_STEP) as ->.
  { apply u64_add_small. unfold slot_end, HEADER_SIZE, SIZEOF_NODE, INT_LIMIT, RESIZE_STEP, U64 in *. lia. }
  destruct (MMapHandler.resize_spec (i_size img + RESIZE_STEP) _ _ _ Hm) as (h' & disk' & -> & Hm' & _).
  cbn [c_size image_contents c_extend] in Hm'. rewrite bool_decide_eq_true_2 in Hm' by (unfold RESIZE_STEP; lia).
  do 2 eexists. split; [reflexivity|]. cbn [storage_ disk_ metadata_storage_ metric_ entry_point_id_ current_max_layer_ element_count_].
  split; [exact Hm'|]. cbn [i_size i_nodes i_header].
  split_and!; try done; [|unfold in_range; cbn [i_size]].
  - split; [cbn; lia|]. cbn [i_nodes]. intros id' n H. destruct (iw_nodes _ Hw id' n H) as [Hr Hn].
    unfold in_range in *. cbn [i_size]. split; [lia|]. by eapply node_wf_mono; [|exact Hn].
  - unfold slots in Hid. unfold slot_end, HEADER_SIZE, SIZEOF_NODE, RESIZE_STEP in *.
    pose proof (N.div_mod (i_size img - 64) 1056 ltac:(done)). pose proof (N.mod_lt (i_size img - 64) 1056 ltac:(done)).
    set (q := (i_size img - 64) / 1056) in *. set (r := (i_size img - 64) mod 1056) in *. clearbody q r. lia.
Qed.

Lemma new_node_wf img garbage id level v :
  length v = VECTOR_DIM -> node_wf img (new_node garbage id level v) /\ n_vector (new_node garbage id level v) = v.
Proof.
  intros Hv. assert (n_vector (new_node garbage id level v) = v) as E.
  { cbn [new_node n_vector]. rewrite take_ge by lia. rewrite resize_app_le by lia. by rewrite resize_all_alt. }
  split; [|done]. by apply (unlinked_wf img _ (U32 - 1)); [rewrite E|..].
Qed.

Lemma payload_nodes i i' id x :
  i_nodes i' = i_nodes i -> i_size i <= i_size i' -> payload i id = Some x -> payload i' id = Some x.
Proof.
  intros Hn Hs. unfold payload, get_node. rewrite Hn. case_bool_decide as Hr; [|done].
  rewrite bool_decide_eq_true_2 by lia. done.
Qed.

Section ops.
Context (fused : bool).

(** An insertion after the node has been stored. *)
Lemma link_in_spec id level m s img :
  MMapHandler.mapped (storage_ s) (disk_ s) img -> image_wf img -> MetadataHandler.wf (metadata_storage_ s) ->
  (entry_point_id_ s = NO_ENTRY /\ current_max_layer_ s = (-1)%Z) \/
  (entry_point_id_ s <> NO_ENTRY /\ occupied img (entry_point_id_ s) /\ 0 <= current_max_layer_ s < Z.of_nat MAX_LAYERS)%Z ->
  magic (i_header img) = NANODB_MAGIC -> id < INT_LIMIT -> occupied img id -> (0 <= level < Z.of_nat MAX_LAYERS)%Z ->
  forall query, exists s' img',
    (if entry_point_id_ s =?? NO_ENTRY
     then finish_insert id m (with_counters id level (element_count_ s) s)
     else insert_linked fused id level query m s) = Some s' /\
    index_wf s' img' /\ i_size img' = i_size img /\ dom (i_nodes img') = dom (i_nodes img) /\
    (forall id', payload img' id' = payload img id') /\ inserted id m s s'.
Proof.
  intros Hm Hw Hmeta He Hmag Hid Hr Hlev query.
  assert (id <> NO_ENTRY) as Hne by (unfold NO_ENTRY, U32, INT_LIMIT in *; lia).
  case_bool_decide as Hentry.
  { destruct (finish_insert_spec id m (with_counters id level (element_count_ s) s) img) as (s' & img' & E & Hix & Hs & Hd & Hp & Hin);
      [done..|]. exists s', img'. split_and!; [done..|]. by destruct Hin. }
  destruct He as [[? _]|(_ & Her & Hlay)]; [done|]. unfold insert_linked.
  unfold data. rewrite (proj1 Hm). cbn [mbind option_bind].
  rewrite (distance_to_at fused (metric_ s) img query _ (occupied_in_range _ _ Hw Her)). cbn [mbind option_bind].
  destruct (descend_spec fused (metric_ s) img query Hw (layers_down (current_max_layer_ s) level)
    (dist_at fused (metric_ s) img query (entry_point_id_ s)) (entry_point_id_ s)) as (curr & -> & Hcr & _); [|done|done|].
  { apply Forall_forall. intros l Hl%layers_down_bound. lia. }
  cbn [mbind option_bind].
  destruct (connect_spec fused (metric_ s) (node_locks_ s) (element_count_ s) id query
    (layers_down (Z.min level (current_max_layer_ s)) (-1)) curr img) as (i1 & -> & Hw1 & Hp1); [done|done|done| |].
  { apply Forall_forall. intros l Hl%layers_down_bound. lia. }
  cbn [mbind option_bind]. set (s1 := with_data i1 s).
  assert (MMapHandler.mapped (storage_ s1) (disk_ s1) i1) as Hm1 by (apply (with_data_mapped img); [done|apply Hp1]).
  assert (magic (i_header i1) = NANODB_MAGIC) as Hmag1 by (by rewrite (sp_header _ _ Hp1)).
  assert (forall e, occupied img e -> occupied i1 e) as Hocc by (intros e He; by apply (same_occupied img i1 e Hp1)).
  set (s2 := if bool_decide (current_max_layer_ s1 < level)%Z then with_counters id level (element_count_ s1) s1 else s1).
  destruct (finish_insert_spec id m s2 i1) as (s' & img' & E & Hix & Hs & Hd & Hp & Hin).
  - subst s2. by case_bool_decide.
  - done.
  - subst s2. by case_bool_decide.
  - subst s2. case_bool_decide; [split; [exact Hne|split; [by apply Hocc|exact Hlev]]|].
    split; [exact Hentry|split; [by apply Hocc|exact Hlay]].
  - done.
  - done.
  - exists s', img'. split_and!; [done|done| | | |].
    + by rewrite Hs, (sp_size _ _ Hp1).
    + by rewrite Hd, (sp_dom _ _ Hp1).
    + intros id'. by rewrite Hp, (sp_payload _ _ Hp1).
    + subst s2. destruct Hin as [H1 H2 H3 H4 H5]. unfold get_metadata in *. by case_bool_decide.
Qed.

Lemma insert_spec d v id m s img :
  index_wf s img -> (get_random_level d < Z.of_nat MAX_LAYERS)%Z -> d_sys d = MMapHandler.all_succeed ->
  length v = VECTOR_DIM -> id < INT_LIMIT -> id <= slots img ->
  exists s' img', insert fused d v id m s = Some (Ret tt, s') /\ index_wf s' img' /\ i_size img' = grown_size id (i_size img) /\
    dom (i_nodes img') = {[id]} ∪ dom (i_nodes img) /\ payload img' id = Some (v, false) /\
    (forall id' x, id' <> id -> payload img id' = Some x -> payload img' id' = Some x) /\ inserted id m s s'.
Proof.
  intros Hix Hlev Hsys Hv Hlim Hid. unfold insert. rewrite Hsys.
  destruct (expand_spec id s img Hix Hlim Hid)
    as (s1 & i1 & -> & Hm1 & Hw1 & Hr1 & Hs1 & Hn1 & Hh1 & Emeta & Emetric & Eentry & Elayer & Ecount).
  unfold data. rewrite (proj1 Hm1). cbn [mbind option_bind].
  destruct (new_node_wf i1 (d_garbage d) id (get_random_level d) v Hv) as [Hnw Hnv].
  destruct (put_node_spec i1 id _ Hw1 Hr1 Hnw) as (i2 & -> & Hw2 & Hs2 & Hh2 & Hd2 & Hg2 & Ho2). cbn [mbind option_bind].
  pose proof (with_data_mapped i1 i2 s1 Hm1 Hs2) as Hm2. destruct Hix as [Hm Hw Hmeta He Hmag Hhd].
  rewrite Hn1 in Hd2. assert (forall e, e = id \/ occupied img e -> occupied i2 e) as Hocc.
  { intros e. rewrite !occupied_dom, Hd2. set_solver. }
  destruct (link_in_spec id (get_random_level d) m (with_data i2 s1) i2)
    with (query := n_vector (new_node (d_garbage d) id (get_random_level d) v))
    as (s' & img' & -> & Hix' & Hs' & Hd' & Hp' & Hin'); [done|done| | | |done|by apply Hocc; left| |].
  - cbn. by rewrite Emeta.
  - cbn [entry_point_id_ current_max_layer_ with_data]. rewrite Eentry, Elayer.
    destruct He as [?|(? & ? & ?)]; [by left|right; split; [done|split; [by apply Hocc; right|done]]].
  - by rewrite Hh2, Hh1.
  - split; [unfold get_random_level; lia|done].
  - cbn [mbind option_bind]. exists s', img'. split; [done|]. split; [done|]. split; [congruence|].
    split; [by rewrite Hd'|]. split_and!.
    + rewrite Hp'. unfold payload. rewrite Hg2. cbn [fmap option_fmap option_map]. by rewrite Hnv.
    + intros id' x Hne Hx. rewrite Hp'. unfold payload. rewrite Ho2 by done.
      apply (payload_nodes img i1 id' x Hn1); [rewrite Hs1; apply grown_size_le|done].
    + destruct Hin' as [H1 H2 H3 H4 H5]. unfold get_metadata in *.
      cbn [with_data element_count_ metric_ metadata_storage_] in *. rewrite Emeta, Emetric, Ecount in *. by split.
Qed.

(** The file of the index stays the same file. *)
Lemma expand_path sc id s r s' :
  expand sc id s = (r, s') -> MMapHandler.file_path_ (storage_ s') = MMapHandler.file_path_ (storage_ s).
Proof.
  unfold expand. case_bool_decide; [|by intros [= _ <-]]. unfold MMapHandler.resize, MMapHandler.close_file.
  destruct (MMapHandler.data_ (storage_ s)); unfold MMapHandler.open_file; cbn zeta; cbn [MMapHandler.file_path_];
    repeat case_match; simplify_eq; by intros [= _ <-].
Qed.

Lemma finish_insert_keeps id m s s' :
  finish_insert id m s = Some s' -> storage_ s' = storage_ s /\ entry_point_id_ s' = entry_point_id_ s.
Proof.
  unfold finish_insert, persist_header. destruct (data _); [|done]. cbn [mbind option_bind].
  case_bool_decide; [|done]. cbn [mbind option_bind]. unfold save_metadata. case_bool_decide; [by intros [= <-]|].
  destruct (MetadataHandler.save_metadata _ _ _); [|done]. cbn [mbind option_bind]. by intros [= <-].
Qed.

Lemma insert_path d v id m s r s' :
  insert fused d v id m s = Some (r, s') -> MMapHandler.file_path_ (storage_ s') = MMapHandler.file_path_ (storage_ s).
Proof.
  unfold insert. destruct (expand (d_sys d) id s) as [r0 s0] eqn:E. apply expand_path in E. rewrite <-E.
  destruct r0; [|by intros [= _ <-]]. destruct (data s0); [|done]. cbn [mbind option_bind].
  destruct (put_node _ _ _); [|done]. cbn [mbind option_bind]. intros (s1 & Es & [= _ <-])%bind_Some. f_equal.
  case_bool_decide; [by apply finish_insert_keeps in Es as [? _]|]. unfold insert_linked in Es.
  apply bind_Some in Es as (im & _ & Es). apply bind_Some in Es as (x & _ & Es). apply bind_Some in Es as ([y z] & _ & Es).
  apply bind_Some in Es as (im' & _ & Es). apply finish_insert_keeps in Es as [Es _]. rewrite Es. by case_bool_decide.
Qed.

Lemma finish_insert_saves id m s s' :
  finish_insert id m s = Some s' ->
  MetadataHandler.save_metadata (u32_to_i32 id) m (metadata_storage_ s) = Some (metadata_storage_ s').
Proof.
  unfold finish_insert, persist_header. destruct (data _); [|done]. cbn [mbind option_bind].
  case_bool_decide; [|done]. cbn [mbind option_bind]. unfold save_metadata. case_bool_decide as Hm.
  - intros [= <-]. unfold MetadataHandler.save_metadata. by rewrite (bool_decide_eq_true_2 _ Hm).
  - cbn [metadata_storage_ with_data with_counters].
    destruct (MetadataHandler.save_metadata _ _ _) as [x|]; [|done]. cbn [mbind option_bind]. by intros [= <-].
Qed.

(** An insertion saves the metadata it is given, and nothing else. *)
Lemma insert_saves d v id m s u s' :
  insert fused d v id m s = Some (Ret u, s') ->
  MetadataHandler.save_metadata (u32_to_i32 id) m (metadata_storage_ s) = Some (metadata_storage_ s').
Proof.
  unfold insert. destruct (expand (d_sys d) id s) as [[] s0] eqn:E; [|done].
  assert (metadata_storage_ s0 = metadata_storage_ s) as <-.
  { revert E. unfold expand. case_bool_decide; [|intros ?; by simplify_eq]. destruct (MMapHandler.resize _ _ _ _) as [[r h] disk].
    intros H'. by simplify_eq. }
  destruct (data s0); [|done]. cbn [mbind option_bind]. destruct (put_node _ _ _); [|done]. cbn [mbind option_bind].
  intros (s1 & Es & [= _ <-])%bind_Some. case_bool_decide; [by apply finish_insert_saves in Es|]. unfold insert_linked in Es.
  apply bind_Some in Es as (im & _ & Es). apply bind_Some in Es as (x & _ & Es). apply bind_Some in Es as ([y z] & _ & Es).
  apply bind_Some in Es as (im' & _ & Es). apply finish_insert_saves in Es. by case_bool_decide.
Qed.

(** After an insertion there is an entry point. *)
Lemma insert_entry d v id m s s' :
  insert fused d v id m s = Some (Ret tt, s') -> id <> NO_ENTRY -> entry_point_id_ s' <> NO_ENTRY.
Proof.
  unfold insert. destruct (expand (d_sys d) id s) as [[] s0]; [|done]. destruct (data s0); [|done]. cbn [mbind option_bind].
  destruct (put_node _ _ _); [|done]. cbn [mbind option_bind]. intros (s1 & Es & [= <-])%bind_Some Hid.
  case_bool_decide as He; [by apply finish_insert_keeps in Es as [_ ->]|]. unfold insert_linked in Es.
  apply bind_Some in Es as (im & _ & Es). apply bind_Some in Es as (x & _ & Es). apply bind_Some in Es as ([y z] & _ & Es).
  apply bind_Some in Es as (im' & _ & Es). apply finish_insert_keeps in Es as [_ ->]. by case_bool_decide.
Qed.

Lemma delete_keeps id s s' : delete_vector id s = Some s' -> node_locks_ s' = node_locks_ s /\ storage_ s' = storage_ s.
Proof.
  unfold delete_vector, persist_header. destruct (out_of_range id s); [by intros [= <-]|].
  destruct (data s); [|done]. cbn [mbind option_bind]. destruct (get_node _ _) as [n|]; [|done]. cbn [mbind option_bind].
  destruct (n_deleted n); [by intros [= <-]|]. destruct (put_node _ _ _); [|done]. cbn [mbind option_bind].
  destruct (data _); [|done]. cbn [mbind option_bind]. case_bool_decide; [|done]. by intros [= <-].
Qed.

Lemma delete_spec id s img :
  index_wf s img ->
  exists s' img', delete_vector id s = Some s' /\ index_wf s' img' /\ i_size img' = i_size img /\
    (forall id', occupied img' id' -> occupied img id' \/ id' = id) /\
    payload img' id = (fun x => (x.1, true)) <$> payload img id /\
    (forall id', id' <> id -> payload img' id' = payload img id') /\
    metadata_storage_ s' = metadata_storage_ s /\ metric_ s' = metric_ s /\
    element_count_ s' = (if decide (snd <$> payload img id = Some false) then element_count_ s -u 1 else element_count_ s).
Proof.
  intros Hix. pose proof Hix as [Hm Hw Hmeta He Hmag Hhd]. unfold delete_vector, out_of_range.
  pose proof (proj2 Hm) as Hsz. cbn [c_size image_contents] in Hsz. rewrite Hsz. case_bool_decide as Hr.
  { assert (payload img id = None) as Hp by (unfold payload, get_node; by rewrite bool_decide_eq_false_2 by lia).
    exists s, img. rewrite Hp. rewrite decide_False by done. split_and!; auto. }
  unfold data. rewrite (proj1 Hm). cbn [mbind option_bind].
  destruct (get_node_wf img id Hw) as (n & Hg & Hn); [unfold in_range; lia|]. rewrite Hg. cbn [mbind option_bind].
  assert (payload img id = Some (n_vector n, n_deleted n)) as Hp by (unfold payload; by rewrite Hg).
  rewrite Hp. cbn [fmap option_fmap option_map fst snd]. destruct (n_deleted n) eqn:Ed.
  { exists s, img. rewrite decide_False by done. rewrite Hp. split_and!; auto. }
  rewrite decide_True by done.
  assert (node_wf img (mark_deleted n)) as Hn' by (by destruct Hn; split).
  destruct (put_node_spec img id (mark_deleted n) Hw) as (i1 & -> & Hw1 & Hs1 & Hh1 & Hd1 & Hg1 & Ho1);
    [unfold in_range; lia|done|]. cbn [mbind option_bind].
  set (s1 := with_counters (entry_point_id_ (with_data i1 s)) (current_max_layer_ (with_data i1 s))
    (element_count_ (with_data i1 s) -u 1) (with_data i1 s)).
  assert (MMapHandler.mapped (storage_ s1) (disk_ s1) i1) as Hm1 by (by apply (with_data_mapped img)).
  assert (persist_header s1 = Some (with_data (with_header s1 i1) s1)) as ->.
  { unfold persist_header, data. rewrite (proj1 Hm1). cbn [mbind option_bind].
    rewrite bool_decide_eq_true_2 by apply Hw1. done. }
  exists (with_data (with_header s1 i1) s1), (with_header s1 i1). split; [done|]. split; [|split_and!; try done].
  - split; [by apply (with_data_mapped i1)|by apply with_header_wf|done| |by cbn; rewrite Hh1|done].
    destruct He as [?|(? & He & ?)]; [by left|]. right. split; [done|]. split; [|done].
    apply occupied_dom in He. apply occupied_dom. cbn [with_header i_nodes]. set_solver.
  - intros id'. rewrite !occupied_dom. cbn [with_header i_nodes]. rewrite Hd1. set_solver.
  - rewrite with_header_payload. unfold payload. by rewrite Hg1.
  - intros id' Hne. rewrite with_header_payload. unfold payload. by rewrite Ho1.
Qed.
End ops.

(** ** A new index *)

(** The size that the servers give a new file. *)
Definition PREALLOCATION : N := 104857600.

(** The index of a file that did not exist. *)
Lemma create_fresh_sized path size :
  HEADER_SIZE <= size ->
  exists h disk s img, MMapHandler.open_file MMapHandler.all_succeed path size MMapHandler.create (∅ : gmap string image) = (Ret tt, h, disk) /\
    create h disk None L2 = Some s /\ index_wf s img /\ i_nodes img = ∅ /\ i_size img = size /\
    metadata_storage_ s = MetadataHandler.open_file None /\ metric_ s = L2 /\
    entry_point_id_ s = NO_ENTRY /\ element_count_ s = 0 /\ node_locks_ s = 10000.
Proof.
  intros Hsz.
  destruct (MMapHandler.open_spec path size MMapHandler.create (∅ : gmap string image)) as (h & disk & E & Hm & _ & _ & _).
  change (default c_empty ((∅ : gmap string image) !! path)) with (c_empty : image) in Hm.
  cbn [c_size c_empty c_extend image_contents i_size i_header i_nodes] in Hm.
  rewrite bool_decide_eq_true_2 in Hm by (unfold HEADER_SIZE in *; lia).
  set (img0 := MkImage size (MkHeader 0 0 0 0) ∅) in Hm.
  set (img := MkImage size (MkHeader NANODB_MAGIC 0 (-1) (-1)) ∅).
  set (s0 := Mk h disk (MetadataHandler.open_file None) L2 NO_ENTRY (-1) 0 10000).
  exists h, disk, (with_data img s0), img. split; [done|]. split.
  { unfold create. rewrite (proj1 Hm). cbn [mbind option_bind]. by rewrite bool_decide_eq_true_2 by done. }
  split; [|done]. split.
  - by apply (with_data_mapped img0).
  - split; [done|]. intros id n H. cbn [img i_nodes] in H. by rewrite lookup_empty in H.
  - intros i off len H. done.
  - by left.
  - done.
  - done.
Qed.

Lemma create_fresh path :
  exists h disk s img, MMapHandler.open_file MMapHandler.all_succeed path PREALLOCATION MMapHandler.create (∅ : gmap string image) = (Ret tt, h, disk) /\
    create h disk None L2 = Some s /\ index_wf s img /\ i_nodes img = ∅ /\ i_size img = PREALLOCATION /\
    metadata_storage_ s = MetadataHandler.open_file None /\ metric_ s = L2 /\
    entry_point_id_ s = NO_ENTRY /\ element_count_ s = 0 /\ node_locks_ s = 10000.
Proof. apply create_fresh_sized. vm_compute. discriminate. Qed.

(** The index on an empty disk, and with one vector in it. *)
Definition new_index : option t :=
  match MMapHandler.open_file MMapHandler.all_succeed "index" PREALLOCATION MMapHandler.create (∅ : gmap string image) with
  | (Ret _, h, disk) => create h disk None L2
  | _ => None
  end.

Definition ground : draws := MkDraws (fun _ => false) [] MMapHandler.all_succeed.

Definition ones : list float32 := replicate VECTOR_DIM fone.

Definition one_vector : option t :=
  s ← new_index; r ← insert true ground ones 0 "tag" s; match r with (Ret _, s) => Some s | _ => None end.

Lemma one_vector_wf :
  exists s img, one_vector = Some s /\ index_wf s img /\ entry_point_id_ s = 0 /\ element_count_ s = 1 /\
    metric_ s = L2 /\ node_locks_ s = 10000 /\ i_size img = PREALLOCATION /\
    i_nodes img = {[0 := new_node [] 0 0 ones]}.
Proof.
  destruct (create_fresh "index") as (h & disk & s & img & Eo & Ec & Hix & _ & Hsz & _).
  destruct (insert_spec true ground ones 0 "tag" s img) as (s' & img' & Ei & Hix' & _); try done.
  { apply N.le_0_l. }
  exists s', img'. assert (new_index = Some s) as En by (unfold new_index; by rewrite Eo).
  assert (one_vector = Some s') as E by (unfold one_vector; rewrite En; cbn [mbind option_bind]; by rewrite Ei).
  split; [done|]. split; [done|].
  assert (fmap (fun s => (entry_point_id_ s, element_count_ s, metric_ s, node_locks_ s, i_size <$> data s, i_nodes <$> data s)) one_vector =
    Some (0, 1, L2, 10000, Some PREALLOCATION, Some {[0 := new_node [] 0 0 ones]})) as Hf by (vm_compute; reflexivity).
  rewrite E in Hf. cbn [fmap option_fmap option_map] in Hf. unfold data in Hf.
  rewrite (proj1 (ix_mapped _ _ Hix')) in Hf. cbn [option_map] in Hf.
  clear - Hf. simplify_eq. split_and!; [done..| |]; by apply (inj Some).
Qed.
