(* ===== verification/HnswSearch.v ===== *)
(** * The HNSW index: what a search returns

    Every search on a well-formed index ends and returns distinct live
    vectors with their distances and metadata, nearest first.  While fewer
    vectors than the beam width are stored, the beam search of a layer visits
    everything that can be reached, so that the result is the exact answer
    among the reachable vectors. *)

From stdpp Require Import relations.
From S2P Require Import Prelude Storage MemoryMap MetadataStore Float32 PriorityQueue IndexTypes FloatExact Distance.
From S2P Require Import Hnsw HnswInv HnswGreedy HnswUpdate.

(** ** Completeness of a layer search *)

Section complete.
Context (fused : bool) (metric : DistanceMetric) (img : image) (query : list float32).
Context (ef : Z) (visited_size : N) (layer : nat).
Hypotheses (Hw : image_wf img) (Hlayer : (layer < MAX_LAYERS)%nat).

Definition linked (a b : N) : Prop :=
  exists n ids, i_nodes img !! a = Some n /\ links n layer = Some ids /\ b ∈ ids.

(** A finite set that the links do not leave, smaller than the beam. *)
Context (X : gset N).
Hypotheses (HX : forall a b, a ∈ X -> linked a b -> b ∈ X) (Hef : (Z.of_nat (base.size X) < ef)%Z)
  (Hbound : forall a, a ∈ X -> a < visited_size).

Definition live (id : N) : Prop := exists n, i_nodes img !! id = Some n /\ n_deleted n = false.

Abbreviation search_inv := (search_inv fused metric img query ef visited_size).

(** [except]: the node that is being expanded. *)
Record all_inv (entry : N) (except : option N) (st : frontier) : Prop := {
  ai_inv : search_inv st;
  ai_X : f_visited st ⊆ X;
  ai_entry : entry ∈ f_visited st;
  ai_reach id : id ∈ f_visited st -> rtc linked entry id;
  ai_cand id : id ∈ r_id <$> f_candidates st -> id ∈ f_visited st;
  ai_found id : id ∈ r_id <$> f_found st <-> id ∈ f_visited st /\ live id;
  ai_done id : id ∈ f_visited st -> Some id = except \/ id ∈ r_id <$> f_candidates st \/
    forall b, linked id b -> b ∈ f_visited st;
}.

Lemma found_small entry except st : all_inv entry except st -> (Z.of_nat (length (f_found st)) <= Z.of_nat (base.size (f_visited st)))%Z.
Proof.
  intros Ha. apply inj_le. rewrite <-(length_fmap r_id). apply NoDup_length_le; [apply (ai_inv _ _ _ Ha)|].
  intros x Hx. by apply (ai_found _ _ _ Ha) in Hx as [Hx _].
Qed.

Lemma visited_small entry except st : all_inv entry except st -> (base.size (f_visited st) <= base.size X)%nat.
Proof. intros Ha. apply subseteq_size, Ha. Qed.

Lemma visit_all_inv entry curr id st :
  all_inv entry (Some curr) st -> curr ∈ f_visited st -> linked curr id ->
  exists st', visit fused metric img query ef visited_size id st = Some st' /\ all_inv entry (Some curr) st' /\
    id ∈ f_visited st' /\ f_visited st ⊆ f_visited st' /\ (cost visited_size st' <= cost visited_size st)%nat.
Proof.
  intros Ha Hcurr Hlink. assert (id ∈ X) as HidX by (eapply HX; [|exact Hlink]; by apply (ai_X _ _ _ Ha)).
  assert (occupied img id) as Hocc.
  { destruct Hlink as (n & ids & Hn & Hl & Hin). destruct (iw_nodes _ Hw _ _ Hn) as [_ Hnw].
    pose proof (nw_links _ _ Hnw layer ids Hl) as HF. rewrite Forall_forall in HF. by apply HF. }
  assert (0 < ef)%Z as Hpos by lia.
  destruct (visit_spec fused metric img query ef visited_size id st Hw Hpos Hocc (ai_inv _ _ _ Ha)) as (st' & E & Hinv' & Hcost).
  exists st'. split; [done|]. destruct (decide (id ∈ f_visited st)) as [Hin|Hnin].
  { unfold visit in E. rewrite (bool_decide_eq_true_2 (id ∈ _)) in E by done. rewrite orb_true_r in E. by simplify_eq. }
  destruct (occupied_node img id Hw Hocc) as (n & Hn & Hg & _).
  pose proof (found_small _ _ _ Ha) as Hfs. pose proof (visited_small _ _ _ Ha) as Hvs.
  rewrite (visit_eq fused metric img query ef visited_size id n st) in E by (done || by apply Hbound || lia).
  rewrite bool_decide_eq_true_2 in E by lia. cbn [orb] in E. injection E as E.
  set (r := MkResult id (dist_of fused metric query n) "") in *.
  assert (base.size ({[id]} ∪ f_visited st) = S (base.size (f_visited st))) as Hsz.
  { rewrite size_union, size_singleton by set_solver. lia. }
  assert ({[id]} ∪ f_visited st ⊆ X) as HsubX by (pose proof (ai_X _ _ _ Ha); set_solver).
  assert (base.size ({[id]} ∪ f_visited st) <= base.size X)%nat by (by apply subseteq_size).
  assert (add_found ef r (f_found st) = push result_lt r (f_found st)) as Hadd.
  { unfold add_found. rewrite bool_decide_eq_false_2; [done|]. rewrite push_perm. cbn [length]. lia. }
  rewrite Hadd in E. subst st'. cbn [f_visited f_candidates f_found] in *. split; [|set_solver].
  split; cbn [f_visited f_candidates f_found]; try done.
  - apply elem_of_union. right. apply Ha.
  - intros x [->%elem_of_singleton|Hx]%elem_of_union; [|by apply (ai_reach _ _ _ Ha)].
    eapply rtc_r; [by apply (ai_reach _ _ _ Ha)|done].
  - intros x. rewrite push_perm. cbn. intros [->|Hx]%elem_of_cons; [set_solver|].
    apply elem_of_union. right. by apply (ai_cand _ _ _ Ha).
  - intros x. destruct (n_deleted n) eqn:Ed.
    + rewrite (ai_found _ _ _ Ha). split; [intros [? ?]; split; [set_solver|done]|].
      intros [[->%elem_of_singleton|?]%elem_of_union Hlive]; [|done].
      destruct Hlive as (n' & Hn' & Hd'). congruence.
    + rewrite push_perm. cbn. rewrite elem_of_cons, (ai_found _ _ _ Ha). split.
      * intros [->|[? ?]]; [split; [set_solver|by exists n]|split; [set_solver|done]].
      * intros [[->%elem_of_singleton|?]%elem_of_union Hlive]; [by left|by right].
  - intros x [->%elem_of_singleton|Hx]%elem_of_union.
    + right. left. rewrite push_perm. cbn. by left.
    + destruct (ai_done _ _ _ Ha x Hx) as [?|[Hc|Hall]]; [by left|right; left|right; right].
      * rewrite push_perm. cbn. by right.
      * intros b Hb. apply elem_of_union. right. by apply Hall.
Qed.

Lemma expand_all_inv entry curr ids st :
  all_inv entry (Some curr) st -> curr ∈ f_visited st -> (forall id, id ∈ ids -> linked curr id) ->
  exists st', visit_all fused metric img query ef visited_size ids st = Some st' /\ all_inv entry (Some curr) st' /\
    (forall id, id ∈ ids -> id ∈ f_visited st') /\ f_visited st ⊆ f_visited st' /\ (cost visited_size st' <= cost visited_size st)%nat.
Proof.
  revert st. induction ids as [|id ids IH]; intros st Ha Hcurr Hl.
  { exists st. split_and!; [done|done|by intros ? ?%elem_of_nil|done|done]. }
  cbn [visit_all]. destruct (visit_all_inv entry curr id st Ha Hcurr) as (s1 & -> & Ha1 & Hin1 & Hsub1 & Hc1);
    [apply Hl; by left|]. cbn [mbind option_bind].
  destruct (IH s1 Ha1) as (s2 & -> & Ha2 & Hin2 & Hsub2 & Hc2); [by apply Hsub1|intros; apply Hl; by right|].
  exists s2. split_and!; [done|done| |set_solver|lia].
  intros x [->|Hx]%elem_of_cons; [by apply Hsub2|by apply Hin2].
Qed.

Lemma loop_complete fuel entry st :
  all_inv entry None st -> (cost visited_size st < fuel)%nat ->
  exists found, search_loop fused metric img fuel query ef layer visited_size st = Some found /\
    forall id, id ∈ r_id <$> found <-> rtc linked entry id /\ live id.
Proof.
  revert st. induction fuel as [|fuel IH]; intros st Ha Hf; [lia|]. cbn [search_loop].
  destruct (top (f_candidates st)) as [curr|] eqn:Et.
  2: { eexists. split; [done|]. intros id. rewrite (ai_found _ _ _ Ha). split.
       - intros [Hv Hlive]. split; [by apply (ai_reach _ _ _ Ha)|done].
       - intros [Hr Hlive]. split; [|done].
         assert (forall a c, rtc linked a c -> a ∈ f_visited st -> c ∈ f_visited st) as Hclosed.
         { induction 1 as [x|x y z Hxy Hyz IHr]; intros Hx; [done|]. apply IHr.
           destruct (ai_done _ _ _ Ha x Hx) as [?|[Hc|Hall]]; [done| |by apply Hall].
           destruct (f_candidates st); [by apply elem_of_nil in Hc|done]. }
         by apply (Hclosed entry id), Ha. }
  destruct (pop_candidate fused metric img query ef visited_size st curr (ai_inv _ _ _ Ha) Et) as (Hinv' & _ & Hcost).
  assert (curr ∈ f_candidates st) as Hcin by (destruct (f_candidates st); [done|]; cbn in Et; simplify_eq; by left).
  assert (r_id curr ∈ f_visited st) as Hcv by (apply (ai_cand _ _ _ Ha), list_elem_of_fmap; by exists curr).
  pose proof (found_small _ _ _ Ha). pose proof (visited_small _ _ _ Ha).
  assert (stop_here ef curr (f_found st) = false) as Hstop.
  { unfold stop_here. destruct (top (f_found st)); [|done]. rewrite (bool_decide_eq_false_2 (_ <= _)%Z) by lia. apply andb_false_r. }
  cbn [f_found]. rewrite Hstop.
  destruct (si_visited _ _ _ _ _ _ _ (ai_inv _ _ _ Ha) _ Hcv) as [_ Hocc].
  destruct (occupied_node img (r_id curr) Hw Hocc) as (n & Hn & -> & Hnw). cbn [mbind option_bind].
  destruct (links_wf img n layer Hnw Hlayer) as (ids & Hids & _). rewrite Hids. cbn [mbind option_bind].
  set (st1 := MkFrontier (f_visited st) (pop result_gt (f_candidates st)) (f_found st)) in *.
  assert (all_inv entry (Some (r_id curr)) st1) as Ha1.
  { destruct Ha as [_ Hx He Hr Hc Hfd Hd]. split; try done.
    - intros id Hid%pop_ids. by apply Hc.
    - intros id Hid. destruct (Hd id Hid) as [?|[Hin|?]]; [done| |by right; right].
      destruct (f_candidates st) as [|x l] eqn:E; [done|]. cbn in Et. injection Et as ->.
      pose proof (pop_perm result_gt curr l) as Hp. rewrite <-Hp in Hin. cbn in Hin.
      apply elem_of_cons in Hin as [->|Hin]; [by left|]. right. left. done. }
  destruct (expand_all_inv entry (r_id curr) ids st1 Ha1 Hcv) as (st2 & -> & Ha2 & Hall & Hsub & Hc2).
  { intros id Hid. by exists n, ids. }
  cbn [mbind option_bind]. apply IH; [|lia].
  destruct Ha2 as [Hi Hx He Hr Hc Hfd Hd]. split; try done.
  intros id Hid. destruct (Hd id Hid) as [[= ->]|?]; [|by right]. right. right.
  intros b (n' & ids' & Hn' & Hids' & Hb). simplify_eq. by apply Hall.
Qed.
End complete.

(** Exactly the live nodes that can be reached from the entry point. *)
Lemma search_layer_complete fused metric img query ef layer element_count entry (X : gset N) :
  image_wf img -> (layer < MAX_LAYERS)%nat -> occupied img entry -> entry ∈ X ->
  (forall a b, a ∈ X -> linked img layer a b -> b ∈ X) -> (Z.of_nat (base.size X) < ef)%Z ->
  (forall a, a ∈ X -> a < N.max entry element_count +u 2000) ->
  exists found, search_layer fused metric img element_count entry query ef layer = Some found /\
    layer_results fused metric img query ef found /\
    forall id, id ∈ r_id <$> found <-> rtc (linked img layer) entry id /\ live img id.
Proof.
  intros Hw Hl Hocc HeX HX Hef Hb. assert (0 < ef)%Z as Hpos by lia.
  destruct (search_layer_spec fused metric img query element_count entry ef layer Hw Hocc Hpos Hl) as (found & E & Hres).
  exists found. split; [done|]. split; [done|]. unfold search_layer in E.
  set (vs := N.max entry element_count +u 2000) in *.
  destruct (occupied_node img entry Hw Hocc) as (n & Hlk & Hg & _). rewrite Hg in E. cbn [mbind option_bind] in E.
  set (start := MkResult entry (compute_distance fused query (n_vector n) VECTOR_DIM metric) "") in *.
  specialize (Hb entry HeX) as Hev. rewrite (bool_decide_eq_true_2 _ Hev) in E.
  set (st := MkFrontier {[entry]} (push result_gt start []) (if n_deleted n then [] else push result_lt start [])) in *.
  assert (all_inv fused metric img query ef vs layer X entry None st) as Ha.
  { assert (measured fused metric img query start) as Hm by (by exists n). split; subst st; cbn [f_visited f_candidates f_found].
    - split; cbn [f_visited f_candidates f_found].
      + by intros id ->%elem_of_singleton.
      + by apply push_measured.
      + destruct (n_deleted n) eqn:Ed; [done|]. apply push_measured; [by exists n|done].
      + destruct (n_deleted n); [constructor|]. rewrite push_perm. apply NoDup_singleton.
      + intros id Hid. left. destruct (n_deleted n); [by apply elem_of_nil in Hid|]. rewrite push_perm in Hid.
        apply list_elem_of_singleton in Hid as ->. set_solver.
      + destruct (n_deleted n); cbn; lia.
      + intros Hn. assert (comparable start) as Hs.
        { assert (Forall comparable [start]) as Hc by (by eapply measured_comparable; [exact Hn|]; repeat constructor). by inversion Hc. }
        split; [destruct (n_deleted n); [apply heap_nil|]|]; (apply (push_heap _ comparable); [constructor|done|apply heap_nil]).
    - set_solver.
    - set_solver.
    - intros id ->%elem_of_singleton. apply rtc_refl.
    - intros id. rewrite push_perm. cbn. intros ->%list_elem_of_singleton. set_solver.
    - intros id. destruct (n_deleted n) eqn:Ed.
      + split; [by intros ?%elem_of_nil|]. intros [->%elem_of_singleton (n' & Hn' & Hd')]. congruence.
      + rewrite push_perm. cbn. rewrite list_elem_of_singleton, elem_of_singleton. split; [|tauto]. intros ->. split; [done|by exists n].
    - intros id ->%elem_of_singleton. right. left. rewrite push_perm. by left. }
  destruct (loop_complete fused metric img query ef vs layer Hw Hl X HX Hef Hb (S (S (N.to_nat vs))) entry st Ha)
    as (found' & E' & Hiff).
  { unfold cost. subst st. cbn [f_visited f_candidates]. rewrite push_perm. cbn [length]. lia. }
  rewrite E in E'. injection E' as <-. done.
Qed.

(** ** A search that starts at a live node finds something *)

Section nonempty.
Context (fused : bool) (metric : DistanceMetric) (img : image) (query : list float32) (ef : Z).
Hypothesis Hef : (0 < ef)%Z.

Lemma visit_keeps id visited_size st st' :
  visit fused metric img query ef visited_size id st = Some st' -> f_found st <> [] -> f_found st' <> [].
Proof.
  unfold visit. destruct (_ || _); [by intros [= <-]|]. intros (n & _ & H)%bind_Some.
  apply bind_Some in H as ([] & _ & H); [|by injection H as <-]. injection H as <-. cbn [f_found].
  destruct (n_deleted n); [done|]. intros _. set (l := push _ _ _).
  assert (length l = S (length (f_found st))) as Hl by (unfold l; by rewrite push_perm).
  clearbody l. destruct l as [|x l]; [done|]. cbn [length] in Hl.
  case_bool_decide as Hb; [|done]. intros E%(f_equal length). rewrite pop_length in E. cbn in E, Hb. lia.
Qed.

Lemma visit_all_keeps ids visited_size st st' :
  visit_all fused metric img query ef visited_size ids st = Some st' -> f_found st <> [] -> f_found st' <> [].
Proof.
  revert st. induction ids as [|id ids IH]; intros st; cbn [visit_all]; [by intros [= <-]|].
  intros (st1 & H1 & H2)%bind_Some Hne. eapply IH; [done|]. by eapply visit_keeps.
Qed.

Lemma search_loop_keeps fuel layer visited_size st found :
  search_loop fused metric img fuel query ef layer visited_size st = Some found -> f_found st <> [] -> found <> [].
Proof.
  revert st. induction fuel as [|fuel IH]; intros st; cbn [search_loop]; (destruct (top _); [|by intros [= <-]]); [done|].
  destruct (stop_here _ _ _); [by intros [= <-]|].
  intros (n & _ & H)%bind_Some Hne. apply bind_Some in H as (ids & _ & H). apply bind_Some in H as (st1 & H1 & H).
  eapply IH; [done|]. by eapply visit_all_keeps.
Qed.

Lemma search_layer_nonempty element_count entry layer found n :
  get_node entry img = Some n -> n_deleted n = false ->
  search_layer fused metric img element_count entry query ef layer = Some found -> found <> [].
Proof.
  intros Hg Hd. unfold search_layer. rewrite Hg. cbn [mbind option_bind]. rewrite Hd. intros H.
  eapply search_loop_keeps; [exact H|]. cbn [f_found]. intros E%(f_equal length). rewrite push_perm in E. done.
Qed.
End nonempty.

(** ** The results of [search] *)

Definition attach (m : MetadataHandler.t) (r : Result) : Result :=
  MkResult (r_id r) (r_distance r) (MetadataHandler.get_metadata (u32_to_i32 (r_id r)) m).

Section results.
Context (fused : bool).

Lemma collect_eq metric img query m rs :
  image_wf img -> Forall (good fused metric img query) rs -> collect img m rs = Some (attach m <$> rs).
Proof.
  intros Hw. induction 1 as [|r rs (n & Hn & Hd & _) _ IH]; [done|]. cbn [collect].
  destruct (occupied_node img (r_id r) Hw ltac:(by eexists)) as (n' & Hn' & -> & _). cbn [mbind option_bind].
  rewrite IH. cbn [mbind option_bind]. simplify_eq. by rewrite Hd.
Qed.

(** [curr] is where the greedy descent of a search from the entry point to
    layer 0 ends: the entry point itself when there is no layer above, and
    otherwise a node whose neighbours on layer 1 are no nearer to the query. *)
Definition descent_ends (query : list float32) (s : t) (img : image) (curr : N) : Prop :=
  descend fused (metric_ s) img query (layers_down (current_max_layer_ s) 0)
    (dist_at fused (metric_ s) img query (entry_point_id_ s)) (entry_point_id_ s) =
    Some (dist_at fused (metric_ s) img query curr, curr) /\
  (current_max_layer_ s = 0%Z -> curr = entry_point_id_ s) /\
  ((0 < current_max_layer_ s)%Z -> forall id, linked img 1 curr id ->
     fltb (dist_at fused (metric_ s) img query id) (dist_at fused (metric_ s) img query curr) = false).

(** [search] as a descent to a node that is no farther than the entry point
    and a beam search from there. *)
Lemma search_unfold query k s img :
  index_wf s img -> entry_point_id_ s <> NO_ENTRY -> (VECTOR_DIM <= length query)%nat ->
  exists curr, occupied img curr /\
    (dist_at fused (metric_ s) img query curr = dist_at fused (metric_ s) img query (entry_point_id_ s) \/
     fltb (dist_at fused (metric_ s) img query curr) (dist_at fused (metric_ s) img query (entry_point_id_ s)) = true) /\
    descent_ends query s img curr /\
    forall found,
      search_layer fused (metric_ s) img (element_count_ s) curr query (Z.max 100 k) 0 = Some found ->
      layer_results fused (metric_ s) img query (Z.max 100 k) found ->
      search fused query k s =
        Some (take (N.to_nat (N.min (size_t_of_int k) (N.of_nat (length found))))
                (reverse (attach (metadata_storage_ s) <$> drain result_lt found))).
Proof.
  intros [Hm Hw _ He _ _] Hne Hq. destruct He as [[? _]|(_ & Hocc & Hlay)]; [done|].
  destruct (descend_spec fused (metric_ s) img query Hw (layers_down (current_max_layer_ s) 0)
    (dist_at fused (metric_ s) img query (entry_point_id_ s)) (entry_point_id_ s)) as (curr & Edesc & Hcr & Hle); [|done|done|].
  { apply Forall_forall. intros l Hl%layers_down_bound. lia. }
  exists curr. split; [done|]. split; [done|]. split.
  { split; [exact Edesc|]. split; [intros E0; rewrite E0 in Edesc; cbn in Edesc; by injection Edesc|].
    intros Hpos id (n & ids & Hn & Hl & Hid). destruct (occupied_node img curr Hw Hcr) as (n' & Hn' & Hg & _). simplify_eq.
    eapply (descend_local_min _ _ _ _ Hw (current_max_layer_ s)); [lia|exact Hocc|reflexivity|exact Edesc|exact Hg|exact Hl|exact Hid]. }
  intros found Hf Hres. unfold search.
  rewrite bool_decide_eq_false_2 by done. rewrite bool_decide_eq_false_2 by lia. unfold data. rewrite (proj1 Hm).
  cbn [mbind option_bind]. rewrite (distance_to_at fused (metric_ s) img query _ (occupied_in_range _ _ Hw Hocc)).
  cbn [mbind option_bind]. rewrite Edesc. cbn [mbind option_bind]. rewrite Hf. cbn [mbind option_bind].
  rewrite (collect_eq (metric_ s) img query); [|done|rewrite drain_perm; by apply (lr_good _ _ _ _ _ _ Hres)].
  cbn [mbind option_bind]. by rewrite length_fmap, (Permutation_length (drain_perm result_lt found)).
Qed.

(** What every search result is. *)
Record search_ok (query : list float32) (k : Z) (s : t) (img : image) (rs : list Result) : Prop := {
  so_nodup : NoDup (r_id <$> rs);
  so_live : Forall (fun r => exists n, i_nodes img !! r_id r = Some n /\ n_deleted n = false /\
    r_distance r = compute_distance fused query (n_vector n) VECTOR_DIM (metric_ s) /\
    r_metadata r = get_metadata (r_id r) s) rs;
  so_length : (0 <= k -> Z.of_nat (length rs) <= k)%Z;
  so_length_neg : (k < 0 -> Z.of_nat (length rs) <= 100)%Z;
  so_sorted : numeric fused (metric_ s) img query ->
    StronglySorted (fun x y => fltb (r_distance y) (r_distance x) = false) rs;
}.

Lemma size_t_nonneg k : (0 <= k < Z.of_N U64)%Z -> size_t_of_int k = Z.to_N k.
Proof. intros H. unfold size_t_of_int. by rewrite Z.mod_small. Qed.

(** The results, nearest first. *)
Lemma results_sorted m metric img query ef found :
  layer_results fused metric img query ef found -> numeric fused metric img query ->
  StronglySorted (fun x y => fltb (r_distance y) (r_distance x) = false) (reverse (attach m <$> drain result_lt found)).
Proof.
  intros Hres Hnum. apply (StronglySorted_reverse (fun x y => fltb (r_distance x) (r_distance y) = false)).
  eapply StronglySorted_fmap; [|apply (drain_sorted result_lt comparable); [|by apply Hres]]; [done|].
  eapply goods_comparable; [done|apply Hres].
Qed.

Lemma results_perm m found : reverse (attach m <$> drain result_lt found) ≡ₚ attach m <$> found.
Proof. by rewrite reverse_Permutation, drain_perm. Qed.

(** What is cut off is no nearer than what is returned. *)
Lemma cut_off_farther m metric img query ef found cut id :
  layer_results fused metric img query ef found -> numeric fused metric img query ->
  let rs := reverse (attach m <$> drain result_lt found) in
  id ∈ r_id <$> rs -> id ∉ r_id <$> take cut rs ->
  (cut < length rs)%nat /\ forall r, r ∈ take cut rs -> fltb (dist_at fused metric img query id) (r_distance r) = false.
Proof.
  intros Hres Hnum rs Hin Hnot. assert (id ∈ r_id <$> drop cut rs) as Hdrop.
  { rewrite <-(take_drop cut rs), fmap_app, elem_of_app in Hin. by destruct Hin. }
  split.
  { destruct (decide (cut < length rs)%nat); [done|]. rewrite drop_ge in Hdrop by lia. by apply elem_of_nil in Hdrop. }
  intros r Hr. apply list_elem_of_fmap in Hdrop as (x & -> & Hx).
  pose proof (results_sorted m _ _ _ _ _ Hres Hnum) as Hsort. fold rs in Hsort. rewrite <-(take_drop cut rs) in Hsort.
  pose proof (StronglySorted_app_1_elem_of _ _ _ r x Hsort Hr Hx) as Hord. cbn in Hord.
  assert (x ∈ rs) as Hxin by (rewrite <-(take_drop cut rs); apply elem_of_app; by right).
  unfold rs in Hxin. rewrite results_perm, list_elem_of_fmap in Hxin. destruct Hxin as (y & -> & Hy).
  pose proof (lr_good _ _ _ _ _ _ Hres) as Hgood. rewrite Forall_forall in Hgood.
  destruct (Hgood y Hy) as (n & Hn & _ & Hd). cbn [attach r_id r_distance] in *.
  unfold dist_at. rewrite Hn. cbn [default]. rewrite Hd in Hord. exact Hord.
Qed.

Lemma results_ok query k s img found :
  (k < Z.of_N U64)%Z -> layer_results fused (metric_ s) img query (Z.max 100 k) found ->
  search_ok query k s img
    (take (N.to_nat (N.min (size_t_of_int k) (N.of_nat (length found))))
       (reverse (attach (metadata_storage_ s) <$> drain result_lt found))).
Proof.
  intros Hk Hres. pose proof Hres as [Hg Hnd _ _]. set (rs := reverse (attach (metadata_storage_ s) <$> drain result_lt found)).
  pose proof (results_perm (metadata_storage_ s) found) as Hp. fold rs in Hp.
  split.
  - assert (NoDup (r_id <$> rs)) as Hall by (rewrite Hp, <-list_fmap_compose; exact Hnd).
    rewrite <-(take_drop (N.to_nat (N.min (size_t_of_int k) (N.of_nat (length found)))) rs), fmap_app in Hall.
    by apply NoDup_app in Hall as (Hall & _).
  - apply Forall_take. rewrite Hp. apply Forall_fmap. eapply Forall_impl; [exact Hg|]. intros r (n & Hn & Hd & Hdist).
    exists n. done.
  - intros H0. rewrite length_take, size_t_nonneg by lia. lia.
  - intros H0. rewrite length_take, Hp, length_fmap. pose proof (lr_length _ _ _ _ _ _ Hres). lia.
  - intros Hn. by eapply StronglySorted_take, results_sorted.
Qed.

Lemma search_sound_aux query k s img :
  index_wf s img -> (VECTOR_DIM <= length query)%nat -> (k < Z.of_N U64)%Z ->
  exists rs, search fused query k s = Some rs /\ search_ok query k s img rs.
Proof.
  intros Hix Hq Hk. destruct (decide (entry_point_id_ s = NO_ENTRY)) as [He|He].
  { exists []. split; [unfold search; by rewrite bool_decide_eq_true_2|]. split; first [by constructor|cbn; lia]. }
  destruct (search_unfold query k s img Hix He Hq) as (curr & Hocc & _ & _ & Hfound).
  destruct (search_layer_spec fused (metric_ s) img query (element_count_ s) curr (Z.max 100 k) 0)
    as (found & Hf & Hres); [apply Hix|done|lia|unfold MAX_LAYERS; lia|].
  rewrite (Hfound found Hf Hres). eexists. split; [done|]. by apply results_ok.
Qed.

(** When nothing is deleted and [k] is positive, there is a result. *)
Lemma search_nonempty query k s img rs :
  index_wf s img -> entry_point_id_ s <> NO_ENTRY -> (VECTOR_DIM <= length query)%nat -> (0 < k < Z.of_N U64)%Z ->
  (forall id, occupied img id -> live img id) -> search fused query k s = Some rs -> rs <> [].
Proof.
  intros Hix He Hq Hk Hlive Hs. destruct (search_unfold query k s img Hix He Hq) as (curr & Hocc & _ & _ & Hfound).
  destruct (search_layer_spec fused (metric_ s) img query (element_count_ s) curr (Z.max 100 k) 0)
    as (found & Hf & Hres); [apply Hix|done|lia|unfold MAX_LAYERS; lia|].
  rewrite (Hfound found Hf Hres) in Hs. injection Hs as <-.
  destruct (Hlive curr Hocc) as (n & Hn & Hd).
  destruct (occupied_node img curr (ix_image _ _ Hix) Hocc) as (n' & Hn' & Hg & _). simplify_eq.
  pose proof (search_layer_nonempty fused (metric_ s) img query (Z.max 100 k) ltac:(lia) _ _ _ found n Hg Hd Hf) as Hne.
  intros E%(f_equal length). rewrite length_take, length_reverse, length_fmap, drain_perm in E.
  rewrite size_t_nonneg in E by lia. destruct found; [done|]. cbn [length] in E. lia.
Qed.


Lemma search_small_aux (query : list float32) (k : Z) (s : t) (img : image) :
  index_wf s img -> entry_point_id_ s <> NO_ENTRY -> (VECTOR_DIM <= length query)%nat -> (0 <= k <= 2147483647)%Z ->
  numeric fused (metric_ s) img query ->
  (base.size (dom (i_nodes img)) < 100)%nat -> (forall id, occupied img id -> id < 2000) -> element_count_ s < U32 ->
  exists curr rs, search fused query k s = Some rs /\ occupied img curr /\ descent_ends query s img curr /\
    fltb (dist_at fused (metric_ s) img query (entry_point_id_ s)) (dist_at fused (metric_ s) img query curr) = false /\
    (forall r, r ∈ rs -> rtc (linked img 0) curr (r_id r)) /\
    (forall id, rtc (linked img 0) curr id -> live img id -> id ∉ r_id <$> rs ->
       Z.of_nat (length rs) = k /\
       forall r, r ∈ rs -> fltb (dist_at fused (metric_ s) img query id) (r_distance r) = false).
Proof.
  intros Hix He Hq Hk Hnum Hsmall Hids Hcount.
  destruct (search_unfold query k s img Hix He Hq) as (curr & Hocc & Hle & Hends & Hfound). pose proof (ix_image _ _ Hix) as Hw.
  destruct (search_layer_complete fused (metric_ s) img query (Z.max 100 k) 0 (element_count_ s) curr (dom (i_nodes img)))
    as (found & Hf & Hres & Hiff).
  - done.
  - unfold MAX_LAYERS. lia.
  - done.
  - by apply occupied_dom.
  - intros a b _ (n & ids & Hn & Hl & Hb). apply occupied_dom. destruct (iw_nodes _ Hw _ _ Hn) as [_ Hnw].
    pose proof (nw_links _ _ Hnw 0 ids Hl) as HF. rewrite Forall_forall in HF. by apply HF.
  - lia.
  - intros a Ha%occupied_dom%Hids. specialize (Hids curr Hocc). rewrite u64_add_small; [lia|]. unfold U64, U32 in *. lia.
  - exists curr. rewrite (Hfound found Hf Hres). eexists. split; [done|]. split; [done|]. split; [exact Hends|].
    set (rs := reverse (attach (metadata_storage_ s) <$> drain result_lt found)).
    pose proof (results_perm (metadata_storage_ s) found) as Hp. fold rs in Hp.
    assert (forall id, id ∈ r_id <$> rs <-> rtc (linked img 0) curr id /\ live img id) as Hall.
    { intros id. rewrite Hp, <-list_fmap_compose. apply Hiff. }
    rewrite size_t_nonneg by (unfold U64; lia). set (m := N.to_nat _).
    assert (m = min (Z.to_nat k) (length rs)) as Hm by (unfold m; rewrite Hp, length_fmap; lia).
    split; [|split].
    + destruct Hle as [->|Hlt]; [apply fltb_irrefl|]. apply not_true_iff_false. intros H.
      pose proof (fltb_trans _ _ _ Hlt H) as Hc. by rewrite fltb_irrefl in Hc.
    + intros r Hr. apply Hall, list_elem_of_fmap. exists r. split; [done|]. by eapply elem_of_take in Hr as (i & Hr & _); eapply list_elem_of_lookup_2.
    + intros id Hreach Hlive Hnot.
      destruct (cut_off_farther (metadata_storage_ s) _ _ _ _ _ m id Hres Hnum) as [Hml Hfar]; [by apply Hall|done|].
      fold rs in Hml, Hfar. split; [rewrite length_take; lia|done].
Qed.
End results.

Lemma one_vector_numeric s img :
  metric_ s = L2 -> i_nodes img = {[0 := new_node [] 0 0 ones]} -> numeric true (metric_ s) img ones.
Proof.
  intros Hm Hn id n. rewrite Hn, Hm, lookup_singleton_Some. intros [_ <-]. vm_compute. reflexivity.
Qed.


