(* ===== verification/HnswReopen.v ===== *)
(** * The HNSW index across a restart

    A node that stops and starts again finds its file: the constructor of
    [src/include/index/hnsw.hpp] restores entry point, top layer and number of
    elements from the header that every update has written, and a search of
    the reopened index finds what a search would have found before. *)

From S2P Require Import Prelude Storage MemoryMap MetadataStore Float32 PriorityQueue IndexTypes FloatExact Distance.
From S2P Require Import Hnsw HnswInv HnswGreedy HnswUpdate HnswSearch.

(** [close_file], and then [open_file] and the constructor in a new process. *)
Definition reopen (meta_file : option bytes) (s : t) : option t :=
  match MMapHandler.open_file MMapHandler.all_succeed (MMapHandler.file_path_ (MMapHandler.close_file (storage_ s)))
          PREALLOCATION MMapHandler.create (disk_ s) with
  | (Ret _, storage, disk) => create storage disk meta_file (metric_ s)
  | (Throw _, _, _) => None
  end.

Lemma u32_roundtrip n : n < U32 -> i32_to_u32 (u32_to_i32 n) = n.
Proof.
  intros Hn. unfold i32_to_u32, u32_to_i32, U32 in *. case_decide.
  - rewrite Z.mod_small by lia. lia.
  - replace (Z.of_N n - 4294967296)%Z with (Z.of_N n + (-1) * 4294967296)%Z by lia. rewrite Z.mod_add, Z.mod_small by lia. lia.
Qed.

(** ** The metadata file *)

(** Two tables that give the same texts. *)
Definition same_text (m m' : MetadataHandler.t) : Prop :=
  forall id, MetadataHandler.get_metadata id m = MetadataHandler.get_metadata id m'.

(** A restart reads the metadata back as it was. *)
Definition metadata_kept (m : MetadataHandler.t) : Prop :=
  MetadataHandler.wf (MetadataHandler.open_file (Some (MetadataHandler.file_ m))) /\
  same_text m (MetadataHandler.open_file (Some (MetadataHandler.file_ m))).

Lemma metadata_kept_empty m : MetadataHandler.wf m -> MetadataHandler.file_ m = [] -> metadata_kept m.
Proof.
  intros Hw Hf. unfold metadata_kept. rewrite Hf. split; [by intros i off len H|]. intros id.
  unfold MetadataHandler.get_metadata. case_bool_decide; [done|].
  change (MetadataHandler.offsets_ (MetadataHandler.open_file (Some []))) with (@nil (N * N)). rewrite lookup_nil.
  destruct (MetadataHandler.offsets_ m !! Z.to_nat id) as [[off len]|] eqn:E; [|done]. case_bool_decide as Hl; [done|].
  destruct (Hw _ _ _ E) as [?|Hb]; [done|]. rewrite Hf in Hb. change (bsize []) with 0 in Hb. lia.
Qed.

(** ** The index file *)

(** What the constructor makes of the file of a well-formed index. *)
Lemma reopen_spec meta_file s img :
  index_wf s img -> PREALLOCATION <= i_size img -> element_count_ s < U32 -> entry_point_id_ s < U32 ->
  exists s', reopen meta_file s = Some s' /\ MMapHandler.mapped (storage_ s') (disk_ s') img /\
    MMapHandler.file_path_ (storage_ s') = MMapHandler.file_path_ (storage_ s) /\
    metadata_storage_ s' = MetadataHandler.open_file meta_file /\ metric_ s' = metric_ s /\
    entry_point_id_ s' = entry_point_id_ s /\ current_max_layer_ s' = current_max_layer_ s /\
    element_count_ s' = element_count_ s /\ node_locks_ s' = element_count_ s + 10000.
Proof.
  intros [Hm Hw _ _ Hmag Hhd] Hsz Hc He. unfold reopen. destruct Hm as [Hd Hs].
  assert (disk_ s !! MMapHandler.file_path_ (storage_ s) = Some img /\
    MMapHandler.file_path_ (MMapHandler.close_file (storage_ s)) = MMapHandler.file_path_ (storage_ s)) as [Hfile ->].
  { unfold MMapHandler.get_data in Hd. unfold MMapHandler.close_file. by destruct (MMapHandler.data_ (storage_ s)). }
  destruct (MMapHandler.open_spec (MMapHandler.file_path_ (storage_ s)) PREALLOCATION MMapHandler.create (disk_ s))
    as (h & disk & -> & Hm' & Hp & _). rewrite Hfile in Hm'. cbn [default] in Hm'. change (Datatypes.id img) with img in Hm'.
  cbn [c_size image_contents] in Hm'. rewrite bool_decide_eq_false_2 in Hm' by lia.
  unfold create. rewrite (proj1 Hm'). cbn [mbind option_bind]. rewrite bool_decide_eq_true_2 by apply Hw.
  rewrite bool_decide_eq_true_2 by done. eexists. split; [done|]. split; [exact Hm'|]. split; [exact Hp|].
  cbn [metadata_storage_ metric_ entry_point_id_ current_max_layer_ element_count_ node_locks_].
  rewrite Hhd. cbn [header_of h_element_count h_entry_point_id h_max_layer].
  rewrite u32_roundtrip by done. assert (u32 (element_count_ s) = element_count_ s) as -> by (by apply N.mod_small). done.
Qed.

Lemma reopen_wf meta_file s img s' :
  index_wf s img -> MetadataHandler.wf (MetadataHandler.open_file meta_file) ->
  MMapHandler.mapped (storage_ s') (disk_ s') img -> metadata_storage_ s' = MetadataHandler.open_file meta_file ->
  entry_point_id_ s' = entry_point_id_ s -> current_max_layer_ s' = current_max_layer_ s -> element_count_ s' = element_count_ s ->
  index_wf s' img.
Proof.
  intros [_ Hw _ He Hmag Hhd] Hmw Hm Hmeta H1 H2 H3. split; [exact Hm|exact Hw|by rewrite Hmeta|by rewrite H1, H2|exact Hmag|].
  rewrite Hhd at 1. unfold header_of. by rewrite H1, H2, H3.
Qed.

(** Apart from its metadata, a search depends on the file and the counters. *)
Definition hits (rs : list Result) : list (N * float32) := (fun r => (r_id r, r_distance r)) <$> rs.

Lemma collect_hits img m m' rs : fmap hits (collect img m rs) = fmap hits (collect img m' rs).
Proof.
  induction rs as [|r rs IH]; [done|]. cbn [collect]. destruct (get_node (r_id r) img) as [n|]; [|done]. cbn [mbind option_bind].
  destruct (collect img m rs) as [l|], (collect img m' rs) as [l'|]; try done. cbn [mbind option_bind fmap option_fmap option_map] in *.
  destruct (n_deleted n); [done|]. injection IH as IH. f_equal. unfold hits in *. rewrite !fmap_cons. by rewrite IH.
Qed.

Lemma search_hits fused query k s s' :
  data s' = data s -> metric_ s' = metric_ s -> entry_point_id_ s' = entry_point_id_ s ->
  current_max_layer_ s' = current_max_layer_ s -> element_count_ s' = element_count_ s ->
  fmap hits (search fused query k s') = fmap hits (search fused query k s).
Proof.
  intros Hd Hm He Hl Hc. unfold search. rewrite Hd, Hm, He, Hl, Hc. destruct (_ =?? _); [done|]. case_bool_decide; [done|].
  destruct (data s) as [img|]; [|done]. cbn [mbind option_bind]. destruct (distance_to _ _ _ _ _) as [d|]; [|done]. cbn [mbind option_bind].
  destruct (descend _ _ _ _ _ _ _) as [[d' curr]|]; [|done]. cbn [mbind option_bind].
  destruct (search_layer _ _ _ _ _ _ _ _) as [found|]; [|done]. cbn [mbind option_bind].
  pose proof (collect_hits img (metadata_storage_ s') (metadata_storage_ s) (drain result_lt found)) as Hh.
  destruct (collect img (metadata_storage_ s') _) as [l|], (collect img (metadata_storage_ s) _) as [l'|]; try done.
  cbn [mbind option_bind fmap option_fmap option_map] in *. injection Hh as Hh.
  assert (length l = length l') as -> by (apply (f_equal length) in Hh; unfold hits in Hh; by rewrite !length_fmap in Hh).
  f_equal. unfold hits in *. by rewrite !fmap_take, !fmap_reverse, Hh.
Qed.

(** An index reopens as it was.  When a process that has a well-formed
    index on a file of at least the preallocated size ends and a new one opens
    the file, the constructor succeeds whatever the metadata file holds and
    gives an index with the same slots, entry point, top layer and number of
    elements, and every search returns the same ids at the same distances as
    before. *)
Theorem index_reopens (meta_file : option bytes) (s : t) (img : image) :
  index_wf s img -> PREALLOCATION <= i_size img -> element_count_ s < U32 -> entry_point_id_ s < U32 ->
  exists s', reopen meta_file s = Some s' /\ data s' = Some img /\
    entry_point_id_ s' = entry_point_id_ s /\ current_max_layer_ s' = current_max_layer_ s /\
    element_count_ s' = element_count_ s /\ node_locks_ s' = element_count_ s + 10000 /\
    forall fused query k, fmap hits (search fused query k s') = fmap hits (search fused query k s).
Proof.
  intros Hix Hsz Hc He. destruct (reopen_spec meta_file s img Hix Hsz Hc He) as (s' & E & Hm & _ & _ & H1 & H2 & H3 & H4 & H5).
  pose proof (proj1 (ix_mapped _ _ Hix) : data s = Some img) as Hd. pose proof (proj1 Hm : data s' = Some img) as Hd'.
  exists s'. do 6 (split; [done|]). intros fused query k. by apply search_hits; [rewrite Hd|..].
Qed.

Lemma index_reopens_witness :
  exists s s', one_vector = Some s /\ reopen None s = Some s' /\ entry_point_id_ s' = 0 /\ element_count_ s' = 1 /\
    fmap hits (search true ones 10 s') = fmap hits (search true ones 10 s).
Proof.
  destruct one_vector_wf as (s & img & E & Hix & He & Hc & _ & _ & Hsz & _).
  destruct (index_reopens None s img Hix) as (s' & Hr & _ & He' & _ & Hc' & _ & Hs).
  - rewrite Hsz. vm_compute. discriminate.
  - rewrite Hc. reflexivity.
  - rewrite He. reflexivity.
  - exists s, s'. rewrite He', Hc', He, Hc. split; [exact E|]. split; [exact Hr|]. split; [reflexivity|]. split; [reflexivity|apply Hs].
Defined.
