(* ===== verification/ShardService.v ===== *)
(** * One shard replica ([src/cluster/shard_service_impl.hpp])

    The seven RPCs of a shard, over the id map of [IdMapStore] and a vector
    index that is used through the interface [VectorIndex].  The epoch check
    is modelled twice: as the handlers use it, one request at a time, and
    with its atomic load and store apart. *)

From S2P Require Import Prelude Float32 IndexTypes IdMapStore.

(** ** What a shard needs of a vector index *)

(** [Ix] is the state of the index, [R] the random draws of one insertion.
    [node] is the slot of an id, if the storage reaches that far: its vector
    and its tombstone. *)
Class VectorIndex (Ix R : Type) := {
  vi_node : Ix -> N -> option (list float32 * bool);
  vi_insert : R -> list float32 -> N -> string -> Ix -> option Ix;
  vi_delete : N -> Ix -> Ix;
  vi_metadata : N -> Ix -> string;
  vi_size : Ix -> N;
}.

(** The [k] nearest live vectors, as far as the index finds them. *)
Class VectorSearch (Ix : Type) := vi_search : list float32 -> Z -> Ix -> option (list Result).

Section derived.
Context {Ix R : Type} `{!VectorIndex Ix R}.

(** [is_deleted] and [get_vector_data]: out of range reads as live and empty. *)
Definition is_deleted (id : N) (i : Ix) : bool := from_option snd false (vi_node i id).

Definition get_vector_data (id : N) (i : Ix) : list float32 :=
  match vi_node i id with
  | Some (v, false) => v
  | _ => []
  end.

End derived.

(** The promises, for states in [vi_wf] and draws in [vi_draw_ok].  Ids are
    below [vi_limit] and at most [vi_reach], the first id the index has no slot
    for: an index grows by the ids that are given out in order. *)
Class VectorIndexLaws (Ix R : Type) `{!VectorIndex Ix R} := {
  vi_wf : Ix -> Prop;
  vi_draw_ok : R -> Prop;
  vi_limit : N;
  vi_reach : Ix -> N;
  vi_limit_id : vi_limit <= U32 - 1;
  vi_insert_law r v id m i :
    vi_wf i -> vi_draw_ok r -> length v = VECTOR_DIM -> id < vi_limit -> id <= vi_reach i ->
    exists i', vi_insert r v id m i = Some i' /\ vi_wf i' /\ vi_reach i <= vi_reach i' /\ id < vi_reach i' /\
      vi_node i' id = Some (v, false) /\
      (forall id' x, id' <> id -> vi_node i id' = Some x -> vi_node i' id' = Some x) /\
      (m <> "" -> vi_metadata id i' = m) /\ (m = "" -> vi_metadata id i' = vi_metadata id i) /\
      (forall id', id' <> id -> vi_metadata id' i' = vi_metadata id' i) /\
      vi_size i' = vi_size i +u 1;
  vi_delete_law id i :
    vi_wf i ->
    vi_wf (vi_delete id i) /\ vi_reach (vi_delete id i) = vi_reach i /\
    vi_node (vi_delete id i) id = (fun x => (x.1, true)) <$> vi_node i id /\
    (forall id', id' <> id -> vi_node (vi_delete id i) id' = vi_node i id') /\
    (forall id', vi_metadata id' (vi_delete id i) = vi_metadata id' i) /\
    vi_size (vi_delete id i) =
      (if decide (snd <$> vi_node i id = Some false) then vi_size i -u 1 else vi_size i);
}.

(** ** Messages ([src/proto/nanodb_cluster.proto]) *)

Record InsertRequest := MkInsertRequest {
  ir_external_id : string;
  ir_vector : list float32;
  ir_metadata : string;
  ir_epoch : N;
}.

Record InsertResponse := MkInsertResponse { irs_ok : bool; irs_error : string }.

Record SearchRequest := MkSearchRequest { sr_vector : list float32; sr_k : Z }.

Record SearchResult := MkSearchResult {
  sres_external_id : string;
  sres_distance : float32;
  sres_metadata : string;
}.

Record SearchResponse := MkSearchResponse {
  srs_results : list SearchResult;
  srs_ok : bool;
  srs_error : string;
}.

Record DeleteRequest := MkDeleteRequest { dr_external_id : string; dr_epoch : N }.

Record DeleteResponse := MkDeleteResponse { drs_ok : bool; drs_error : string }.

Record StatsResponse := MkStatsResponse {
  sts_element_count : N;
  sts_vector_dim : N;
  sts_shard_id : string;
}.

Record PingResponse := MkPingResponse { prs_ok : bool; prs_shard_id : string }.

Record ListLocalIdsResponse := MkListLocalIdsResponse {
  lrs_external_ids : list string;
  lrs_ok : bool;
  lrs_error : string;
}.

Record GetVectorResponse := MkGetVectorResponse {
  grs_ok : bool;
  grs_vector : list float32;
  grs_metadata : string;
  grs_error : string;
}.

(** ** The service *)

Definition dimension_error : string :=
  "vector dimension mismatch, expected " +:+ pretty (N.of_nat VECTOR_DIM).

Definition stale_epoch_error (request_epoch current : N) : string :=
  "stale epoch " +:+ pretty request_epoch +:+ ", this shard has already seen epoch " +:+
  pretty current.

(** The new high-water mark, or the error text. *)
Definition check_and_advance_epoch (request_epoch current : N) : N + string :=
  if request_epoch <?? current then inr (stale_epoch_error request_epoch current)
  else if current <?? request_epoch then inl request_epoch
  else inl current.

Module ShardService.
Section service.
Context {Ix R : Type} `{!VectorIndex Ix R}.

Record t := Mk {
  index_ : Ix;
  id_map_ : IdMapStore.t;
  shard_id_ : string;
  current_epoch_ : N;
}.

Definition with_epoch (e : N) (s : t) : t := Mk (index_ s) (id_map_ s) (shard_id_ s) e.

(** [None] when the index runs into undefined behaviour. *)
Definition Insert (r : R) (req : InsertRequest) (s : t) : option (t * InsertResponse) :=
  if decide (length (ir_vector req) <> VECTOR_DIM)
  then Some (s, MkInsertResponse false dimension_error)
  else
    match check_and_advance_epoch (ir_epoch req) (current_epoch_ s) with
    | inr err => Some (s, MkInsertResponse false err)
    | inl e =>
      let '(im, (local_id, is_new)) := IdMapStore.assign None (ir_external_id req) (id_map_ s) in
      ix ← vi_insert r (ir_vector req) local_id (ir_metadata req) (index_ s);
      Some (Mk ix im (shard_id_ s) e, MkInsertResponse true "")
    end.

Definition Search `{!VectorSearch Ix} (req : SearchRequest) (s : t) : option SearchResponse :=
  if decide (length (sr_vector req) <> VECTOR_DIM)
  then Some (MkSearchResponse [] false dimension_error)
  else
    results ← vi_search (sr_vector req) (sr_k req) (index_ s);
    Some (MkSearchResponse
            ((fun r => MkSearchResult (IdMapStore.reverse_lookup (r_id r) (id_map_ s))
                         (r_distance r) (r_metadata r)) <$> results) true "").

Definition not_found_error : string := "external_id not found on this shard".

Definition Delete (req : DeleteRequest) (s : t) : t * DeleteResponse :=
  match check_and_advance_epoch (dr_epoch req) (current_epoch_ s) with
  | inr err => (s, MkDeleteResponse false err)
  | inl e =>
    let s := with_epoch e s in
    match IdMapStore.lookup (dr_external_id req) (id_map_ s) with
    | None => (s, MkDeleteResponse false not_found_error)
    | Some local_id =>
      (Mk (vi_delete local_id (index_ s)) (id_map_ s) (shard_id_ s) (current_epoch_ s),
       MkDeleteResponse true "")
    end
  end.

Definition Stats (s : t) : StatsResponse :=
  MkStatsResponse (vi_size (index_ s)) (N.of_nat VECTOR_DIM) (shard_id_ s).

Definition Ping (s : t) : PingResponse := MkPingResponse true (shard_id_ s).

Definition listed (s : t) (id : string) : bool :=
  match IdMapStore.lookup id (id_map_ s) with
  | Some local_id => negb (is_deleted local_id (index_ s))
  | None => false
  end.

Definition ListLocalIds (s : t) : ListLocalIdsResponse :=
  MkListLocalIdsResponse
    (filter (fun id => listed s id = true) (IdMapStore.list_all_external_ids (id_map_ s))) true "".

Definition unavailable_error : string := "vector data unavailable (deleted or out of range)".

Definition GetVector (external_id : string) (s : t) : GetVectorResponse :=
  match IdMapStore.lookup external_id (id_map_ s) with
  | None => MkGetVectorResponse false [] "" not_found_error
  | Some local_id =>
    match get_vector_data local_id (index_ s) with
    | [] => MkGetVectorResponse false [] "" unavailable_error
    | vec => MkGetVectorResponse true vec (vi_metadata local_id (index_ s)) ""
    end
  end.

End service.
Arguments t : clear implicits.
End ShardService.

Import ShardService.

(** ** Fencing, one request at a time *)

Section fencing.
Context {Ix R : Type} `{!VectorIndex Ix R}.

Inductive write :=
| WInsert (r : R) (req : InsertRequest)
| WDelete (req : DeleteRequest).

Definition write_epoch (w : write) : N :=
  match w with WInsert _ req => ir_epoch req | WDelete req => dr_epoch req end.

(** The state and whether the write was acknowledged. *)
Definition do_write (w : write) (s : t Ix) : option (t Ix * bool) :=
  match w with
  | WInsert r req => '(s, resp) ← Insert r req s; Some (s, irs_ok resp)
  | WDelete req => let '(s, resp) := Delete req s in Some (s, drs_ok resp)
  end.

(** Runs writes in order; collects the epochs of the acknowledged ones. *)
Fixpoint do_writes (ws : list write) (s : t Ix) : option (t Ix * list N) :=
  match ws with
  | [] => Some (s, [])
  | w :: ws =>
    '(s, ok) ← do_write w s;
    '(s, acks) ← do_writes ws s;
    Some (s, if (ok : bool) then write_epoch w :: acks else acks)
  end.

Lemma check_epoch_cases req cur :
  (req < cur /\ check_and_advance_epoch req cur = inr (stale_epoch_error req cur)) \/
  (cur <= req /\ check_and_advance_epoch req cur = inl req).
Proof.
  unfold check_and_advance_epoch. case_bool_decide; [by left|]. right. split; [lia|].
  case_bool_decide; [done|]. f_equal. lia.
Qed.

Lemma do_write_fenced w s s' ok :
  do_write w s = Some (s', ok) ->
  (write_epoch w < current_epoch_ s -> s' = s /\ ok = false) /\
  current_epoch_ s <= current_epoch_ s' /\
  (ok = true -> current_epoch_ s' = write_epoch w).
Proof.
  destruct w as [r req|req]; cbn [do_write write_epoch].
  - unfold Insert. case_decide; [intros [= <- <-]; split_and!; [done|lia|done]|].
    destruct (check_epoch_cases (ir_epoch req) (current_epoch_ s)) as [[Hlt ->]|[Hle ->]];
      [intros [= <- <-]; split_and!; [done|lia|done]|].
    destruct (IdMapStore.assign _ _ _) as [im [local_id is_new]].
    cbn [mbind option_bind]. destruct (vi_insert _ _ _ _ _) as [ix|]; [|done].
    intros [= <- <-]. cbn. split_and!; [lia|done|done].
  - unfold Delete.
    destruct (check_epoch_cases (dr_epoch req) (current_epoch_ s)) as [[Hlt ->]|[Hle ->]];
      [intros [= <- <-]; split_and!; [done|lia|done]|].
    destruct (IdMapStore.lookup _ _); intros [= <- <-]; cbn; (split_and!; [lia|lia|done]).
Qed.

Lemma do_writes_mono ws s s' acks :
  do_writes ws s = Some (s', acks) -> current_epoch_ s <= current_epoch_ s'.
Proof.
  revert s acks. induction ws as [|w ws IH]; intros s acks; cbn; [by intros [= <- _]|].
  destruct (do_write w s) as [[s1 ok]|] eqn:Hw; [|done]. cbn.
  destruct (do_writes ws s1) as [[s2 acks2]|] eqn:E; [|done]. cbn. intros [= <- _].
  apply do_write_fenced in Hw as (_ & ? & _). specialize (IH _ _ E). lia.
Qed.

(** fencing.  Handled one at a time, the acknowledged writes of a shard have
    non-decreasing epochs, none below the epoch the shard had seen before, and
    the final epoch is at least that of every acknowledged write: a
    coordinator with an outdated view of the topology cannot write any more. *)
Theorem fenced_writes_in_epoch_order (ws : list write) (s s' : t Ix) (acks : list N) :
  do_writes ws s = Some (s', acks) ->
  StronglySorted N.le acks /\ Forall (fun e => current_epoch_ s <= e <= current_epoch_ s') acks.
Proof.
  revert s acks. induction ws as [|w ws IH]; intros s acks; cbn [do_writes].
  { intros [= -> <-]. by split; constructor. }
  destruct (do_write w s) as [[s1 ok]|] eqn:Hw; [|done]. cbn.
  destruct (do_writes ws s1) as [[s2 acks']|] eqn:Hws; [|done]. cbn. intros [= -> <-].
  destruct (do_write_fenced _ _ _ _ Hw) as (_ & Hmono & Hok).
  destruct (IH _ _ Hws) as [Hs Hf].
  assert (Forall (fun e => current_epoch_ s <= e <= current_epoch_ s') acks') as Hf'
    by (eapply Forall_impl; [exact Hf|]; cbn; lia).
  destruct ok; [|done]. specialize (Hok eq_refl). split.
  - constructor; [done|]. eapply Forall_impl; [exact Hf|]. cbn. lia.
  - constructor; [|done]. split; [lia|]. rewrite <-Hok. by eapply do_writes_mono.
Qed.

End fencing.

(** ** Functional behaviour *)

Section behaviour.
Context {Ix R : Type} `{!VectorIndex Ix R, !VectorIndexLaws Ix R}.

(** Every id of the map has a slot in the index, and so can the next one. *)
Definition service_wf (s : t Ix) : Prop :=
  vi_wf (index_ s) /\ IdMapStore.wf (id_map_ s) /\ IdMapStore.size (id_map_ s) <= vi_reach (index_ s) /\
  forall e i, IdMapStore.lookup e (id_map_ s) = Some i -> is_Some (vi_node (index_ s) i).

Lemma lookup_inj s e1 e2 i :
  IdMapStore.wf s -> IdMapStore.lookup e1 s = Some i -> IdMapStore.lookup e2 s = Some i -> e1 = e2.
Proof.
  intros [[_ Hm] _]. unfold IdMapStore.lookup. rewrite !Hm. intros [_ ?] [_ ?]. congruence.
Qed.

Lemma lookup_lt_size s e i :
  IdMapStore.wf s -> IdMapStore.lookup e s = Some i -> i < IdMapStore.size s.
Proof.
  intros [[_ Hm] _] Hl. apply Hm in Hl as [_ Hl%lookup_lt_Some]. unfold IdMapStore.size. lia.
Qed.

Lemma GetVector_frame e s s' :
  IdMapStore.lookup e (id_map_ s') = IdMapStore.lookup e (id_map_ s) ->
  (forall i, IdMapStore.lookup e (id_map_ s) = Some i ->
     vi_node (index_ s') i = vi_node (index_ s) i /\
     vi_metadata i (index_ s') = vi_metadata i (index_ s)) ->
  GetVector e s' = GetVector e s /\ listed s' e = listed s e.
Proof.
  intros El Hn. unfold GetVector, listed, get_vector_data, is_deleted. rewrite El.
  destruct (IdMapStore.lookup e (id_map_ s)) as [i|]; [|done].
  destruct (Hn i eq_refl) as [-> ->]. done.
Qed.

(** [ListLocalIds] returns exactly the keys with a live vector. *)
Lemma listed_iff s e :
  service_wf s -> e ∈ lrs_external_ids (ListLocalIds s) <-> listed s e = true.
Proof.
  intros (_ & [[_ Hm] _] & _). cbn. rewrite list_elem_of_filter. split; [tauto|].
  intros H. split; [done|]. unfold listed in H.
  destruct (IdMapStore.lookup e (id_map_ s)) as [i|] eqn:E; [|done].
  apply Hm in E as [_ E]. by eapply list_elem_of_lookup_2.
Qed.

Lemma Insert_spec r req s :
  service_wf s -> vi_draw_ok r -> length (ir_vector req) = VECTOR_DIM ->
  current_epoch_ s <= ir_epoch req ->
  IdMapStore.size (id_map_ s) < vi_limit -> strlen (ir_external_id req) < U32 ->
  exists s' meta,
    Insert r req s = Some (s', MkInsertResponse true "") /\ service_wf s' /\
    current_epoch_ s' = ir_epoch req /\
    GetVector (ir_external_id req) s' = MkGetVectorResponse true (ir_vector req) meta "" /\
    (ir_metadata req <> "" -> meta = ir_metadata req) /\
    listed s' (ir_external_id req) = true /\
    vi_size (index_ s') = vi_size (index_ s) +u 1 /\
    (forall e, e <> ir_external_id req ->
       GetVector e s' = GetVector e s /\ listed s' e = listed s e).
Proof.
  intros (Hi & Hm & Hreach & Hn) Hr Hv He Hsz Hx. pose proof vi_limit_id as Hlim. set (x := ir_external_id req) in *.
  unfold Insert. rewrite decide_False by (by intros []). fold x.
  destruct (check_epoch_cases (ir_epoch req) (current_epoch_ s)) as [[? _]|[_ ->]]; [lia|].
  pose proof (IdMapStore.assign_frame x (id_map_ s) Hm ltac:(lia) Hx) as Ha.
  destruct (IdMapStore.assign None x (id_map_ s)) as [im [i fresh]].
  destruct Ha as (Hw' & Hl' & _ & _ & Hfr & Hold & Hother).
  assert (i < vi_limit /\ i <= IdMapStore.size (id_map_ s)) as [Hib Hir].
  { pose proof (lookup_lt_size im x i Hw' Hl') as Hlt. destruct fresh.
    - destruct (Hfr eq_refl) as [_ E]. lia.
    - rewrite (Hold eq_refl) in Hlt. lia. }
  destruct (vi_insert_law r (ir_vector req) i (ir_metadata req) (index_ s) Hi Hr Hv Hib ltac:(lia))
    as (ix & Eix & Hix & Hgrow & Hgot & Hnode & Hkeep & Hmeta & _ & Hmo & Hsize).
  cbn [mbind option_bind]. rewrite Eix. eexists _, (vi_metadata i ix). split; [done|].
  assert (forall e j, e <> x -> IdMapStore.lookup e (id_map_ s) = Some j -> j <> i) as Hne.
  { intros e j He' Hj ->. apply He'. rewrite <-Hother in Hj by done. by eapply lookup_inj. }
  assert (is_Some (hd_error (ir_vector req))) as [v0 Hhd]
    by (destruct (ir_vector req); [done|by eexists]).
  split_and!; cbn [current_epoch_ index_ id_map_]; try done.
  - split_and!; [done|done| |].
    { cbn [id_map_ index_]. destruct fresh; [destruct (Hfr eq_refl) as [-> E]; lia|rewrite (Hold eq_refl); lia]. }
    intros e j Hj. cbn in *. destruct (decide (e = x)) as [->|Hex].
    + rewrite Hl' in Hj. simplify_eq. by eexists.
    + rewrite Hother in Hj by done. destruct (Hn e j Hj) as [y Hy]. exists y.
      apply Hkeep; [by eapply Hne|done].
  - unfold GetVector, get_vector_data. cbn. rewrite Hl', Hnode.
    by destruct (ir_vector req).
  - unfold listed, is_deleted. cbn. by rewrite Hl', Hnode.
  - intros e Hex. apply GetVector_frame; cbn; [by apply Hother|]. intros j Hj.
    destruct (Hn e j Hj) as [y Hy]. rewrite Hy. split; [|by apply Hmo, (Hne e)].
    apply Hkeep; [by eapply Hne|done].
Qed.

Lemma Delete_spec req s i :
  service_wf s -> current_epoch_ s <= dr_epoch req ->
  IdMapStore.lookup (dr_external_id req) (id_map_ s) = Some i ->
  let '(s', resp) := Delete req s in
  resp = MkDeleteResponse true "" /\ service_wf s' /\
  current_epoch_ s' = dr_epoch req /\
  GetVector (dr_external_id req) s' = MkGetVectorResponse false [] "" unavailable_error /\
  listed s' (dr_external_id req) = false /\
  (forall e, e <> dr_external_id req ->
     GetVector e s' = GetVector e s /\ listed s' e = listed s e).
Proof.
  intros (Hi & Hm & Hreach & Hn) He Hl. unfold Delete.
  destruct (check_epoch_cases (dr_epoch req) (current_epoch_ s)) as [[? _]|[_ ->]]; [lia|].
  cbn [id_map_ with_epoch]. rewrite Hl.
  destruct (vi_delete_law i (index_ s) Hi) as (Hw & Hr & Hnode & Hother & Hmeta & _).
  destruct (Hn _ _ Hl) as [[v d] Hv]. rewrite Hv in Hnode. cbn in Hnode.
  split_and!; cbn [current_epoch_ with_epoch]; try done.
  - split_and!; [done|done|by cbn; rewrite Hr|]. intros e j Hj. cbn in *. destruct (decide (j = i)) as [->|].
    + rewrite Hnode. by eexists.
    + rewrite Hother by done. by eapply Hn.
  - unfold GetVector, get_vector_data. cbn. by rewrite Hl, Hnode.
  - unfold listed, is_deleted. cbn. by rewrite Hl, Hnode.
  - intros e Hex. apply GetVector_frame; [done|]. cbn. intros j Hj.
    rewrite Hother, Hmeta; [done|]. intros ->. apply Hex. by eapply lookup_inj.
Qed.

(** read your writes.  An insert with a current epoch and the right dimension
    succeeds on a shard in a consistent state; the vector is then returned by
    [GetVector] with its metadata and listed by [ListLocalIds], no other key
    changes, and the state stays consistent. *)
Theorem insert_then_get (r : R) (req : InsertRequest) (s : t Ix) :
  service_wf s -> vi_draw_ok r -> length (ir_vector req) = VECTOR_DIM ->
  current_epoch_ s <= ir_epoch req ->
  IdMapStore.size (id_map_ s) < vi_limit -> strlen (ir_external_id req) < U32 ->
  exists s' meta,
    Insert r req s = Some (s', MkInsertResponse true "") /\ service_wf s' /\
    GetVector (ir_external_id req) s' = MkGetVectorResponse true (ir_vector req) meta "" /\
    (ir_metadata req <> "" -> meta = ir_metadata req) /\
    (forall e, e ∈ lrs_external_ids (ListLocalIds s') <->
       e = ir_external_id req \/ e ∈ lrs_external_ids (ListLocalIds s)).
Proof.
  intros Hs Hr Hv He Hsz Hx.
  destruct (Insert_spec r req s Hs Hr Hv He Hsz Hx)
    as (s' & meta & E & Hw & _ & Hg & Hmeta & Hli & _ & Hother).
  exists s', meta. split_and!; [done..|]. intros e. rewrite !listed_iff by done.
  destruct (decide (e = ir_external_id req)) as [->|Hne]; [tauto|].
  destruct (Hother e Hne) as [_ ->]. tauto.
Qed.

(** deletion is visible.  Deleting a known key with a current epoch succeeds;
    the key then has no vector and is not listed, and no other key changes. *)
Theorem delete_then_get (req : DeleteRequest) (s : t Ix) (i : N) :
  service_wf s -> current_epoch_ s <= dr_epoch req ->
  IdMapStore.lookup (dr_external_id req) (id_map_ s) = Some i ->
  let '(s', resp) := Delete req s in
  drs_ok resp = true /\ service_wf s' /\ grs_ok (GetVector (dr_external_id req) s') = false /\
  (forall e, e ∈ lrs_external_ids (ListLocalIds s') <->
     e <> dr_external_id req /\ e ∈ lrs_external_ids (ListLocalIds s)) /\
  (forall e, e <> dr_external_id req -> GetVector e s' = GetVector e s).
Proof.
  intros Hs He Hl. pose proof (Delete_spec req s i Hs He Hl) as Hd.
  destruct (Delete req s) as [s' resp]. destruct Hd as (-> & Hw & _ & Hg & Hli & Hother).
  split_and!; [done|done|by rewrite Hg| |].
  - intros e. rewrite !listed_iff by done.
    destruct (decide (e = dr_external_id req)) as [->|Hne]; [rewrite Hli; split; [done|tauto]|].
    destruct (Hother e Hne) as [_ ->]. tauto.
  - intros e Hne. by apply Hother.
Qed.

End behaviour.

(** ** The specification of an index: a table

    The plainest structure that keeps the promises of [VectorIndex]. *)

Module FlatIndex.

Record slot := MkSlot { sl_vector : list float32; sl_deleted : bool; sl_metadata : string }.

Record t := Mk { slots : gmap N slot; count : N }.

Definition empty : t := Mk ∅ 0.

Definition metadata (id : N) (i : t) : string := from_option sl_metadata "" (slots i !! id).

#[export] Instance flat_index : VectorIndex t unit := {|
  vi_node i id := (fun s => (sl_vector s, sl_deleted s)) <$> slots i !! id;
  vi_insert _ v id m i :=
    Some (Mk (<[id := MkSlot v false (if m =?? "" then metadata id i else m)]> (slots i))
             (count i +u 1));
  vi_delete id i :=
    match slots i !! id with
    | Some s =>
      if sl_deleted s then i
      else Mk (<[id := MkSlot (sl_vector s) true (sl_metadata s)]> (slots i)) (count i -u 1)
    | None => i
    end;
  vi_metadata := metadata;
  vi_size := count;
|}.

#[export] Instance flat_index_laws : VectorIndexLaws t unit.
Proof.
  refine {| vi_wf := fun _ => True; vi_draw_ok := fun _ => True; vi_limit := U32 - 1; vi_reach := fun _ => U32 - 1 |}.
  - done.
  - intros r v id m i _ _ _ Hid _. eexists. split; [done|].
    cbn [vi_node vi_metadata vi_size flat_index slots count]. unfold metadata. cbn [slots].
    rewrite lookup_insert_eq. cbn. split_and!; try done.
    + intros id' x Hne. by rewrite lookup_insert_ne.
    + intros Hm. by rewrite bool_decide_eq_false_2.
    + intros Hm. by rewrite bool_decide_eq_true_2.
    + intros id' Hne. by rewrite lookup_insert_ne.
  - intros id i _. cbn [vi_node vi_metadata vi_size vi_delete flat_index].
    destruct (slots i !! id) as [[v d m]|] eqn:E; cbn [sl_deleted sl_vector sl_metadata].
    + destruct d; cbn [slots count]; rewrite ?lookup_insert_eq, ?E; cbn; split_and!; try done.
      * intros id' Hne. by rewrite lookup_insert_ne.
      * intros id'. unfold metadata. cbn [slots]. destruct (decide (id' = id)) as [->|].
        -- by rewrite lookup_insert_eq, E.
        -- by rewrite lookup_insert_ne.
    + rewrite E. by split_and!.
Defined.

End FlatIndex.
Import FlatIndex.

Definition unit_vector : list float32 := replicate VECTOR_DIM fone.

Definition fresh_shard : ShardService.t FlatIndex.t :=
  ShardService.Mk FlatIndex.empty (IdMapStore.open_file None) "shard-0" 0.

Lemma fresh_shard_wf : service_wf fresh_shard.
Proof.
  split_and!; [done| |done|done]. split; [apply IdMapStore.maps_wf_init|]. by split.
Qed.

Definition sample_insert : InsertRequest := MkInsertRequest "key" unit_vector "tag" 7.

Lemma insert_then_get_witness :
  exists s' meta,
    Insert tt sample_insert fresh_shard = Some (s', MkInsertResponse true "") /\ service_wf s' /\
    GetVector "key" s' = MkGetVectorResponse true unit_vector meta "" /\
    ("tag" <> "" -> meta = "tag") /\
    (forall e, e ∈ lrs_external_ids (ListLocalIds s') <->
       e = "key" \/ e ∈ lrs_external_ids (ListLocalIds fresh_shard)).
Proof. apply (insert_then_get tt sample_insert fresh_shard); [apply fresh_shard_wf|done..]. Defined.

Lemma fenced_writes_in_epoch_order_witness :
  exists s' acks,
    do_writes [WInsert tt sample_insert; WDelete (MkDeleteRequest "key" 6);
               WDelete (MkDeleteRequest "key" 9)] fresh_shard = Some (s', acks) /\
    acks = [7; 9] /\
    StronglySorted N.le acks /\ Forall (fun e => 0 <= e <= current_epoch_ s') acks.
Proof.
  eexists _, _. split; [reflexivity|]. split; [reflexivity|].
  eapply (fenced_writes_in_epoch_order
    [WInsert tt sample_insert; WDelete (MkDeleteRequest "key" 6);
     WDelete (MkDeleteRequest "key" 9)] fresh_shard). reflexivity.
Defined.

Definition one_key_shard : ShardService.t FlatIndex.t :=
  match Insert tt sample_insert fresh_shard with Some (s, _) => s | None => fresh_shard end.

Lemma one_key_shard_wf : service_wf one_key_shard.
Proof.
  destruct (Insert_spec tt sample_insert fresh_shard) as (s' & meta & E & Hw & _);
    [apply fresh_shard_wf|done..|]. unfold one_key_shard. by rewrite E.
Qed.

Lemma delete_then_get_witness :
  let '(s', resp) := Delete (MkDeleteRequest "key" 8) one_key_shard in
  drs_ok resp = true /\ service_wf s' /\ grs_ok (GetVector "key" s') = false /\
  (forall e, e ∈ lrs_external_ids (ListLocalIds s') <->
     e <> "key" /\ e ∈ lrs_external_ids (ListLocalIds one_key_shard)) /\
  (forall e, e <> "key" -> GetVector e s' = GetVector e one_key_shard).
Proof.
  apply (delete_then_get (MkDeleteRequest "key" 8) one_key_shard 0);
    [apply one_key_shard_wf|vm_compute; done|vm_compute; done].
Defined.

(** ** The epoch check with its load and store apart *)

(** A handler thread in [check_and_advance_epoch]. *)
Inductive epoch_thread :=
| EpStart (request : N)
| EpLoaded (request current : N)
| EpDone (request : N) (accepted : bool).

(** One atomic access of thread [k]. *)
Definition epoch_step (k : nat) (st : N * list epoch_thread) : option (N * list epoch_thread) :=
  let '(current_epoch, threads) := st in
  th ← threads !! k;
  match th with
  | EpStart request => Some (current_epoch, <[k := EpLoaded request current_epoch]> threads)
  | EpLoaded request current =>
    if request <?? current then Some (current_epoch, <[k := EpDone request false]> threads)
    else if current <?? request then Some (request, <[k := EpDone request true]> threads)
    else Some (current_epoch, <[k := EpDone request true]> threads)
  | EpDone _ _ => None
  end.

Fixpoint epoch_run (schedule : list nat) (st : N * list epoch_thread)
    : option (N * list epoch_thread) :=
  match schedule with
  | [] => Some st
  | k :: ks => epoch_step k st ≫= epoch_run ks
  end.

(** Without interleaving the two accesses are the sequential check. *)
Lemma epoch_step_sequential k e threads req :
  threads !! k = Some (EpStart req) ->
  epoch_run [k; k] (e, threads) =
  Some match check_and_advance_epoch req e with
       | inl e' => (e', <[k := EpDone req true]> threads)
       | inr _ => (e, <[k := EpDone req false]> threads)
       end.
Proof.
  intros Hk. cbn. rewrite Hk. cbn. pose proof (lookup_lt_Some _ _ _ Hk).
  rewrite list_lookup_insert_eq by done. cbn. unfold check_and_advance_epoch.
  repeat case_bool_decide; cbn; by rewrite list_insert_insert_eq.
Qed.

(** concurrent writes defeat the fence.  With two handlers in the check at
    once, the one with the smaller epoch can store last: the shard then holds
    epoch [e1] although it acknowledged [e3], and acknowledges the outdated
    [e2] afterwards, for any [e0 < e1 < e2 < e3]. *)
Theorem epoch_race_admits_stale_write (e0 e1 e2 e3 : N) :
  e0 < e1 -> e1 < e2 -> e2 < e3 ->
  epoch_run [0; 1; 1; 0; 2; 2]%nat (e0, [EpStart e1; EpStart e3; EpStart e2]) =
  Some (e2, [EpDone e1 true; EpDone e3 true; EpDone e2 true]).
Proof.
  intros. cbn.
  do 3 (rewrite bool_decide_eq_false_2 by lia; cbn; rewrite bool_decide_eq_true_2 by lia; cbn).
  done.
Qed.

Lemma epoch_race_admits_stale_write_witness :
  epoch_run [0; 1; 1; 0; 2; 2]%nat (5, [EpStart 7; EpStart 9; EpStart 8]) =
  Some (8, [EpDone 7 true; EpDone 9 true; EpDone 8 true]).
Proof. apply (epoch_race_admits_stale_write 5 7 8 9); lia. Defined.
