(* ===== verification/ShardSpec.v ===== *)
(** * The contract of a shard: a fenced map

    What a shard promises, with no local ids, no files and no index: a map
    from external ids to vectors, metadata and a flag, the highest epoch seen
    and the number of elements counted.  Every shard over an index that keeps its promises implements it,
    request by request. *)

From S2P Require Import Prelude Float32 IndexTypes IdMapStore ShardService.
Import ShardService.

Record entry := MkEntry { en_vector : list float32; en_metadata : string; en_live : bool }.

(** [sp_count] is what the index counts: a repeated insertion of a key counts
    again, and the deletion of a live key counts back.  [sp_texts] are the texts
    in the metadata file at the start of the process, in file order: the key
    that comes [n]-th, if it has no metadata of its own, shows the [n]-th of
    them. *)
Record spec := MkSpec { sp_epoch : N; sp_keys : gmap string entry; sp_count : N; sp_texts : list string }.

(** A shard on an empty disk. *)
Definition empty_spec : spec := MkSpec 0 ∅ 0 [].

(** The text that the next new key shows. *)
Definition left_over (sp : spec) : string := default "" (sp_texts sp !! size (sp_keys sp)).

(** An empty metadata string keeps what was stored before, even for a deleted
    key. *)
Definition spec_insert (req : InsertRequest) (sp : spec) : spec * bool :=
  if decide (length (ir_vector req) <> VECTOR_DIM) then (sp, false)
  else if decide (ir_epoch req < sp_epoch sp) then (sp, false)
  else
    let old := from_option en_metadata (left_over sp) (sp_keys sp !! ir_external_id req) in
    let meta := if decide (ir_metadata req = "") then old else ir_metadata req in
    (MkSpec (ir_epoch req) (<[ir_external_id req := MkEntry (ir_vector req) meta true]> (sp_keys sp))
       (sp_count sp +u 1) (sp_texts sp), true).

Definition spec_delete (req : DeleteRequest) (sp : spec) : spec * bool :=
  if decide (dr_epoch req < sp_epoch sp) then (sp, false)
  else
    match sp_keys sp !! dr_external_id req with
    | None => (MkSpec (dr_epoch req) (sp_keys sp) (sp_count sp) (sp_texts sp), false)
    | Some en => (MkSpec (dr_epoch req)
                    (<[dr_external_id req := MkEntry (en_vector en) (en_metadata en) false]> (sp_keys sp))
                    (if en_live en then sp_count sp -u 1 else sp_count sp) (sp_texts sp), true)
    end.

Definition spec_get (external_id : string) (sp : spec) : GetVectorResponse :=
  match sp_keys sp !! external_id with
  | None => MkGetVectorResponse false [] "" not_found_error
  | Some en => if en_live en then MkGetVectorResponse true (en_vector en) (en_metadata en) ""
               else MkGetVectorResponse false [] "" unavailable_error
  end.

Section refinement.
Context {Ix R : Type} `{!VectorIndex Ix R, !VectorIndexLaws Ix R}.

Abbreviation write := (@write R).

Definition spec_write (w : write) (sp : spec) : spec * bool :=
  match w with WInsert _ req => spec_insert req sp | WDelete req => spec_delete req sp end.

(** The answers to a sequence of writes, of the shard and of the contract. *)
Fixpoint serve (ws : list write) (s : t Ix) : option (t Ix * list bool) :=
  match ws with
  | [] => Some (s, [])
  | w :: ws => '(s, ok) ← do_write w s; '(s, oks) ← serve ws s; Some (s, ok :: oks)
  end.

Fixpoint spec_serve (ws : list write) (sp : spec) : spec * list bool :=
  match ws with
  | [] => (sp, [])
  | w :: ws => let '(sp, ok) := spec_write w sp in let '(sp, oks) := spec_serve ws sp in (sp, ok :: oks)
  end.

(** The entry that a local id stands for. *)
Definition entry_of (ix : Ix) (i : N) : option entry :=
  (fun x => MkEntry x.1 (vi_metadata i ix) (negb x.2)) <$> vi_node ix i.

Record implements (s : t Ix) (sp : spec) : Prop := {
  im_wf : service_wf s;
  im_epoch : current_epoch_ s = sp_epoch sp;
  im_keys e : sp_keys sp !! e = IdMapStore.lookup e (id_map_ s) ≫= entry_of (index_ s);
  im_unused i : IdMapStore.size (id_map_ s) <= i -> vi_metadata i (index_ s) = default "" (sp_texts sp !! N.to_nat i);
  im_vectors e en : sp_keys sp !! e = Some en -> en_vector en <> [];
  im_count : vi_size (index_ s) = sp_count sp;
}.

(** A write that may be given to a shard. *)
Definition write_ok (w : write) : Prop :=
  match w with
  | WInsert r req => vi_draw_ok r /\ strlen (ir_external_id req) < U32
  | WDelete _ => True
  end.

Lemma entry_frame (ix ix' : Ix) i x :
  vi_node ix i = Some x -> vi_node ix' i = Some x -> vi_metadata i ix' = vi_metadata i ix ->
  entry_of ix' i = entry_of ix i.
Proof. intros H1 H2 H3. unfold entry_of. by rewrite H1, H2, H3. Qed.

(** There are as many keys as ids. *)
Lemma implements_keys s sp : implements s sp -> size (sp_keys sp) = length (IdMapStore.reverse_ (id_map_ s)).
Proof.
  intros [(_ & [Hm _] & _ & Hslot) _ Hk _ _ _]. pose proof (IdMapStore.maps_wf_NoDup _ Hm) as Hnd. destruct Hm as [Hlen Hm].
  rewrite <-size_dom, <-(size_list_to_set (C := gset string) _ Hnd). f_equal. apply set_eq. intros e.
  rewrite elem_of_dom, elem_of_list_to_set, Hk. unfold IdMapStore.lookup in *. split.
  - intros [en (i & Hi & _)%bind_Some]. apply Hm in Hi as [_ Hi]. by eapply list_elem_of_lookup_2.
  - intros [i Hi]%list_elem_of_lookup_1. pose proof (lookup_lt_Some _ _ _ Hi).
    assert (IdMapStore.forward_ (id_map_ s) !! e = Some (N.of_nat i)) as E by (apply Hm; rewrite Nat2N.id; split; [lia|done]).
    rewrite E. cbn [mbind option_bind]. destruct (Hslot _ _ E) as [y Hy]. unfold entry_of. rewrite Hy. by eexists.
Qed.

Lemma insert_refines r req s sp :
  implements s sp -> vi_draw_ok r -> strlen (ir_external_id req) < U32 -> IdMapStore.size (id_map_ s) < vi_limit ->
  exists s', do_write (WInsert r req) s = Some (s', (spec_insert req sp).2) /\ implements s' (spec_insert req sp).1 /\
    IdMapStore.size (id_map_ s') <= IdMapStore.size (id_map_ s) + 1.
Proof.
  intros Him Hr Hx Hsz. pose proof (implements_keys s sp Him) as Hkeys. destruct Him as [Hwf He Hk Hu Hne Hcnt]. cbn [do_write]. unfold spec_insert, Insert.
  case_decide as Hd; [by exists s; split_and!; [..|lia]|]. rewrite <-He.
  destruct (check_epoch_cases (ir_epoch req) (current_epoch_ s)) as [[Hlt ->]|[Hle ->]].
  { rewrite decide_True by done. by exists s; split_and!; [..|lia]. }
  rewrite decide_False by lia. pose proof Hwf as (Hi & Hm & Hreach & Hslot). pose proof vi_limit_id as Hlim.
  set (x := ir_external_id req) in *.
  pose proof (Insert_spec r req s Hwf Hr Hd Hle Hsz Hx) as (s1 & meta & E1 & Hwf1 & _). unfold Insert in E1.
  rewrite decide_False in E1 by (by intros []).
  destruct (check_epoch_cases (ir_epoch req) (current_epoch_ s)) as [[Hlt _]|[_ Hc]]; [lia|]. rewrite Hc in E1.
  pose proof (IdMapStore.assign_frame x (id_map_ s) Hm ltac:(lia) Hx) as Ha. fold x in E1 |- *.
  destruct (IdMapStore.assign None x (id_map_ s)) as [im [i fresh]].
  destruct Ha as (Hw' & Hl' & _ & Hfresh & Hfr & Hold & Hother).
  assert (i < vi_limit /\ i <= IdMapStore.size (id_map_ s) /\ IdMapStore.size im <= IdMapStore.size (id_map_ s) + 1) as (Hib & Hir & Hims).
  { pose proof (lookup_lt_size im x i Hw' Hl') as Hlt. destruct fresh.
    - destruct (Hfr eq_refl) as [-> E]. lia.
    - rewrite (Hold eq_refl) in *. lia. }
  destruct (vi_insert_law r (ir_vector req) i (ir_metadata req) (index_ s) Hi Hr Hd Hib ltac:(lia))
    as (ix & Eix & Hix & Hgrow & Hgot & Hnode & Hkeep & Hmeta & Hnometa & Hmo & Hsize).
  cbn [mbind option_bind] in *. rewrite Eix in *. cbn [mbind option_bind] in *. injection E1 as <-.
  eexists. split; [done|]. cbn [fst snd]. split; [|done].
  assert (vi_metadata i ix = if decide (ir_metadata req = "") then from_option en_metadata (left_over sp) (sp_keys sp !! x) else ir_metadata req) as Hmeta'.
  { case_decide as Hd'; [|by apply Hmeta]. rewrite Hnometa, Hk by done. destruct fresh.
    - destruct (Hfr eq_refl) as [-> _]. symmetry in Hfresh. apply bool_decide_eq_true in Hfresh. rewrite Hfresh. cbn.
      unfold left_over. rewrite Hu, Hkeys by done. unfold IdMapStore.size. by rewrite Nat2N.id.
    - pose proof (Hold eq_refl) as ->. rewrite Hl'. cbn [mbind option_bind]. destruct (Hslot _ _ Hl') as [y Hy].
      unfold entry_of. by rewrite Hy. }
  split; cbn [current_epoch_ index_ id_map_ sp_epoch sp_keys sp_texts sp_count]; try done; [| | |by rewrite Hsize, Hcnt].
  - intros e. destruct (decide (e = x)) as [->|Hex].
    + rewrite lookup_insert_eq, Hl'. cbn [mbind option_bind]. unfold entry_of. rewrite Hnode. cbn. by rewrite Hmeta'.
    + rewrite lookup_insert_ne by done. rewrite Hk, Hother by done.
      destruct (IdMapStore.lookup e (id_map_ s)) as [j|] eqn:Ej; [|done]. cbn [mbind option_bind].
      assert (j <> i) as Hji. { intros ->. apply Hex. rewrite <-Hother in Ej by done. by eapply lookup_inj. }
      destruct (Hslot e j Ej) as [y Hy]. symmetry. by apply (entry_frame (index_ s) ix j y Hy (Hkeep j y Hji Hy)), Hmo.
  - intros j Hj. pose proof (lookup_lt_size im x i Hw' Hl'). rewrite Hmo by lia. apply Hu.
    destruct fresh; [destruct (Hfr eq_refl); lia|rewrite (Hold eq_refl) in *; lia].
  - intros e en. destruct (decide (e = x)) as [->|Hex].
    + rewrite lookup_insert_eq. intros [= <-]. cbn. by destruct (ir_vector req).
    + rewrite lookup_insert_ne by done. apply Hne.
Qed.

Lemma delete_refines req s sp :
  implements s sp ->
  exists s', do_write (WDelete req) s = Some (s', (spec_delete req sp).2) /\ implements s' (spec_delete req sp).1 /\
    IdMapStore.size (id_map_ s') = IdMapStore.size (id_map_ s).
Proof.
  intros [Hwf He Hk Hu Hne Hcnt]. cbn [do_write]. unfold spec_delete, Delete. rewrite <-He.
  destruct (check_epoch_cases (dr_epoch req) (current_epoch_ s)) as [[Hlt ->]|[Hle ->]].
  { rewrite decide_True by done. by exists s. }
  rewrite decide_False by lia. cbn [id_map_ with_epoch index_ shard_id_ current_epoch_]. rewrite Hk.
  destruct (IdMapStore.lookup (dr_external_id req) (id_map_ s)) as [i|] eqn:El; cbn [mbind option_bind].
  2: { eexists. split; [done|]. split; [|done]. split; cbn; try done. }
  pose proof (Delete_spec req s i Hwf Hle El) as HD. unfold Delete in HD.
  destruct (check_epoch_cases (dr_epoch req) (current_epoch_ s)) as [[? _]|[_ Hc]]; [lia|]. rewrite Hc in HD.
  cbn [id_map_ with_epoch index_ shard_id_ current_epoch_] in HD. rewrite El in HD. destruct HD as (_ & Hwf' & _).
  pose proof Hwf as (Hi & Hm & Hreach & Hslot). destruct (Hslot _ _ El) as [[v d] Hv].
  destruct (vi_delete_law i (index_ s) Hi) as (Hw & Hr & Hnode & Hother & Hmeta & Hsize). rewrite Hv in Hnode, Hsize. cbn in Hnode, Hsize.
  unfold entry_of at 1. rewrite Hv. cbn [fmap option_fmap option_map]. unfold entry_of. rewrite Hv. cbn [fmap option_fmap option_map].
  eexists. split; [done|]. split; [|done].
  split; cbn [current_epoch_ index_ id_map_ sp_epoch sp_keys sp_texts sp_count en_live fst]; try done.
  - intros e. destruct (decide (e = dr_external_id req)) as [->|Hex].
    + rewrite lookup_insert_eq, El. cbn [mbind option_bind]. unfold entry_of. rewrite Hnode. cbn. by rewrite Hmeta.
    + rewrite lookup_insert_ne, Hk by done. destruct (IdMapStore.lookup e (id_map_ s)) as [j|] eqn:Ej; [|done].
      cbn [mbind option_bind]. destruct (Hslot e j Ej) as [y Hy].
      assert (j <> i) as Hji by (intros ->; apply Hex; by eapply lookup_inj). symmetry.
      apply (entry_frame (index_ s) _ j y Hy); [by rewrite Hother|done].
  - intros j Hj. rewrite Hmeta. by apply Hu.
  - intros e en. destruct (decide (e = dr_external_id req)) as [->|Hex].
    + rewrite lookup_insert_eq. intros [= <-]. cbn. apply (Hne (dr_external_id req) (MkEntry v (vi_metadata i (index_ s)) (negb d))).
      rewrite Hk, El. cbn [mbind option_bind]. unfold entry_of. by rewrite Hv.
    + rewrite lookup_insert_ne by done. apply Hne.
  - rewrite Hsize, Hcnt. by destruct d.
Qed.

Lemma implements_get s sp e : implements s sp -> GetVector e s = spec_get e sp.
Proof.
  intros Him. pose proof Him as [Hwf _ Hk _ Hne _]. unfold GetVector, spec_get, get_vector_data. specialize (Hne e). rewrite Hk in *.
  destruct (IdMapStore.lookup e (id_map_ s)) as [i|] eqn:El; [|done]. cbn [mbind option_bind] in *. unfold entry_of in *.
  destruct Hwf as (_ & _ & _ & Hslot). destruct (Hslot e i El) as [[v d] Hv]. rewrite Hv in *. cbn in *.
  destruct d; cbn; [done|]. specialize (Hne _ eq_refl). cbn in Hne. by destruct v.
Qed.

Lemma implements_listed s sp e :
  implements s sp -> e ∈ lrs_external_ids (ListLocalIds s) <-> exists en, sp_keys sp !! e = Some en /\ en_live en = true.
Proof.
  intros [Hwf _ Hk _ _ _]. rewrite listed_iff by done. unfold listed, is_deleted. rewrite Hk.
  destruct (IdMapStore.lookup e (id_map_ s)) as [i|] eqn:El; cbn [mbind option_bind]; [|split; [done|by intros (? & ? & _)]].
  destruct Hwf as (_ & _ & _ & Hslot). destruct (Hslot e i El) as [[v d] Hv]. unfold entry_of. rewrite Hv. cbn.
  split; [intros Hd; eexists; split; [done|exact Hd]|]. by intros (en & [= <-] & Hd).
Qed.

Lemma serve_refines ws s sp :
  implements s sp -> Forall write_ok ws -> IdMapStore.size (id_map_ s) + N.of_nat (length ws) <= vi_limit ->
  exists s', serve ws s = Some (s', (spec_serve ws sp).2) /\ implements s' (spec_serve ws sp).1 /\
    IdMapStore.size (id_map_ s') <= IdMapStore.size (id_map_ s) + N.of_nat (length ws).
Proof.
  revert s sp. induction ws as [|w ws IH]; intros s sp Him Hok Hroom; [exists s; split_and!; [done..|lia]|].
  apply Forall_cons in Hok as [Hw Hok]. cbn [serve spec_serve length] in *.
  assert (exists s1, do_write w s = Some (s1, (spec_write w sp).2) /\ implements s1 (spec_write w sp).1 /\
    IdMapStore.size (id_map_ s1) <= IdMapStore.size (id_map_ s) + 1) as (s1 & -> & Him1 & Hs1).
  { destruct w as [r req|req].
    - destruct Hw as [Hr Hx]. apply insert_refines; [done..|lia].
    - destruct (delete_refines req s sp Him) as (s1 & E & H & Hsz). exists s1. split_and!; [done|done|lia]. }
  cbn [mbind option_bind]. destruct (spec_write w sp) as [sp1 ok]. cbn [fst snd] in *.
  destruct (IH s1 sp1 Him1 Hok) as (s2 & -> & Him2 & Hs2); [lia|]. cbn [mbind option_bind].
  destruct (spec_serve ws sp1) as [sp2 oks]. exists s2. split_and!; [done..|lia].
Qed.

(** C31: A shard is a fenced map.  Over any index that keeps its promises, a
    shard that implements a map answers every sequence of inserts and deletes
    exactly as the map does, never fails, and implements the resulting map:
    [GetVector] and [ListLocalIds] then return what the map holds, and the index
    counts what the map counts. *)
Theorem shard_implements_map (ws : list write) (s : t Ix) (sp : spec) :
  implements s sp -> Forall write_ok ws -> IdMapStore.size (id_map_ s) + N.of_nat (length ws) <= vi_limit ->
  exists s', serve ws s = Some (s', (spec_serve ws sp).2) /\ implements s' (spec_serve ws sp).1 /\
    (forall e, GetVector e s' = spec_get e (spec_serve ws sp).1) /\
    (forall e, e ∈ lrs_external_ids (ListLocalIds s') <->
       exists en, sp_keys (spec_serve ws sp).1 !! e = Some en /\ en_live en = true) /\
    vi_size (index_ s') = sp_count (spec_serve ws sp).1.
Proof.
  intros Him Hok Hroom. destruct (serve_refines ws s sp Him Hok Hroom) as (s' & E & Him' & _). exists s'.
  split_and!; [done|done|intros e; by apply implements_get|intros e; by apply implements_listed|apply Him'].
Qed.
End refinement.

Import FlatIndex.

Lemma fresh_implements : implements fresh_shard empty_spec.
Proof. split; [apply fresh_shard_wf|done|by intros e|done|by intros e en|done]. Qed.

Lemma shard_implements_map_witness :
  exists s', serve [WInsert tt sample_insert; WDelete (MkDeleteRequest "key" 9); WDelete (MkDeleteRequest "key" 8)] fresh_shard =
      Some (s', [true; true; false]) /\
    GetVector "key" s' = MkGetVectorResponse false [] "" unavailable_error.
Proof.
  destruct (shard_implements_map (Ix := FlatIndex.t)
    [WInsert tt sample_insert; WDelete (MkDeleteRequest "key" 9); WDelete (MkDeleteRequest "key" 8)]
    fresh_shard empty_spec fresh_implements) as (s' & E & _ & Hg & _).
  - by repeat constructor.
  - vm_compute. discriminate.
  - exists s'. split; [rewrite E; reflexivity|]. rewrite Hg. reflexivity.
Defined.
