(* ===== verification/HnswShard.v ===== *)
(** * A shard node ([src/cluster/shard_node_main.cpp])

    The HNSW index keeps the promises that [ShardService] is verified against,
    so that the contract of a shard holds for the node that [main] puts
    together: memory-mapped storage, index, id map and service. *)

From S2P Require Import Prelude Storage MemoryMap MetadataStore Float32 PriorityQueue IndexTypes FloatExact Distance.
From S2P Require Import Hnsw HnswInv HnswGreedy HnswUpdate HnswSearch IdMapStore ShardService ShardSpec.
Import ShardService.

(** ** The index as a shard sees it *)

Definition hnsw_node (s : Hnsw.t) (id : N) : option (list float32 * bool) :=
  if out_of_range id s then None else data s ≫= fun img => payload img id.

Definition hnsw_index (fused : bool) : VectorIndex Hnsw.t draws := {|
  vi_node := hnsw_node;
  vi_insert d v id m s := match insert fused d v id m s with Some (Ret _, s') => Some s' | _ => None end;
  vi_delete id s := default s (delete_vector id s);
  vi_metadata id s := if id <?? U32 then Hnsw.get_metadata id s else "";
  vi_size := Hnsw.size;
|}.

Definition hnsw_search (fused : bool) : VectorSearch Hnsw.t := search fused.

Definition hnsw_slots (s : Hnsw.t) : N := from_option slots 0 (data s).

Lemma hnsw_node_payload s img id : index_wf s img -> hnsw_node s id = payload img id.
Proof.
  intros [Hm _ _ _ _ _]. unfold hnsw_node, out_of_range, data. rewrite (proj1 Hm). cbn [mbind option_bind].
  pose proof (proj2 Hm) as Hs. cbn [c_size image_contents] in Hs. rewrite Hs. case_bool_decide; [|done].
  unfold payload, get_node. by rewrite bool_decide_eq_false_2 by lia.
Qed.

Section node.
Context (fused : bool).

#[local] Instance index_instance : VectorIndex Hnsw.t draws := hnsw_index fused.

#[local] Instance search_instance : VectorSearch Hnsw.t := hnsw_search fused.

(** The accessors of the index are the ones a shard derives from the slots. *)
Lemma hnsw_accessors s img id :
  index_wf s img ->
  Hnsw.is_deleted id s = Some (is_deleted id s) /\ Hnsw.get_vector_data id s = Some (get_vector_data id s).
Proof.
  intros Hix. pose proof (hnsw_node_payload s img id Hix) as Hp. destruct Hix as [Hm Hw _ _ _ _].
  unfold Hnsw.is_deleted, Hnsw.get_vector_data, is_deleted, get_vector_data. cbn [vi_node index_instance hnsw_index].
  rewrite Hp. unfold out_of_range, data. rewrite (proj1 Hm). pose proof (proj2 Hm) as Hs. cbn [c_size image_contents] in Hs.
  rewrite Hs. unfold payload. case_bool_decide as Hr.
  - unfold get_node. by rewrite bool_decide_eq_false_2 by lia.
  - destruct (get_node_wf img id Hw) as (n & Hg & _); [unfold in_range; lia|]. cbn [mbind option_bind]. rewrite Hg. cbn.
    by destruct (n_deleted n).
Qed.

(** The level of the new node is one of the layers, and the file can grow. *)
Definition hnsw_draw_ok (d : draws) : Prop :=
  (get_random_level d < Z.of_nat MAX_LAYERS)%Z /\ d_sys d = MMapHandler.all_succeed.

Lemma hnsw_slots_eq s img : index_wf s img -> hnsw_slots s = slots img.
Proof. intros [Hm _ _ _ _ _]. unfold hnsw_slots, data. by rewrite (proj1 Hm). Qed.

Lemma slots_range img id : image_wf img -> occupied img id -> id < slots img.
Proof. intros Hw Ho. apply in_range_slots; [apply Hw|by apply occupied_in_range]. Qed.

#[local] Instance index_laws : VectorIndexLaws Hnsw.t draws.
Proof.
  refine {| vi_wf := fun s => exists img, index_wf s img; vi_draw_ok := hnsw_draw_ok; vi_limit := INT_LIMIT; vi_reach := hnsw_slots |}.
  - done.
  - intros d v id m s [img Hix] [Hlev Hsys] Hv Hid Hr. rewrite (hnsw_slots_eq s img Hix) in Hr.
    destruct (insert_spec fused d v id m s img Hix Hlev Hsys Hv Hid Hr)
      as (s' & img' & E & Hix' & Hsz & Hdom & Hp & Ho & [H1 H2 H3 H4 H5]).
    cbn [vi_insert vi_node vi_metadata vi_size index_instance hnsw_index]. rewrite E. exists s'.
    rewrite (hnsw_slots_eq s img Hix), (hnsw_slots_eq s' img' Hix'), !(hnsw_node_payload s' img' _ Hix').
    split_and!; [done|by exists img'| | |done| | | | |done].
    + unfold slots. apply N.Div0.div_le_mono. rewrite Hsz. pose proof (grown_size_le id (i_size img)). lia.
    + apply slots_range; [apply Hix'|]. apply occupied_dom. rewrite Hdom. set_solver.
    + intros id' x Hne. rewrite (hnsw_node_payload s img id' Hix), (hnsw_node_payload s' img' id' Hix'). by apply Ho.
    + intros Hm. rewrite bool_decide_eq_true_2 by (unfold INT_LIMIT, U32 in *; lia). by apply H3.
    + intros Hm. rewrite !bool_decide_eq_true_2 by (unfold INT_LIMIT, U32 in *; lia). by apply H4.
    + intros id' Hne. case_bool_decide; [by apply H5|done].
  - intros id s [img Hix]. destruct (delete_spec id s img Hix) as (s' & img' & E & Hix' & Hsz & Hocc & Hp & Ho & Hmeta & Hmet & Hc).
    cbn [vi_delete vi_node vi_metadata vi_size index_instance hnsw_index]. rewrite E. cbn [default]. change (Datatypes.id s') with s'.
    rewrite (hnsw_slots_eq s img Hix), (hnsw_slots_eq s' img' Hix'), !(hnsw_node_payload s' img' _ Hix'), !(hnsw_node_payload s img _ Hix).
    split_and!; [by exists img'|unfold slots; by rewrite Hsz|done| | |done].
    + intros id' Hne. rewrite (hnsw_node_payload s' img' _ Hix'), (hnsw_node_payload s img _ Hix). by apply Ho.
    + intros id'. unfold Hnsw.get_metadata. by rewrite Hmeta.
Defined.

(** ** The node *)

(** [main]: [Throw] is the exit code 1, [None] undefined behaviour. *)
Definition shard_main (sc : MMapHandler.syscalls) (data_dir shard_id : string) (disk : gmap string image)
    (metadata_file id_map_file : option bytes) : option (outcome (ShardService.t Hnsw.t)) :=
  match MMapHandler.open_file sc (data_dir +:+ "/index.ndb") PREALLOCATION MMapHandler.create disk with
  | (Throw w, _, _) => Some (Throw w)
  | (Ret _, storage, disk) =>
    index ← Hnsw.create storage disk metadata_file L2;
    Some (Ret (Mk index (IdMapStore.open_file id_map_file) shard_id 0))
  end.

(** Only ids that the map has given out are in the graph. *)
Record node_inv (s : ShardService.t Hnsw.t) : Prop := {
  ni_metric : metric_ (index_ s) = L2;
  ni_ids img id : data (index_ s) = Some img -> occupied img id -> id < IdMapStore.size (id_map_ s);
  ni_size img : data (index_ s) = Some img -> PREALLOCATION <= i_size img;
}.

Lemma shard_main_fresh data_dir shard_id :
  exists s, shard_main MMapHandler.all_succeed data_dir shard_id ∅ None None = Some (Ret s) /\
    implements s empty_spec /\ node_inv s /\ IdMapStore.size (id_map_ s) = 0.
Proof.
  unfold shard_main.
  destruct (create_fresh (data_dir +:+ "/index.ndb")) as (h & disk & s & img & -> & -> & Hix & Hn & Hsz & Hmeta & Hmet & _ & Hcnt & _).
  cbn [mbind option_bind]. eexists. split; [done|]. split; [|split; [|done]].
  - split; cbn [index_ id_map_ current_epoch_ sp_epoch sp_keys]; try done.
    + split_and!; cbn [index_ id_map_]; [by exists img|split; [apply IdMapStore.maps_wf_init|by split]|apply N.le_0_l|done].
    + intros i _. cbn [vi_metadata index_instance hnsw_index]. unfold Hnsw.get_metadata. rewrite Hmeta. case_bool_decide; [|done].
      unfold MetadataHandler.get_metadata. by case_bool_decide.
  - pose proof (proj1 (ix_mapped _ _ Hix) : data s = Some img) as Hdata. split; [done|..]; cbn [index_ id_map_]; rewrite Hdata.
    + intros img' id [= <-] [n Hocc]. by rewrite Hn in Hocc.
    + intros img' [= <-]. lia.
Qed.

Lemma insert_node_inv r req s s' ok :
  service_wf s -> node_inv s -> hnsw_draw_ok r -> strlen (ir_external_id req) < U32 ->
  IdMapStore.size (id_map_ s) < INT_LIMIT -> do_write (WInsert r req) s = Some (s', ok) -> node_inv s'.
Proof.
  intros ([img Hix] & Hm & Hreach & _) [Hmet Hids Hfile] [Hlev Hsys] Hx Hsz. cbn [do_write]. unfold Insert.
  case_decide as Hd; [by intros [= <- _]|]. destruct (check_and_advance_epoch _ _) as [e|err]; [|by intros [= <- _]].
  set (x := ir_external_id req) in *.
  pose proof (IdMapStore.assign_frame x (id_map_ s) Hm ltac:(unfold INT_LIMIT, U32 in *; lia) Hx) as Ha.
  destruct (IdMapStore.assign None x (id_map_ s)) as [im [i fresh]].
  destruct Ha as (Hw' & Hl' & _ & _ & Hfr & Hold & _). pose proof (lookup_lt_size im x i Hw' Hl') as Hlt.
  assert (i <= IdMapStore.size (id_map_ s) /\ IdMapStore.size (id_map_ s) <= IdMapStore.size im) as [Hle Hge].
  { destruct fresh; [destruct (Hfr eq_refl) as [-> ?]; lia|rewrite (Hold eq_refl) in *; lia]. }
  cbn [vi_reach index_laws] in Hreach. rewrite (hnsw_slots_eq _ img Hix) in Hreach.
  destruct (insert_spec fused r (ir_vector req) i (ir_metadata req) (index_ s) img Hix Hlev Hsys Hd)
    as (s1 & img1 & E & [Hm1 _ _ _ _ _] & Hg & Hdom & _ & _ & [_ H2 _ _ _]); [lia|lia|].
  cbn [vi_insert index_instance hnsw_index]. rewrite E. cbn [mbind option_bind]. intros [= <- _].
  pose proof (proj1 (ix_mapped _ _ Hix) : data (index_ s) = Some img) as Hd0.
  pose proof (proj1 Hm1 : data s1 = Some img1) as Hd1. split; cbn [index_ id_map_]; rewrite ?Hd1; [by rewrite H2| |].
  2: { intros img' [= <-]. pose proof (Hfile img Hd0). pose proof (grown_size_le i (i_size img)). lia. }
  intros img' id [= <-] Hocc. apply occupied_dom in Hocc. rewrite Hdom in Hocc.
  apply elem_of_union in Hocc as [->%elem_of_singleton|Hocc]; [done|].
  assert (id < IdMapStore.size (id_map_ s)); [|lia]. apply (Hids img); [exact Hd0|by apply occupied_dom].
Qed.

Lemma delete_node_inv req s s' ok :
  service_wf s -> node_inv s -> do_write (WDelete req) s = Some (s', ok) -> node_inv s'.
Proof.
  intros ([img Hix] & Hm & _ & _) [Hmet Hids Hfile]. cbn [do_write]. unfold Delete.
  destruct (check_and_advance_epoch _ _) as [e|err]; [|by intros [= <- _]]. cbn [id_map_ with_epoch index_].
  destruct (IdMapStore.lookup _ _) as [i|] eqn:El; [|by intros [= <- _]]. intros [= <- _].
  destruct (delete_spec i (index_ s) img Hix) as (s1 & img1 & E & [Hm1 _ _ _ _ _] & Hsz & Hocc & _ & _ & _ & Hmet1 & _).
  cbn [vi_delete index_instance hnsw_index]. rewrite E. cbn [default]. change (Datatypes.id s1) with s1.
  pose proof (proj1 (ix_mapped _ _ Hix) : data (index_ s) = Some img) as Hd0.
  pose proof (proj1 Hm1 : data s1 = Some img1) as Hd1. split; cbn [index_ id_map_]; rewrite ?Hd1; [by rewrite Hmet1| |].
  2: { intros img' [= <-]. rewrite Hsz. exact (Hfile img Hd0). }
  intros img' id [= <-] Ho. apply Hocc in Ho as [Ho| ->].
  - by apply (Hids img id).
  - by apply (lookup_lt_size _ (dr_external_id req)).
Qed.

Lemma serve_node_inv ws s sp :
  implements s sp -> node_inv s -> Forall write_ok ws -> IdMapStore.size (id_map_ s) + N.of_nat (length ws) <= INT_LIMIT ->
  forall s' oks, serve ws s = Some (s', oks) -> node_inv s'.
Proof.
  revert s sp. induction ws as [|w ws IH]; intros s sp Him Hni Hok Hroom s' oks; [by intros [= <- _]|].
  apply Forall_cons in Hok as [Hw Hok]. cbn [serve length] in *.
  assert (exists s1, do_write w s = Some (s1, (spec_write w sp).2) /\ implements s1 (spec_write w sp).1 /\
    IdMapStore.size (id_map_ s1) <= IdMapStore.size (id_map_ s) + 1 /\ node_inv s1) as (s1 & -> & Him1 & Hs1 & Hni1).
  { destruct w as [r req|req].
    - destruct Hw as [Hr Hx]. destruct (insert_refines r req s sp Him Hr Hx) as (s1 & E & H & Hsz);
        [change vi_limit with INT_LIMIT; lia|]. exists s1. split_and!; [done..|].
      by apply (insert_node_inv r req s s1 (spec_insert req sp).2); [apply Him|..|lia|].
    - destruct (delete_refines req s sp Him) as (s1 & E & H & Hsz). exists s1. split_and!; [done|done|lia|].
      by apply (delete_node_inv req s s1 (spec_delete req sp).2); [apply Him|..]. }
  cbn [mbind option_bind]. destruct (serve ws s1) as [[s2 oks2]|] eqn:E2; [|done]. cbn [mbind option_bind]. intros [= <- _].
  apply (IH s1 _ Him1 Hni1 Hok ltac:(lia) s2 oks2 E2).
Qed.

(** What a search of a shard that implements a map may return. *)
Definition answers (q : list float32) (k : Z) (sp : spec) (rs : list SearchResult) : Prop :=
  NoDup (sres_external_id <$> rs) /\ (0 <= k -> Z.of_nat (length rs) <= k)%Z /\
  ((forall e en, sp_keys sp !! e = Some en -> is_nan (compute_distance fused q (en_vector en) VECTOR_DIM L2) = false) ->
   StronglySorted (fun x y => fltb (sres_distance y) (sres_distance x) = false) rs) /\
  forall r, r ∈ rs -> exists en, sp_keys sp !! sres_external_id r = Some en /\ en_live en = true /\
    sres_metadata r = en_metadata en /\ sres_distance r = compute_distance fused q (en_vector en) VECTOR_DIM L2.

Lemma reverse_lookup_spec m id :
  IdMapStore.wf m -> id < IdMapStore.size m -> IdMapStore.lookup (IdMapStore.reverse_lookup id m) m = Some id.
Proof.
  intros [[Hlen Hm] _] Hid. unfold IdMapStore.reverse_lookup, IdMapStore.lookup, IdMapStore.size in *.
  rewrite bool_decide_eq_false_2 by lia. destruct (lookup_lt_is_Some_2 (IdMapStore.reverse_ m) (N.to_nat id)) as [e He]; [lia|].
  rewrite He. cbn [default]. apply Hm. split; [lia|done].
Qed.

(** Every stored node is a key of the map. *)
Lemma stored_is_key s sp img id n :
  implements s sp -> node_inv s -> index_wf (index_ s) img -> i_nodes img !! id = Some n ->
  sp_keys sp !! IdMapStore.reverse_lookup id (id_map_ s) =
    Some (MkEntry (n_vector n) (Hnsw.get_metadata id (index_ s)) (negb (n_deleted n))).
Proof.
  intros [(_ & Hm & _) _ Hk _ _ _] [_ Hids _] Hix Hn.
  assert (id < IdMapStore.size (id_map_ s)) as Hid by (apply (Hids img); [exact (proj1 (ix_mapped _ _ Hix))|by eexists]).
  rewrite Hk, (reverse_lookup_spec _ _ Hm Hid). cbn [mbind option_bind].
  assert (id < U32) as Hu. { destruct Hm as [[Hlen' _] _]. unfold IdMapStore.size in Hid. lia. }
  unfold entry_of. cbn [vi_node vi_metadata index_instance hnsw_index]. rewrite (hnsw_node_payload _ _ _ Hix).
  destruct (iw_nodes _ (ix_image _ _ Hix) _ _ Hn) as [Hr _].
  unfold payload, get_node. rewrite bool_decide_eq_true_2 by done. rewrite Hn. cbn [default fmap option_fmap option_map].
  by rewrite bool_decide_eq_true_2 by done.
Qed.

Lemma Search_answers q k s sp :
  implements s sp -> node_inv s -> length q = VECTOR_DIM -> (k < Z.of_N U64)%Z ->
  exists rs, Search (MkSearchRequest q k) s = Some (MkSearchResponse rs true "") /\ answers q k sp rs.
Proof.
  intros Him Hni Hq Hk64. pose proof Him as [([img Hix] & Hm & _ & _) _ _ _ _ _]. pose proof Hni as [Hmet Hids _].
  unfold Search. cbn [sr_vector sr_k]. rewrite decide_False by (by intros []).
  destruct (search_sound_aux fused q k (index_ s) img Hix ltac:(lia) Hk64) as (rs & E & [Hnd Hlive Hlen _ Hsort]).
  unfold vi_search, search_instance, hnsw_search. rewrite E. cbn [mbind option_bind]. eexists. split; [done|].
  rewrite Forall_forall in Hlive.
  assert (forall r, r ∈ rs -> IdMapStore.lookup (IdMapStore.reverse_lookup (r_id r) (id_map_ s)) (id_map_ s) = Some (r_id r)) as Hrl.
  { intros r Hr. apply reverse_lookup_spec; [done|]. destruct (Hlive r Hr) as (n & Hn & _).
    apply (Hids img); [exact (proj1 (ix_mapped _ _ Hix))|by eexists]. }
  split_and!.
  - clear Hlen E Hlive Hsort. rewrite <-list_fmap_compose. induction rs as [|r rs IH]; [constructor|]. cbn in Hnd |- *.
    apply NoDup_cons in Hnd as [Hnin Hnd]. apply NoDup_cons. split.
    + intros (r' & Heq & Hr')%list_elem_of_fmap. apply Hnin, list_elem_of_fmap. exists r'. split; [|done]. cbn in Heq.
      pose proof (Hrl r ltac:(by left)) as H1. pose proof (Hrl r' ltac:(by right)) as H2. congruence.
    + apply (IH Hnd). intros y Hy. apply Hrl. by right.
  - by rewrite length_fmap.
  - intros Hnan. eapply StronglySorted_fmap; [|apply Hsort]; [done|]. intros id n Hn.
    rewrite Hmet. exact (Hnan _ _ (stored_is_key s sp img id n Him Hni Hix Hn)).
  - intros r (x & -> & Hx)%list_elem_of_fmap. cbn [sres_external_id sres_metadata sres_distance].
    destruct (Hlive x Hx) as (n & Hn & Hd & Hdist & Hmeta). eexists.
    split; [exact (stored_is_key s sp img _ n Him Hni Hix Hn)|]. cbn [en_live en_metadata en_vector].
    split_and!; [by rewrite Hd|done|]. by rewrite Hdist, Hmet.
Qed.

(** C7: A shard node is a fenced map with search.  Started on an empty disk,
    a node accepts any sequence of at most [2^31] inserts and deletes without
    running into undefined behaviour, as long as no insertion draws a level
    beyond the four layers and the file can grow; it acknowledges exactly the
    writes that the map accepts, and then [GetVector], [ListLocalIds] and
    [Search] agree with the map: for a query of 128 numbers the results of a
    search are distinct live keys, at most [k] of them when [k >= 0], with the
    metadata of the map and the L2 distance of the map's vector, from near to
    far when the distance to no key of the map is a NaN.  The index counts what
    the map counts, a repeated insertion of a key once more. *)
Theorem shard_node_serves (data_dir shard_id : string) (ws : list (@write draws)) :
  Forall write_ok ws -> N.of_nat (length ws) <= INT_LIMIT ->
  exists s0 s, shard_main MMapHandler.all_succeed data_dir shard_id ∅ None None = Some (Ret s0) /\
    let sp := (spec_serve ws empty_spec).1 in
    serve ws s0 = Some (s, (spec_serve ws empty_spec).2) /\
    (forall e, GetVector e s = spec_get e sp) /\
    (forall e, e ∈ lrs_external_ids (ListLocalIds s) <-> exists en, sp_keys sp !! e = Some en /\ en_live en = true) /\
    (forall q k, length q = VECTOR_DIM -> (k < Z.of_N U64)%Z ->
       exists rs, Search (MkSearchRequest q k) s = Some (MkSearchResponse rs true "") /\ answers q k sp rs) /\
    Hnsw.size (index_ s) = sp_count sp.
Proof.
  intros Hok Hlen. destruct (shard_main_fresh data_dir shard_id) as (s0 & Es0 & Him0 & Hni0 & Hz0).
  destruct (serve_refines ws s0 _ Him0 Hok) as (s & E & Him & _); [change vi_limit with INT_LIMIT; lia|].
  assert (node_inv s) as Hni by (eapply serve_node_inv; [exact Him0|exact Hni0|exact Hok|lia|exact E]).
  exists s0, s. split; [done|]. split_and!; [done| | | |apply Him].
  - intros e. by apply implements_get.
  - intros e. by apply implements_listed.
  - intros q k Hq Hk. by apply Search_answers.
Qed.
End node.

(** ** Examples *)

Definition insert_one (key : string) : @write draws := WInsert ground (MkInsertRequest key unit_vector "" 0).

Definition delete_one (key : string) : @write draws := WDelete (MkDeleteRequest key 0).

Lemma ground_ok key : strlen key < U32 -> write_ok (VectorIndexLaws0 := index_laws true) (insert_one key).
Proof. intros H. split; [split; [vm_compute; reflexivity|reflexivity]|exact H]. Qed.

Lemma shard_node_serves_witness :
  exists s0 s, shard_main MMapHandler.all_succeed "data" "0" ∅ None None = Some (Ret s0) /\
    serve (VectorIndex0 := hnsw_index true) [insert_one "a"; delete_one "a"; insert_one "b"] s0 = Some (s, [true; true; true]).
Proof.
  destruct (shard_node_serves true "data" "0" [insert_one "a"; delete_one "a"; insert_one "b"]) as (s0 & s & E0 & E & _).
  - constructor; [by apply ground_ok|]. constructor; [exact I|]. constructor; [by apply ground_ok|constructor].
  - vm_compute. discriminate.
  - exists s0, s. split; [exact E0|exact E].
Defined.
