(* ===== verification/ShardRestart.v ===== *)
(** * A shard node as a process, and its restart ([src/cluster/shard_node_main.cpp])

    [main] from its start to its exit.  The next process finds the index file,
    the metadata file and the id map.  The epoch fence is only in memory, and
    the metadata file has no ids: its texts are dealt out anew, by position. *)

From S2P Require Import Prelude Storage MemoryMap MetadataStore Float32 PriorityQueue IndexTypes FloatExact Distance.
From S2P Require Import Hnsw HnswInv HnswGreedy HnswUpdate HnswSearch HnswReopen IdMapStore ShardService ShardSpec HnswShard.
Import ShardService.

Record node_ending := MkNodeEnding {
  ne_code : Z;
  ne_answers : list bool;
  ne_disk : gmap string image;
  ne_metadata : option bytes;
  ne_id_map : option bytes;
}.

Section restart.
Context (fused : bool).

#[local] Instance restart_index : VectorIndex Hnsw.t draws := hnsw_index fused.

#[local] Instance restart_laws : VectorIndexLaws Hnsw.t draws := index_laws fused.

(** [bound] says whether the port could be bound: otherwise [BuildAndStart]
    returns null and [Wait] is called on it.  [ws] are the writes until the
    shutdown. *)
Definition shard_process (sc : MMapHandler.syscalls) (data_dir shard_id : string) (disk : gmap string image)
    (metadata_file id_map_file : option bytes) (bound : bool) (ws : list (@write draws)) : option node_ending :=
  r ← shard_main sc data_dir shard_id disk metadata_file id_map_file;
  match r with
  | Throw _ =>
    let '(_, _, disk) := MMapHandler.open_file sc (data_dir +:+ "/index.ndb") PREALLOCATION MMapHandler.create disk in
    Some (MkNodeEnding 1 [] disk metadata_file id_map_file)
  | Ret s =>
    if negb bound then None
    else
      '(s, oks) ← serve ws s;
      Some (MkNodeEnding 0 oks (disk_ (index_ s)) (Some (MetadataHandler.file_ (metadata_storage_ (index_ s))))
              (Some (IdMapStore.file_ (id_map_ s))))
  end.

(** ** The files of the node *)

Definition path_of (s : ShardService.t Hnsw.t) : string := MMapHandler.file_path_ (storage_ (index_ s)).

Lemma write_path w s s' ok : do_write w s = Some (s', ok) -> path_of s' = path_of s.
Proof.
  destruct w as [r req|req]; cbn [do_write].
  - unfold Insert. case_decide; [by intros [= <- _]|]. destruct (check_and_advance_epoch _ _) as [e|err]; [|by intros [= <- _]].
    destruct (IdMapStore.assign _ _ _) as [im [i fresh]]. cbn [vi_insert restart_index hnsw_index].
    destruct (insert fused r (ir_vector req) i (ir_metadata req) (index_ s)) as [[[]]|] eqn:E; try done.
    cbn [mbind option_bind]. intros [= <- _]. unfold path_of. cbn [index_]. by eapply insert_path.
  - unfold Delete. destruct (check_and_advance_epoch _ _) as [e|err]; [|by intros [= <- _]]. cbn [id_map_ with_epoch index_].
    destruct (IdMapStore.lookup _ _) as [i|]; [|by intros [= <- _]]. intros [= <- _]. unfold path_of.
    cbn [vi_delete restart_index hnsw_index index_]. destruct (delete_vector i (index_ s)) as [s1|] eqn:E; [|done].
    cbn [default]. change (Datatypes.id s1) with s1. by rewrite (proj2 (delete_keeps _ _ _ E)).
Qed.

Lemma serve_path ws s s' oks : serve ws s = Some (s', oks) -> path_of s' = path_of s.
Proof.
  revert s oks. induction ws as [|w ws IH]; intros s oks; cbn [serve]; [by intros [= <- _]|].
  intros ([s1 ok] & E1 & E)%bind_Some. apply bind_Some in E as ([s2 oks'] & E2 & [= <- _]).
  rewrite (IH s1 oks' E2). by eapply write_path.
Qed.

Lemma main_path data_dir shard_id disk meta idf s :
  shard_main MMapHandler.all_succeed data_dir shard_id disk meta idf = Some (Ret s) -> path_of s = data_dir +:+ "/index.ndb".
Proof.
  unfold shard_main.
  destruct (MMapHandler.open_spec (data_dir +:+ "/index.ndb") PREALLOCATION MMapHandler.create disk) as (h & disk' & -> & _ & Hp & _).
  intros (ix & E & [= <-])%bind_Some. unfold path_of. cbn [index_]. rewrite <-Hp. unfold create in E.
  destruct (MMapHandler.get_data _ _) as [img|]; [|done]. cbn [mbind option_bind] in E.
  case_bool_decide; [|done]. case_bool_decide; by injection E as <-.
Qed.

(** ** What a process leaves *)

(** The keys in the order of their local ids, and the texts of the metadata
    file. *)
Record trail := MkTrail { tr_keys : list string; tr_texts : list string }.

(** An accepted insertion appends a key that is new, and a text that is not
    empty. *)
Definition trail_write (w : @write draws) (sp : spec) (tr : trail) : trail :=
  match w with
  | WInsert _ req =>
    if (spec_insert req sp).2 then
      MkTrail (if decide (ir_external_id req ∈ tr_keys tr) then tr_keys tr else tr_keys tr ++ [ir_external_id req])
              (tr_texts tr ++ MetadataHandler.appended (ir_metadata req))
    else tr
  | WDelete _ => tr
  end.

Fixpoint trail_of (ws : list (@write draws)) (sp : spec) (tr : trail) : trail :=
  match ws with
  | [] => tr
  | w :: ws => trail_of ws (spec_write w sp).1 (trail_write w sp tr)
  end.

(** The text at the position of a key. *)
Definition text_of (tr : trail) (e : string) : string :=
  default "" (list_find (e =.) (tr_keys tr) ≫= fun x => tr_texts tr !! x.1).

(** The map after the restart: the fence is down, and every key shows the text
    at its position. *)
Definition renumbered (tr : trail) (sp : spec) : spec :=
  MkSpec 0 (map_imap (fun e en => Some (MkEntry (en_vector en) (text_of tr e) (en_live en))) (sp_keys sp))
    (sp_count sp) (tr_texts tr).

(** A write that may be given to a node, with metadata whose length fits the
    32 bits of a record. *)
Definition write_fits (w : @write draws) : Prop :=
  write_ok w /\ match w with WInsert _ req => strlen (ir_metadata req) < U32 | WDelete _ => True end.

Record left_by (s : ShardService.t Hnsw.t) (tr : trail) : Prop := {
  lb_keys : IdMapStore.reverse_ (id_map_ s) = tr_keys tr;
  lb_file : MetadataHandler.file_ (metadata_storage_ (index_ s)) = concat (MetadataHandler.record <$> tr_texts tr);
  lb_texts : Forall (fun m => m <> "" /\ strlen m < U32) (tr_texts tr);
}.

Lemma assign_keys e im im' i fresh :
  IdMapStore.wf im -> IdMapStore.assign None e im = (im', (i, fresh)) ->
  IdMapStore.reverse_ im' = if decide (e ∈ IdMapStore.reverse_ im) then IdMapStore.reverse_ im else IdMapStore.reverse_ im ++ [e].
Proof.
  intros [[Hlen Hm] _]. unfold IdMapStore.assign. destruct (IdMapStore.forward_ im !! e) as [j|] eqn:E; intros [= <- _ _].
  - apply Hm in E as [_ E]. by rewrite decide_True by (by eapply list_elem_of_lookup_2).
  - rewrite decide_False; [done|]. intros [j Hj]%list_elem_of_lookup_1. pose proof (lookup_lt_Some _ _ _ Hj).
    assert (IdMapStore.forward_ im !! e = Some (N.of_nat j)) as E' by (apply Hm; rewrite Nat2N.id; split; [lia|done]).
    congruence.
Qed.

Lemma write_left w s sp tr s' :
  implements s sp -> left_by s tr -> write_fits w -> do_write w s = Some (s', (spec_write w sp).2) ->
  left_by s' (trail_write w sp tr).
Proof.
  intros [Hwf He _ _ _ _] [Hk Hf Ht] [_ Hm]. destruct w as [r req|req]; cbn [do_write spec_write trail_write].
  - unfold Insert, spec_insert. rewrite <-He. case_decide as Hd; [by intros [= <-]|].
    destruct (check_epoch_cases (ir_epoch req) (current_epoch_ s)) as [[Hlt ->]|[Hle ->]].
    { rewrite decide_True by done. by intros [= <-]. }
    rewrite decide_False by lia. destruct (IdMapStore.assign _ _ _) as [im [i fresh]] eqn:Ea.
    cbn [vi_insert restart_index hnsw_index snd].
    destruct (insert fused r (ir_vector req) i (ir_metadata req) (index_ s)) as [[[u|] x]|] eqn:Ei; try done.
    cbn [mbind option_bind]. intros [= <-]. apply insert_saves, MetadataHandler.save_file in Ei.
    destruct Hwf as (_ & Hw & _). apply (assign_keys _ _ _ _ _ Hw) in Ea.
    split; cbn [index_ id_map_ tr_keys tr_texts]; [by rewrite Ea, Hk|by rewrite Ei, Hf, fmap_app, concat_app|].
    apply Forall_app. split; [done|]. unfold MetadataHandler.appended.
    destruct (decide (ir_metadata req = "")); by repeat constructor.
  - unfold Delete. destruct (check_and_advance_epoch _ _) as [e|err]; [|by intros [= <-]]. cbn [id_map_ with_epoch index_].
    destruct (IdMapStore.lookup _ _) as [i|]; [|by intros [= <-]]. intros [= <- _]. destruct Hwf as ([img Hix] & _).
    destruct (delete_spec i (index_ s) img Hix) as (x & img' & E & _ & _ & _ & _ & _ & Hmeta & _).
    cbn [vi_delete restart_index hnsw_index]. rewrite E. cbn [default]. change (Datatypes.id x) with x.
    split; cbn [index_ id_map_]; [done|by rewrite Hmeta|done].
Qed.

Lemma serve_left ws s sp tr s' :
  implements s sp -> left_by s tr -> Forall write_fits ws -> IdMapStore.size (id_map_ s) + N.of_nat (length ws) <= INT_LIMIT ->
  serve ws s = Some (s', (spec_serve ws sp).2) -> left_by s' (trail_of ws sp tr).
Proof.
  revert s sp tr. induction ws as [|w ws IH]; intros s sp tr Him Hl Hok Hroom; cbn [serve spec_serve trail_of]; [by intros [= <-]|].
  apply Forall_cons in Hok as [Hw Hok]. cbn [length] in Hroom.
  destruct (serve_refines [w] s sp Him) as (s1 & E & Him1 & Hs1); [constructor; [apply Hw|constructor]|cbn [length]; change vi_limit with INT_LIMIT; lia|].
  cbn [serve spec_serve length] in E, Him1, Hs1. destruct (spec_write w sp) as [sp1 ok] eqn:Ew.
  destruct (do_write w s) as [[x b]|] eqn:Ed; [|done]. cbn [mbind option_bind fst snd] in *. injection E as -> ->.
  destruct (spec_serve ws sp1) as [sp2 oks] eqn:E2. intros (y & Ey & Hy)%bind_Some. destruct y as [s2 oks']. injection Hy as -> ->.
  apply (IH s1 sp1); [exact Him1| |exact Hok|lia|by rewrite E2].
  apply (write_left w s sp tr s1 Him Hl Hw). by rewrite Ew.
Qed.

(** ** The number of elements *)

(** At least the live keys are counted, and at most the insertions. *)
Definition counted (sp : spec) (n : N) : Prop :=
  N.of_nat (base.size (filter (fun x => en_live x.2 = true) (sp_keys sp))) <= sp_count sp <= n.

Lemma write_counted w sp n : counted sp n -> n + 1 < U64 -> counted (@spec_write draws w sp).1 (n + 1).
Proof.
  intros [H1 H2] Hn. destruct w as [r req|req]; cbn [spec_write]; unfold spec_insert, spec_delete, counted.
  - case_decide; [cbn [fst]; lia|]. case_decide; cbn [fst sp_keys sp_count]; [lia|]. rewrite u64_add_small by lia.
    rewrite map_filter_insert_True by done. split; [|lia]. set (en := MkEntry _ _ _).
    rewrite map_size_insert. destruct (filter _ (sp_keys sp) !! _); unfold Datatypes.id; lia.
  - case_decide; [cbn [fst]; lia|]. destruct (sp_keys sp !! dr_external_id req) as [en|] eqn:E; cbn [fst sp_keys sp_count]; [|lia].
    rewrite map_filter_insert_False by done. rewrite map_filter_delete, map_size_delete.
    destruct (en_live en) eqn:El.
    + assert (filter (fun x => en_live x.2 = true) (sp_keys sp) !! dr_external_id req = Some en) as Hl
        by (by apply map_lookup_filter_Some).
      rewrite Hl. assert (base.size (filter (fun x => en_live x.2 = true) (sp_keys sp)) <> 0)%nat as Hne.
      { intros Hz%map_size_empty_inv. by rewrite Hz in Hl. }
      rewrite u64_sub_le by lia. unfold Datatypes.id. lia.
    + destruct (filter _ (sp_keys sp) !! _); unfold Datatypes.id; lia.
Qed.

Lemma serve_counted ws sp n :
  counted sp n -> n + N.of_nat (length ws) < U64 -> counted (@spec_serve draws ws sp).1 (n + N.of_nat (length ws)).
Proof.
  revert sp n. induction ws as [|w ws IH]; intros sp n Hc Hn; [by rewrite N.add_0_r|]. cbn [spec_serve length] in *.
  pose proof (write_counted w sp n Hc ltac:(lia)) as Hc1. destruct (spec_write w sp) as [sp1 ok]. cbn [fst] in Hc1.
  specialize (IH sp1 (n + 1) Hc1 ltac:(lia)). destruct (spec_serve ws sp1) as [sp2 oks]. cbn [fst] in *.
  by replace (n + N.of_nat (S (length ws))) with (n + 1 + N.of_nat (length ws)) by lia.
Qed.

(** ** The next process *)

Lemma entry_bound s img :
  index_wf (index_ s) img -> node_inv s -> IdMapStore.size (id_map_ s) <= INT_LIMIT -> entry_point_id_ (index_ s) < U32.
Proof.
  intros Hix [_ Hids _] Hsz. destruct (ix_entry _ _ Hix) as [[-> _]|(_ & Ho & _)]; [done|].
  apply (Hids img) in Ho; [|exact (proj1 (ix_mapped _ _ Hix))]. unfold INT_LIMIT, U32 in *. lia.
Qed.

(** A text is found by the position of its record. *)
Lemma reopened_text texts i :
  Forall (fun m => m <> "" /\ strlen m < U32) texts -> N.of_nat (length texts) <= INT_LIMIT ->
  (if i <?? U32 then MetadataHandler.get_metadata (u32_to_i32 i)
     (MetadataHandler.open_file (Some (concat (MetadataHandler.record <$> texts)))) else "") = default "" (texts !! N.to_nat i).
Proof.
  intros Ht Hlen. destruct (decide (i < INT_LIMIT)) as [Hi|Hi].
  - rewrite bool_decide_eq_true_2 by (unfold INT_LIMIT, U32 in *; lia). rewrite u32_to_i32_small by done.
    replace (Z.of_N i) with (Z.of_nat (N.to_nat i)) by lia. by apply MetadataHandler.open_records.
  - rewrite (lookup_ge_None_2 texts) by lia. case_bool_decide as Hu; [|done]. unfold MetadataHandler.get_metadata.
    rewrite bool_decide_eq_true_2; [done|]. unfold u32_to_i32, INT_LIMIT, U32 in *. rewrite decide_False by lia. lia.
Qed.

Lemma trail_length ws sp tr : (length (tr_texts (trail_of ws sp tr)) <= length (tr_texts tr) + length ws)%nat.
Proof.
  revert sp tr. induction ws as [|w ws IH]; intros sp tr; cbn [trail_of length]; [lia|].
  specialize (IH (spec_write w sp).1 (trail_write w sp tr)).
  assert (length (tr_texts (trail_write w sp tr)) <= S (length (tr_texts tr)))%nat; [|lia].
  destruct w as [r req|req]; cbn [trail_write]; [|lia]. destruct (spec_insert req sp).2; cbn [tr_texts]; [|lia].
  rewrite length_app. unfold MetadataHandler.appended. case_decide; cbn [length]; lia.
Qed.

(** A key is found at its local id. *)
Lemma key_text (s : ShardService.t Hnsw.t) tr e i :
  IdMapStore.wf (id_map_ s) -> IdMapStore.reverse_ (id_map_ s) = tr_keys tr -> IdMapStore.lookup e (id_map_ s) = Some i ->
  text_of tr e = default "" (tr_texts tr !! N.to_nat i).
Proof.
  intros [Hm _] Hk Hl. pose proof (IdMapStore.maps_wf_NoDup _ Hm) as Hnd. destruct Hm as [_ Hm]. apply Hm in Hl as [_ Hl].
  unfold text_of. rewrite <-Hk. assert (list_find (e =.) (IdMapStore.reverse_ (id_map_ s)) = Some (N.to_nat i, e)) as ->; [|done].
  apply list_find_Some. split; [done|]. split; [done|]. intros j y Hj Hlt <-.
  pose proof (NoDup_lookup _ _ _ _ Hnd Hj Hl). lia.
Qed.

(** It implements the renumbered map. *)
Lemma restarted data_dir shard_id s sp tr :
  implements s sp -> node_inv s -> left_by s tr -> path_of s = data_dir +:+ "/index.ndb" ->
  IdMapStore.size (id_map_ s) <= INT_LIMIT -> N.of_nat (length (tr_texts tr)) <= INT_LIMIT -> sp_count sp < U32 ->
  exists s', shard_main MMapHandler.all_succeed data_dir shard_id (disk_ (index_ s))
      (Some (MetadataHandler.file_ (metadata_storage_ (index_ s)))) (Some (IdMapStore.file_ (id_map_ s))) = Some (Ret s') /\
    implements s' (renumbered tr sp) /\ node_inv s' /\ id_map_ s' = id_map_ s.
Proof.
  intros [([img Hix] & Hm & Hreach & Hslot) _ Hk Hu Hv Hcnt] Hni [Hkeys Hf Ht] Hpath Hsz Hlen Hc. pose proof Hni as [Hmet Hids Hfile].
  pose proof (proj1 (ix_mapped _ _ Hix) : data (index_ s) = Some img) as Hd. rewrite Hf.
  set (mf := Some (concat (MetadataHandler.record <$> tr_texts tr))) in *.
  destruct (reopen_spec mf (index_ s) img Hix (Hfile img Hd) ltac:(by change (Hnsw.size (index_ s) < U32); rewrite (Hcnt : Hnsw.size (index_ s) = _)))
    as (x & E & Hmap & _ & Hmeta & Hmetric & He & Hl & Hcount & _); [by eapply entry_bound|].
  assert (MetadataHandler.wf (MetadataHandler.open_file mf)) as Hmw.
  { apply MetadataHandler.open_records_wf. eapply Forall_impl; [exact Ht|]. by intros ? [? ?]. }
  pose proof (reopen_wf _ _ _ x Hix Hmw Hmap Hmeta He Hl Hcount) as Hix'.
  pose proof (proj1 Hmap : data x = Some img) as Hd'.
  assert (forall id, vi_node x id = vi_node (index_ s) id) as Hnode.
  { intros id. cbn [vi_node restart_index hnsw_index]. by rewrite (hnsw_node_payload x img id Hix'), (hnsw_node_payload _ img id Hix). }
  assert (forall id, vi_metadata id x = default "" (tr_texts tr !! N.to_nat id)) as Htext.
  { intros id. rewrite <-(reopened_text _ id Ht Hlen). cbn [vi_metadata restart_index hnsw_index]. unfold Hnsw.get_metadata. by rewrite Hmeta. }
  exists (ShardService.Mk x (id_map_ s) shard_id 0). split; [|split; [|split; [|done]]].
  - unfold shard_main. rewrite <-Hpath. revert E. unfold reopen, path_of.
    assert (MMapHandler.file_path_ (MMapHandler.close_file (storage_ (index_ s))) = MMapHandler.file_path_ (storage_ (index_ s))) as ->.
    { unfold MMapHandler.close_file. by destruct (MMapHandler.data_ _). }
    destruct (MMapHandler.open_file _ _ _ _ _) as [[[] h] disk]; [|done]. rewrite Hmet. intros ->. cbn [mbind option_bind].
    by rewrite (IdMapStore.id_map_reopen _ Hm).
  - split; cbn [index_ id_map_ current_epoch_ renumbered sp_epoch sp_keys sp_texts sp_count]; [|done| | | |].
    + split; [by exists img|]. split; [done|]. cbn [index_ id_map_]. split; [|by intros e i Hi; rewrite Hnode; apply (Hslot e)].
      cbn [vi_reach restart_laws index_laws] in *. by rewrite (hnsw_slots_eq x img Hix'), <-(hnsw_slots_eq (index_ s) img Hix).
    + intros e. rewrite map_lookup_imap, Hk. destruct (IdMapStore.lookup e (id_map_ s)) as [i|] eqn:El; [|done]. cbn [mbind option_bind].
      unfold entry_of. rewrite Hnode, Htext, (key_text s tr e i Hm Hkeys El). by destruct (vi_node (index_ s) i).
    + intros i _. apply Htext.
    + intros e en. rewrite map_lookup_imap. intros (y & Hy & [= <-])%bind_Some. exact (Hv e y Hy).
    + rewrite <-Hcnt. exact Hcount.
  - split; cbn [index_ id_map_]; [by rewrite Hmetric| |]; rewrite Hd'; [|by intros i [= <-]; apply (Hfile img Hd)].
    intros i id [= <-] Ho. by apply (Hids img id).
Qed.

#[local] Instance restart_search : VectorSearch Hnsw.t := hnsw_search fused.

(** What the clients of a node see of the map that it implements. *)
Definition shows (s : ShardService.t Hnsw.t) (sp : spec) : Prop :=
  (forall e, GetVector e s = spec_get e sp) /\
  (forall e, e ∈ lrs_external_ids (ListLocalIds s) <-> exists en, sp_keys sp !! e = Some en /\ en_live en = true) /\
  (forall q k, length q = VECTOR_DIM -> (k < Z.of_N U64)%Z ->
     exists rs, Search (MkSearchRequest q k) s = Some (MkSearchResponse rs true "") /\ answers fused q k sp rs) /\
  Hnsw.size (index_ s) = sp_count sp.

Lemma implements_shows s sp : implements s sp -> node_inv s -> shows s sp.
Proof.
  intros Him Hni. split; [intros e; by apply implements_get|]. split; [intros e; by apply implements_listed|].
  split; [|apply Him]. intros q k Hq Hk. exact (Search_answers fused q k s sp Him Hni Hq Hk).
Qed.

Lemma fresh_left data_dir shard_id s :
  shard_main MMapHandler.all_succeed data_dir shard_id ∅ None None = Some (Ret s) -> left_by s (MkTrail [] []).
Proof.
  unfold shard_main.
  destruct (create_fresh (data_dir +:+ "/index.ndb")) as (h & disk & x & img & -> & -> & _ & _ & _ & Hmeta & _).
  cbn [mbind option_bind]. intros [= <-]. split; [done| |constructor]. cbn [index_]. by rewrite Hmeta.
Qed.

(** C8: A shard node across a restart.  Start a node on an empty disk, let it
    serve any writes [ws1] and stop it, then start it on the files it left and
    let it serve [ws2]; together at most [2^31] writes, with levels below 4, and
    keys and metadata shorter than [2^32] bytes.  Both processes exit with 0.
    The first acknowledges exactly what the fenced map accepts.  The second
    shows, and goes on from, the renumbered map: the same keys, vectors,
    tombstones and count, the epoch 0 again, and as metadata of the [n]-th key
    ever inserted the [n]-th text ever saved, whichever key it was saved for.
    It shows this to [GetVector], [ListLocalIds] and [Search] right after the
    restart and after [ws2].  When the port cannot be bound, the second process
    dereferences a null pointer instead. *)
Theorem shard_restarts (data_dir shard_id : string) (ws1 ws2 : list (@write draws)) :
  Forall write_fits (ws1 ++ ws2) -> N.of_nat (length (ws1 ++ ws2)) <= INT_LIMIT ->
  let sp1 := (spec_serve ws1 empty_spec).1 in
  let sp2 := renumbered (trail_of ws1 empty_spec (MkTrail [] [])) sp1 in
  exists e1 e2 s0 s1 s2 s3, shard_process MMapHandler.all_succeed data_dir shard_id ∅ None None true ws1 = Some e1 /\
    shard_process MMapHandler.all_succeed data_dir shard_id (ne_disk e1) (ne_metadata e1) (ne_id_map e1) true ws2 = Some e2 /\
    ne_code e1 = 0%Z /\ ne_code e2 = 0%Z /\
    ne_answers e1 = (spec_serve ws1 empty_spec).2 /\ ne_answers e2 = (spec_serve ws2 sp2).2 /\
    shard_main MMapHandler.all_succeed data_dir shard_id ∅ None None = Some (Ret s0) /\
    serve ws1 s0 = Some (s1, ne_answers e1) /\ shows s1 sp1 /\
    shard_main MMapHandler.all_succeed data_dir shard_id (ne_disk e1) (ne_metadata e1) (ne_id_map e1) = Some (Ret s2) /\
    shows s2 sp2 /\ serve ws2 s2 = Some (s3, ne_answers e2) /\ shows s3 (spec_serve ws2 sp2).1 /\
    shard_process MMapHandler.all_succeed data_dir shard_id (ne_disk e1) (ne_metadata e1) (ne_id_map e1) false ws2 = None.
Proof.
  intros [Hw1 Hw2]%Forall_app Hlen sp1 sp2. rewrite length_app in Hlen.
  assert (Forall write_ok ws1 /\ Forall write_ok ws2) as [Ho1 Ho2] 
    by (split; [apply (Forall_impl _ _ _ Hw1)|apply (Forall_impl _ _ _ Hw2)]; by intros w []).
  destruct (shard_main_fresh fused data_dir shard_id) as (s0 & E0 & Him0 & Hni0 & Hz0).
  destruct (serve_refines ws1 s0 _ Him0 Ho1) as (s1 & E1 & Him1 & Hsz1); [change vi_limit with INT_LIMIT; lia|].
  assert (node_inv s1) as Hni1 by (eapply serve_node_inv; [exact Him0|exact Hni0|exact Ho1|lia|exact E1]).
  pose proof (serve_left ws1 s0 _ _ s1 Him0 (fresh_left _ _ _ E0) Hw1 ltac:(lia) E1) as Hl1.
  pose proof (serve_counted ws1 empty_spec 0 ltac:(by split) ltac:(unfold INT_LIMIT, U64 in *; lia)) as [_ Hc].
  pose proof (trail_length ws1 empty_spec (MkTrail [] [])) as Htr. cbn [tr_texts length] in Htr.
  destruct (restarted data_dir shard_id s1 sp1 _ Him1 Hni1 Hl1) as (s2 & E2 & Him2 & Hni2 & Hid); fold sp1 in Hc;
    [|lia|lia|unfold INT_LIMIT, U32 in *; lia|].
  { rewrite (serve_path _ _ _ _ E1). by eapply main_path. }
  destruct (serve_refines ws2 s2 _ Him2 Ho2) as (s3 & E3 & Him3 & _); [change vi_limit with INT_LIMIT; rewrite Hid; lia|].
  assert (node_inv s3) as Hni3 by (eapply serve_node_inv; [exact Him2|exact Hni2|exact Ho2|rewrite Hid; lia|exact E3]).
  change (serve (VectorIndex0 := restart_index) ws1 s0 = Some (s1, (spec_serve ws1 empty_spec).2)) in E1.
  unfold shard_process. rewrite E0. cbn [mbind option_bind negb]. rewrite E1. cbn [mbind option_bind].
  eexists _, (MkNodeEnding 0 _ (disk_ (index_ s3)) (Some (MetadataHandler.file_ (metadata_storage_ (index_ s3))))
    (Some (IdMapStore.file_ (id_map_ s3)))), s0, s1, s2, s3.
  split; [reflexivity|]. cbn [ne_disk ne_metadata ne_id_map ne_code ne_answers]. rewrite E2. cbn [mbind option_bind].
  change (serve (VectorIndex0 := restart_index) ws2 s2 = Some (s3, (spec_serve ws2 sp2).2)) in E3.
  rewrite E3. do 6 (split; [reflexivity|]). split; [exact E1|]. split; [by apply implements_shows|].
  split; [reflexivity|]. split; [by apply implements_shows|]. split; [reflexivity|].
  split; [by apply implements_shows|reflexivity].
Qed.
End restart.

(** Three keys, the first without metadata: after the restart the first shows
    the text of the second and the second that of the third.  A write with an
    old epoch, refused before the restart, is accepted after it. *)
Definition put (key metadata : string) (epoch : N) : @write draws := WInsert ground (MkInsertRequest key unit_vector metadata epoch).

Definition first_writes : list (@write draws) := [put "a" "" 5; put "b" "x" 5; put "c" "y" 5; put "d" "" 3].

Lemma put_fits key metadata epoch : strlen key < U32 -> strlen metadata < U32 -> write_fits true (put key metadata epoch).
Proof. intros H1 H2. split; [|exact H2]. split; [split; [vm_compute; reflexivity|reflexivity]|exact H1]. Qed.

Lemma shard_restarts_witness :
  exists e1 e2 s2,
    shard_process true MMapHandler.all_succeed "data" "0" ∅ None None true first_writes = Some e1 /\
    shard_process true MMapHandler.all_succeed "data" "0" (ne_disk e1) (ne_metadata e1) (ne_id_map e1) true [put "d" "" 3] = Some e2 /\
    ne_answers e1 = [true; true; true; false] /\ ne_answers e2 = [true] /\
    shard_main MMapHandler.all_succeed "data" "0" (ne_disk e1) (ne_metadata e1) (ne_id_map e1) = Some (Ret s2) /\
    (fun e => grs_metadata (GetVector (VectorIndex0 := hnsw_index true) e s2)) <$> ["a"; "b"; "c"] = ["x"; "y"; ""].
Proof.
  destruct (shard_restarts true "data" "0" first_writes [put "d" "" 3])
    as (e1 & e2 & s0 & s1 & s2 & s3 & He1 & He2 & _ & _ & Ha1 & Ha2 & _ & _ & _ & Hs2 & (Hg & _) & _).
  - unfold first_writes. cbn [app]. repeat (constructor; [apply put_fits; reflexivity|]). constructor.
  - vm_compute. discriminate.
  - exists e1, e2, s2. split; [exact He1|]. split; [exact He2|]. rewrite Ha1, Ha2. split; [vm_compute; reflexivity|].
    split; [vm_compute; reflexivity|]. split; [exact Hs2|].
    cbn [fmap list_fmap]. rewrite !Hg. vm_compute. reflexivity.
Defined.
