(* ===== verification/HnswFindings.v ===== *)
(** * The HNSW index: where the code falls short

    Behaviours of the index that its callers do not expect, each shown on the
    model: live vectors that no search can find, nodes that get no links, a
    selection of neighbours that prefers the farthest, a level that no node has
    room for, and a counter that wraps. *)

From S2P Require Import Prelude Storage MemoryMap MetadataStore Float32 PriorityQueue IndexTypes FloatExact Distance.
From S2P Require Import Hnsw HnswInv HnswGreedy HnswUpdate HnswSearch IdMapStore ShardService ShardSpec HnswShard.
Import ShardService.

Section findings.
Context (fused : bool).

(** ** Vectors behind a tombstone *)

(** An entry point without links that is deleted hides the whole index. *)
Lemma lonely_tombstone query k s img n :
  index_wf s img -> entry_point_id_ s <> NO_ENTRY -> current_max_layer_ s = 0%Z ->
  get_node (entry_point_id_ s) img = Some n -> n_deleted n = true -> links n 0 = Some [] ->
  (VECTOR_DIM <= length query)%nat -> search fused query k s = Some [].
Proof.
  intros [Hm Hw _ _ _ _] Hne Hlay Hg Hd Hl Hq. unfold search.
  rewrite bool_decide_eq_false_2 by done. rewrite bool_decide_eq_false_2 by lia. unfold data. rewrite (proj1 Hm).
  cbn [mbind option_bind]. unfold distance_to. rewrite Hg. cbn [mbind option_bind]. rewrite Hlay.
  change (layers_down 0 0) with (@nil Z). cbn [descend mbind option_bind].
  unfold search_layer. rewrite Hg. cbn [mbind option_bind]. rewrite Hd.
  set (start := MkResult _ _ _). change (push result_gt start []) with [start].
  cbn [search_loop top head f_candidates f_found]. unfold stop_here. cbn [top head f_found].
  change (r_id start) with (entry_point_id_ s). rewrite Hg. cbn [mbind option_bind]. rewrite Hl. cbn [mbind option_bind visit_all].
  change (pop result_gt [start]) with (@nil Result). cbn [f_candidates top head f_found].
  cbn [mbind option_bind drain pops length collect]. by rewrite N.min_0_r.
Qed.

(** A node that inserted "a", deleted it and inserted "b". *)
Definition after_delete : option (ShardService.t Hnsw.t) :=
  match shard_main MMapHandler.all_succeed "data" "0" ∅ None None with
  | Some (Ret s0) => fst <$> serve (VectorIndex0 := hnsw_index true) [insert_one "a"; delete_one "a"; insert_one "b"] s0
  | _ => None
  end.
End findings.

(** A live vector that no search finds.  On a shard node that stored a
    first vector, deleted it and then stored a second one, the second vector
    is there: [GetVector] returns it and [ListLocalIds] lists it.  But the
    tombstone is still the entry point, a tombstone is never selected as a
    neighbour, and so nothing links to the new vector: every search, for every
    query and every [k], returns nothing. *)
Theorem live_vector_not_found (q : list float32) (k : Z) :
  length q = VECTOR_DIM ->
  exists s, after_delete = Some s /\
    GetVector (VectorIndex0 := hnsw_index true) "b" s = MkGetVectorResponse true unit_vector "" "" /\
    lrs_external_ids (ListLocalIds (VectorIndex0 := hnsw_index true) s) = ["b"] /\
    Search (VectorSearch0 := hnsw_search true) (MkSearchRequest q k) s = Some (MkSearchResponse [] true "").
Proof.
  intros Hq.
  destruct (shard_main_fresh true "data" "0") as (s0 & E0 & Him0 & _ & Hz).
  destruct (serve_refines (VectorIndexLaws0 := index_laws true) [insert_one "a"; delete_one "a"; insert_one "b"] s0 _ Him0) as (s & E & Him & _).
  { constructor; [by apply ground_ok|]. constructor; [exact I|]. constructor; [by apply ground_ok|constructor]. }
  { rewrite Hz. vm_compute. discriminate. }
  assert (after_delete = Some s) as Es. { unfold after_delete. rewrite E0. change (index_instance true) with (hnsw_index true) in E. by rewrite E. }
  exists s. split; [done|]. pose proof (im_wf _ _ Him) as ([img Hix] & _).
  assert (fmap (fun s => (entry_point_id_ (index_ s), current_max_layer_ (index_ s),
      data (index_ s) ≫= fun img => n ← get_node 0 img; Some (n_deleted n, links n 0))) after_delete =
    Some (0, 0%Z, Some (true, Some []))) as Hfacts by (vm_compute; reflexivity).
  assert (fmap (fun s => (GetVector (VectorIndex0 := hnsw_index true) "b" s,
      lrs_external_ids (ListLocalIds (VectorIndex0 := hnsw_index true) s))) after_delete =
    Some (MkGetVectorResponse true unit_vector "" "", ["b"])) as Hget by (vm_compute; reflexivity).
  rewrite Es in Hfacts, Hget. cbn [fmap option_fmap option_map] in Hfacts, Hget.
  apply (inj Some) in Hget. pose proof (f_equal fst Hget) as Hg. pose proof (f_equal snd Hget) as Hlist. cbn [fst snd] in Hg, Hlist.
  injection Hfacts as He Hl Hd. rewrite Hg, Hlist. split; [done|]. split; [done|].
  unfold Search. cbn [sr_vector sr_k]. rewrite decide_False by (by intros []).
  unfold data in Hd. rewrite (proj1 (ix_mapped _ _ Hix)) in Hd. cbn [mbind option_bind] in Hd.
  destruct (get_node 0 img) as [n|] eqn:Hn; [|done]. cbn [mbind option_bind] in Hd. injection Hd as Hdel Hlinks.
  unfold vi_search, hnsw_search.
  rewrite (lonely_tombstone true q k (index_ s) img n); [done|done|by rewrite He|done|by rewrite He|done|done|lia].
Qed.

Lemma live_vector_not_found_witness :
  exists s, after_delete = Some s /\
    Search (VectorSearch0 := hnsw_search true) (MkSearchRequest unit_vector 10) s = Some (MkSearchResponse [] true "").
Proof.
  destruct (live_vector_not_found unit_vector 10 eq_refl) as (s & E & _ & _ & Hs). exists s. split; [exact E|exact Hs].
Defined.

(** ** Nodes without locks *)

Section locks.
Context (fused : bool) (metric : DistanceMetric).

Lemma put_node_other src n img img' id :
  put_node src n img = Some img' -> id <> src -> get_node id img' = get_node id img.
Proof.
  unfold put_node. case_bool_decide; [|done]. intros [= <-] Hne. unfold get_node. cbn [i_size i_nodes].
  by rewrite lookup_insert_ne.
Qed.

(** [add_link] writes at most to a node that has a lock. *)
Lemma add_link_locked locks src dest layer img img' id :
  locks <= id -> add_link fused metric locks src dest layer img = Some img' -> get_node id img' = get_node id img.
Proof.
  intros Hid. unfold add_link. case_bool_decide as Hs; [by intros [= <-]|]. assert (id <> src) as Hne by lia.
  destruct (get_node src img) as [n|]; [|done]. cbn [mbind option_bind].
  destruct (n_counts n !! layer) as [c|]; [|done]. cbn [mbind option_bind]. case_bool_decide.
  - destruct (layer_index c); [|done]. cbn [mbind option_bind]. destruct (set_neighbor _ _ _ _ _); [|done].
    cbn [mbind option_bind]. intros H'. by apply (put_node_other _ _ _ _ _ H').
  - destruct (distance_to _ _ _ _ _); [|done]. cbn [mbind option_bind]. destruct (links n layer); [|done].
    cbn [mbind option_bind]. destruct (farthest _ _ _ _ _ _ _ _) as [[d idx]|]; [|done]. cbn [mbind option_bind].
    destruct (_ && _); [|by intros [= <-]]. destruct (set_neighbor _ _ _ _ _); [|done]. cbn [mbind option_bind].
    intros H'. by apply (put_node_other _ _ _ _ _ H').
Qed.

Lemma link_all_locked locks id layer selected img img' x :
  locks <= x -> link_all fused metric locks id layer selected img = Some img' -> get_node x img' = get_node x img.
Proof.
  intros Hx. revert img. induction selected as [|y selected IH]; intros img; cbn [link_all]; [by intros [= <-]|].
  destruct (add_link _ _ _ id y _ img) as [i1|] eqn:E1; [|done]. cbn [mbind option_bind].
  destruct (add_link _ _ _ y id _ i1) as [i2|] eqn:E2; [|done]. cbn [mbind option_bind]. intros E3.
  rewrite (IH i2 E3), (add_link_locked _ _ _ _ _ _ x Hx E2). by apply (add_link_locked _ _ _ _ _ _ x Hx E1).
Qed.

Lemma connect_locked locks count id query layers curr img img' x :
  locks <= x -> connect fused metric locks count id query layers curr img = Some img' -> get_node x img' = get_node x img.
Proof.
  intros Hx. revert curr img. induction layers as [|l layers IH]; intros curr img; cbn [connect]; [by intros [= <-]|].
  destruct (layer_index l) as [lay|]; [|done]. cbn [mbind option_bind].
  destruct (search_layer _ _ _ _ _ _ _ _) as [c|]; [|done]. cbn [mbind option_bind].
  destruct (link_all _ _ _ _ _ _ img) as [i1|] eqn:E1; [|done]. cbn [mbind option_bind]. intros E2.
  rewrite (IH _ _ E2). by apply (link_all_locked _ _ _ _ _ _ x Hx E1).
Qed.
End locks.

Lemma with_data_data img s : is_Some (data s) -> data (with_data img s) = Some img.
Proof.
  unfold data, MMapHandler.get_data. cbn. intros [i Hi]. destruct (MMapHandler.data_ (storage_ s)); [done|done|].
  by rewrite lookup_insert_eq.
Qed.

Lemma finish_insert_node id m s s' img x :
  data s = Some img -> finish_insert id m s = Some s' -> exists img', data s' = Some img' /\ get_node x img' = get_node x img.
Proof.
  intros Hd. unfold finish_insert, persist_header.
  change (data (with_counters (entry_point_id_ s) (current_max_layer_ s) (element_count_ s +u 1) s)) with (data s).
  rewrite Hd. cbn [mbind option_bind]. case_bool_decide; [|done]. cbn [mbind option_bind].
  set (i1 := MkImage _ _ _). set (s1 := with_data i1 _). intros Hs.
  assert (data s' = data s1) as ->.
  { unfold save_metadata in Hs. case_bool_decide; [by injection Hs as <-|].
    destruct (MetadataHandler.save_metadata _ _ _); [|done]. cbn [mbind option_bind] in Hs. by injection Hs as <-. }
  exists i1. split; [|done]. apply with_data_data. by exists img.
Qed.

(** A node without a lock gets no links.  The table of locks is extended
    only when the file is; a file that was preallocated has slots for ids that
    have no lock, and [add_link] then silently does nothing: after the
    insertion of such an id its node has no neighbours on any layer, so that a
    search that arrives there goes no further. *)
Theorem unlocked_node_has_no_links (fused : bool) (d : draws) (vec : list float32) (id : N) (m : string)
    (s s' : Hnsw.t) (img img' : image) :
  index_wf s img -> in_range img id -> node_locks_ s <= id ->
  insert fused d vec id m s = Some (Ret tt, s') -> data s' = Some img' ->
  exists n, get_node id img' = Some n /\ forall layer, (layer < MAX_LAYERS)%nat -> links n layer = Some [].
Proof.
  intros [Hm Hw _ _ _ _] Hr Hlocks. unfold insert, expand.
  pose proof (proj2 Hm) as Hsz. cbn [c_size image_contents] in Hsz. rewrite Hsz.
  rewrite bool_decide_eq_false_2 by (unfold in_range in Hr; lia). unfold data at 1. rewrite (proj1 Hm). cbn [mbind option_bind].
  set (n0 := new_node _ _ _ _). destruct (put_node id n0 img) as [i1|] eqn:E1; [|done]. cbn [mbind option_bind].
  assert (get_node id i1 = Some n0) as Hg1.
  { unfold put_node in E1. case_bool_decide as Hb; [|done]. injection E1 as <-. unfold get_node. cbn [i_size i_nodes].
    rewrite bool_decide_eq_true_2 by done. by rewrite lookup_insert_eq. }
  assert (data (with_data i1 s) = Some i1) as Hd1 by (apply with_data_data; exists img; exact (proj1 Hm)).
  intros Hins Hd'. apply bind_Some in Hins as (s2 & E2 & [= ->]).
  assert (exists img2, data s' = Some img2 /\ get_node id img2 = Some n0) as (img2 & Hd2 & Hg2).
  { destruct (entry_point_id_ (with_data i1 s) =?? NO_ENTRY).
    - apply (finish_insert_node id m _ s' i1 id) in E2 as (img2 & H2 & H3); [|exact Hd1].
      exists img2. by rewrite H3.
    - unfold insert_linked in E2. rewrite Hd1 in E2. cbn [mbind option_bind] in E2.
      destruct (distance_to _ _ _ _ _) as [d0|]; [|done]. cbn [mbind option_bind] in E2.
      destruct (descend _ _ _ _ _ _ _) as [[d1 curr]|]; [|done]. cbn [mbind option_bind] in E2.
      destruct (connect _ _ _ _ _ _ _ _ _) as [i2|] eqn:Ec; [|done]. cbn [mbind option_bind] in E2.
      assert (get_node id i2 = Some n0) as Hg by (by rewrite (connect_locked _ _ _ _ _ _ _ _ _ _ id Hlocks Ec)).
      apply (finish_insert_node id m _ s' i2 id) in E2 as (img2 & H2 & H3); [exists img2; by rewrite H3|].
      case_bool_decide; apply with_data_data; by exists i1. }
  rewrite Hd' in Hd2. injection Hd2 as <-. exists n0. split; [done|]. intros layer Hl. by apply (links_replicate n0 layer (Z.to_nat M_MAX0) (U32 - 1)).
Qed.

(** An insertion into a file that was preallocated, of an id without a lock. *)
Lemma unlocked_node_has_no_links_witness :
  exists s s' img' n, one_vector = Some s /\ insert true ground ones 10000 "far" s = Some (Ret tt, s') /\
    data s' = Some img' /\ get_node 10000 img' = Some n /\ links n 0 = Some [].
Proof.
  destruct one_vector_wf as (s & img & E & Hix & He & Hc & Hm & Hl & Hsz & Hn).
  destruct (insert_spec true ground ones 10000 "far" s img) as (s' & img' & Ei & Hix' & _); try done.
  { unfold slots. rewrite Hsz. vm_compute. discriminate. }
  destruct (unlocked_node_has_no_links true ground ones 10000 "far" s s' img img' Hix) as (n & Hg & Hlinks).
  - unfold in_range. rewrite Hsz. vm_compute. discriminate.
  - rewrite Hl. vm_compute. discriminate.
  - exact Ei.
  - exact (proj1 (ix_mapped _ _ Hix')).
  - exists s, s', img', n. split; [exact E|]. split; [exact Ei|]. split; [exact (proj1 (ix_mapped _ _ Hix'))|].
    split; [exact Hg|]. apply Hlinks. unfold MAX_LAYERS. lia.
Defined.

(** ** The selection of neighbours *)

Lemma pops_take {A} (lt : A -> A -> bool) m n l : (m <= n)%nat -> pops lt m l = take m (pops lt n l).
Proof.
  revert n l. induction m as [|m IH]; intros [|n] l Hn; cbn [pops]; try done; [lia|].
  destruct (top l) as [x|]; [|done]. cbn [take]. f_equal. apply IH. lia.
Qed.

Lemma pops_short {A} (lt : A -> A -> bool) m l : pops lt m l = take m (drain lt l).
Proof.
  unfold drain. destruct (decide (m <= length l)%nat) as [Hle|Hgt]; [by apply pops_take|].
  rewrite take_ge; [|by rewrite (Permutation_length (pops_perm lt (length l) l eq_refl)); lia].
  rewrite (pops_take lt (length l) m) by lia. symmetry. apply take_ge.
  assert (forall n k : nat, (length (pops lt n l) <= length l)%nat) as H; [|by apply (H m 0%nat)].
  clear. intros n _. revert l. induction n as [|n IH]; intros [|x l]; cbn [pops top head length]; try lia.
  specialize (IH (pop lt (x :: l))). rewrite pop_length in IH. lia.
Qed.

(** An insertion links to the farthest candidates.  [search_layer] returns
    its results as a queue whose top is the farthest one, and [insert] takes
    the neighbours of the new node from the top: of the candidates that the
    beam search found, none that is left out is farther than one that is
    selected, and every candidate beyond the first [M] is left out. *)
Theorem insert_selects_farthest (fused : bool) (metric : DistanceMetric) (img : image) (query : list float32)
    (found : list Result) :
  layer_results fused metric img query EF_CONSTRUCTION found -> numeric fused metric img query ->
  exists selected rest, selected ++ rest ≡ₚ found /\ select_neighbors found = r_id <$> selected /\
    length selected = min (Z.to_nat M) (length found) /\
    forall a b, a ∈ selected -> b ∈ rest -> fltb (r_distance a) (r_distance b) = false.
Proof.
  intros [Hg _ _ Hh] Hn. exists (take (Z.to_nat M) (drain result_lt found)), (drop (Z.to_nat M) (drain result_lt found)).
  split_and!.
  - rewrite take_drop. apply drain_perm.
  - unfold select_neighbors. by rewrite pops_short.
  - by rewrite length_take, (Permutation_length (drain_perm result_lt found)).
  - intros a b Ha Hb. pose proof (drain_sorted result_lt comparable found (goods_comparable _ _ _ _ _ Hn Hg) (Hh Hn)) as Hs.
    rewrite <-(take_drop (Z.to_nat M)) in Hs. by apply (StronglySorted_app_1_elem_of _ _ _ a b Hs Ha Hb).
Qed.

(** The candidates around the only vector of an index. *)
Lemma insert_selects_farthest_witness :
  exists s img found selected, one_vector = Some s /\ search_layer true L2 img 1 0 ones EF_CONSTRUCTION 0 = Some found /\
    select_neighbors found = r_id <$> selected /\ length selected = min 16 (length found).
Proof.
  destruct one_vector_wf as (s & img & E & Hix & He & Hc & Hm & Hl & Hsz & Hn).
  destruct (search_layer_spec true L2 img ones 1 0 EF_CONSTRUCTION 0) as (found & Hf & Hres).
  - exact (ix_image _ _ Hix).
  - apply occupied_dom. rewrite Hn, dom_singleton. apply elem_of_singleton. reflexivity.
  - reflexivity.
  - unfold MAX_LAYERS. lia.
  - destruct (insert_selects_farthest true L2 img ones found Hres) as (selected & rest & _ & Hsel & Hlen & _).
    + intros id n. rewrite Hn, lookup_singleton_Some. intros [_ <-]. vm_compute. reflexivity.
    + exists s, img, found, selected. split; [exact E|]. split; [exact Hf|]. split; [exact Hsel|exact Hlen].
Defined.

(** ** A level beyond the layers *)

Lemma finish_insert_returns id m s img :
  MMapHandler.mapped (storage_ s) (disk_ s) img -> image_wf img -> MetadataHandler.wf (metadata_storage_ s) -> id < INT_LIMIT ->
  exists s' img', finish_insert id m s = Some s' /\ entry_point_id_ s' = entry_point_id_ s /\
    current_max_layer_ s' = current_max_layer_ s /\ data s' = Some img' /\ image_wf img' /\ i_size img' = i_size img.
Proof.
  intros Hm Hw Hmeta Hid. unfold finish_insert, persist_header.
  set (s1 := with_counters (entry_point_id_ s) (current_max_layer_ s) (element_count_ s +u 1) s).
  change (data s1) with (data s). unfold data. rewrite (proj1 Hm). cbn [mbind option_bind].
  rewrite bool_decide_eq_true_2 by apply Hw. cbn [mbind option_bind].
  change (MkImage (i_size img) (header_of s1 (i_header img)) (i_nodes img)) with (with_header s1 img).
  pose proof (with_data_mapped img (with_header s1 img) s1 Hm eq_refl) as Hm2.
  destruct (MetadataHandler.save_get_frame (Z.of_N id) m (metadata_storage_ s) Hmeta) as (m' & Es & _); [lia|].
  unfold save_metadata. rewrite u32_to_i32_small by done. cbn [metadata_storage_ with_data s1 with_counters]. rewrite Es.
  case_bool_decide; (eexists _, (with_header s1 img); split; [reflexivity|]; do 2 (split; [done|]);
    split; [exact (proj1 Hm2)|]; split; [by apply with_header_wf|done]).
Qed.

(** The insertion goes through, and leaves the id as the entry point of a layer
    that no node has. *)
Lemma high_level_insert fused d v id m s img :
  index_wf s img -> (Z.of_nat MAX_LAYERS <= get_random_level d)%Z -> d_sys d = MMapHandler.all_succeed ->
  length v = VECTOR_DIM -> id < INT_LIMIT -> id <= slots img ->
  exists s' img', insert fused d v id m s = Some (Ret tt, s') /\ entry_point_id_ s' = id /\
    current_max_layer_ s' = get_random_level d /\ data s' = Some img' /\ image_wf img' /\ in_range img' id.
Proof.
  intros Hix Hlev Hsys Hv Hlim Hid. unfold insert. rewrite Hsys. set (level := get_random_level d) in *.
  destruct (expand_spec id s img Hix Hlim Hid)
    as (s1 & i1 & -> & Hm1 & Hw1 & Hr1 & Hs1 & Hn1 & Hh1 & Emeta & Emetric & Eentry & Elayer & Ecount).
  unfold data at 1. rewrite (proj1 Hm1). cbn [mbind option_bind].
  destruct (new_node_wf i1 (d_garbage d) id level v Hv) as [Hnw Hnv].
  destruct (put_node_spec i1 id _ Hw1 Hr1 Hnw) as (i2 & -> & Hw2 & Hs2 & _ & Hd2 & _). cbn [mbind option_bind].
  pose proof (with_data_mapped i1 i2 s1 Hm1 Hs2) as Hm2. destruct Hix as [_ _ Hmeta He _ _]. rewrite <-Emeta in Hmeta.
  rewrite Hn1 in Hd2. assert (forall e, e = id \/ occupied img e -> occupied i2 e) as Hocc.
  { intros e. rewrite !occupied_dom, Hd2. set_solver. }
  change (entry_point_id_ (with_data i2 s1)) with (entry_point_id_ s1). rewrite Eentry. case_bool_decide as Hne.
  - destruct (finish_insert_returns id m (with_counters id level (element_count_ (with_data i2 s1)) (with_data i2 s1)) i2)
      as (s' & i' & -> & H1 & H2 & H3 & H4 & H5); [done..|]. exists s', i'. unfold in_range in *. rewrite H5, Hs2. by split_and!.
  - destruct He as [[? _]|(_ & Ho & Hlay)]; [done|]. unfold insert_linked. unfold data at 1. rewrite (proj1 Hm2). cbn [mbind option_bind].
    cbn [metric_ entry_point_id_ current_max_layer_ element_count_ node_locks_ with_data]. rewrite Eentry, Elayer.
    set (q := n_vector _). pose proof (Hocc _ (or_intror Ho)) as Ho2.
    rewrite (distance_to_at fused (metric_ s1) i2 q _ (occupied_in_range _ _ Hw2 Ho2)). cbn [mbind option_bind].
    assert (layers_down (current_max_layer_ s) level = []) as ->.
    { unfold layers_down. by replace (Z.to_nat (current_max_layer_ s - level)) with 0%nat by lia. }
    cbn [descend mbind option_bind].
    destruct (connect_spec fused (metric_ s1) (node_locks_ s1) (element_count_ s1) id q
      (layers_down (Z.min level (current_max_layer_ s)) (-1)) (entry_point_id_ s) i2) as (i3 & -> & Hw3 & Hp3); [done|by apply Hocc; left|done| |].
    { apply Forall_forall. intros l Hl%layers_down_bound. lia. }
    cbn [mbind option_bind]. rewrite bool_decide_eq_true_2 by lia.
    pose proof (with_data_mapped i2 i3 (with_data i2 s1) Hm2 (sp_size _ _ Hp3)) as Hm3.
    destruct (finish_insert_returns id m (with_counters id level (element_count_ s1) (with_data i3 (with_data i2 s1))) i3)
      as (s' & i' & -> & H1 & H2 & H3 & H4 & H5); [done..|]. exists s', i'. unfold in_range in *. rewrite H5, (sp_size _ _ Hp3), Hs2. by split_and!.
Qed.

(** One high level makes every search undefined.  [get_random_level] goes up to
    [M = 16], but a node has [MAX_LAYERS = 4] rows of neighbours.  An insertion
    into a well-formed index that draws a level of 4 or more is accepted, and
    from then on every search with a whole query starts on a layer that no node
    has and reads out of bounds. *)
Theorem high_level_breaks_search (fused : bool) (d : draws) (v query : list float32) (id : N) (m : string) (k : Z) (s : Hnsw.t) (img : image) :
  index_wf s img -> (Z.of_nat MAX_LAYERS <= get_random_level d)%Z -> d_sys d = MMapHandler.all_succeed ->
  length v = VECTOR_DIM -> id < INT_LIMIT -> id <= slots img -> (VECTOR_DIM <= length query)%nat ->
  exists s', insert fused d v id m s = Some (Ret tt, s') /\ search fused query k s' = None.
Proof.
  intros Hix Hlev Hsys Hv Hlim Hid Hq.
  destruct (high_level_insert fused d v id m s img Hix Hlev Hsys Hv Hlim Hid) as (s' & img' & E & He & Hl & Hd & Hw & Hr).
  exists s'. split; [exact E|]. unfold search. rewrite He, Hl, Hd.
  rewrite bool_decide_eq_false_2 by (unfold NO_ENTRY, U32, INT_LIMIT in *; lia). rewrite bool_decide_eq_false_2 by lia.
  cbn [mbind option_bind]. rewrite (distance_to_at fused (metric_ s') img' query id Hr). cbn [mbind option_bind].
  unfold layers_down. replace (Z.to_nat (get_random_level d - 0)) with (S (Z.to_nat (get_random_level d - 1))) by (unfold MAX_LAYERS in *; lia).
  cbn [seq fmap list_fmap descend]. unfold layer_index. rewrite bool_decide_eq_true_2 by (unfold MAX_LAYERS in *; lia). cbn [mbind option_bind greedy_layer].
  destruct (get_node_wf img' id Hw Hr) as (n & -> & Hnw). cbn [mbind option_bind].
  assert (links n (Z.to_nat (get_random_level d - Z.of_nat 0)) = None) as ->; [|reflexivity].
  unfold links. by rewrite (lookup_ge_None_2 (n_counts n)) by (rewrite (nw_counts _ _ Hnw); lia).
Qed.

(** Four draws below 0.03 in a row. *)
Definition level_four : draws := MkDraws (fun n => bool_decide (n < 4)%nat) [] MMapHandler.all_succeed.

Lemma high_level_breaks_search_witness :
  exists s s', new_index = Some s /\ insert true level_four ones 0 "" s = Some (Ret tt, s') /\ search true ones 10 s' = None.
Proof.
  destruct (create_fresh "index") as (h & disk & s & img & Eo & Ec & Hix & _ & Hsz & _).
  destruct (high_level_breaks_search true level_four ones ones 0 "" 10 s img Hix) as (s' & E & Hs).
  - vm_compute. discriminate.
  - reflexivity.
  - reflexivity.
  - reflexivity.
  - apply N.le_0_l.
  - vm_compute. lia.
  - exists s, s'. split; [unfold new_index; rewrite Eo; exact Ec|]. split; [exact E|exact Hs].
Defined.

(** ** The counter *)

(** Deleting what was never stored counts as a deletion.  A slot of the
    file that was never written reads as a live node, so that the deletion of
    any id inside the file on an empty index sets its tombstone and takes one
    off the number of elements: [size] is then [2^64 - 1]. *)
Theorem delete_unknown_wraps (id : N) (s : Hnsw.t) (img : image) :
  index_wf s img -> in_range img id -> i_nodes img !! id = None -> element_count_ s = 0 ->
  exists s', delete_vector id s = Some s' /\ Hnsw.size s' = U64 - 1.
Proof.
  intros Hix Hr Hn Hc. destruct (delete_spec id s img Hix) as (s' & img' & E & _ & _ & _ & _ & _ & _ & _ & Hcount).
  exists s'. split; [done|]. unfold Hnsw.size. rewrite Hcount, decide_True, Hc; [reflexivity|].
  unfold payload, get_node. rewrite bool_decide_eq_true_2 by done. by rewrite Hn.
Qed.

(** The deletion of an id that a new index never stored. *)
Lemma delete_unknown_wraps_witness :
  exists s s', new_index = Some s /\ delete_vector 5 s = Some s' /\ Hnsw.size s' = U64 - 1.
Proof.
  destruct (create_fresh "index") as (h & disk & s & img & Eo & Ec & Hix & Hn & Hsz & _ & _ & _ & Hc & _).
  destruct (delete_unknown_wraps 5 s img Hix) as (s' & Hd & Hs).
  - unfold in_range. rewrite Hsz. vm_compute. discriminate.
  - rewrite Hn. apply lookup_empty.
  - exact Hc.
  - exists s, s'. split; [unfold new_index; rewrite Eo; exact Ec|]. split; [exact Hd|exact Hs].
Defined.
