(* ===== verification/HnswReinsert.v ===== *)
(** * Storing a vector again under the id of the entry point

    [insert] overwrites the whole slot, links included.  When the slot is the
    entry point's, the beam search that should find its neighbours starts at
    the slot itself, which by then has no links: the only neighbour it can
    find is itself. *)

From stdpp Require Import relations.
From S2P Require Import Prelude Storage MemoryMap MetadataStore Float32 PriorityQueue IndexTypes FloatExact Distance.
From S2P Require Import Hnsw HnswInv HnswGreedy HnswUpdate HnswSearch IdMapStore ShardService ShardSpec HnswShard HnswFindings.

(** Every link of the node leads back to it. *)
Definition isolated (img : image) (id : N) : Prop :=
  forall n layer ids, get_node id img = Some n -> links n layer = Some ids -> Forall (eq id) ids.

Section isolation.
Context (fused : bool) (metric : DistanceMetric).

Lemma put_node_get id n img img' : put_node id n img = Some img' -> get_node id img' = Some n.
Proof.
  unfold put_node. case_bool_decide as Hb; [|done]. intros [= <-]. unfold get_node. cbn [i_size i_nodes].
  rewrite bool_decide_eq_true_2 by done. by rewrite lookup_insert_eq.
Qed.

Lemma links_length n layer c ids :
  n_counts n !! layer = Some c -> links n layer = Some ids -> (length ids <= Z.to_nat c)%nat.
Proof.
  intros Hc. unfold links. rewrite Hc. cbn [mbind option_bind]. destruct (n_neighbors n !! layer); [|done].
  cbn [mbind option_bind]. case_bool_decide; [|done]. intros [= <-]. rewrite length_take. lia.
Qed.

Lemma add_link_isolated locks id layer img img' :
  image_wf img -> occupied img id -> isolated img id ->
  add_link fused metric locks id id layer img = Some img' -> isolated img' id.
Proof.
  intros Hw Ho Hi. unfold add_link. case_bool_decide; [by intros [= <-]|].
  destruct (occupied_node img id Hw Ho) as (n & _ & Hg & Hn). rewrite Hg. cbn [mbind option_bind].
  destruct (n_counts n !! layer) as [c|] eqn:Ec; [|done]. cbn [mbind option_bind].
  pose proof (nw_count _ _ Hn layer c Ec) as Hc.
  assert (forall n' pos count, set_neighbor n layer pos id count = Some n' ->
            (forall k, (k < Z.to_nat count)%nat -> k <> pos -> (k < Z.to_nat c)%nat) ->
            put_node id n' img = Some img' -> isolated img' id) as Hset.
  { intros n' pos count Hs Hk Hp x layer' ids Hx Hl. rewrite (put_node_get _ _ _ _ Hp) in Hx. injection Hx as <-.
    eapply (set_neighbor_links (eq id) img n n' layer pos id count c); [done|done|done|done|done| |exact Hl].
    intros l' ids'. by apply Hi. }
  case_bool_decide.
  - unfold layer_index. rewrite bool_decide_eq_true_2 by lia. cbn [mbind option_bind].
    destruct (set_neighbor _ _ _ _ _) as [n'|] eqn:E; [|done]. cbn [mbind option_bind]. apply (Hset _ _ _ E). lia.
  - destruct (distance_to _ _ _ _ _); [|done]. cbn [mbind option_bind].
    destruct (links n layer) as [ids|]; [|done]. cbn [mbind option_bind].
    destruct (farthest _ _ _ _ _ _ _ _) as [[d idx]|]; [|done]. cbn [mbind option_bind].
    destruct (_ && _); [|by intros [= <-]].
    destruct (set_neighbor _ _ _ _ _) as [n'|] eqn:E; [|done]. cbn [mbind option_bind]. apply (Hset _ _ _ E). lia.
Qed.

Lemma link_all_isolated locks id layer selected img img' :
  image_wf img -> occupied img id -> (layer < MAX_LAYERS)%nat -> Forall (eq id) selected -> isolated img id ->
  link_all fused metric locks id layer selected img = Some img' -> isolated img' id.
Proof.
  intros Hw Ho Hl Hsel. revert img Hw Ho. induction Hsel as [|x selected <- _ IH]; intros img Hw Ho Hi; cbn [link_all].
  { by intros [= <-]. }
  destruct (add_link_spec fused metric locks id id layer img Hw Ho Ho Hl) as (i1 & E1 & Hw1 & Hp1).
  pose proof (proj1 (same_occupied _ _ _ Hp1) Ho) as Ho1.
  destruct (add_link_spec fused metric locks id id layer i1 Hw1 Ho1 Ho1 Hl) as (i2 & E2 & Hw2 & Hp2).
  rewrite E1. cbn [mbind option_bind]. rewrite E2. cbn [mbind option_bind].
  apply IH; [done|by apply (same_occupied _ _ _ Hp2)|].
  eapply add_link_isolated; [exact Hw1|done| |exact E2]. by eapply add_link_isolated; [exact Hw|..|exact E1].
Qed.

(** Nothing but the node itself can be reached from it. *)
Lemma isolated_reach img id layer x :
  image_wf img -> occupied img id -> isolated img id -> rtc (linked img layer) id x -> x = id.
Proof.
  intros Hw Ho Hi. induction 1 as [|a b x (n & ids & Hn & Hids & Hb) _ IH]; [done|].
  destruct (occupied_node img a Hw Ho) as (n' & Hn' & Hg & _). simplify_eq.
  pose proof (Hi _ _ _ Hg Hids) as Hall. rewrite Forall_forall in Hall. rewrite <-(Hall b Hb) in IH. auto.
Qed.

Lemma isolated_search_layer img query element_count id ef layer :
  image_wf img -> occupied img id -> isolated img id -> (layer < MAX_LAYERS)%nat -> (1 < ef)%Z ->
  N.max id element_count + 2000 < U64 ->
  exists found, search_layer fused metric img element_count id query ef layer = Some found /\
    layer_results fused metric img query ef found /\ Forall (eq id) (r_id <$> found).
Proof.
  intros Hw Ho Hi Hl Hef Hb.
  destruct (search_layer_complete fused metric img query ef layer element_count id {[id]}) as (found & E & Hres & Hiff).
  - done.
  - done.
  - done.
  - set_solver.
  - intros a b ->%elem_of_singleton Hab. apply elem_of_singleton.
    eapply isolated_reach; [done|done|done|]. by eapply rtc_once.
  - rewrite size_singleton. lia.
  - intros a ->%elem_of_singleton. rewrite u64_add_small by done. lia.
  - exists found. split; [done|]. split; [done|]. apply Forall_forall. intros x [Hx _]%Hiff.
    symmetry. by eapply isolated_reach.
Qed.

(** The descent does not leave the node. *)
Lemma greedy_scan_isolated img query id ids :
  Forall (eq id) ids -> in_range img id ->
  greedy_scan fused metric img query ids (dist_at fused metric img query id) id false =
    Some (dist_at fused metric img query id, id, false).
Proof.
  intros Hids Hr. induction Hids as [|x ids <- _ IH]; [done|]. cbn [greedy_scan].
  rewrite (distance_to_at fused metric img query id Hr). cbn [mbind option_bind]. by rewrite fltb_irrefl.
Qed.

Lemma descend_isolated img query layers id :
  image_wf img -> occupied img id -> isolated img id ->
  Forall (fun l => 0 <= l < Z.of_nat MAX_LAYERS)%Z layers ->
  descend fused metric img query layers (dist_at fused metric img query id) id =
    Some (dist_at fused metric img query id, id).
Proof.
  intros Hw Ho Hi. induction 1 as [|l layers Hl _ IH]; [done|]. cbn [descend]. unfold layer_index.
  rewrite bool_decide_eq_true_2 by lia. cbn [mbind option_bind greedy_layer].
  destruct (occupied_node img id Hw Ho) as (n & _ & Hg & Hn). rewrite Hg. cbn [mbind option_bind].
  destruct (links_wf img n (Z.to_nat l) Hn) as (ids & Hids & _); [lia|]. rewrite Hids. cbn [mbind option_bind].
  rewrite (greedy_scan_isolated img query id ids); [|by eapply Hi|by apply occupied_in_range].
  cbn [mbind option_bind]. exact IH.
Qed.

Lemma connect_isolated locks element_count id query layers img img' :
  image_wf img -> occupied img id -> isolated img id -> N.max id element_count + 2000 < U64 ->
  Forall (fun l => 0 <= l < Z.of_nat MAX_LAYERS)%Z layers ->
  connect fused metric locks element_count id query layers id img = Some img' -> isolated img' id.
Proof.
  intros Hw Ho Hi Hb Hls. revert img Hw Ho Hi. induction Hls as [|l layers Hl _ IH]; intros img Hw Ho Hi; cbn [connect].
  { by intros [= <-]. }
  unfold layer_index. rewrite bool_decide_eq_true_2 by lia. cbn [mbind option_bind].
  destruct (isolated_search_layer img query element_count id EF_CONSTRUCTION (Z.to_nat l))
    as (found & -> & Hres & Hf); [done|done|done|lia|done|done|]. cbn [mbind option_bind].
  assert (Forall (eq id) (select_neighbors found)) as Hsel.
  { unfold select_neighbors. apply Forall_fmap, (pops_Forall _ (fun r => id = r_id r)). exact (proj1 (Forall_fmap _ _ _) Hf). }
  pose proof (select_occupied fused metric _ _ _ _ Hres) as Hocc.
  destruct (link_all_spec fused metric locks id (Z.to_nat l) (select_neighbors found) img) as (i1 & E1 & Hw1 & Hp1);
    [done|done|done|lia|]. rewrite E1. cbn [mbind option_bind].
  assert (default id (head (select_neighbors found)) = id) as ->.
  { destruct (select_neighbors found) as [|x xs]; [done|]. by apply Forall_cons in Hsel as [<- _]. }
  apply IH; [done|by apply (same_occupied _ _ _ Hp1)|].
  eapply link_all_isolated; [exact Hw|done| |exact Hsel|done|exact E1]. lia.
Qed.
End isolation.

(** ** The index *)

Section index.
Context (fused : bool).

(** A search of an index whose entry point is isolated. *)
Lemma isolated_search query k s img :
  index_wf s img -> entry_point_id_ s <> NO_ENTRY -> isolated img (entry_point_id_ s) ->
  N.max (entry_point_id_ s) (element_count_ s) + 2000 < U64 -> (VECTOR_DIM <= length query)%nat ->
  exists rs, search fused query k s = Some rs /\ Forall (fun r => r_id r = entry_point_id_ s) rs.
Proof.
  intros Hix Hne Hi Hb Hq. pose proof Hix as [Hm Hw _ He _ _].
  destruct He as [[? _]|(_ & Ho & Hlay)]; [done|]. set (e := entry_point_id_ s) in *.
  destruct (isolated_search_layer fused (metric_ s) img query (element_count_ s) e (Z.max 100 k) 0)
    as (found & Ef & Hres & Hids); [done|done|done|unfold MAX_LAYERS; lia|lia|done|].
  assert (descend fused (metric_ s) img query (layers_down (current_max_layer_ s) 0)
            (dist_at fused (metric_ s) img query e) e = Some (dist_at fused (metric_ s) img query e, e)) as Ed.
  { apply descend_isolated; [done..|]. apply Forall_forall. intros l Hl%layers_down_bound. lia. }
  unfold search. fold e. rewrite bool_decide_eq_false_2 by done. rewrite bool_decide_eq_false_2 by lia.
  unfold data. rewrite (proj1 Hm). cbn [mbind option_bind].
  rewrite (distance_to_at fused (metric_ s) img query e (occupied_in_range _ _ Hw Ho)). cbn [mbind option_bind].
  rewrite Ed. cbn [mbind option_bind]. rewrite Ef. cbn [mbind option_bind].
  rewrite (collect_eq fused (metric_ s) img query); [|done|rewrite drain_perm; by apply (lr_good _ _ _ _ _ _ Hres)].
  cbn [mbind option_bind]. eexists. split; [done|]. apply Forall_take. rewrite reverse_Permutation.
  apply Forall_fmap. rewrite drain_perm. eapply Forall_impl; [exact (proj1 (Forall_fmap _ _ _) Hids)|].
  cbn. by intros r ->.
Qed.

(** The links after the second half of an insertion of the entry point. *)
Lemma insert_linked_isolated id level query m s s' img :
  MMapHandler.mapped (storage_ s) (disk_ s) img -> image_wf img -> occupied img id -> isolated img id ->
  entry_point_id_ s = id -> (0 <= level < Z.of_nat MAX_LAYERS)%Z ->
  (0 <= current_max_layer_ s < Z.of_nat MAX_LAYERS)%Z -> N.max id (element_count_ s) + 2000 < U64 ->
  insert_linked fused id level query m s = Some s' ->
  exists img', data s' = Some img' /\ isolated img' id /\ entry_point_id_ s' = id.
Proof.
  intros Hm Hw Ho Hi He Hlev Hlay Hb. unfold insert_linked, data. rewrite (proj1 Hm), He. cbn [mbind option_bind].
  rewrite (distance_to_at fused (metric_ s) img query id (occupied_in_range _ _ Hw Ho)). cbn [mbind option_bind].
  rewrite descend_isolated; [|done..|apply Forall_forall; intros l Hl%layers_down_bound; lia]. cbn [mbind option_bind].
  destruct (connect _ _ _ _ _ _ _ _ _) as [i1|] eqn:Ec; [|done]. cbn [mbind option_bind].
  assert (isolated i1 id) as Hi1.
  { eapply connect_isolated; [exact Hw|done|done|exact Hb| |exact Ec].
    apply Forall_forall. intros l Hl%layers_down_bound. lia. }
  set (s2 := if bool_decide _ then _ else _). intros Hf.
  assert (data s2 = Some i1 /\ entry_point_id_ s2 = id) as [Hd2 He2].
  { assert (data (with_data i1 s) = Some i1) as Hd by (apply with_data_data; exists img; exact (proj1 Hm)).
    unfold s2. case_bool_decide; [by split|split; [exact Hd|done]]. }
  clearbody s2. destruct (finish_insert_node id m s2 s' i1 id Hd2 Hf) as (img' & Hd' & Hg').
  exists img'. split; [exact Hd'|]. split; [intros n layer ids; rewrite Hg'; apply Hi1|].
  by rewrite (proj2 (finish_insert_keeps _ _ _ _ Hf)).
Qed.
End index.

(** No search finds anything but [id]. *)
Definition finds_only (fused : bool) (id : N) (s : Hnsw.t) : Prop :=
  forall query k, length query = VECTOR_DIM -> exists rs, search fused query k s = Some rs /\ Forall (fun r => r_id r = id) rs.

(** C38: storing the entry point's vector again hides every other vector.  On any
    index, an insertion under the id of the entry point (the first vector that
    was stored, unless a later one reached a higher layer) succeeds and leaves
    every other vector in its slot, but from then on each search, for every
    query and every [k], returns at most that one id. *)
Theorem reinsert_entry_hides_all (fused : bool) (d : draws) (v : list float32) (m : string) (s : Hnsw.t) (img : image) :
  index_wf s img -> entry_point_id_ s < INT_LIMIT -> (get_random_level d < Z.of_nat MAX_LAYERS)%Z ->
  d_sys d = MMapHandler.all_succeed -> length v = VECTOR_DIM -> element_count_ s < U32 ->
  exists s' img', insert fused d v (entry_point_id_ s) m s = Some (Ret tt, s') /\ index_wf s' img' /\
    (forall id x, id <> entry_point_id_ s -> payload img id = Some x -> payload img' id = Some x) /\
    finds_only fused (entry_point_id_ s) s'.
Proof.
  intros Hix Hlim Hlev Hsys Hv Hcount. pose proof Hix as [Hm Hw _ He _ _].
  set (e := entry_point_id_ s) in *.
  destruct He as [[He _]|(Hne & Ho & Hlay)]; [unfold NO_ENTRY, INT_LIMIT, U32 in *; lia|].
  pose proof (slots_range img e Hw Ho) as Hsl.
  destruct (insert_spec fused d v e m s img) as (s' & img' & Ei & Hix' & _ & _ & _ & Hpay & Hin); [done..|lia|].
  exists s', img'. split; [exact Ei|]. split; [done|]. split; [done|]. intros query k Hq.
  assert (exists i, data s' = Some i /\ isolated i e /\ entry_point_id_ s' = e) as (i & Hd & Hi & Hee).
  { revert Ei. unfold insert, expand. rewrite Hsys. pose proof (proj2 Hm) as Hsz. cbn [c_size image_contents] in Hsz.
    pose proof (occupied_in_range _ _ Hw Ho) as Hr.
    rewrite Hsz, bool_decide_eq_false_2 by (unfold in_range in Hr; lia). unfold data at 1. rewrite (proj1 Hm).
    cbn [mbind option_bind]. destruct (new_node_wf img (d_garbage d) e (get_random_level d) v Hv) as [Hnw _].
    destruct (put_node_spec img e _ Hw Hr Hnw) as (i2 & -> & Hw2 & Hs2 & _ & Hd2 & Hg2 & _). cbn [mbind option_bind].
    rewrite bool_decide_eq_false_2 by done. intros H. apply bind_Some in H as (s2 & Es & [= ->]).
    eapply (insert_linked_isolated fused e (get_random_level d)); [by apply (with_data_mapped img)|done| | |done| |done| |exact Es].
    - apply occupied_dom. rewrite Hd2. set_solver.
    - intros n layer ids Hn Hl. rewrite Hg2 in Hn. injection Hn as <-.
      destruct (links_layer _ _ _ Hl) as [c Hlen]. apply lookup_replicate in Hlen as [_ Hlen].
      rewrite (links_replicate _ layer (Z.to_nat M_MAX0) (U32 - 1)) in Hl by done. injection Hl as <-. constructor.
    - split; [unfold get_random_level; lia|done].
    - cbn. unfold U32, U64, INT_LIMIT in *. lia. }
  assert (i = img') as -> by (pose proof (proj1 (ix_mapped _ _ Hix')) as H; unfold data in Hd; congruence).
  rewrite <-Hee in Hi |- *. apply (isolated_search fused query k s' img'); [done|by rewrite Hee|done| |lia].
  rewrite Hee, (in_count _ _ _ _ Hin). rewrite u64_add_small by (unfold U32, U64 in *; lia).
  unfold U32, U64, INT_LIMIT in *. lia.
Qed.

(** Vectors 0 and 1, both on the ground layer. *)
Definition two_vectors : option Hnsw.t :=
  s ← one_vector; r ← insert true ground unit_vector 1 "other" s; match r with (Ret _, s) => Some s | _ => None end.

Lemma two_vectors_wf :
  exists s img, two_vectors = Some s /\ index_wf s img /\ entry_point_id_ s = 0 /\ element_count_ s = 2 /\
    payload img 1 = Some (unit_vector, false).
Proof.
  destruct one_vector_wf as (s & img & E & Hix & He & Hc & Hm & Hl & Hsz & Hn).
  destruct (insert_spec true ground unit_vector 1 "other" s img) as (s' & img' & Ei & Hix' & _ & _ & Hp & _); try done.
  { unfold slots. rewrite Hsz. vm_compute. discriminate. }
  assert (two_vectors = Some s') as E2 by (unfold two_vectors; rewrite E; cbn [mbind option_bind]; by rewrite Ei).
  exists s', img'. split; [exact E2|]. split; [exact Hix'|].
  assert (fmap (fun s => (entry_point_id_ s, element_count_ s)) two_vectors = Some (0, 2)) as Hf by (vm_compute; reflexivity).
  rewrite E2 in Hf. injection Hf as E3 E4. split; [exact E3|]. split; [exact E4|exact Hp].
Qed.

Lemma reinsert_entry_hides_all_witness :
  exists s s' img', two_vectors = Some s /\ insert true ground ones 0 "new" s = Some (Ret tt, s') /\
    index_wf s' img' /\ payload img' 1 = Some (unit_vector, false) /\
    exists rs, search true unit_vector 5 s' = Some rs /\ Forall (fun r => r_id r = 0) rs.
Proof.
  destruct two_vectors_wf as (s & img & E & Hix & He & Hc & Hp).
  destruct (reinsert_entry_hides_all true ground ones "new" s img) as (s' & img' & Ei & Hix' & Hpay & Hs).
  - exact Hix.
  - rewrite He. reflexivity.
  - reflexivity.
  - reflexivity.
  - reflexivity.
  - rewrite Hc. reflexivity.
  - rewrite He in *. exists s, s', img'. split; [exact E|]. split; [exact Ei|]. split; [exact Hix'|].
    split; [apply (Hpay 1); [discriminate|exact Hp]|]. apply Hs. reflexivity.
Defined.
