(* ===== verification/HnswStranded.v ===== *)
(** * An entry point without a lock

    The constructor makes locks for the elements that are there and 10000
    more, and the table grows only together with the file.  In a file that was
    preallocated, as the servers do, the ids beyond it get no links of their
    own ([unlocked_node_has_no_links]).  When such a node reaches a new top
    layer it becomes the entry point, and no search leaves it. *)

From S2P Require Import Prelude Storage MemoryMap MetadataStore Float32 PriorityQueue IndexTypes FloatExact Distance.
From S2P Require Import Hnsw HnswInv HnswGreedy HnswUpdate HnswSearch IdMapStore ShardService ShardSpec HnswShard HnswFindings HnswReinsert.

Section stranded.
Context (fused : bool).

(** What an insertion that needs no room does to the counters, and to the
    nodes without a lock. *)
Lemma finish_insert_counters id m s s' :
  finish_insert id m s = Some s' ->
  node_locks_ s' = node_locks_ s /\ entry_point_id_ s' = entry_point_id_ s /\ current_max_layer_ s' = current_max_layer_ s.
Proof.
  unfold finish_insert, persist_header. destruct (data _); [|done]. cbn [mbind option_bind].
  case_bool_decide; [|done]. cbn [mbind option_bind]. unfold save_metadata. case_bool_decide; [by intros [= <-]|].
  destruct (MetadataHandler.save_metadata _ _ _); [|done]. cbn [mbind option_bind]. by intros [= <-].
Qed.

Lemma insert_in_place d v id m s s' img img' :
  index_wf s img -> in_range img id -> entry_point_id_ s <> NO_ENTRY ->
  insert fused d v id m s = Some (Ret tt, s') -> data s' = Some img' ->
  let level := get_random_level d in
  let higher := bool_decide (current_max_layer_ s < level)%Z in
  node_locks_ s' = node_locks_ s /\ entry_point_id_ s' = (if higher then id else entry_point_id_ s) /\
  current_max_layer_ s' = (if higher then level else current_max_layer_ s) /\
  forall x, node_locks_ s <= x -> x <> id -> get_node x img' = get_node x img.
Proof.
  intros [Hm Hw _ _ _ _] Hr He. unfold insert, expand.
  pose proof (proj2 Hm) as Hsz. cbn [c_size image_contents] in Hsz. rewrite Hsz.
  rewrite bool_decide_eq_false_2 by (unfold in_range in Hr; lia). unfold data at 1. rewrite (proj1 Hm). cbn [mbind option_bind].
  destruct (put_node _ _ img) as [i1|] eqn:E1; [|done]. cbn [mbind option_bind].
  assert (data (with_data i1 s) = Some i1) as Hd1 by (apply with_data_data; exists img; exact (proj1 Hm)).
  intros Hins Hd'. apply bind_Some in Hins as (s2 & E2 & [= ->]).
  cbn [entry_point_id_ with_data] in E2. rewrite bool_decide_eq_false_2 in E2 by done.
  unfold insert_linked in E2. rewrite Hd1 in E2. cbn [mbind option_bind] in E2.
  destruct (distance_to _ _ _ _ _) as [d0|]; [|done]. cbn [mbind option_bind] in E2.
  destruct (descend _ _ _ _ _ _ _) as [[d1 curr]|]; [|done]. cbn [mbind option_bind] in E2.
  destruct (connect _ _ _ _ _ _ _ _ _) as [i2|] eqn:Ec; [|done]. cbn [mbind option_bind] in E2.
  cbn zeta. change (current_max_layer_ (with_data i2 (with_data i1 s))) with (current_max_layer_ s) in E2.
  destruct (finish_insert_counters _ _ _ _ E2) as (-> & -> & ->).
  split; [by case_bool_decide|]. split; [by case_bool_decide|]. split; [by case_bool_decide|]. intros x Hx Hne.
  rewrite <-(put_node_other _ _ _ _ x E1 Hne), <-(connect_locked _ _ _ _ _ _ _ _ _ _ x Hx Ec).
  apply (finish_insert_node id m _ s' i2 x) in E2 as (img2 & H2 & H3); [congruence|].
  case_bool_decide; apply with_data_data; by exists i1.
Qed.

(** The entry point has no lock and no links. *)
Record stranded (id : N) (size : N) (layer : Z) (s : Hnsw.t) (img : image) : Prop := {
  st_wf : index_wf s img;
  st_entry : entry_point_id_ s = id;
  st_limit : id < INT_LIMIT;
  st_layer : current_max_layer_ s = layer;
  st_locks : node_locks_ s <= id;
  st_size : i_size img = size;
  st_links : isolated img id;
}.

Lemma stranded_search id size layer s img :
  stranded id size layer s img -> element_count_ s < U32 -> finds_only fused id s.
Proof.
  intros [Hix He Hlim Hl Hlocks Hs Hi] Hc query k Hq. rewrite <-He in *.
  apply (isolated_search fused query k s img Hix); [|done| |lia]; unfold NO_ENTRY, INT_LIMIT, U32, U64 in *; lia.
Qed.

(** An insertion that a client can make: a slot inside the file, a vector of
    the right length, a level that the arrays hold. *)
Record insertion := MkInsertion {
  in_draws : draws;
  in_vector : list float32;
  in_id : N;
  in_metadata_text : string;
}.

Record fits_in (size : N) (o : insertion) : Prop := {
  fi_slot : slot_end (in_id o) <= size;
  fi_limit : in_id o < INT_LIMIT;
  fi_level : (get_random_level (in_draws o) < Z.of_nat MAX_LAYERS)%Z;
  fi_sys : d_sys (in_draws o) = MMapHandler.all_succeed;
  fi_vector : length (in_vector o) = VECTOR_DIM;
}.

Definition apply_insertion (o : insertion) (s : Hnsw.t) : option Hnsw.t :=
  '(r, s) ← insert fused (in_draws o) (in_vector o) (in_id o) (in_metadata_text o) s;
  match r with Ret _ => Some s | Throw _ => None end.

Fixpoint apply_insertions (os : list insertion) (s : Hnsw.t) : option Hnsw.t :=
  match os with
  | [] => Some s
  | o :: os => s ← apply_insertion o s; apply_insertions os s
  end.

Lemma fits_insert o s img :
  index_wf s img -> fits_in (i_size img) o ->
  exists s' img', apply_insertion o s = Some s' /\
    insert fused (in_draws o) (in_vector o) (in_id o) (in_metadata_text o) s = Some (Ret tt, s') /\
    index_wf s' img' /\ i_size img' = i_size img /\ element_count_ s' = element_count_ s +u 1.
Proof.
  intros Hix [Hs Hlim Hl Hsys Hv]. pose proof (proj1 (in_range_slots img (in_id o) (iw_header _ (ix_image _ _ Hix))) Hs) as Hsl.
  destruct (insert_spec fused (in_draws o) (in_vector o) (in_id o) (in_metadata_text o) s img)
    as (s' & img' & E & Hix' & Hsz & _ & _ & _ & [Hc _ _ _ _]); [done..|lia|].
  exists s', img'. unfold apply_insertion. rewrite E. split; [done|]. split; [done|]. split; [done|]. split; [|done].
  rewrite Hsz. unfold grown_size. by rewrite bool_decide_eq_false_2 by lia.
Qed.

Lemma stranded_step id size layer o s img :
  stranded id size layer s img -> fits_in size o -> in_id o <> id -> (get_random_level (in_draws o) <= layer)%Z ->
  exists s' img', apply_insertion o s = Some s' /\ stranded id size layer s' img' /\ element_count_ s' = element_count_ s +u 1.
Proof.
  intros [Hix He Hlim Hl Hlocks Hs Hi] Ho Hne Hlev. rewrite <-Hs in Ho.
  destruct (fits_insert o s img Hix Ho) as (s' & img' & E & Ei & Hix' & Hsz & Hc).
  exists s', img'. split; [exact E|]. split; [|exact Hc].
  pose proof (proj1 (ix_mapped _ _ Hix') : data s' = Some img') as Hd'.
  assert (entry_point_id_ s <> NO_ENTRY) as Hent by (rewrite He; unfold NO_ENTRY, INT_LIMIT, U32 in *; lia).
  destruct (insert_in_place _ _ _ _ _ _ _ _ Hix (fi_slot _ _ Ho) Hent Ei Hd') as (H1 & H2 & H3 & H4).
  rewrite Hl, bool_decide_eq_false_2 in H2, H3 by lia. split; [done|congruence|done|congruence|by rewrite H1|congruence|].
  intros n lay ids. rewrite (H4 id Hlocks (not_eq_sym Hne)). apply Hi.
Qed.

Lemma stranded_steps id size layer os s img :
  stranded id size layer s img -> Forall (fits_in size) os ->
  Forall (fun o => in_id o <> id /\ get_random_level (in_draws o) <= layer)%Z os ->
  element_count_ s + N.of_nat (length os) < U32 ->
  exists s', apply_insertions os s = Some s' /\ finds_only fused id s'.
Proof.
  intros Hst Hos Hok Hc. revert s img Hst Hc. induction Hos as [|o os Ho _ IH]; intros s img Hst Hc.
  { exists s. split; [done|]. eapply stranded_search; [exact Hst|]. cbn in Hc. lia. }
  apply Forall_cons in Hok as [[Hne Hlev] Hok]. cbn [length] in Hc.
  destruct (stranded_step id size layer o s img Hst Ho Hne Hlev) as (s1 & i1 & E1 & Hst1 & Hc1).
  rewrite u64_add_small in Hc1 by (unfold U32, U64 in *; lia).
  destruct (IH Hok s1 i1 Hst1) as (s2 & E2 & Hf); [lia|]. exists s2. cbn [apply_insertions]. by rewrite E1.
Qed.
End stranded.

(** C39: Past the locks, one lucky level hides the index.  On any index, when a
    vector is inserted under an id that fits into the file but has no lock, and
    its level is above the top layer, the insertion succeeds, and then every
    search, for every query and every [k], returns at most this one id; and it
    stays so whatever other vectors are inserted afterwards, as long as they do
    not reach a higher layer and their slots are inside the file as it is: an
    insertion that grows the file makes locks up to its id, and is not covered. *)
Theorem unlocked_entry_hides_all (fused : bool) (o : insertion) (later : list insertion) (s : Hnsw.t) (img : image) :
  index_wf s img -> entry_point_id_ s <> NO_ENTRY -> Forall (fits_in (i_size img)) (o :: later) ->
  node_locks_ s <= in_id o -> (current_max_layer_ s < get_random_level (in_draws o))%Z ->
  Forall (fun o' => in_id o' <> in_id o /\ get_random_level (in_draws o') <= get_random_level (in_draws o))%Z later ->
  element_count_ s + N.of_nat (length (o :: later)) < U32 ->
  exists s', apply_insertions fused (o :: later) s = Some s' /\ finds_only fused (in_id o) s'.
Proof.
  intros Hix He Hfit Hlocks Hlev Hlater Hc. apply Forall_cons in Hfit as [Ho Hfit]. cbn [length] in Hc.
  destruct (fits_insert fused o s img Hix Ho) as (s1 & i1 & E & Ei & Hix1 & Hsz & Hc1).
  pose proof (proj1 (ix_mapped _ _ Hix1) : data s1 = Some i1) as Hd1.
  destruct (insert_in_place fused _ _ _ _ _ _ _ _ Hix (fi_slot _ _ Ho) He Ei Hd1) as (H1 & H2 & H3 & _).
  rewrite bool_decide_eq_true_2 in H2, H3 by done.
  destruct (unlocked_node_has_no_links fused _ _ _ _ s s1 img i1 Hix (fi_slot _ _ Ho) Hlocks Ei Hd1) as (n & Hg & Hn).
  assert (stranded (in_id o) (i_size img) (get_random_level (in_draws o)) s1 i1) as Hst.
  { split; [done|done|by destruct Ho|done|by rewrite H1|done|]. intros n' layer ids Hg' Hl. rewrite Hg in Hg'. injection Hg' as <-.
    destruct (links_layer _ _ _ Hl) as [c Hlay]. pose proof (lookup_lt_Some _ _ _ Hlay) as Hlt.
    destruct (get_node_wf i1 (in_id o) (ix_image _ _ Hix1)) as (x & Hx & Hxw); [by rewrite <-Hsz in Ho; destruct Ho|].
    rewrite Hg in Hx. injection Hx as <-. rewrite (nw_counts _ _ Hxw) in Hlt. rewrite (Hn layer Hlt) in Hl. injection Hl as <-. constructor. }
  cbn [apply_insertions]. rewrite E. cbn [mbind option_bind].
  apply (stranded_steps fused (in_id o) (i_size img) _ later s1 i1 Hst); [done|done|].
  rewrite Hc1, u64_add_small by (unfold U32, U64 in *; lia). lia.
Qed.

(** The first vector, then id 10000 on layer 1, then id 1. *)
Definition lucky : insertion := MkInsertion (MkDraws (fun n => bool_decide (n = 0%nat)) [] MMapHandler.all_succeed) unit_vector 10000 "".

Lemma unlocked_entry_hides_all_witness :
  exists s s', one_vector = Some s /\ apply_insertions true [lucky; MkInsertion ground ones 1 ""] s = Some s' /\ finds_only true 10000 s'.
Proof.
  destruct one_vector_wf as (s & img & E & Hix & He & Hc & Hm & Hl & Hsz & Hn).
  destruct (unlocked_entry_hides_all true lucky [MkInsertion ground ones 1 ""] s img) as (s' & Ea & Hf).
  - exact Hix.
  - rewrite He. discriminate.
  - rewrite Hsz. repeat constructor; vm_compute; discriminate.
  - rewrite Hl. vm_compute. discriminate.
  - assert (fmap current_max_layer_ one_vector = Some 0%Z) as H0 by (vm_compute; reflexivity).
    rewrite E in H0. injection H0 as ->. reflexivity.
  - repeat constructor; vm_compute; discriminate.
  - rewrite Hc. reflexivity.
  - exists s, s'. split; [exact E|]. split; [exact Ea|exact Hf].
Defined.
