(* ===== verification/ConcurrentInsert.v ===== *)
(** * Insertions by several threads ([insert] of [src/include/index/hnsw.hpp])

    [insert] is called by several threads at once: by the handlers of the
    servers, by Python, which releases its lock around it, and by the
    throughput benchmark.  A thread is modelled by the places between its
    accesses to what they share.  A step is one of: making room and storing the
    node; a test, a load or a store of [entry_point_id_] or [current_max_layer_];
    taking or leaving the init lock; the greedy descent; the search of one
    layer; one [add_link], which the code does under the lock of its node; the
    increment of the counter; the header; and the metadata, under its mutex.
    Within these steps a thread is alone. *)

From S2P Require Import Prelude Storage MemoryMap MetadataStore Float32 PriorityQueue IndexTypes FloatExact Distance.
From S2P Require Import Hnsw HnswInv HnswGreedy HnswUpdate HnswSearch IdMapStore ShardService ShardSpec HnswShard.
From S2P Require Import HnswFindings HnswReinsert HnswStranded.

Module ConcurrentInsert.

(** Where a thread is in [insert].  [first] says that it holds the init lock. *)
Inductive phase :=
| Storing
| Testing      (* if (entry_point_id_ == -1) *)
| Locking      (* lock_guard lock(init_lock_) *)
| Checking     (* the second test, under the lock *)
| Naming       (* entry_point_id_ = id, under the lock *)
| Layering     (* current_max_layer_ = level, under the lock *)
| Descending   (* the greedy descent from entry_point_id_ *)
| Choosing (curr : N)                        (* min(level, current_max_layer_) *)
| Connecting (layers : list Z) (curr : N)    (* search_layer on the next layer *)
| Linking (layer : nat) (pairs : list (N * N)) (layers : list Z) (curr : N)  (* add_link *)
| Raising      (* if (level > current_max_layer_) *)
| Entering     (* entry_point_id_ = id *)
| Topping      (* current_max_layer_ = level *)
| Counting (first : bool)  (* element_count_++ *)
| Writing (first : bool)   (* persist_header() *)
| Saving (first : bool)    (* save_metadata, and the end of the scope of the lock *)
| Stopped (r : outcome unit).

Record config := MkConfig {
  c_index : Hnsw.t;
  c_init_lock : bool;
  c_threads : list (insertion * phase);
}.

Definition set_entry (id : N) (s : Hnsw.t) : Hnsw.t := with_counters id (current_max_layer_ s) (element_count_ s) s.

Definition set_layer (level : Z) (s : Hnsw.t) : Hnsw.t := with_counters (entry_point_id_ s) level (element_count_ s) s.

Section threads.
Context (fused : bool).

(** [*node_ptr = new_node] after making room. *)
Definition store_node (o : insertion) (s : Hnsw.t) : option (outcome unit * Hnsw.t) :=
  match expand (d_sys (in_draws o)) (in_id o) s with
  | (Throw w, s) => Some (Throw w, s)
  | (Ret _, s) =>
    img ← data s;
    img ← put_node (in_id o) (new_node (d_garbage (in_draws o)) (in_id o) (get_random_level (in_draws o)) (in_vector o)) img;
    Some (Ret tt, with_data img s)
  end.

(** The node where the descent from the entry point ends. *)
Definition descend_node (o : insertion) (s : Hnsw.t) : option N :=
  img ← data s;
  node ← get_node (in_id o) img;
  dist ← distance_to fused (metric_ s) img (n_vector node) (entry_point_id_ s);
  '(_, curr) ← descend fused (metric_ s) img (n_vector node)
                 (layers_down (current_max_layer_ s) (get_random_level (in_draws o))) dist (entry_point_id_ s);
  Some curr.

(** The neighbours selected on a layer. *)
Definition find_neighbors (o : insertion) (layer : nat) (curr : N) (s : Hnsw.t) : option (list N) :=
  img ← data s;
  node ← get_node (in_id o) img;
  candidates ← search_layer fused (metric_ s) img (element_count_ s) curr (n_vector node) EF_CONSTRUCTION layer;
  Some (select_neighbors candidates).

(** The calls of [add_link] for them, in order. *)
Definition link_pairs (id : N) (selected : list N) : list (N * N) := selected ≫= fun x => [(id, x); (x, id)].

Definition link_step (src dest : N) (layer : nat) (s : Hnsw.t) : option Hnsw.t :=
  img ← data s;
  img ← add_link fused (metric_ s) (node_locks_ s) src dest layer img;
  Some (with_data img s).

(** One step of a thread: the index, the lock and the place afterwards. *)
Definition thread_step (o : insertion) (p : phase) (s : Hnsw.t) (lock : bool) : option (Hnsw.t * bool * phase) :=
  let level := get_random_level (in_draws o) in
  match p with
  | Storing =>
    '(r, s) ← store_node o s; Some (s, lock, match r with Ret _ => Testing | Throw w => Stopped (Throw w) end)
  | Testing => Some (s, lock, if entry_point_id_ s =?? NO_ENTRY then Locking else Descending)
  | Locking => Some (s, true, if lock then Locking else Checking)
  | Checking => if entry_point_id_ s =?? NO_ENTRY then Some (s, lock, Naming) else Some (s, false, Descending)
  | Naming => Some (set_entry (in_id o) s, lock, Layering)
  | Layering => Some (set_layer level s, lock, Counting true)
  | Descending => curr ← descend_node o s; Some (s, lock, Choosing curr)
  | Choosing curr => Some (s, lock, Connecting (layers_down (Z.min level (current_max_layer_ s)) (-1)) curr)
  | Connecting [] curr => Some (s, lock, Raising)
  | Connecting (l :: layers) curr =>
    layer ← layer_index l;
    selected ← find_neighbors o layer curr s;
    Some (s, lock, Linking layer (link_pairs (in_id o) selected) layers (default curr (head selected)))
  | Linking layer [] layers curr => Some (s, lock, Connecting layers curr)
  | Linking layer ((src, dest) :: pairs) layers curr =>
    s ← link_step src dest layer s; Some (s, lock, Linking layer pairs layers curr)
  | Raising => Some (s, lock, if bool_decide (current_max_layer_ s < level)%Z then Entering else Counting false)
  | Entering => Some (set_entry (in_id o) s, lock, Topping)
  | Topping => Some (set_layer level s, lock, Counting false)
  | Counting first =>
    Some (with_counters (entry_point_id_ s) (current_max_layer_ s) (element_count_ s +u 1) s, lock, Writing first)
  | Writing first => s ← persist_header s; Some (s, lock, Saving first)
  | Saving first =>
    s ← save_metadata (in_id o) (in_metadata_text o) s; Some (s, if first then false else lock, Stopped (Ret tt))
  | Stopped r => Some (s, lock, Stopped r)
  end.

(** The thread number [i] takes a step. *)
Definition take_step (i : nat) (c : config) : option config :=
  '(o, p) ← c_threads c !! i;
  '(s, lock, p) ← thread_step o p (c_index c) (c_init_lock c);
  Some (MkConfig s lock (<[i := (o, p)]> (c_threads c))).

Fixpoint run_schedule (schedule : list nat) (c : config) : option config :=
  match schedule with
  | [] => Some c
  | i :: schedule => c ← take_step i c; run_schedule schedule c
  end.

(** The threads at the beginning of their calls. *)
Definition calls (os : list insertion) (s : Hnsw.t) : config := MkConfig s false ((fun o => (o, Storing)) <$> os).

Lemma run_app k l c : run_schedule (k ++ l) c = run_schedule k c ≫= run_schedule l.
Proof.
  revert c. induction k as [|i k IH]; intros c; [done|]. cbn [run_schedule app]. destruct (take_step i c) as [c1|]; [|done].
  cbn [mbind option_bind]. apply IH.
Qed.

Lemma set_both id level s : set_layer level (set_entry id s) = with_counters id level (element_count_ s) s.
Proof. done. Qed.

(** ** Two threads on an empty index *)

Lemma new_node_isolated garbage id level v img :
  get_node id img = Some (new_node garbage id level v) -> isolated img id.
Proof.
  intros Hg n layer ids Hn Hl. rewrite Hg in Hn. injection Hn as <-.
  destruct (links_layer _ _ _ Hl) as [c Hlen]. apply lookup_replicate in Hlen as [_ Hlen].
  rewrite (links_replicate _ layer (Z.to_nat M_MAX0) (U32 - 1)) in Hl by done. injection Hl as <-. constructor.
Qed.

(** Storing a node that fits. *)
Lemma store_fits o s img :
  MMapHandler.mapped (storage_ s) (disk_ s) img -> image_wf img -> fits_in (i_size img) o ->
  exists img', store_node o s = Some (Ret tt, with_data img' s) /\
    MMapHandler.mapped (storage_ (with_data img' s)) (disk_ (with_data img' s)) img' /\ image_wf img' /\ i_size img' = i_size img /\
    i_header img' = i_header img /\ dom (i_nodes img') = {[in_id o]} ∪ dom (i_nodes img) /\
    get_node (in_id o) img' = Some (new_node (d_garbage (in_draws o)) (in_id o) (get_random_level (in_draws o)) (in_vector o)) /\
    forall id, id <> in_id o -> get_node id img' = get_node id img.
Proof.
  intros Hm Hw [Hs _ _ _ Hv]. unfold store_node, expand. pose proof (proj2 Hm) as Hsz. cbn [c_size image_contents] in Hsz.
  rewrite Hsz, bool_decide_eq_false_2 by lia. unfold data. rewrite (proj1 Hm). cbn [mbind option_bind].
  destruct (new_node_wf img (d_garbage (in_draws o)) (in_id o) (get_random_level (in_draws o)) (in_vector o) Hv) as [Hnw _].
  destruct (put_node_spec img (in_id o) _ Hw Hs Hnw) as (i1 & -> & Hw1 & Hs1 & Hh1 & Hd1 & Hg1 & Ho1). cbn [mbind option_bind].
  exists i1. split; [done|]. split; [by apply (with_data_mapped img)|done].
Qed.

(** While the top layer is still -1 there is nothing to descend. *)
Lemma descend_nothing o s img :
  MMapHandler.mapped (storage_ s) (disk_ s) img -> image_wf img -> occupied img (entry_point_id_ s) -> occupied img (in_id o) ->
  current_max_layer_ s = (-1)%Z -> descend_node o s = Some (entry_point_id_ s).
Proof.
  intros Hm Hw He Hid Hl. unfold descend_node, data. rewrite (proj1 Hm). cbn [mbind option_bind].
  destruct (occupied_node img (in_id o) Hw Hid) as (n & _ & -> & _). cbn [mbind option_bind].
  rewrite (distance_to_at fused (metric_ s) img _ _ (occupied_in_range _ _ Hw He)). cbn [mbind option_bind]. rewrite Hl.
  assert (layers_down (-1) (get_random_level (in_draws o)) = []) as ->; [|done].
  unfold layers_down. by replace (Z.to_nat (-1 - get_random_level (in_draws o))) with 0%nat by (unfold get_random_level; lia).
Qed.

Lemma no_layers level : (0 <= level)%Z -> layers_down (Z.min level (-1)) (-1) = [].
Proof. intros H. unfold layers_down. by replace (Z.to_nat (Z.min level (-1) - -1)) with 0%nat by lia. Qed.

Lemma step_left o p y s lock :
  take_step 0 (MkConfig s lock [(o, p); y]) = '(s, lock, p) ← thread_step o p s lock; Some (MkConfig s lock [(o, p); y]).
Proof. done. Qed.

Lemma step_right o p y s lock :
  take_step 1 (MkConfig s lock [y; (o, p)]) = '(s, lock, p) ← thread_step o p s lock; Some (MkConfig s lock [y; (o, p)]).
Proof. done. Qed.

(** The first thread up to the point between its two assignments. *)
Lemma race_first a b s img i1 :
  entry_point_id_ s = NO_ENTRY -> data s = Some img -> store_node a s = Some (Ret tt, with_data i1 s) ->
  run_schedule [0;0;0;0;0]%nat (calls [a; b] s) = Some (MkConfig (set_entry (in_id a) (with_data i1 s)) true [(a, Layering); (b, Storing)]).
Proof.
  intros He Hd E. unfold calls. cbn [fmap list_fmap run_schedule]. rewrite step_left. cbn [thread_step]. rewrite E. cbn [mbind option_bind].
  rewrite step_left. cbn [thread_step]. change (entry_point_id_ (with_data i1 s)) with (entry_point_id_ s). rewrite He.
  rewrite bool_decide_eq_true_2 by done. cbn [mbind option_bind]. rewrite step_left. cbn [thread_step mbind option_bind].
  rewrite step_left. cbn [thread_step]. change (entry_point_id_ (with_data i1 s)) with (entry_point_id_ s). rewrite He.
  rewrite bool_decide_eq_true_2 by done. done.
Qed.

(** The end of a call is [finish_insert], in three steps. *)
Lemma ending_left o y s lock first s' :
  finish_insert (in_id o) (in_metadata_text o) s = Some s' ->
  run_schedule [0;0;0]%nat (MkConfig s lock [(o, Counting first); y]) =
  Some (MkConfig s' (if first then false else lock) [(o, Stopped (Ret tt)); y]).
Proof.
  unfold finish_insert. intros (s1 & E1 & E2)%bind_Some. cbn [run_schedule]. rewrite step_left. cbn [thread_step mbind option_bind].
  rewrite step_left. cbn [thread_step]. rewrite E1. cbn [mbind option_bind]. rewrite step_left. cbn [thread_step]. by rewrite E2.
Qed.

Lemma ending_right o y s lock first s' :
  finish_insert (in_id o) (in_metadata_text o) s = Some s' ->
  run_schedule [1;1;1]%nat (MkConfig s lock [y; (o, Counting first)]) =
  Some (MkConfig s' (if first then false else lock) [y; (o, Stopped (Ret tt))]).
Proof.
  unfold finish_insert. intros (s1 & E1 & E2)%bind_Some. cbn [run_schedule]. rewrite step_right. cbn [thread_step mbind option_bind].
  rewrite step_right. cbn [thread_step]. rewrite E1. cbn [mbind option_bind]. rewrite step_right. cbn [thread_step]. by rewrite E2.
Qed.

(** The second thread, meanwhile: it is not held up by the lock. *)
Lemma race_second a b s i2 s2 :
  entry_point_id_ s <> NO_ENTRY -> current_max_layer_ s = (-1)%Z -> store_node b s = Some (Ret tt, with_data i2 s) ->
  descend_node b (with_data i2 s) = Some (entry_point_id_ s) ->
  finish_insert (in_id b) (in_metadata_text b)
    (with_counters (in_id b) (get_random_level (in_draws b)) (element_count_ s) (with_data i2 s)) = Some s2 ->
  run_schedule ([1;1;1;1;1;1;1;1] ++ [1;1;1])%nat (MkConfig s true [(a, Layering); (b, Storing)]) =
  Some (MkConfig s2 true [(a, Layering); (b, Stopped (Ret tt))]).
Proof.
  intros He Hl Es El Ef. rewrite run_app. cbn [run_schedule]. rewrite step_right. cbn [thread_step]. rewrite Es. cbn [mbind option_bind].
  rewrite step_right. cbn [thread_step]. rewrite bool_decide_eq_false_2 by done. cbn [mbind option_bind].
  rewrite step_right. cbn [thread_step]. rewrite El. cbn [mbind option_bind]. rewrite step_right. cbn [thread_step].
  change (current_max_layer_ (with_data i2 s)) with (current_max_layer_ s). rewrite Hl.
  rewrite no_layers by (unfold get_random_level; lia). cbn [mbind option_bind]. rewrite step_right. cbn [thread_step mbind option_bind].
  rewrite step_right. cbn [thread_step]. change (current_max_layer_ (with_data i2 s)) with (current_max_layer_ s). rewrite Hl.
  rewrite bool_decide_eq_true_2 by (unfold get_random_level; lia). cbn [mbind option_bind].
  rewrite step_right. cbn [thread_step mbind option_bind]. rewrite step_right. cbn [thread_step mbind option_bind].
  rewrite set_both. apply (ending_right b (a, Layering) _ true false s2). exact Ef.
Qed.

(** The counters and the header, and no node. *)
Lemma finish_frame o s img :
  MMapHandler.mapped (storage_ s) (disk_ s) img -> image_wf img -> MetadataHandler.wf (metadata_storage_ s) ->
  entry_point_id_ s <> NO_ENTRY -> occupied img (entry_point_id_ s) -> (0 <= current_max_layer_ s < Z.of_nat MAX_LAYERS)%Z ->
  magic (i_header img) = NANODB_MAGIC -> in_id o < INT_LIMIT ->
  exists s' img', finish_insert (in_id o) (in_metadata_text o) s = Some s' /\ index_wf s' img' /\
    entry_point_id_ s' = entry_point_id_ s /\ element_count_ s' = element_count_ s +u 1 /\
    dom (i_nodes img') = dom (i_nodes img) /\ forall x, get_node x img' = get_node x img.
Proof.
  intros Hm Hw Hmeta He Ho Hl Hmag Hid.
  destruct (finish_insert_spec (in_id o) (in_metadata_text o) s img Hm Hw Hmeta) as (s' & i' & E & Hix & _ & Hd & _ & Hin); [done..|].
  exists s', i'. split; [exact E|]. split; [exact Hix|]. destruct (finish_insert_counters _ _ _ _ E) as (_ & He' & _).
  split; [exact He'|]. split; [by destruct Hin|]. split; [exact Hd|]. intros x.
  destruct (finish_insert_node _ _ _ _ img x (proj1 Hm) E) as (i & Hi & <-).
  pose proof (proj1 (ix_mapped _ _ Hix) : data s' = Some i'). congruence.
Qed.

(** The thread 0 is interrupted between [entry_point_id_ = id] and
    [current_max_layer_ = level], and the thread 1 runs through. *)
Definition race : list nat := [0;0;0;0;0]%nat ++ ([1;1;1;1;1;1;1;1] ++ [1;1;1])%nat ++ [0;0;0;0]%nat.

Lemma race_run a b s img :
  index_wf s img -> entry_point_id_ s = NO_ENTRY -> fits_in (i_size img) a -> fits_in (i_size img) b -> in_id a <> in_id b ->
  exists s' img', run_schedule race (calls [a; b] s) = Some (MkConfig s' false [(a, Stopped (Ret tt)); (b, Stopped (Ret tt))]) /\
    index_wf s' img' /\ entry_point_id_ s' = in_id b /\ element_count_ s' = element_count_ s +u 1 +u 1 /\
    get_node (in_id a) img' = Some (new_node (d_garbage (in_draws a)) (in_id a) (get_random_level (in_draws a)) (in_vector a)) /\
    get_node (in_id b) img' = Some (new_node (d_garbage (in_draws b)) (in_id b) (get_random_level (in_draws b)) (in_vector b)).
Proof.
  intros [Hm Hw Hmeta He Hmag _] Hent Ha Hb Hne. destruct He as [[_ Hl]|[? _]]; [|done].
  destruct (store_fits a s img Hm Hw Ha) as (i1 & Ea & Hm1 & Hw1 & Hs1 & Hh1 & Hd1 & Hga & _).
  set (s1 := set_entry (in_id a) (with_data i1 s)). rewrite <-Hs1 in Hb.
  destruct (store_fits b s1 i1 Hm1 Hw1 Hb) as (i2 & Eb & Hm2 & Hw2 & Hs2 & Hh2 & Hd2 & Hgb & Ho2).
  assert (occupied i2 (in_id a) /\ occupied i2 (in_id b)) as [Hoa Hob] by (rewrite !occupied_dom, Hd2, Hd1; set_solver).
  pose proof (descend_nothing b (with_data i2 s1) i2 Hm2 Hw2 Hoa Hob Hl) as El.
  assert (forall o size, fits_in size o -> in_id o <> NO_ENTRY) as Hid.
  { intros o size Hf. pose proof (fi_limit _ _ Hf). unfold NO_ENTRY, INT_LIMIT, U32 in *. lia. }
  assert (forall d : draws, (0 <= get_random_level d)%Z) as Hpos by (intros d; apply Nat2Z.is_nonneg).
  destruct (finish_frame b (with_counters (in_id b) (get_random_level (in_draws b)) (element_count_ s1) (with_data i2 s1)) i2)
    as (s2 & i3 & Ef & Hix2 & He2 & Hc2 & Hd3 & Hg3);
    [exact Hm2|done|done|by eapply Hid|exact Hob|split; [apply Hpos|apply Hb]|by rewrite Hh2, Hh1|apply Hb|].
  pose proof Hix2 as [Hm3 Hw3 Hmeta3 _ Hmag3 _].
  destruct (finish_frame a (set_layer (get_random_level (in_draws a)) s2) i3)
    as (s3 & i4 & Ef3 & Hix3 & He3 & Hc3 & _ & Hg4);
    [done|done|done| | |split; [apply Hpos|apply Ha]|done|apply Ha|].
  { change (entry_point_id_ s2 <> NO_ENTRY). rewrite He2. by eapply Hid. }
  { change (occupied i3 (entry_point_id_ s2)). rewrite He2, occupied_dom, Hd3, <-occupied_dom. exact Hob. }
  exists s3, i4. split; [|split; [exact Hix3|split; [by rewrite He3; exact He2|split; [|split]]]].
  - unfold race. rewrite run_app, (race_first a b s img i1 Hent (proj1 Hm) Ea). cbn [mbind option_bind]. rewrite run_app.
    fold s1. rewrite (race_second a b s1 i2 s2 (Hid a _ Ha) Hl Eb El Ef). cbn [mbind option_bind run_schedule].
    rewrite step_left. cbn [thread_step mbind option_bind].
    apply (ending_left a (b, Stopped (Ret tt)) (set_layer (get_random_level (in_draws a)) s2) true true s3 Ef3).
  - rewrite Hc3. change (element_count_ s2 +u 1 = element_count_ s +u 1 +u 1). by rewrite Hc2.
  - by rewrite Hg4, Hg3, Ho2.
  - by rewrite Hg4, Hg3.
Qed.
End threads.

(** C23: Two threads can lose a vector.  On an empty index let two threads insert
    vectors under different ids that fit into the file.  There is a schedule in
    which both calls return normally, both vectors are in their slots and both
    are counted, but every search, for every query and every [k], returns at
    most the second one: the second thread sees the entry point of the first
    before the top layer is set, links to nothing, and takes its place. *)
Theorem concurrent_insert_loses_vector (fused : bool) (a b : insertion) (s : Hnsw.t) (img : image) :
  index_wf s img -> entry_point_id_ s = NO_ENTRY -> element_count_ s = 0 ->
  fits_in (i_size img) a -> fits_in (i_size img) b -> in_id a <> in_id b ->
  exists schedule s', run_schedule fused schedule (calls [a; b] s) = Some (MkConfig s' false [(a, Stopped (Ret tt)); (b, Stopped (Ret tt))]) /\
    Hnsw.size s' = 2 /\ Hnsw.get_vector_data (in_id a) s' = Some (in_vector a) /\ Hnsw.get_vector_data (in_id b) s' = Some (in_vector b) /\
    finds_only fused (in_id b) s'.
Proof.
  intros Hix He Hc Ha Hb Hne. destruct (race_run fused a b s img Hix He Ha Hb Hne) as (s' & i' & E & Hix' & He' & Hc' & Hga & Hgb).
  rewrite Hc in Hc'. exists race, s'. split; [exact E|]. split; [by unfold Hnsw.size; rewrite Hc'|].
  assert (forall o, fits_in (i_size img) o ->
    get_node (in_id o) i' = Some (new_node (d_garbage (in_draws o)) (in_id o) (get_random_level (in_draws o)) (in_vector o)) ->
    Hnsw.get_vector_data (in_id o) s' = Some (in_vector o)) as Hget.
  { intros o Ho Hg. unfold Hnsw.get_vector_data, out_of_range. pose proof (ix_mapped _ _ Hix') as [Hd Hs].
    cbn [c_size image_contents] in Hs. rewrite Hs. pose proof (get_node_in_range _ _ _ Hg) as Hr.
    rewrite bool_decide_eq_false_2 by (unfold in_range in Hr; lia). unfold data. rewrite Hd. cbn [mbind option_bind]. rewrite Hg.
    cbn [mbind option_bind]. by rewrite (proj2 (new_node_wf img _ _ _ _ (fi_vector _ _ Ho))). }
  split; [by apply Hget|]. split; [by apply Hget|]. intros query k Hq. rewrite <-He'.
  apply (isolated_search fused query k s' i' Hix'); rewrite ?He'.
  - pose proof (fi_limit _ _ Hb). unfold NO_ENTRY, INT_LIMIT, U32 in *. lia.
  - by eapply new_node_isolated.
  - rewrite Hc'. change (0 +u 1 +u 1) with 2. pose proof (fi_limit _ _ Hb). unfold INT_LIMIT, U64 in *. lia.
  - lia.
Qed.

Lemma concurrent_insert_loses_vector_witness :
  exists s schedule s', new_index = Some s /\
    run_schedule true schedule (calls [MkInsertion ground ones 0 ""; MkInsertion ground unit_vector 1 ""] s) =
      Some (MkConfig s' false [(MkInsertion ground ones 0 "", Stopped (Ret tt)); (MkInsertion ground unit_vector 1 "", Stopped (Ret tt))]) /\
    finds_only true 1 s'.
Proof.
  destruct (create_fresh "index") as (h & disk & s & img & Eo & Ec & Hix & Hn & Hsz & _ & _ & He & Hc & _).
  destruct (concurrent_insert_loses_vector true (MkInsertion ground ones 0 "") (MkInsertion ground unit_vector 1 "") s img)
    as (schedule & s' & E & _ & _ & _ & Hf).
  - exact Hix.
  - exact He.
  - exact Hc.
  - rewrite Hsz. split; vm_compute; reflexivity || discriminate.
  - rewrite Hsz. split; vm_compute; reflexivity || discriminate.
  - discriminate.
  - exists s, schedule, s'. split; [unfold new_index; rewrite Eo; exact Ec|]. split; [exact E|exact Hf].
Defined.
End ConcurrentInsert.
