(* ===== verification/ConcurrentSafety.v ===== *)
(** * What concurrent insertions keep ([insert] of [src/include/index/hnsw.hpp])

    Any number of threads insert vectors under different ids into one index, in
    any interleaving of the steps of [ConcurrentInsert].  No thread runs into
    undefined behaviour, the init lock excludes, an entry point is named only
    while there is none, and when all calls have returned the index is
    well-formed and has every vector, counted once.  What it need not have is
    the links: see [ConcurrentInsert.concurrent_insert_loses_vector]. *)

From S2P Require Import Prelude Storage MemoryMap MetadataStore Float32 PriorityQueue IndexTypes FloatExact Distance.
From S2P Require Import Hnsw HnswInv HnswGreedy HnswUpdate HnswSearch HnswFindings HnswReinsert HnswStranded ConcurrentInsert.
Import ConcurrentInsert.

Module ConcurrentSafety.

(** Under the init lock. *)
Definition holds_init (p : phase) : bool :=
  match p with Checking | Naming | Layering | Counting true | Writing true | Saving true => true | _ => false end.

(** Past [element_count_++]. *)
Definition counted (p : phase) : bool := match p with Writing _ | Saving _ | Stopped _ => true | _ => false end.

(** The index has an entry point when a thread is here. *)
Definition named (p : phase) : bool :=
  match p with Storing | Testing | Locking | Checking | Naming | Stopped _ => false | _ => true end.

(** The thread has changed a counter and not yet written the header. *)
Definition unwritten (p : phase) : bool := match p with Layering | Topping | Counting _ | Writing _ => true | _ => false end.

Definition returned (p : phase) : bool := match p with Stopped (Ret _) => true | _ => false end.

Definition all_returned (c : config) : Prop := Forall (fun x => returned x.2 = true) (c_threads c).

Definition count_of (ts : list (insertion * phase)) : N := N.of_nat (length (filter (fun x => counted x.2 = true) ts)).

Lemma count_of_insert ts i o p p' :
  ts !! i = Some (o, p) -> (counted p = true -> counted p' = true) ->
  count_of (<[i := (o, p')]> ts) = count_of ts + (if counted p' && negb (counted p) then 1 else 0).
Proof.
  unfold count_of. revert i. induction ts as [|[o1 p1] ts IH]; intros [|i] Hi Hc; try done.
  - injection Hi as -> ->. change (<[0%nat := (o, p')]> ((o, p) :: ts)) with ((o, p') :: ts). rewrite !filter_cons. cbn [snd].
    destruct (counted p), (counted p').
    + rewrite !decide_True by done. cbn [andb negb length]. lia.
    + by specialize (Hc eq_refl).
    + rewrite decide_True, decide_False by done. cbn [andb negb length]. lia.
    + rewrite !decide_False by done. cbn [andb negb]. lia.
  - cbn in Hi. specialize (IH i Hi Hc). change (<[S i := (o, p')]> ((o1, p1) :: ts)) with ((o1, p1) :: <[i := (o, p')]> ts).
    rewrite !filter_cons. cbn [snd]. case_decide; cbn [length]; lia.
Qed.

(** An upper bound on the steps that a thread still takes, waiting apart. *)
Definition remaining (p : phase) : nat :=
  match p with
  | Storing => 153 | Testing => 152 | Locking => 151 | Checking => 150 | Naming => 5 | Layering => 4
  | Descending => 149 | Choosing _ => 148
  | Connecting layers _ => 7 + 35 * length layers
  | Linking _ pairs layers _ => 8 + length pairs + 35 * length layers
  | Raising => 6 | Entering => 5 | Topping => 4 | Counting _ => 3 | Writing _ => 2 | Saving _ => 1 | Stopped _ => 0
  end.

Lemma pops_length {A} (lt : A -> A -> bool) n l : (length (pops lt n l) <= n)%nat.
Proof. revert l. induction n as [|n IH]; intros [|x l]; cbn [pops top head length]; try lia. specialize (IH (pop lt (x :: l))). lia. Qed.

Lemma pairs_length id selected : length (link_pairs id selected) = (2 * length selected)%nat.
Proof. unfold link_pairs. induction selected as [|x l IH]; [done|]. rewrite bind_cons, length_app, IH. cbn [length]. lia. Qed.

Section safety.
Context (fused : bool) (os : list insertion) (s0 : Hnsw.t) (img0 : image).

(** The neighbours and layers that a thread goes through. *)
Definition place_ok (img : image) (p : phase) : Prop :=
  match p with
  | Choosing curr => occupied img curr
  | Connecting layers curr => occupied img curr /\ Forall (fun l => 0 <= l < Z.of_nat MAX_LAYERS)%Z layers
  | Linking layer pairs layers curr =>
    (layer < MAX_LAYERS)%nat /\ Forall (fun x => occupied img x.1 /\ occupied img x.2) pairs /\ occupied img curr /\
    Forall (fun l => 0 <= l < Z.of_nat MAX_LAYERS)%Z layers
  | Stopped (Throw _) => False
  | _ => True
  end.

Record thread_ok (img : image) (s : Hnsw.t) (o : insertion) (p : phase) : Prop := {
  to_stored : p <> Storing -> occupied img (in_id o) /\ payload img (in_id o) = Some (in_vector o, false);
  to_named : named p = true -> entry_point_id_ s <> NO_ENTRY;
  to_naming : p = Naming -> entry_point_id_ s = NO_ENTRY;
  to_place : place_ok img p;
  to_saved : returned p = true -> in_metadata_text o <> "" -> get_metadata (in_id o) s = in_metadata_text o;
}.

Record conc_inv (img : image) (c : config) : Prop := {
  cv_mapped : MMapHandler.mapped (storage_ (c_index c)) (disk_ (c_index c)) img;
  cv_image : image_wf img;
  cv_meta : MetadataHandler.wf (metadata_storage_ (c_index c));
  cv_size : i_size img = i_size img0;
  cv_magic : magic (i_header img) = NANODB_MAGIC;
  cv_metric : metric_ (c_index c) = metric_ s0;
  cv_entry : (entry_point_id_ (c_index c) = NO_ENTRY /\ current_max_layer_ (c_index c) = -1 \/
    entry_point_id_ (c_index c) <> NO_ENTRY /\ occupied img (entry_point_id_ (c_index c)) /\
    -1 <= current_max_layer_ (c_index c) < Z.of_nat MAX_LAYERS)%Z;
  cv_layer : entry_point_id_ (c_index c) <> NO_ENTRY -> current_max_layer_ (c_index c) = (-1)%Z ->
    exists i o, c_threads c !! i = Some (o, Layering);
  cv_header : i_header img = header_of (c_index c) (i_header img) \/
    exists i o p, c_threads c !! i = Some (o, p) /\ unwritten p = true;
  cv_ops : (c_threads c).*1 = os;
  cv_threads i o p : c_threads c !! i = Some (o, p) -> thread_ok img (c_index c) o p;
  cv_excl i j o p o' p' : c_threads c !! i = Some (o, p) -> c_threads c !! j = Some (o', p') ->
    holds_init p = true -> holds_init p' = true -> i = j;
  cv_lock : c_init_lock c = true <-> exists i o p, c_threads c !! i = Some (o, p) /\ holds_init p = true;
  cv_count : element_count_ (c_index c) = element_count_ s0 +u count_of (c_threads c);
  cv_frame id x : id ∉ in_id <$> os -> payload img0 id = Some x -> payload img id = Some x;
  cv_texts id : id ∉ in_id <$> os -> id < INT_LIMIT -> get_metadata id (c_index c) = get_metadata id s0;
}.

Context (Hfits : Forall (fits_in (i_size img0)) os)
  (Hnodup : NoDup (in_id <$> os)).

Lemma conc_initial : index_wf s0 img0 -> element_count_ s0 < U64 -> conc_inv img0 (calls os s0).
Proof using.
  intros Hwf Hcount.
  assert (forall i o p, c_threads (calls os s0) !! i = Some (o, p) -> p = Storing) as Hst.
  { intros i o p. cbn. rewrite list_lookup_fmap. by destruct (os !! i) as [o'|]; intros [= _ <-]. }
  destruct Hwf as [Hm Hw Hmeta He Hmag Hhd]. split; cbn [calls c_index c_init_lock]; try done.
  - destruct He as [?|(? & ? & ?)]; [by left|right]. split; [done|]. split; [done|lia].
  - intros Hne Hl. destruct He as [[? _]|(_ & _ & H)]; [done|]. lia.
  - by left.
  - cbn [calls c_threads]. rewrite <-list_fmap_compose. apply list_fmap_id.
  - intros i o p ->%Hst. by split.
  - intros i j o p o' p' ->%Hst. done.
  - split; [done|]. intros (i & o & p & ->%Hst & ?). done.
  - unfold calls. cbn [c_threads]. assert (count_of ((fun o => (o, Storing)) <$> os) = 0) as ->.
    { unfold count_of. clear. induction os as [|o l IH]; [done|]. rewrite fmap_cons, filter_cons_False by done. exact IH. }
    rewrite u64_add_small; lia.
Qed.

(** What a step of thread [i] may do to the index. *)
Record moved (o : insertion) (s : Hnsw.t) (img : image) (s' : Hnsw.t) (img' : image) : Prop := {
  mv_mapped : MMapHandler.mapped (storage_ s') (disk_ s') img';
  mv_image : image_wf img';
  mv_meta : MetadataHandler.wf (metadata_storage_ s');
  mv_size : i_size img' = i_size img;
  mv_magic : magic (i_header img') = magic (i_header img);
  mv_metric : metric_ s' = metric_ s;
  mv_occupied id : occupied img id -> occupied img' id;
  mv_payload id : id <> in_id o -> payload img' id = payload img id;
  mv_text id : id < INT_LIMIT -> id <> in_id o -> get_metadata id s' = get_metadata id s;
  mv_entry : entry_point_id_ s <> NO_ENTRY -> entry_point_id_ s' <> NO_ENTRY;
}.

Lemma id_of_thread img c i o p : conc_inv img c -> c_threads c !! i = Some (o, p) -> os !! i = Some o.
Proof using. intros Hinv Hi. rewrite <-(cv_ops _ _ Hinv), list_lookup_fmap, Hi. done. Qed.

Lemma other_ok o o' p' s img s' img' :
  thread_ok img s o' p' -> moved o s img s' img' -> in_id o' <> in_id o -> in_id o' < INT_LIMIT ->
  (p' = Naming -> entry_point_id_ s' = NO_ENTRY) -> thread_ok img' s' o' p'.
Proof using.
  intros [H1 H2 H3 H4 H5] [_ _ _ _ _ _ Hocc Hp Ht He] Hne Hlim Hn. split; [|by intros; apply He, H2|done| |].
  - intros Hs. destruct (H1 Hs) as [Ho Hpay]. split; [by apply Hocc|by rewrite Hp].
  - destruct p'; try done; cbn in *.
    + by apply Hocc.
    + destruct H4. split; [by apply Hocc|done].
    + destruct H4 as (? & Hps & ? & ?). split; [done|]. split; [|split; [by apply Hocc|done]].
      eapply Forall_impl; [exact Hps|]. intros x []. by split; apply Hocc.
  - intros Hr Hm. rewrite Ht by done. by apply H5.
Qed.

(** A step of a thread from [p] to [p'], seen from the others. *)
Record advance (img : image) (s : Hnsw.t) (lock : bool) (p : phase) (img' : image) (s' : Hnsw.t) (lock' : bool) (p' : phase) : Prop := {
  ad_entry : (entry_point_id_ s' = NO_ENTRY /\ current_max_layer_ s' = -1 \/
    entry_point_id_ s' <> NO_ENTRY /\ occupied img' (entry_point_id_ s') /\ -1 <= current_max_layer_ s' < Z.of_nat MAX_LAYERS)%Z;
  ad_layer : entry_point_id_ s' <> NO_ENTRY -> current_max_layer_ s' = (-1)%Z ->
    p' = Layering \/ p <> Layering /\ entry_point_id_ s <> NO_ENTRY /\ current_max_layer_ s = (-1)%Z;
  ad_header : i_header img' = header_of s' (i_header img') \/ unwritten p' = true \/
    unwritten p = false /\ i_header img' = i_header img /\ forall h, header_of s' h = header_of s h;
  ad_naming : entry_point_id_ s' = entry_point_id_ s \/ holds_init p = true \/ entry_point_id_ s <> NO_ENTRY;
  ad_lock : holds_init p = false /\ holds_init p' = true /\ lock = false /\ lock' = true \/
    holds_init p = true /\ holds_init p' = false /\ lock' = false \/ holds_init p = holds_init p' /\ lock = lock';
  ad_counted : counted p = true -> counted p' = true;
  ad_count : element_count_ s' = element_count_ s +u (if counted p' && negb (counted p) then 1 else 0);
}.

Lemma lookup_moved {A} (ts : list A) i j x y : <[i := x]> ts !! j = Some y -> j = i /\ y = x \/ j <> i /\ ts !! j = Some y.
Proof using. rewrite list_lookup_insert_Some. intros [(<- & <- & _)|[? ?]]; [by left|by right]. Qed.

Lemma lock_kept img c i o p p' lock' :
  conc_inv img c -> c_threads c !! i = Some (o, p) ->
  (holds_init p = false /\ holds_init p' = true /\ c_init_lock c = false /\ lock' = true \/
    holds_init p = true /\ holds_init p' = false /\ lock' = false \/ holds_init p = holds_init p' /\ c_init_lock c = lock') ->
  (forall j k o1 p1 o2 p2, <[i := (o, p')]> (c_threads c) !! j = Some (o1, p1) -> <[i := (o, p')]> (c_threads c) !! k = Some (o2, p2) ->
    holds_init p1 = true -> holds_init p2 = true -> j = k) /\
  (lock' = true <-> exists j o1 p1, <[i := (o, p')]> (c_threads c) !! j = Some (o1, p1) /\ holds_init p1 = true).
Proof using.
  intros Hinv Hi Hl. pose proof (cv_excl _ _ Hinv) as Hex. pose proof (cv_lock _ _ Hinv) as Hlk.
  assert (<[i := (o, p')]> (c_threads c) !! i = Some (o, p')) as Hii.
  { apply list_lookup_insert_eq. by eapply lookup_lt_Some. }
  assert (holds_init p' = true -> forall j o1 p1, j <> i -> c_threads c !! j = Some (o1, p1) -> holds_init p1 = false) as Hoth.
  { intros Hp' j o1 p1 Hne Hj. apply not_true_is_false. intros Hp1. destruct Hl as [(_ & _ & Hf & _)|[(_ & ? & _)|[He _]]]; [|congruence|].
    - assert (c_init_lock c = true) by (apply Hlk; by exists j, o1, p1). congruence.
    - apply Hne. eapply Hex; [exact Hj|exact Hi|exact Hp1|congruence]. }
  split.
  - intros j k o1 p1 o2 p2 [[-> [= -> ->]]|[Hj Ej]]%lookup_moved [[-> [= -> ->]]|[Hk Ek]]%lookup_moved H1 H2; [done|..].
    + by rewrite (Hoth H1 _ _ _ Hk Ek) in H2.
    + by rewrite (Hoth H2 _ _ _ Hj Ej) in H1.
    + by eapply Hex.
  - split.
    + intros ->. destruct Hl as [(_ & Hp' & _ & _)|[(_ & _ & ?)|[He Hc]]]; [by exists i, o, p'|done|].
      apply Hlk in Hc as (j & o1 & p1 & Hj & Hp1). destruct (decide (j = i)) as [->|Hne].
      * assert ((o, p) = (o1, p1)) as [= -> ->] by congruence. exists i, o1, p'. split; [done|congruence].
      * exists j, o1, p1. by rewrite list_lookup_insert_ne by done.
    + intros (j & o1 & p1 & [[-> [= -> ->]]|[Hne Hj]]%lookup_moved & Hp1).
      * destruct Hl as [(_ & _ & _ & ->)|[(_ & ? & _)|[He <-]]]; [done|congruence|]. apply Hlk. exists i, o, p. split; [done|congruence].
      * destruct Hl as [(_ & _ & _ & ->)|[(Hp & _ & _)|[_ <-]]]; [done| |apply Hlk; by exists j, o1, p1].
        by destruct (Hne (Hex _ _ _ _ _ _ Hj Hi Hp1 Hp)).
Qed.

Lemma id_differs i j o o' : os !! i = Some o -> os !! j = Some o' -> i <> j -> in_id o <> in_id o'.
Proof using Hnodup.
  intros Hi Hj Hne E. apply Hne, (NoDup_lookup _ i j (in_id o) Hnodup); rewrite list_lookup_fmap; [by rewrite Hi|by rewrite Hj, E].
Qed.

Lemma fits_at i o : os !! i = Some o -> fits_in (i_size img0) o.
Proof using Hfits. intros Hi. by eapply Forall_lookup_1. Qed.

Lemma count_step c k d : (c +u k) +u d = c +u (k + d).
Proof using. unfold u64_add, u64. by rewrite N.Div0.add_mod_idemp_l, N.add_assoc. Qed.

(** Such a step keeps the invariant. *)
Lemma thread_move img c i o p img' s' lock' p' :
  conc_inv img c -> c_threads c !! i = Some (o, p) -> moved o (c_index c) img s' img' ->
  thread_ok img' s' o p' -> advance img (c_index c) (c_init_lock c) p img' s' lock' p' ->
  conc_inv img' (MkConfig s' lock' (<[i := (o, p')]> (c_threads c))).
Proof using Hnodup Hfits.
  intros Hinv Hi Hmv Hok [Ae Al Ah An Ak Ac Act].
  assert (<[i := (o, p')]> (c_threads c) !! i = Some (o, p')) as Hii.
  { apply list_lookup_insert_eq. by eapply lookup_lt_Some. }
  destruct (lock_kept img c i o p p' lock' Hinv Hi Ak) as [Hex Hlk]. pose proof (id_of_thread _ _ _ _ _ Hinv Hi) as Hoi.
  assert (in_id o ∈ in_id <$> os) as Hin by (apply list_elem_of_fmap; exists o; split; [done|by eapply list_elem_of_lookup_2]).
  pose proof Hmv as [Hm Hw Hme Hsz Hmag Hmet Hocc Hpay Htx He].
  split; cbn [c_index c_init_lock c_threads]; [done|done|done| | | |exact Ae| | | | |exact Hex|exact Hlk| | |].
  - by rewrite Hsz, (cv_size _ _ Hinv).
  - by rewrite Hmag, (cv_magic _ _ Hinv).
  - by rewrite Hmet, (cv_metric _ _ Hinv).
  - intros Hne Hl. destruct (Al Hne Hl) as [->|(Hp & Hne0 & Hl0)]; [by exists i, o|].
    destruct (cv_layer _ _ Hinv Hne0 Hl0) as (j & o1 & Hj). exists j, o1. rewrite list_lookup_insert_ne; [done|]. intros ->. congruence.
  - destruct Ah as [?|[?|(Hu & Hh & Hc)]]; [by left|right; by exists i, o, p'|].
    destruct (cv_header _ _ Hinv) as [H|(j & o1 & p1 & Hj & Hp1)]; [left; by rewrite Hc, Hh|right].
    exists j, o1, p1. split; [|done]. rewrite list_lookup_insert_ne; [done|]. intros ->. congruence.
  - rewrite list_fmap_insert. cbn [fst]. rewrite (cv_ops _ _ Hinv). by apply list_insert_id.
  - intros j o1 p1 [[-> [= -> ->]]|[Hne Hj]]%lookup_moved; [exact Hok|]. pose proof (id_of_thread _ _ _ _ _ Hinv Hj) as Hoj.
    pose proof (cv_threads _ _ Hinv j o1 p1 Hj) as Hok1.
    apply (other_ok o o1 p1 (c_index c) img s' img' Hok1 Hmv); [by eapply id_differs|apply (fits_at j _ Hoj)|].
    intros ->. pose proof (to_naming _ _ _ _ Hok1 eq_refl) as Hno. destruct An as [->|[Hp|?]]; [done| |done].
    destruct Hne. by apply (cv_excl _ _ Hinv j i o1 Naming o p).
  - rewrite Act, (cv_count _ _ Hinv), (count_of_insert _ _ _ _ _ Hi Ac). apply count_step.
  - intros id x Hid Hx. rewrite Hpay; [by apply (cv_frame _ _ Hinv)|]. intros ->. by apply Hid.
  - intros id Hid Hlim. rewrite Htx; [by apply (cv_texts _ _ Hinv)|done|]. intros ->. by apply Hid.
Qed.

(** Only counters change. *)
Lemma moved_counters img c i o p e l k :
  conc_inv img c -> c_threads c !! i = Some (o, p) -> (entry_point_id_ (c_index c) <> NO_ENTRY -> e <> NO_ENTRY) ->
  moved o (c_index c) img (with_counters e l k (c_index c)) img.
Proof using. intros [] _ He. by split. Qed.

Lemma moved_nothing img c o : conc_inv img c -> moved o (c_index c) img (c_index c) img.
Proof using. intros []. by split. Qed.

(** A step that changes neither the index nor the file. *)
Lemma quiet_move img c i o p lock' p' :
  conc_inv img c -> c_threads c !! i = Some (o, p) -> thread_ok img (c_index c) o p' ->
  p <> Layering -> unwritten p = false -> counted p = counted p' ->
  (holds_init p = false /\ holds_init p' = true /\ c_init_lock c = false /\ lock' = true \/
    holds_init p = true /\ holds_init p' = false /\ lock' = false \/ holds_init p = holds_init p' /\ c_init_lock c = lock') ->
  conc_inv img (MkConfig (c_index c) lock' (<[i := (o, p')]> (c_threads c))).
Proof using Hnodup Hfits.
  intros Hinv Hi Hok Hnl Hu Hc Hl. apply (thread_move img c i o p img (c_index c) lock' p' Hinv Hi (moved_nothing _ _ _ Hinv) Hok).
  split; [apply (cv_entry _ _ Hinv)|by right|by right; right|by left|exact Hl|by rewrite Hc|].
  rewrite Hc, andb_negb_r, (cv_count _ _ Hinv). by rewrite count_step, N.add_0_r.
Qed.

(** A thread that does not wait for the lock takes a step, which keeps the
    invariant and brings the thread nearer to its end. *)
Definition steps (img : image) (c : config) (i : nat) (o : insertion) (p : phase) : Prop :=
  exists s' lock' p' img', thread_step fused o p (c_index c) (c_init_lock c) = Some (s', lock', p') /\
    conc_inv img' (MkConfig s' lock' (<[i := (o, p')]> (c_threads c))) /\
    (p = Locking /\ c_init_lock c = true \/ returned p = true \/ (remaining p' < remaining p)%nat).

Lemma level_nonneg (d : draws) : (0 <= get_random_level d)%Z.
Proof using. apply Nat2Z.is_nonneg. Qed.

(** What is known of a thread that has stored its node is not lost at another place. *)
Lemma thread_at img s o p p' :
  thread_ok img s o p -> p <> Storing -> (named p' = true -> entry_point_id_ s <> NO_ENTRY) ->
  (p' = Naming -> entry_point_id_ s = NO_ENTRY) -> place_ok img p' ->
  (returned p' = true -> in_metadata_text o <> "" -> get_metadata (in_id o) s = in_metadata_text o) -> thread_ok img s o p'.
Proof using. intros [Hs _ _ _ _] Hp ? ? ? ?. split; [|done..]. intros _. by apply Hs. Qed.

Lemma step_testing img c i o : conc_inv img c -> c_threads c !! i = Some (o, Testing) -> steps img c i o Testing.
Proof using Hnodup Hfits.
  intros Hinv Hi. unfold steps. cbn [thread_step]. do 4 eexists. split; [reflexivity|]. split; [|right; right; case_bool_decide; cbn; lia].
  pose proof (cv_threads _ _ Hinv _ _ _ Hi) as Hok.
  eapply quiet_move; [done|exact Hi| |done|done| |]; case_bool_decide; try done; try (by right; right); by eapply thread_at.
Qed.

Lemma step_locking img c i o : conc_inv img c -> c_threads c !! i = Some (o, Locking) -> steps img c i o Locking.
Proof using Hnodup Hfits.
  intros Hinv Hi. unfold steps. cbn [thread_step]. do 4 eexists. split; [reflexivity|].
  pose proof (cv_threads _ _ Hinv _ _ _ Hi) as Hok. destruct (c_init_lock c) eqn:El.
  - split; [|by left]. eapply quiet_move; [done|exact Hi|exact Hok|done|done|done|]. by right; right.
  - split; [|right; right; cbn; lia]. eapply quiet_move; [done|exact Hi|by eapply thread_at|done|done|done|]. by left.
Qed.

Lemma step_checking img c i o : conc_inv img c -> c_threads c !! i = Some (o, Checking) -> steps img c i o Checking.
Proof using Hnodup Hfits.
  intros Hinv Hi. unfold steps. cbn [thread_step]. pose proof (cv_threads _ _ Hinv _ _ _ Hi) as Hok. case_bool_decide as He.
  - do 4 eexists. split; [reflexivity|]. split; [|right; right; cbn; lia].
    eapply quiet_move; [done|exact Hi|by eapply thread_at|done|done|done|]. by right; right.
  - do 4 eexists. split; [reflexivity|]. split; [|right; right; cbn; lia].
    eapply quiet_move; [done|exact Hi|by eapply thread_at|done|done|done|]. by right; left.
Qed.

Lemma id_named size o : fits_in size o -> in_id o <> NO_ENTRY.
Proof using. intros Hf. pose proof (fi_limit _ _ Hf). unfold NO_ENTRY, INT_LIMIT, U32 in *. lia. Qed.

Lemma same_count img c : conc_inv img c -> element_count_ (c_index c) = element_count_ (c_index c) +u 0.
Proof using. intros Hinv. by rewrite (cv_count _ _ Hinv), count_step, N.add_0_r. Qed.

(** A thread past the tests finds an entry point. *)
Lemma entry_named img c i o p :
  conc_inv img c -> c_threads c !! i = Some (o, p) -> named p = true ->
  (entry_point_id_ (c_index c) <> NO_ENTRY /\ occupied img (entry_point_id_ (c_index c)) /\
  -1 <= current_max_layer_ (c_index c) < Z.of_nat MAX_LAYERS)%Z.
Proof using.
  intros Hinv Hi Hn. pose proof (to_named _ _ _ _ (cv_threads _ _ Hinv _ _ _ Hi) Hn) as He.
  destruct (cv_entry _ _ Hinv) as [[? _]|H]; [done|exact H].
Qed.

Lemma step_naming img c i o : conc_inv img c -> c_threads c !! i = Some (o, Naming) -> steps img c i o Naming.
Proof using Hnodup Hfits.
  intros Hinv Hi. pose proof (cv_threads _ _ Hinv _ _ _ Hi) as Hok. pose proof (fits_at i o (id_of_thread _ _ _ _ _ Hinv Hi)) as Hf.
  pose proof (id_named _ _ Hf) as Hid. pose proof (to_naming _ _ _ _ Hok eq_refl) as Hno.
  destruct (to_stored _ _ _ _ Hok ltac:(done)) as [Hocc Hpay].
  assert (current_max_layer_ (c_index c) = -1)%Z as Hl by (by destruct (cv_entry _ _ Hinv) as [[_ ?]|[? _]]).
  exists (set_entry (in_id o) (c_index c)), (c_init_lock c), Layering, img. split; [done|]. split; [|right; right; cbn; lia].
  apply (thread_move img c i o Naming); [done|done|by apply (moved_counters img c i o Naming)|by split|].
  split; cbn [entry_point_id_ current_max_layer_ set_entry with_counters]; try done.
  - right. rewrite Hl. split; [done|]. split; [done|]. cbn. lia.
  - by left.
  - by right; left.
  - by right; left.
  - by right; right.
  - by eapply same_count.
Qed.

(** The top layer is set to that of the thread. *)
Lemma top_move img c i o p :
  conc_inv img c -> c_threads c !! i = Some (o, p) -> named p = true -> p <> Storing -> counted p = false ->
  conc_inv img (MkConfig (set_layer (get_random_level (in_draws o)) (c_index c)) (c_init_lock c)
                         (<[i := (o, Counting (holds_init p))]> (c_threads c))).
Proof using Hnodup Hfits.
  intros Hinv Hi Hn Hst Hct. pose proof (cv_threads _ _ Hinv _ _ _ Hi) as Hok.
  pose proof (fi_level _ _ (fits_at i o (id_of_thread _ _ _ _ _ Hinv Hi))) as Hf. pose proof (level_nonneg (in_draws o)) as H0.
  destruct (entry_named _ _ _ _ _ Hinv Hi Hn) as (He & Hocc & Hl). destruct (to_stored _ _ _ _ Hok Hst) as [Ho Hpay].
  apply (thread_move img c i o p); [done|done|by apply (moved_counters img c i o p)|by split|].
  split; cbn [entry_point_id_ current_max_layer_ set_layer with_counters].
  - right. split; [done|]. split; [done|lia].
  - intros _ Hm. lia.
  - by right; left.
  - by left.
  - right. right. split; [|done]. by destruct (holds_init p).
  - by rewrite Hct.
  - by eapply same_count.
Qed.

Lemma step_layering img c i o : conc_inv img c -> c_threads c !! i = Some (o, Layering) -> steps img c i o Layering.
Proof using Hnodup Hfits.
  intros Hinv Hi. do 4 eexists. split; [reflexivity|]. split; [by apply (top_move img c i o Layering)|right; right; cbn; lia].
Qed.

Lemma step_topping img c i o : conc_inv img c -> c_threads c !! i = Some (o, Topping) -> steps img c i o Topping.
Proof using Hnodup Hfits.
  intros Hinv Hi. do 4 eexists. split; [reflexivity|]. split; [by apply (top_move img c i o Topping)|right; right; cbn; lia].
Qed.

Lemma step_raising img c i o : conc_inv img c -> c_threads c !! i = Some (o, Raising) -> steps img c i o Raising.
Proof using Hnodup Hfits.
  intros Hinv Hi. pose proof (cv_threads _ _ Hinv _ _ _ Hi) as Hok. destruct (entry_named _ _ _ _ _ Hinv Hi eq_refl) as (He & _ & _).
  do 4 eexists. split; [reflexivity|]. split; [|right; right; case_bool_decide; cbn; lia].
  eapply quiet_move; [done|exact Hi| |done|done| |]; case_bool_decide; try done; try (by right; right); by eapply thread_at.
Qed.

Lemma step_entering img c i o : conc_inv img c -> c_threads c !! i = Some (o, Entering) -> steps img c i o Entering.
Proof using Hnodup Hfits.
  intros Hinv Hi. pose proof (cv_threads _ _ Hinv _ _ _ Hi) as Hok. pose proof (fits_at i o (id_of_thread _ _ _ _ _ Hinv Hi)) as Hf.
  pose proof (id_named _ _ Hf) as Hid. destruct (entry_named _ _ _ _ _ Hinv Hi eq_refl) as (He & _ & Hl).
  destruct (to_stored _ _ _ _ Hok ltac:(done)) as [Hocc Hpay].
  do 4 eexists. split; [reflexivity|]. split; [|right; right; cbn; lia].
  apply (thread_move img c i o Entering); [done|done|by apply (moved_counters img c i o Entering)|by split|].
  split; cbn [entry_point_id_ current_max_layer_ set_entry with_counters]; try done.
  - by right.
  - by right.
  - by right; left.
  - by right; right.
  - by right; right.
  - by eapply same_count.
Qed.

Lemma step_counting img c i o first : conc_inv img c -> c_threads c !! i = Some (o, Counting first) -> steps img c i o (Counting first).
Proof using Hnodup Hfits.
  intros Hinv Hi. pose proof (cv_threads _ _ Hinv _ _ _ Hi) as Hok. destruct (entry_named _ _ _ _ _ Hinv Hi eq_refl) as (He & Hocc & Hl).
  destruct (to_stored _ _ _ _ Hok ltac:(done)) as [Ho Hpay].
  do 4 eexists. split; [reflexivity|]. split; [|right; right; cbn; lia].
  apply (thread_move img c i o (Counting first)); [done|done|by apply (moved_counters img c i o (Counting first))|by split|].
  split; cbn [entry_point_id_ current_max_layer_ with_counters]; try done.
  - by right.
  - by right.
  - by right; left.
  - by left.
  - right. right. by destruct first.
Qed.

Lemma step_descending img c i o : conc_inv img c -> c_threads c !! i = Some (o, Descending) -> steps img c i o Descending.
Proof using Hnodup Hfits.
  intros Hinv Hi. pose proof (cv_threads _ _ Hinv _ _ _ Hi) as Hok. destruct (entry_named _ _ _ _ _ Hinv Hi eq_refl) as (He & Hoe & Hl).
  destruct (to_stored _ _ _ _ Hok ltac:(done)) as [Ho Hpay]. pose proof (cv_image _ _ Hinv) as Hw.
  pose proof (level_nonneg (in_draws o)) as H0. unfold steps. cbn [thread_step]. unfold descend_node, data.
  rewrite (proj1 (cv_mapped _ _ Hinv)). cbn [mbind option_bind].
  destruct (occupied_node img (in_id o) Hw Ho) as (n & _ & -> & _). cbn [mbind option_bind].
  rewrite (distance_to_at fused _ img _ _ (occupied_in_range _ _ Hw Hoe)). cbn [mbind option_bind].
  destruct (descend_spec fused (metric_ (c_index c)) img (n_vector n) Hw
    (layers_down (current_max_layer_ (c_index c)) (get_random_level (in_draws o)))
    (dist_at fused (metric_ (c_index c)) img (n_vector n) (entry_point_id_ (c_index c))) (entry_point_id_ (c_index c)))
    as (curr & -> & Hcr & _); [|done|done|].
  { apply Forall_forall. intros l Hlb%layers_down_bound. lia. }
  cbn [mbind option_bind]. do 4 eexists. split; [reflexivity|]. split; [|right; right; cbn; lia].
  eapply quiet_move; [done|exact Hi|by eapply thread_at|done|done|done|]. by right; right.
Qed.

Lemma step_choosing img c i o curr : conc_inv img c -> c_threads c !! i = Some (o, Choosing curr) -> steps img c i o (Choosing curr).
Proof using Hnodup Hfits.
  intros Hinv Hi. pose proof (cv_threads _ _ Hinv _ _ _ Hi) as Hok. destruct (entry_named _ _ _ _ _ Hinv Hi eq_refl) as (He & _ & Hl).
  pose proof (to_place _ _ _ _ Hok) as Hp. cbn in Hp. do 4 eexists. split; [reflexivity|]. split.
  - eapply quiet_move; [done|exact Hi| |done|done|done|by right; right]. eapply thread_at; [exact Hok|done..| |done].
    split; [done|]. apply Forall_forall. intros l Hlb%layers_down_bound. lia.
  - right. right. cbn [remaining]. unfold layers_down. rewrite length_fmap, length_seq. unfold MAX_LAYERS in Hl. lia.
Qed.

Lemma step_connecting img c i o layers curr :
  conc_inv img c -> c_threads c !! i = Some (o, Connecting layers curr) -> steps img c i o (Connecting layers curr).
Proof using Hnodup Hfits.
  intros Hinv Hi. pose proof (cv_threads _ _ Hinv _ _ _ Hi) as Hok. destruct (entry_named _ _ _ _ _ Hinv Hi eq_refl) as (He & _ & _).
  destruct (to_stored _ _ _ _ Hok ltac:(done)) as [Ho _]. pose proof (to_place _ _ _ _ Hok) as [Hcur Hls].
  unfold steps. destruct layers as [|l layers]; cbn [thread_step].
  { do 4 eexists. split; [reflexivity|]. split; [|right; right; cbn; lia].
    eapply quiet_move; [done|exact Hi|by eapply thread_at|done|done|done|by right; right]. }
  apply Forall_cons in Hls as [Hl Hls]. unfold layer_index. rewrite bool_decide_eq_true_2 by lia. cbn [mbind option_bind].
  unfold find_neighbors, data. rewrite (proj1 (cv_mapped _ _ Hinv)). cbn [mbind option_bind]. pose proof (cv_image _ _ Hinv) as Hw.
  destruct (occupied_node img (in_id o) Hw Ho) as (n & _ & -> & _). cbn [mbind option_bind].
  destruct (search_layer_spec fused (metric_ (c_index c)) img (n_vector n) (element_count_ (c_index c)) curr EF_CONSTRUCTION (Z.to_nat l))
    as (found & -> & Hres); [done|done|done|lia|]. cbn [mbind option_bind].
  pose proof (select_occupied _ _ _ _ _ _ Hres) as Hsel. do 4 eexists. split; [reflexivity|]. split.
  - eapply quiet_move; [done|exact Hi| |done|done|done|by right; right]. eapply thread_at; [exact Hok|done..| |done].
    cbn [place_ok]. split; [lia|]. split; [|split; [|done]].
    + unfold link_pairs. apply Forall_forall. intros x (y & Hx & Hy)%list_elem_of_bind. rewrite Forall_forall in Hsel.
      rewrite elem_of_cons, list_elem_of_singleton in Hx. destruct Hx as [->| ->]; split; try done; by apply Hsel.
    + by destruct Hsel.
  - right. right. cbn [remaining length]. rewrite pairs_length. unfold select_neighbors. rewrite length_fmap.
    pose proof (pops_length result_lt (Z.to_nat M) found). unfold M in *. lia.
Qed.

(** Links change and nothing else. *)
Lemma link_move img c i o p p' img' :
  conc_inv img c -> c_threads c !! i = Some (o, p) -> image_wf img' -> same_payload img img' ->
  thread_ok img (c_index c) o p' -> p <> Layering -> unwritten p = false -> counted p = counted p' -> holds_init p = holds_init p' ->
  conc_inv img' (MkConfig (with_data img' (c_index c)) (c_init_lock c) (<[i := (o, p')]> (c_threads c))).
Proof using Hnodup Hfits.
  intros Hinv Hi Hw Hp Hok Hnl Hu Hc Hh. pose proof Hp as [Hsz Hhd Hdom Hpay]. pose proof Hinv as [Hm _ Hme _ _ _ Hent _ _ _ _ _ _ _ _ _].
  assert (forall id, occupied img id -> occupied img' id) as Hocc by (intros id; apply (same_occupied _ _ _ Hp)).
  assert (moved o (c_index c) img (with_data img' (c_index c)) img') as Hmv.
  { split; try done; [by apply (with_data_mapped img)|by rewrite Hhd]. }
  apply (thread_move img c i o p img' _ (c_init_lock c) p' Hinv Hi Hmv).
  - destruct Hok as [H1 H2 H3 H4 H5]. split; [|done|done| |done].
    + intros Hs. destruct (H1 Hs). split; [by apply Hocc|by rewrite Hpay].
    + destruct p'; try done; cbn in *; [by apply Hocc|destruct H4; split; [by apply Hocc|done]|].
      destruct H4 as (? & Hps & ? & ?). split; [done|]. split; [|split; [by apply Hocc|done]].
      eapply Forall_impl; [exact Hps|]. intros x []. by split; apply Hocc.
  - split; cbn [entry_point_id_ current_max_layer_ with_data element_count_]; [|by right|by right; right|by left|by right; right|by rewrite Hc|].
    + destruct Hent as [?|(? & ? & ?)]; [by left|right]. split; [done|]. split; [by apply Hocc|done].
    + rewrite Hc, andb_negb_r. by eapply same_count.
Qed.

Lemma step_linking img c i o layer pairs layers curr :
  conc_inv img c -> c_threads c !! i = Some (o, Linking layer pairs layers curr) -> steps img c i o (Linking layer pairs layers curr).
Proof using Hnodup Hfits.
  intros Hinv Hi. pose proof (cv_threads _ _ Hinv _ _ _ Hi) as Hok. destruct (entry_named _ _ _ _ _ Hinv Hi eq_refl) as (He & _ & _).
  pose proof (to_place _ _ _ _ Hok) as (Hlay & Hps & Hcur & Hls). unfold steps. destruct pairs as [|[src dest] pairs]; cbn [thread_step].
  { do 4 eexists. split; [reflexivity|]. split; [|right; right; cbn; lia].
    eapply quiet_move; [done|exact Hi|by eapply thread_at|done|done|done|by right; right]. }
  apply Forall_cons in Hps as [[Hsrc Hdest] Hps]. unfold link_step, data. rewrite (proj1 (cv_mapped _ _ Hinv)). cbn [mbind option_bind].
  destruct (add_link_spec fused (metric_ (c_index c)) (node_locks_ (c_index c)) src dest layer img (cv_image _ _ Hinv) Hsrc Hdest Hlay)
    as (i1 & -> & Hw1 & Hp1). cbn [mbind option_bind]. do 4 eexists. split; [reflexivity|]. split; [|right; right; cbn; lia].
  eapply link_move; [exact Hinv|exact Hi|done|done|by eapply thread_at|done..].
Qed.

Lemma step_storing img c i o : conc_inv img c -> c_threads c !! i = Some (o, Storing) -> steps img c i o Storing.
Proof using Hnodup Hfits.
  intros Hinv Hi. pose proof (fits_at i o (id_of_thread _ _ _ _ _ Hinv Hi)) as Hf. pose proof Hinv as [Hm Hw Hme Hsz _ _ Hent _ _ _ _ _ _ _ _ _].
  rewrite <-Hsz in Hf. destruct (store_fits o (c_index c) img Hm Hw Hf) as (i1 & E & Hm1 & Hw1 & Hs1 & Hh1 & Hd1 & Hg1 & Ho1).
  assert (forall id, occupied img id -> occupied i1 id) as Hocc by (intros id; rewrite !occupied_dom, Hd1; set_solver).
  exists (with_data i1 (c_index c)), (c_init_lock c), Testing, i1. unfold thread_step. rewrite E. split; [done|]. split; [|right; right; cbn; lia].
  apply (thread_move img c i o Storing); [done|done| | |].
  - split; try done; [by rewrite Hh1|]. intros id Hne. unfold payload. by rewrite Ho1.
  - split; try done. intros _. split; [rewrite occupied_dom, Hd1; set_solver|]. unfold payload. rewrite Hg1. cbn [fmap option_fmap option_map].
    by rewrite (proj2 (new_node_wf img _ _ _ _ (fi_vector _ _ Hf))).
  - split; cbn [entry_point_id_ current_max_layer_ with_data element_count_]; [|by right|by right; right|by left|by right; right|done|].
    + destruct Hent as [?|(? & ? & ?)]; [by left|right]. split; [done|]. split; [by apply Hocc|done].
    + by eapply same_count.
Qed.

Lemma step_writing img c i o first : conc_inv img c -> c_threads c !! i = Some (o, Writing first) -> steps img c i o (Writing first).
Proof using Hnodup Hfits.
  intros Hinv Hi. pose proof (cv_threads _ _ Hinv _ _ _ Hi) as Hok. destruct (entry_named _ _ _ _ _ Hinv Hi eq_refl) as (He & Hoe & Hl).
  destruct (to_stored _ _ _ _ Hok ltac:(done)) as [Ho Hpay]. pose proof Hinv as [Hm Hw Hme _ Hmag _ _ _ _ _ _ _ _ _ _ _].
  exists (with_data (with_header (c_index c) img) (c_index c)), (c_init_lock c), (Saving first), (with_header (c_index c) img).
  cbn [thread_step]. unfold persist_header, data. rewrite (proj1 Hm). cbn [mbind option_bind]. rewrite bool_decide_eq_true_2 by apply Hw.
  split; [done|]. split; [|right; right; cbn; lia]. apply (thread_move img c i o (Writing first)); [done|done| | |].
  - split; try done; [by apply (with_data_mapped img)|by apply with_header_wf].
  - by split.
  - split; cbn [entry_point_id_ current_max_layer_ with_data element_count_]; [by right|by right|by left|by left| |done|].
    + right. right. by destruct first.
    + by eapply same_count.
Qed.

Lemma step_saving img c i o first : conc_inv img c -> c_threads c !! i = Some (o, Saving first) -> steps img c i o (Saving first).
Proof using Hnodup Hfits.
  intros Hinv Hi. pose proof (cv_threads _ _ Hinv _ _ _ Hi) as Hok. destruct (entry_named _ _ _ _ _ Hinv Hi eq_refl) as (He & Hoe & Hl).
  destruct (to_stored _ _ _ _ Hok ltac:(done)) as [Ho Hpay]. pose proof Hinv as [Hm Hw Hme _ _ _ _ _ _ _ _ _ _ _ _ _].
  pose proof (fi_limit _ _ (fits_at i o (id_of_thread _ _ _ _ _ Hinv Hi))) as Hid.
  destruct (MetadataHandler.save_get_frame (Z.of_N (in_id o)) (in_metadata_text o) (metadata_storage_ (c_index c)) Hme)
    as (m' & Es & Hmw & Hne & He' & Hoth); [lia|].
  assert (save_metadata (in_id o) (in_metadata_text o) (c_index c) = Some (with_metadata m' (c_index c))) as E.
  { unfold save_metadata. rewrite u32_to_i32_small by done. case_bool_decide as Hd.
    - rewrite (He' Hd). by destruct (c_index c).
    - rewrite Es. done. }
  do 4 eexists. cbn [thread_step]. rewrite E. split; [reflexivity|]. split; [|right; right; cbn; lia].
  apply (thread_move img c i o (Saving first)); [done|done| | |].
  - split; try done. intros id Hlim Hdf. unfold get_metadata. cbn [metadata_storage_ with_metadata]. apply Hoth.
    rewrite u32_to_i32_small by done. lia.
  - split; try done. intros _ Hm'. unfold get_metadata. cbn [metadata_storage_ with_metadata]. rewrite u32_to_i32_small by done. by apply Hne.
  - split; cbn [entry_point_id_ current_max_layer_ with_metadata element_count_]; [by right|by right|by right; right|by left| |done|by eapply same_count].
    destruct first; [by right; left|by right; right].
Qed.

Lemma step_inv img c i o p : conc_inv img c -> c_threads c !! i = Some (o, p) -> steps img c i o p.
Proof using Hnodup Hfits.
  intros Hinv Hi. destruct p.
  - by apply step_storing.
  - by apply step_testing.
  - by apply step_locking.
  - by apply step_checking.
  - by apply step_naming.
  - by apply step_layering.
  - by apply step_descending.
  - by apply step_choosing.
  - by apply step_connecting.
  - by apply step_linking.
  - by apply step_raising.
  - by apply step_entering.
  - by apply step_topping.
  - by apply step_counting.
  - by apply step_writing.
  - by apply step_saving.
  - pose proof (cv_threads _ _ Hinv _ _ _ Hi) as Hok. destruct r as [u|w]; [|by destruct (to_place _ _ _ _ Hok)].
    do 4 eexists. split; [reflexivity|]. split; [|by right; left].
    eapply quiet_move; [done|exact Hi|exact Hok|done|done|done|by right; right].
Qed.

(** Every schedule runs, and the invariant holds at its end. *)
Lemma run_inv schedule img c :
  conc_inv img c -> Forall (fun i => i < length os)%nat schedule ->
  exists c' img', run_schedule fused schedule c = Some c' /\ conc_inv img' c'.
Proof using Hnodup Hfits.
  intros Hinv Hs. revert img c Hinv. induction Hs as [|i schedule Hi _ IH]; intros img c Hinv; [by exists c, img|].
  destruct (lookup_lt_is_Some_2 (c_threads c) i) as [[o p] Ht].
  { rewrite <-(length_fmap fst). by rewrite (cv_ops _ _ Hinv). }
  destruct (step_inv img c i o p Hinv Ht) as (s' & lock' & p' & img' & E & Hinv' & _).
  destruct (IH _ _ Hinv') as (c2 & i2 & E2 & Hinv2). exists c2, i2. split; [|done].
  cbn [run_schedule]. unfold take_step. rewrite Ht. cbn [mbind option_bind]. rewrite E. exact E2.
Qed.

(** The steps that all threads still take. *)
Definition work (c : config) : nat := sum_list ((fun x => remaining x.2) <$> c_threads c).

Lemma work_insert (ts : list (insertion * phase)) i o p p' :
  ts !! i = Some (o, p) -> (remaining p' < remaining p)%nat ->
  (sum_list ((fun x => remaining x.2) <$> <[i := (o, p')]> ts) < sum_list ((fun x => remaining x.2) <$> ts))%nat.
Proof using.
  clear. revert i. induction ts as [|[o1 p1] ts IH]; intros [|i] Hi Hr; [done|done| |].
  - injection Hi as -> ->. change (<[0%nat := (o, p')]> ((o, p) :: ts)) with ((o, p') :: ts). cbn. lia.
  - change (<[S i := (o, p')]> ((o1, p1) :: ts)) with ((o1, p1) :: <[i := (o, p')]> ts). specialize (IH i Hi Hr). cbn in *. lia.
Qed.

(** A thread that can go on: the one that holds the lock, or any. *)
Lemma runnable img c :
  conc_inv img c -> ~ all_returned c -> exists i o p, c_threads c !! i = Some (o, p) /\ returned p = false /\ ~ (p = Locking /\ c_init_lock c = true).
Proof using.
  intros Hinv Hn. destruct (c_init_lock c) eqn:El.
  - destruct (proj1 (cv_lock _ _ Hinv) El) as (i & o & p & Hi & Hp). exists i, o, p. split; [done|]. split; [by destruct p|].
    intros [-> _]. done.
  - apply not_Forall_Exists in Hn; [|intros x; apply _]. apply Exists_exists in Hn as ([o p] & [i Hi]%list_elem_of_lookup_1 & Hp).
    exists i, o, p. split; [done|]. split; [by apply not_true_is_false|]. by intros [_ ?].
Qed.

Lemma completes img c :
  conc_inv img c -> exists schedule c' img', Forall (fun i => i < length os)%nat schedule /\
    run_schedule fused schedule c = Some c' /\ conc_inv img' c' /\ all_returned c'.
Proof using Hnodup Hfits.
  remember (work c) as n eqn:En. revert img c En. induction n as [n IH] using (well_founded_ind Nat.lt_wf_0). intros img c -> Hinv.
  destruct (decide (Forall (fun x => returned x.2 = true) (c_threads c))) as [Hall|Hn]; [by exists [], c, img|].
  destruct (runnable img c Hinv Hn) as (i & o & p & Hi & Hp & Hfree).
  destruct (step_inv img c i o p Hinv Hi) as (s' & lock' & p' & img' & E & Hinv' & Hdec).
  assert (remaining p' < remaining p)%nat as Hlt by (destruct Hdec as [?|[?|?]]; [done|congruence|done]).
  edestruct (IH (work (MkConfig s' lock' (<[i := (o, p')]> (c_threads c))))) as (l & c2 & i2 & Hl & E2 & Hinv2 & Hall);
    [by eapply work_insert|reflexivity|exact Hinv'|].
  exists (i :: l), c2, i2. split; [|split; [|done]].
  - constructor; [|done]. rewrite <-(cv_ops _ _ Hinv), length_fmap. by eapply lookup_lt_Some.
  - cbn [run_schedule]. unfold take_step. rewrite Hi. cbn [mbind option_bind]. rewrite E. exact E2.
Qed.

Lemma all_counted ts : Forall (fun x : insertion * phase => returned x.2 = true) ts -> count_of ts = N.of_nat (length ts).
Proof using.
  clear. unfold count_of. induction 1 as [|[o p] ts Hp _ IH]; [done|]. rewrite filter_cons_True by (by destruct p). cbn [length]. lia.
Qed.
End safety.

(** The index [s'] after the insertions [os] into [s], in whatever order. *)
Record inserted_all (os : list insertion) (s : Hnsw.t) (img : image) (s' : Hnsw.t) (img' : image) : Prop := {
  ia_wf : index_wf s' img';
  ia_size : i_size img' = i_size img;
  ia_metric : metric_ s' = metric_ s;
  ia_count : Hnsw.size s' = Hnsw.size s +u N.of_nat (length os);
  ia_vector o : o ∈ os -> payload img' (in_id o) = Some (in_vector o, false);
  ia_text o : o ∈ os -> in_metadata_text o <> "" -> get_metadata (in_id o) s' = in_metadata_text o;
  ia_frame id x : id ∉ in_id <$> os -> payload img id = Some x -> payload img' id = Some x;
  ia_texts id : id ∉ in_id <$> os -> id < INT_LIMIT -> get_metadata id s' = get_metadata id s;
}.

Lemma end_inserted os s img img' c :
  conc_inv os s img img' c -> all_returned c -> c_init_lock c = false /\ inserted_all os s img (c_index c) img'.
Proof.
  intros Hinv Hall. assert (forall i o p, c_threads c !! i = Some (o, p) -> returned p = true) as Hret.
  { intros i o p Hi. exact (Forall_lookup_1 _ _ _ _ Hall Hi). }
  pose proof Hinv as [Hm Hw Hme Hsz Hmag Hmet Hent Hlay Hhd Hops Hthr _ Hlk Hct Hfr Htx].
  assert (forall o, o ∈ os -> exists p, thread_ok img' (c_index c) o p /\ returned p = true) as Hdone.
  { intros o Ho. rewrite <-Hops in Ho. apply list_elem_of_fmap in Ho as ([o' p] & -> & [i Hi]%list_elem_of_lookup_1).
    exists p. split; [by eapply Hthr|by eapply Hret]. }
  split.
  { destruct (c_init_lock c); [|done]. destruct (proj1 Hlk eq_refl) as (i & o & p & Hi & Hp). specialize (Hret _ _ _ Hi). by destruct p. }
  split; [|exact Hsz|exact Hmet| | | |exact Hfr|exact Htx].
  - split; [done..| |done|].
    + destruct Hent as [?|(He & Ho & Hl)]; [by left|right]. split; [done|]. split; [done|].
      destruct (decide (current_max_layer_ (c_index c) = -1)%Z) as [E|]; [|lia].
      destruct (Hlay He E) as (i & o & Hi). by specialize (Hret _ _ _ Hi).
    + destruct Hhd as [?|(i & o & p & Hi & Hp)]; [done|]. specialize (Hret _ _ _ Hi). by destruct p.
  - unfold Hnsw.size. rewrite Hct, all_counted by done. by rewrite <-Hops, length_fmap.
  - intros o (p & Hok & Hp)%Hdone. apply (to_stored _ _ _ _ Hok). by destruct p.
  - intros o (p & Hok & Hp)%Hdone. by apply (to_saved _ _ _ _ Hok).
Qed.


(** Two threads in turns on an empty file. *)
Definition pair_of_calls : list insertion := [MkInsertion ground ones 0 "a"; MkInsertion ground ones 1 ""].

Definition turns (n : nat) : list nat := replicate n [0; 1]%nat ≫= id.

Lemma turns_valid n : Forall (fun i => i < length pair_of_calls)%nat (turns n).
Proof. unfold turns. apply Forall_bind. apply Forall_replicate. cbn. constructor; [lia|]. constructor; [lia|done]. Qed.

End ConcurrentSafety.
