(* ===== verification/BulkLoad.v ===== *)
(** * Filling a new index in order

    What the programs share that insert the vectors 0, 1, 2, ... into a new
    file of fixed size ([src/src/main.cpp], [src/benchmarks]): as long as the
    file has room, the index holds exactly these vectors, the file keeps its
    size and no insertion can fail. *)

From S2P Require Import Prelude Storage MemoryMap MetadataStore Float32 PriorityQueue IndexTypes FloatExact Distance.
From S2P Require Import Hnsw HnswInv HnswGreedy HnswUpdate HnswSearch IdMapStore ShardService ShardSpec HnswShard.
From S2P Require Import HnswFindings HnswReinsert HnswStranded.

(** ** Generated data *)

Section data.
Context (dist : nat -> float32).

(** The numbers of a vector, from the position [rng] of the stream on, and the
    position after it. *)
Definition take_vector (rng : nat) : list float32 * nat :=
  ((fun i => dist (rng + i)) <$> seq 0 VECTOR_DIM, (rng + VECTOR_DIM)%nat).

Fixpoint take_vectors (n rng : nat) : list (list float32) :=
  match n with
  | O => []
  | S n => let '(v, rng) := take_vector rng in v :: take_vectors n rng
  end.

(** The vector number [i] of the stream. *)
Definition vector_at (i : nat) : list float32 := (fun j => dist (i * VECTOR_DIM + j)) <$> seq 0 VECTOR_DIM.

Lemma vector_at_length i : length (vector_at i) = VECTOR_DIM.
Proof. unfold vector_at. by rewrite length_fmap, length_seq. Qed.

Lemma take_vectors_eq n i : take_vectors n (i * VECTOR_DIM) = vector_at <$> seq i n.
Proof.
  revert i. induction n as [|n IH]; intros i; [done|]. cbn [take_vectors take_vector seq fmap list_fmap].
  f_equal. rewrite <-IH. f_equal. lia.
Qed.
End data.

(** ** The insertions *)

(** Without a resize the outcome of its system calls does not matter. *)
Lemma insert_in_range fused d v id m s img :
  index_wf s img -> in_range img id ->
  insert fused d v id m s = insert fused (MkDraws (d_up d) (d_garbage d) MMapHandler.all_succeed) v id m s.
Proof.
  intros [Hm _ _ _ _ _] Hr. unfold insert, expand. rewrite (proj2 Hm). cbn [c_size image_contents d_sys d_garbage].
  rewrite bool_decide_eq_false_2 by (unfold in_range in Hr; lia). reflexivity.
Qed.

Section load.
Context (fused : bool) (path : string) (size : N) (vector : nat -> list float32) (name : N -> string).
Hypothesis vector_length : forall i, length (vector i) = VECTOR_DIM.

(** The number of nodes that fit. *)
Definition capacity : N := (size - HEADER_SIZE) / SIZEOF_NODE.

(** The index after the first [n] insertions. *)
Record loaded (n : nat) (s : Hnsw.t) (img : image) : Prop := {
  ld_wf : index_wf s img;
  ld_size : i_size img = size;
  ld_path : MMapHandler.file_path_ (storage_ s) = path;
  ld_metric : metric_ s = L2;
  ld_count : element_count_ s = N.of_nat n;
  ld_locks : node_locks_ s = 10000;
  ld_entry : (0 < n)%nat -> entry_point_id_ s <> NO_ENTRY;
  ld_ids id : occupied img id <-> id < N.of_nat n;
  ld_vector i : (i < n)%nat -> payload img (N.of_nat i) = Some (vector i, false);
  ld_metadata i : (i < n)%nat -> get_metadata (N.of_nat i) s = name (N.of_nat i);
  ld_fresh id : N.of_nat n <= id -> id < U32 -> get_metadata id s = "";
  ld_unlinked id : 10000 <= id -> id < N.of_nat n ->
    exists x, get_node id img = Some x /\ forall layer, (layer < MAX_LAYERS)%nat -> links x layer = Some [];
}.

Lemma fits img id : HEADER_SIZE <= size -> i_size img = size -> id < capacity -> in_range img id /\ id <= slots img.
Proof using Type.
  intros Hh Hs Hid. assert (id < slots img) as Hsl by (unfold slots; rewrite Hs; exact Hid).
  split; [apply in_range_slots; [by rewrite Hs|done]|lia].
Qed.

Lemma loaded_unlinked d i s s' img img' :
  loaded i s img -> in_range img (N.of_nat i) -> index_wf s' img' ->
  insert fused d (vector i) (N.of_nat i) (name (N.of_nat i)) s = Some (Ret tt, s') ->
  node_locks_ s' = 10000 /\ forall id, 10000 <= id -> id < N.of_nat (S i) ->
    exists x, get_node id img' = Some x /\ forall layer, (layer < MAX_LAYERS)%nat -> links x layer = Some [].
Proof using Type.
  intros Hl Hr Hix' E. pose proof (proj1 (ix_mapped _ _ Hix') : data s' = Some img') as Hd'.
  split.
  - revert E. unfold insert, expand. pose proof (proj2 (ix_mapped _ _ (ld_wf _ _ _ Hl))) as Hsz. cbn [c_size image_contents] in Hsz.
    rewrite Hsz, bool_decide_eq_false_2 by (unfold in_range in Hr; lia).
    destruct (data s); [|done]. cbn [mbind option_bind]. destruct (put_node _ _ _); [|done]. cbn [mbind option_bind].
    intros (s1 & Es & [= <-])%bind_Some. rewrite <-(ld_locks _ _ _ Hl).
    case_bool_decide; [by apply finish_insert_counters in Es as (-> & _)|]. unfold insert_linked in Es.
    apply bind_Some in Es as (im & _ & Es). apply bind_Some in Es as (x & _ & Es). apply bind_Some in Es as ([y z] & _ & Es).
    apply bind_Some in Es as (im' & _ & Es). apply finish_insert_counters in Es as (-> & _). by case_bool_decide.
  - intros id Hge Hlt. destruct (decide (id = N.of_nat i)) as [->|Hne].
    + apply (unlocked_node_has_no_links fused d (vector i) _ (name (N.of_nat i)) s s' img img' (ld_wf _ _ _ Hl) Hr); [|done|done].
      by rewrite (ld_locks _ _ _ Hl).
    + destruct (ld_unlinked _ _ _ Hl id Hge) as (x & Hx & Hlinks); [lia|]. exists x. split; [|done]. rewrite <-Hx.
      eapply (insert_in_place fused); [apply Hl|exact Hr|apply Hl; lia|exact E|exact Hd'|by rewrite (ld_locks _ _ _ Hl)|done].
Qed.

Lemma loaded_step d i s img :
  (get_random_level d < Z.of_nat MAX_LAYERS)%Z -> HEADER_SIZE <= size -> N.of_nat i < capacity -> N.of_nat i < INT_LIMIT ->
  loaded i s img ->
  exists s' img', insert fused d (vector i) (N.of_nat i) (name (N.of_nat i)) s = Some (Ret tt, s') /\ loaded (S i) s' img'.
Proof using vector_length.
  intros Hlev Hh Hi Hlim Hl. pose proof Hl as [Hix Hsz Hpath Hmet Hcount Hlocks Hent Hids Hvec Hmd Hfresh _].
  destruct (fits img (N.of_nat i) Hh Hsz Hi) as [Hr Hsl].
  pose proof (insert_in_range fused d (vector i) (N.of_nat i) (name (N.of_nat i)) s img Hix Hr) as Eq. rewrite Eq.
  destruct (insert_spec fused (MkDraws (d_up d) (d_garbage d) MMapHandler.all_succeed) (vector i) (N.of_nat i) (name (N.of_nat i)) s img)
    as (s' & img' & E & Hix' & Hsz' & Hdom & Hp & Ho & [H1 H2 H3 H4 H5]);
    [done|exact Hlev|done|apply vector_length|done|done|].
  exists s', img'. split; [exact E|]. destruct (loaded_unlinked _ i s s' img img' Hl Hr Hix' E) as [Hlocks' Hunl].
  unfold INT_LIMIT, U32, NO_ENTRY in *. split; try done.
  - rewrite Hsz'. unfold grown_size. rewrite bool_decide_eq_false_2 by (unfold in_range in Hr; lia). done.
  - by rewrite (insert_path fused _ _ _ _ _ _ _ E).
  - by rewrite H2.
  - rewrite H1, Hcount, u64_add_small by (unfold U64; lia). lia.
  - intros _. eapply insert_entry; [exact E|unfold NO_ENTRY, U32; lia].
  - intros id. rewrite occupied_dom, Hdom, elem_of_union, elem_of_singleton, <-occupied_dom, Hids. lia.
  - intros j Hj. destruct (decide (j = i)) as [->|Hne]; [done|]. apply Ho; [lia|]. apply Hvec. lia.
  - intros j Hj. destruct (decide (j = i)) as [->|Hne].
    + destruct (decide (name (N.of_nat i) = "")) as [En|En]; [|by apply H3]. rewrite (H4 En), En. apply Hfresh; lia.
    + rewrite H5 by lia. apply Hmd. lia.
  - intros id Hge Hlt. unfold U32 in Hlt. rewrite H5 by lia. apply Hfresh; lia.
Qed.

(** ** A new file *)

Lemma create_storage h disk meta_file metric s : create h disk meta_file metric = Some s -> storage_ s = h.
Proof using Type.
  unfold create. destruct (MMapHandler.get_data h disk); [|done]. cbn [mbind option_bind].
  case_bool_decide; [|done]. by case_bool_decide; intros [= <-].
Qed.

Lemma create_loaded :
  HEADER_SIZE <= size ->
  exists h disk s img, MMapHandler.open_file MMapHandler.all_succeed path size MMapHandler.create (∅ : gmap string image) = (Ret tt, h, disk) /\
    create h disk None L2 = Some s /\ loaded 0 s img.
Proof using Type.
  intros Hh.
  destruct (create_fresh_sized path size Hh) as (h & disk & s & img & Eo & Ec & Hix & Hn & Hsz & Hmeta & Hmet & He & Hc & Hl).
  exists h, disk, s, img. split; [exact Eo|]. split; [exact Ec|]. split; [done|done| |done|done|done|lia| |lia|lia| |lia].
  - rewrite (create_storage _ _ _ _ _ Ec).
    destruct (MMapHandler.open_spec path size MMapHandler.create (∅ : gmap string image)) as (h' & disk' & E' & _ & Hp & _).
    rewrite Eo in E'. by injection E' as <- _.
  - intros id. unfold occupied. rewrite Hn, lookup_empty. split; [by intros []|lia].
  - intros id _ _. unfold get_metadata. rewrite Hmeta. unfold MetadataHandler.get_metadata. by case_bool_decide.
Qed.

(** ** What it holds *)

Lemma loaded_node n s img id x :
  loaded n s img -> i_nodes img !! id = Some x ->
  exists i, (i < n)%nat /\ id = N.of_nat i /\ n_vector x = vector i /\ n_deleted x = false.
Proof using Type.
  intros Hl Hx. assert (id < N.of_nat n) as Hid by (apply (ld_ids _ _ _ Hl); by eexists).
  exists (N.to_nat id). split; [lia|]. split; [lia|].
  destruct (occupied_node img id (ix_image _ _ (ld_wf _ _ _ Hl))) as (x' & Hx' & Hg & _); [by eexists|].
  pose proof (ld_vector _ _ _ Hl (N.to_nat id) ltac:(lia)) as Hp. rewrite N2Nat.id in Hp. unfold payload in Hp.
  rewrite Hg in Hp. cbn in Hp. simplify_eq. done.
Qed.

(** Every search returns between one and [k] of the vectors, with their names
    and distances. *)
Definition stored_result (n : nat) (query : list float32) (r : Result) : Prop :=
  exists i, (i < n)%nat /\ r_id r = N.of_nat i /\ r_metadata r = name (N.of_nat i) /\
    r_distance r = compute_distance fused query (vector i) VECTOR_DIM L2.

Lemma loaded_search n query k s img :
  loaded n s img -> (0 < n)%nat -> length query = VECTOR_DIM -> (0 < k < Z.of_N U64)%Z ->
  exists rs, search fused query k s = Some rs /\ (1 <= Z.of_nat (length rs) <= k)%Z /\ NoDup (r_id <$> rs) /\
    Forall (stored_result n query) rs.
Proof using Type.
  intros Hl Hn Hq Hk. pose proof (ld_wf _ _ _ Hl) as Hix.
  destruct (search_sound_aux fused query k s img Hix) as (rs & E & [Hnd Hlive Hlen _ _]); [lia|lia|].
  exists rs. split; [done|]. split; [|split; [done|]].
  - split; [|lia]. destruct rs as [|r rs]; [exfalso|cbn; lia].
    refine (search_nonempty fused query k s img [] Hix (ld_entry _ _ _ Hl Hn) _ _ _ E eq_refl); [lia|lia|].
    intros id [x Hx]. destruct (loaded_node n s img id x Hl Hx) as (i & _ & _ & _ & Hd). by exists x.
  - eapply Forall_impl; [exact Hlive|]. intros r (x & Hx & Hd & Hdist & Hm).
    destruct (loaded_node n s img (r_id r) x Hl Hx) as (i & Hi & Ei & Hv & _). exists i.
    rewrite Hdist, Hm, Ei, Hv, (ld_metric _ _ _ Hl). split_and!; [done..| |done]. by apply (ld_metadata _ _ _ Hl).
Qed.

(** The closed file. *)
Lemma loaded_closed n s img :
  loaded n s img -> N.of_nat n < U32 ->
  (MMapHandler.data_ (MMapHandler.close_file (storage_ s)) = MMapHandler.Null /\
   MMapHandler.file_fd_ (MMapHandler.close_file (storage_ s)) = false) /\
  disk_ s !! path = Some img /\ h_element_count (i_header img) = N.of_nat n.
Proof using Type.
  intros Hl Hlim. pose proof (ld_wf _ _ _ Hl) as Hix. pose proof (proj1 (ix_mapped _ _ Hix)) as Hd.
  unfold MMapHandler.get_data in Hd. rewrite (ld_path _ _ _ Hl) in Hd. unfold MMapHandler.close_file.
  destruct (MMapHandler.data_ (storage_ s)); [done|done|]. split; [done|]. split; [done|].
  rewrite (ix_header _ _ Hix). cbn. rewrite (ld_count _ _ _ Hl). by apply N.mod_small.
Qed.
End load.
