(* ===== verification/Demo.v ===== *)
(** * The demonstration program ([src/src/main.cpp])

    A run of the engine without a server: a file of 50 MB is mapped, 10000
    random vectors are inserted one by one, one of them is searched for with a
    little noise, and the five best answers are printed.  The generator
    [mt19937] with its distribution is the stream of numbers it yields; the
    banner and the times are left out. *)

From S2P Require Import Prelude Storage MemoryMap MetadataStore Float32 PriorityQueue IndexTypes FloatExact Distance.
From S2P Require Import Hnsw HnswInv HnswGreedy HnswUpdate HnswSearch BulkLoad.

Module Demo.

Definition DB_PATH : string := "data/index.ndb".

(** [50 * 1024 * 1024] *)
Definition DB_SIZE : N := 52428800.

Definition NUM_VECTORS : N := 10000.

Definition target_id : nat := 500.

(** [0.001f] *)
Definition noise : float32 := S754_finite false 8589935 (-33).

(** A line of the table. *)
Record row := MkRow {
  rank : nat;
  row_id : N;
  row_metadata : string;
  row_distance : float32;
}.

(** How the program ends: [return 1] after an exception of [open_file], an
    exception that nobody catches, or [return 0] with the progress lines, the
    table, the closed handler and the disk. *)
Inductive ending :=
| Failed (what : string)
| Uncaught (what : string)
| Finished (progress : list nat) (table : list row) (storage : MMapHandler.t) (disk : gmap string image).

Definition item_name (i : N) : string := "Item_" +:+ pretty i.

Definition table_of (results : list Result) : list row :=
  imap (fun i r => MkRow (i + 1) (r_id r) (r_metadata r) (r_distance r)) results.

Lemma table_ids results : row_id <$> table_of results = r_id <$> results.
Proof.
  apply list_eq. intros i. unfold table_of. rewrite !list_lookup_fmap, list_lookup_imap. by destruct (results !! i).
Qed.

Section program.
Context (fused : bool) (dist : nat -> float32) (env : nat -> draws).

(** The vector and the generator after it. *)
Definition generate_random_vector (rng : nat) : list float32 * nat :=
  ((fun i => dist (rng + i)) <$> seq 0 VECTOR_DIM, (rng + VECTOR_DIM)%nat).

Fixpoint generate_data (n rng : nat) : list (list float32) :=
  match n with
  | O => []
  | S n => let '(v, rng) := generate_random_vector rng in v :: generate_data n rng
  end.

(** The loop of insertions from [i] on, with the counts that it reports. *)
Fixpoint insert_all (i : nat) (dataset : list (list float32)) (s : Hnsw.t) : option (outcome (list nat) * Hnsw.t) :=
  match dataset with
  | [] => Some (Ret [], s)
  | v :: dataset =>
    '(r, s) ← insert fused (env i) v (N.of_nat i) (item_name (N.of_nat i)) s;
    match r with
    | Throw w => Some (Throw w, s)
    | Ret _ =>
      '(r, s) ← insert_all (S i) dataset s;
      Some (match r with
            | Ret progress => Ret (if bool_decide (S i mod 1000 = 0)%nat then S i :: progress else progress)
            | Throw w => Throw w
            end, s)
    end
  end.

(** [query[0] += 0.001f] *)
Definition add_noise (v : list float32) : option (list float32) :=
  x ← v !! 0%nat; Some (<[0%nat := fadd x noise]> v).

Definition main (sc : MMapHandler.syscalls) (disk : gmap string image) (meta_file : option bytes) : option ending :=
  match MMapHandler.open_file sc DB_PATH DB_SIZE MMapHandler.create disk with
  | (Throw w, _, _) => Some (Failed w)
  | (Ret _, storage, disk) =>
    index ← create storage disk meta_file L2;
    let dataset := generate_data (N.to_nat NUM_VECTORS) 0 in
    '(r, index) ← insert_all 0 dataset index;
    match r with
    | Throw w => Some (Uncaught w)
    | Ret progress =>
      query ← dataset !! target_id ≫= add_noise;
      results ← search fused query 5 index;
      Some (Finished progress (table_of results) (MMapHandler.close_file (storage_ index)) (disk_ index))
    end
  end.

(** ** The insertions *)

Abbreviation demo_loaded := (loaded DB_PATH DB_SIZE (vector_at dist) item_name).

Lemma generate_data_eq n rng : generate_data n rng = take_vectors dist n rng.
Proof. revert rng. induction n as [|n IH]; intros rng; [done|]. cbn. by rewrite IH. Qed.

Lemma insert_all_loaded n i s img :
  (forall j, get_random_level (env j) < Z.of_nat MAX_LAYERS)%Z -> N.of_nat (i + n) <= 49648 -> demo_loaded i s img ->
  exists s' img', insert_all i (vector_at dist <$> seq i n) s =
      Some (Ret (filter (fun j => j mod 1000 = 0)%nat (seq (S i) n)), s') /\ demo_loaded (i + n) s' img'.
Proof.
  intros Hlev. revert i s img. induction n as [|n IH]; intros i s img Hn Hl.
  { exists s, img. rewrite Nat.add_0_r. done. }
  destruct (loaded_step fused DB_PATH DB_SIZE (vector_at dist) item_name (vector_at_length dist) (env i) i s img)
    as (s1 & i1 & E1 & Hl1); [apply Hlev|done|change (capacity DB_SIZE) with 49648; lia|unfold INT_LIMIT; lia|done|].
  destruct (IH (S i) s1 i1 ltac:(lia) Hl1) as (s2 & i2 & E2 & Hl2).
  exists s2, i2. rewrite <-Nat.add_succ_comm. split; [|done].
  cbn [seq fmap list_fmap insert_all]. rewrite E1. cbn [mbind option_bind].
  change (list_fmap nat (list float32) (vector_at dist) (seq (S i) n)) with (vector_at dist <$> seq (S i) n).
  rewrite E2. cbn [mbind option_bind]. do 3 f_equal. rewrite filter_cons. by repeat case_match; case_bool_decide.
Qed.

(** ** The search *)

Definition query_of (i : nat) : list float32 := <[0%nat := fadd (dist (i * VECTOR_DIM)) noise]> (vector_at dist i).

Lemma add_noise_vector i : add_noise (vector_at dist i) = Some (query_of i).
Proof. unfold add_noise, query_of, vector_at. cbn [seq VECTOR_DIM fmap list_fmap lookup list_lookup mbind option_bind]. by rewrite Nat.add_0_r. Qed.

(** The line of the table for a stored vector. *)
Definition row_ok (n : nat) (query : list float32) (r : row) : Prop :=
  exists i, (i < n)%nat /\ row_id r = N.of_nat i /\ row_metadata r = item_name (N.of_nat i) /\
    row_distance r = compute_distance fused query (vector_at dist i) VECTOR_DIM L2.

Lemma table_rows n query rs :
  Forall (stored_result fused (vector_at dist) item_name n query) rs -> Forall (row_ok n query) (table_of rs).
Proof.
  intros H. apply Forall_lookup. intros i r Hi. unfold table_of in Hi. rewrite list_lookup_imap in Hi.
  destruct (rs !! i) as [r0|] eqn:Er; [|done]. injection Hi as <-. exact (proj1 (Forall_lookup _ _) H i r0 Er).
Qed.

(** What the program leaves: the closed handler, and the file with every
    vector in the slot of its id. *)
Record demo_ok (n : nat) (progress : list nat) (table : list row) (storage : MMapHandler.t) (disk : gmap string image) : Prop := {
  dm_progress : progress = filter (fun j => j mod 1000 = 0)%nat (seq 1 n);
  dm_closed : MMapHandler.data_ storage = MMapHandler.Null /\ MMapHandler.file_fd_ storage = false;
  dm_file : exists img, disk !! DB_PATH = Some img /\ i_size img = DB_SIZE /\
    h_element_count (i_header img) = N.of_nat n /\
    forall i, (i < n)%nat -> payload img (N.of_nat i) = Some (vector_at dist i, false);
  dm_rows : (1 <= length table <= 5)%nat /\ NoDup (row_id <$> table) /\
    Forall (row_ok n (query_of target_id)) table;
}.

(** The rest of the program on an index that holds [n] vectors. *)
Lemma loaded_ends n s img :
  demo_loaded n s img -> (0 < n)%nat -> N.of_nat n < U32 -> exists results, search fused (query_of target_id) 5 s = Some results /\
    demo_ok n (filter (fun j => j mod 1000 = 0)%nat (seq 1 n)) (table_of results) (MMapHandler.close_file (storage_ s)) (disk_ s).
Proof.
  intros Hl Hn Hlim.
  destruct (loaded_search fused _ _ _ _ n (query_of target_id) 5 s img Hl Hn) as (rs & E & Hlen & Hnd & Hrows); [|done|].
  { unfold query_of. rewrite length_insert. apply vector_at_length. }
  destruct (loaded_closed _ _ _ _ n s img Hl Hlim) as (Hclosed & Hdisk & Hcount).
  exists rs. split; [exact E|]. split; [done|done| |].
  - exists img. split; [done|]. split; [by apply (ld_size _ _ _ _ _ _ _ Hl)|]. split; [done|]. apply (ld_vector _ _ _ _ _ _ _ Hl).
  - rewrite table_ids. split; [unfold table_of; rewrite length_imap; lia|]. split; [done|by apply table_rows].
Qed.
End program.

(** The demonstration succeeds.  Started without a database and with the
    system calls of its start succeeding, [main] returns 0 whatever numbers the
    generator yields: the 50 MB hold all 10000 nodes, so that no insertion
    resizes the file (and none can fail, whatever a resize would have done);
    every vector is in the slot of its id and the header counts 10000 elements;
    the table has one to five lines with distinct ids, each with the metadata
    and the exact distance of its vector; the file is closed at the end.
    Assumed is that no level draw reaches the size of the node's arrays. *)
Theorem demo_runs (fused : bool) (dist : nat -> float32) (env : nat -> draws) :
  (forall i, get_random_level (env i) < Z.of_nat MAX_LAYERS)%Z ->
  exists progress table storage disk,
    main fused dist env MMapHandler.all_succeed ∅ None = Some (Finished progress table storage disk) /\
    demo_ok fused dist (N.to_nat NUM_VECTORS) progress table storage disk.
Proof.
  intros Hlev.
  destruct (create_loaded DB_PATH DB_SIZE (vector_at dist) item_name) as (h & disk & s & img & Eo & Ec & Hl); [done|].
  destruct (insert_all_loaded fused dist env (N.to_nat NUM_VECTORS) 0 s img Hlev) as (s' & img' & Ei & Hl');
    [unfold NUM_VECTORS; lia|exact Hl|].
  destruct (loaded_ends fused dist _ s' img' Hl') as (rs & Es & Hok); [unfold NUM_VECTORS; lia|unfold NUM_VECTORS, U32; lia|].
  do 4 eexists. split; [|exact Hok]. unfold main. rewrite Eo, Ec. cbn [mbind option_bind].
  rewrite generate_data_eq, (take_vectors_eq dist (N.to_nat NUM_VECTORS) 0 : take_vectors dist _ 0 = _), Ei. cbn [mbind option_bind].
  rewrite list_lookup_fmap, lookup_seq_lt by (unfold NUM_VECTORS, target_id; lia). cbn [fmap option_fmap option_map mbind option_bind].
  rewrite add_noise_vector. cbn [mbind option_bind]. change (0 + target_id)%nat with target_id. rewrite Es. reflexivity.
Qed.

Lemma demo_runs_witness :
  exists progress table storage disk,
    main true (fun _ => fone) (fun _ => ground) MMapHandler.all_succeed ∅ None = Some (Finished progress table storage disk) /\
    demo_ok true (fun _ => fone) (N.to_nat NUM_VECTORS) progress table storage disk.
Proof. apply (demo_runs true (fun _ => fone) (fun _ => ground)). intros i. reflexivity. Defined.

End Demo.
