(* ===== verification/Json.v ===== *)
(** * JSON values, lexer and parser ([src/include/third_party/json.hpp])

    The part of the bundled JSON library that the program uses to read
    configuration files, Raft commands, snapshots and HTTP bodies: values,
    checked access, the byte-level lexer and the parser loop with its explicit
    stack.  [None] stands for a thrown [json::exception]. *)

From S2P Require Import Prelude Float32.

(** A 64-bit IEEE number. *)
Definition float64 : Type := spec_float.

Definition prec64 : Z := 53.

Definition emax64 : Z := 1024.

(** [basic_json]: the members of an object are kept sorted by key, as in
    [std::map]. *)
Inductive json :=
| JNull
| JBool (b : bool)
| JInteger (z : Z)
| JUnsigned (n : N)
| JFloat (f : float64)
| JString (s : string)
| JArray (l : list json)
| JObject (m : list (string * json)).

(** ** Objects *)

(** [std::string::operator<]: bytes compared as unsigned. *)
Fixpoint str_lt (a b : string) : bool :=
  match a, b with
  | EmptyString, EmptyString => false
  | EmptyString, String _ _ => true
  | String _ _, EmptyString => false
  | String c a, String d b =>
    if N_of_ascii c <?? N_of_ascii d then true
    else if N_of_ascii c =?? N_of_ascii d then str_lt a b
    else false
  end.

(** [m[k] = v]. *)
Fixpoint obj_set (k : string) (v : json) (m : list (string * json)) : list (string * json) :=
  match m with
  | [] => [(k, v)]
  | (k', v') :: m' =>
    if str_lt k k' then (k, v) :: m
    else if k =?? k' then (k, v) :: m'
    else (k', v') :: obj_set k v m'
  end.

Fixpoint obj_find (k : string) (m : list (string * json)) : option json :=
  match m with
  | [] => None
  | (k', v) :: m => if k =?? k' then Some v else obj_find k m
  end.

(** ** Checked access *)

(** An object from an initializer list: [emplace] keeps the first value of a
    repeated key. *)
Definition j_object (members : list (string * json)) : json :=
  JObject (foldl (fun m kv => if bool_decide (is_Some (obj_find kv.1 m)) then m else obj_set kv.1 kv.2 m)
                 [] members).

(** [at(key)]: throws on a missing key and on a value that is not an object. *)
Definition j_at (k : string) (j : json) : option json :=
  match j with JObject m => obj_find k m | _ => None end.

Definition j_contains (k : string) (j : json) : bool :=
  match j with JObject m => bool_decide (is_Some (obj_find k m)) | _ => false end.

Definition j_empty (j : json) : bool :=
  match j with
  | JNull => true
  | JArray [] => true
  | JObject [] => true
  | _ => false
  end.

(** Range-based [for]: a scalar is a sequence of one. *)
Definition j_elements (j : json) : list json :=
  match j with
  | JNull => []
  | JArray l => l
  | JObject m => m.*2
  | _ => [j]
  end.

(** [static_cast<int>] of a 64-bit value. *)
Definition to_i32 (z : Z) : Z := u32_to_i32 (i32_to_u32 z).

(** [get<int>()]: booleans count as numbers; a float outside the range of
    [int] is undefined. *)
Definition get_int (j : json) : option Z :=
  match j with
  | JBool b => Some (if b then 1 else 0)%Z
  | JUnsigned n => Some (to_i32 (Z.of_N n))
  | JInteger z => Some (to_i32 z)
  | JFloat f =>
    z ← trunc_float f;
    if bool_decide (-2147483648 <= z < 2147483648)%Z then Some z else None
  | _ => None
  end.

(** [get<uint64_t>()]. *)
Definition get_u64 (j : json) : option N :=
  match j with
  | JUnsigned n => Some (u64 n)
  | JInteger z => Some (Z.to_N (z mod 18446744073709551616)%Z)
  | JFloat f =>
    z ← trunc_float f;
    if bool_decide (0 <= z < 18446744073709551616)%Z then Some (Z.to_N z) else None
  | _ => None
  end.

Definition get_string (j : json) : option string :=
  match j with JString s => Some s | _ => None end.

Definition get_bool (j : json) : option bool :=
  match j with JBool b => Some b | _ => None end.

(** [value(key, default)]: the default for a missing key, an exception for a
    value that is not an object or has the wrong type. *)
Definition j_value {A} (get : json -> option A) (k : string) (d : A) (j : json) : option A :=
  match j with
  | JObject m => match obj_find k m with Some v => get v | None => Some d end
  | _ => None
  end.

(** ** Lexer *)

Inductive token :=
| TBeginObject | TEndObject | TBeginArray | TEndArray | TNameSeparator | TValueSeparator
| TTrue | TFalse | TNull
| TString (s : bytes)
| TUnsigned (n : N)
| TInteger (z : Z)
| TFloat (f : float64)
| TEndOfInput
| TParseError (message : string).

Definition code (c : ascii) : N := N_of_ascii c.

Definition byte (n : N) : ascii := ascii_of_N n.

Definition is_space (c : ascii) : bool :=
  let b := code c in (b =?? 32) || (b =?? 9) || (b =?? 10) || (b =?? 13).

Fixpoint skip_whitespace (input : bytes) : bytes :=
  match input with
  | c :: rest => if is_space c then skip_whitespace rest else input
  | [] => []
  end.

(** The rest of a literal after its first character. *)
Fixpoint scan_literal (literal : bytes) (ok : token) (input : bytes) : token * bytes :=
  match literal, input with
  | [], _ => (ok, input)
  | l :: ls, c :: rest =>
    if c =?? l then scan_literal ls ok rest else (TParseError "invalid literal", rest)
  | _ :: _, [] => (TParseError "invalid literal", [])
  end.

Definition hex_value (c : ascii) : option N :=
  let b := code c in
  if (0x30 <=?? b) && (b <=?? 0x39) then Some (b - 0x30)
  else if (0x41 <=?? b) && (b <=?? 0x46) then Some (b - 0x37)
  else if (0x61 <=?? b) && (b <=?? 0x66) then Some (b - 0x57)
  else None.

Definition get_codepoint (input : bytes) : option (N * bytes) :=
  match input with
  | c3 :: c2 :: c1 :: c0 :: rest =>
    h3 ← hex_value c3; h2 ← hex_value c2; h1 ← hex_value c1; h0 ← hex_value c0;
    Some (N.shiftl h3 12 + N.shiftl h2 8 + N.shiftl h1 4 + h0, rest)
  | _ => None
  end.

(** UTF-8 bytes of a code point. *)
Definition codepoint_bytes (cp : N) : bytes :=
  if cp <?? 0x80 then [byte cp]
  else if cp <=?? 0x7FF then
    [byte (N.lor 0xC0 (N.shiftr cp 6)); byte (N.lor 0x80 (N.land cp 0x3F))]
  else if cp <=?? 0xFFFF then
    [byte (N.lor 0xE0 (N.shiftr cp 12)); byte (N.lor 0x80 (N.land (N.shiftr cp 6) 0x3F));
     byte (N.lor 0x80 (N.land cp 0x3F))]
  else
    [byte (N.lor 0xF0 (N.shiftr cp 18)); byte (N.lor 0x80 (N.land (N.shiftr cp 12) 0x3F));
     byte (N.lor 0x80 (N.land (N.shiftr cp 6) 0x3F)); byte (N.lor 0x80 (N.land cp 0x3F))].

(** After [\u]: the bytes to add, or the error. *)
Definition scan_unicode (input : bytes) : (bytes + string) * bytes :=
  match get_codepoint input with
  | None => (inr "invalid string: '\u' must be followed by 4 hex digits", input)
  | Some (cp1, rest) =>
    if (0xD800 <=?? cp1) && (cp1 <=?? 0xDBFF) then
      match rest with
      | b :: u :: rest2 =>
        if (code b =?? 0x5C) && (code u =?? 0x75) then
          match get_codepoint rest2 with
          | None => (inr "invalid string: '\u' must be followed by 4 hex digits", rest2)
          | Some (cp2, rest3) =>
            if (0xDC00 <=?? cp2) && (cp2 <=?? 0xDFFF)
            then (inl (codepoint_bytes (N.shiftl cp1 10 + cp2 - 0x35FDC00)), rest3)
            else (inr "invalid string: surrogate U+D800..U+DBFF must be followed by U+DC00..U+DFFF",
                  rest3)
          end
        else (inr "invalid string: surrogate U+D800..U+DBFF must be followed by U+DC00..U+DFFF",
              rest2)
      | _ => (inr "invalid string: surrogate U+D800..U+DBFF must be followed by U+DC00..U+DFFF", [])
      end
    else if (0xDC00 <=?? cp1) && (cp1 <=?? 0xDFFF)
    then (inr "invalid string: surrogate U+DC00..U+DFFF must follow U+D800..U+DBFF", rest)
    else (inl (codepoint_bytes cp1), rest)
  end.

(** After a backslash. *)
Definition scan_escape (input : bytes) : (bytes + string) * bytes :=
  match input with
  | [] => (inr "invalid string: forbidden character after backslash", [])
  | c :: rest =>
    let b := code c in
    if b =?? 0x22 then (inl [byte 0x22], rest)
    else if b =?? 0x5C then (inl [byte 0x5C], rest)
    else if b =?? 0x2F then (inl [byte 0x2F], rest)
    else if b =?? 0x62 then (inl [byte 0x08], rest)
    else if b =?? 0x66 then (inl [byte 0x0C], rest)
    else if b =?? 0x6E then (inl [byte 0x0A], rest)
    else if b =?? 0x72 then (inl [byte 0x0D], rest)
    else if b =?? 0x74 then (inl [byte 0x09], rest)
    else if b =?? 0x75 then scan_unicode rest
    else (inr "invalid string: forbidden character after backslash", rest)
  end.

(** The byte ranges that must follow a leading byte of 0x80 or more. *)
Definition following_ranges (b : N) : option (list (N * N)) :=
  if (0xC2 <=?? b) && (b <=?? 0xDF) then Some [(0x80, 0xBF)]
  else if b =?? 0xE0 then Some [(0xA0, 0xBF); (0x80, 0xBF)]
  else if b =?? 0xED then Some [(0x80, 0x9F); (0x80, 0xBF)]
  else if (0xE1 <=?? b) && (b <=?? 0xEF) then Some [(0x80, 0xBF); (0x80, 0xBF)]
  else if b =?? 0xF0 then Some [(0x90, 0xBF); (0x80, 0xBF); (0x80, 0xBF)]
  else if (0xF1 <=?? b) && (b <=?? 0xF3) then Some [(0x80, 0xBF); (0x80, 0xBF); (0x80, 0xBF)]
  else if b =?? 0xF4 then Some [(0x80, 0x8F); (0x80, 0xBF); (0x80, 0xBF)]
  else None.

Fixpoint next_byte_in_range (ranges : list (N * N)) (input : bytes) : option (bytes * bytes) :=
  match ranges, input with
  | [], _ => Some ([], input)
  | (lo, hi) :: ranges, c :: rest =>
    if (lo <=?? code c) && (code c <=?? hi) then
      '(taken, rest) ← next_byte_in_range ranges rest;
      Some (c :: taken, rest)
    else None
  | _ :: _, [] => None
  end.

(** What the lexer says of each unescaped control character. *)
Definition control_characters : list string :=
  [
   "U+0000 (NUL) must be escaped to \u0000";
   "U+0001 (SOH) must be escaped to \u0001";
   "U+0002 (STX) must be escaped to \u0002";
   "U+0003 (ETX) must be escaped to \u0003";
   "U+0004 (EOT) must be escaped to \u0004";
   "U+0005 (ENQ) must be escaped to \u0005";
   "U+0006 (ACK) must be escaped to \u0006";
   "U+0007 (BEL) must be escaped to \u0007";
   "U+0008 (BS) must be escaped to \u0008 or \b";
   "U+0009 (HT) must be escaped to \u0009 or \t";
   "U+000A (LF) must be escaped to \u000A or \n";
   "U+000B (VT) must be escaped to \u000B";
   "U+000C (FF) must be escaped to \u000C or \f";
   "U+000D (CR) must be escaped to \u000D or \r";
   "U+000E (SO) must be escaped to \u000E";
   "U+000F (SI) must be escaped to \u000F";
   "U+0010 (DLE) must be escaped to \u0010";
   "U+0011 (DC1) must be escaped to \u0011";
   "U+0012 (DC2) must be escaped to \u0012";
   "U+0013 (DC3) must be escaped to \u0013";
   "U+0014 (DC4) must be escaped to \u0014";
   "U+0015 (NAK) must be escaped to \u0015";
   "U+0016 (SYN) must be escaped to \u0016";
   "U+0017 (ETB) must be escaped to \u0017";
   "U+0018 (CAN) must be escaped to \u0018";
   "U+0019 (EM) must be escaped to \u0019";
   "U+001A (SUB) must be escaped to \u001A";
   "U+001B (ESC) must be escaped to \u001B";
   "U+001C (FS) must be escaped to \u001C";
   "U+001D (GS) must be escaped to \u001D";
   "U+001E (RS) must be escaped to \u001E";
   "U+001F (US) must be escaped to \u001F"].

Definition control_error (b : N) : string :=
  "invalid string: control character " +:+ default "" (control_characters !! N.to_nat b).

Definition utf8_error : string := "invalid string: ill-formed UTF-8 byte".

(** After the opening quote; every turn consumes at least one byte. *)
Fixpoint scan_string (fuel : nat) (input : bytes) (buffer : bytes) : token * bytes :=
  match fuel with
  | O => (TParseError "", input)
  | S fuel =>
    match input with
    | [] => (TParseError "invalid string: missing closing quote", [])
    | c :: rest =>
      let b := code c in
      if b =?? 0x22 then (TString buffer, rest)
      else if b =?? 0x5C then
        match scan_escape rest with
        | (inl added, rest) => scan_string fuel rest (buffer ++ added)
        | (inr err, rest) => (TParseError err, rest)
        end
      else if b <=?? 0x1F then (TParseError (control_error b), rest)
      else if b <=?? 0x7F then scan_string fuel rest (buffer ++ [c])
      else
        match following_ranges b with
        | None => (TParseError utf8_error, rest)
        | Some ranges =>
          match next_byte_in_range ranges rest with
          | None => (TParseError utf8_error, rest)
          | Some (taken, rest) => scan_string fuel rest (buffer ++ c :: taken)
          end
        end
    end
  end.

(** ** Numbers *)

Inductive number_type := NtUnsigned | NtInteger | NtFloat.

(** The labels of [scan_number]. *)
Inductive number_state :=
| NsMinus | NsZero | NsAny1 | NsDecimal1 | NsDecimal2 | NsExponent | NsSign | NsAny2.

Definition is_digit (c : ascii) : bool := (0x30 <=?? code c) && (code c <=?? 0x39).

Definition is_exp (c : ascii) : bool := (code c =?? 0x65) || (code c =?? 0x45).

Definition is_point (c : ascii) : bool := code c =?? 0x2E.

Definition is_sign (c : ascii) : bool := (code c =?? 0x2B) || (code c =?? 0x2D).

(** What the next character does in a state: go on to another state, stop
    before it, or fail. *)
Inductive number_move := Go (s : number_state) | Stop | Bad (message : string).

Definition number_next (s : number_state) (c : ascii) : number_move :=
  match s with
  | NsMinus =>
    if code c =?? 0x30 then Go NsZero
    else if is_digit c then Go NsAny1
    else Bad "invalid number; expected digit after '-'"
  | NsZero => if is_point c then Go NsDecimal1 else if is_exp c then Go NsExponent else Stop
  | NsAny1 =>
    if is_digit c then Go NsAny1
    else if is_point c then Go NsDecimal1 else if is_exp c then Go NsExponent else Stop
  | NsDecimal1 =>
    if is_digit c then Go NsDecimal2 else Bad "invalid number; expected digit after '.'"
  | NsDecimal2 => if is_digit c then Go NsDecimal2 else if is_exp c then Go NsExponent else Stop
  | NsExponent =>
    if is_sign c then Go NsSign
    else if is_digit c then Go NsAny2
    else Bad "invalid number; expected '+', '-', or digit after exponent"
  | NsSign =>
    if is_digit c then Go NsAny2 else Bad "invalid number; expected digit after exponent sign"
  | NsAny2 => if is_digit c then Go NsAny2 else Stop
  end.

(** At the end of the input. *)
Definition number_end (s : number_state) : number_move :=
  match s with
  | NsMinus => Bad "invalid number; expected digit after '-'"
  | NsDecimal1 => Bad "invalid number; expected digit after '.'"
  | NsExponent => Bad "invalid number; expected '+', '-', or digit after exponent"
  | NsSign => Bad "invalid number; expected digit after exponent sign"
  | _ => Stop
  end.

(** The type a number has once it has entered a state. *)
Definition number_type_in (s : number_state) (ty : number_type) : number_type :=
  match s with
  | NsMinus => NtInteger
  | NsDecimal1 | NsExponent => NtFloat
  | _ => ty
  end.

(** The type and the text of a number, or the error, and the unread input. *)
Fixpoint scan_number_loop (s : number_state) (ty : number_type) (input buffer : bytes)
    : ((number_type * bytes) + string) * bytes :=
  let ty := number_type_in s ty in
  match input with
  | [] =>
    match number_end s with
    | Bad err => (inr err, [])
    | _ => (inl (ty, buffer), [])
    end
  | c :: rest =>
    match number_next s c with
    | Go s' => scan_number_loop s' ty rest (buffer ++ [c])
    | Stop => (inl (ty, buffer), input)
    | Bad err => (inr err, rest)
    end
  end.

(** Decimal value of a string of digits. *)
Definition digits_value (ds : bytes) : N := foldl (fun n c => 10 * n + (code c - 0x30)) 0 ds.

Definition split_while (f : ascii -> bool) : bytes -> bytes * bytes :=
  fix go l := match l with
              | [] => ([], [])
              | c :: l' => if f c then let '(a, b) := go l' in (c :: a, b) else ([], l)
              end.

(** A sign, its absence read as plus. *)
Definition split_sign (l : bytes) : bool * bytes :=
  match l with
  | c :: l' => if code c =?? 0x2D then (true, l') else if code c =?? 0x2B then (false, l') else (false, l)
  | [] => (false, [])
  end.

(** [strtod]: the nearest 64-bit number to [m * 10^e], ties to even. *)
Definition decimal_to_float (neg : bool) (m : N) (e : Z) : float64 :=
  match m with
  | N0 => S754_zero neg
  | Npos p =>
    match e with
    | Zneg k =>
      let '(q, e', l) := SFdiv_core_binary prec64 emax64 (Zpos p) 0 (10 ^ Zpos k) 0 in
      binary_round_aux prec64 emax64 neg q e' l
    | _ => binary_normalize prec64 emax64 (cond_Zopp neg (Zpos p * 10 ^ e)) 0 neg
    end
  end.

Definition strtod (text : bytes) : float64 :=
  let '(neg, l) := split_sign text in
  let '(int_digits, l) := split_while is_digit l in
  let '(frac_digits, l) :=
    match l with
    | c :: l' => if is_point c then split_while is_digit l' else ([], l)
    | [] => ([], [])
    end in
  let exponent :=
    match l with
    | c :: l' =>
      if is_exp c then
        let '(eneg, ds) := split_sign l' in
        cond_Zopp eneg (Z.of_N (digits_value ds))
      else 0%Z
    | [] => 0%Z
    end in
  decimal_to_float neg (digits_value (int_digits ++ frac_digits))
    (exponent - Z.of_nat (length frac_digits)).

(** Integers that do not fit 64 bits become floating-point numbers. *)
Definition number_token (ty : number_type) (text : bytes) : token :=
  match ty with
  | NtUnsigned =>
    let x := digits_value text in
    if x <?? U64 then TUnsigned x else TFloat (strtod text)
  | NtInteger =>
    let x := (- Z.of_N (digits_value (tail text)))%Z in
    if bool_decide (- 9223372036854775808 <= x)%Z then TInteger x else TFloat (strtod text)
  | NtFloat => TFloat (strtod text)
  end.

Definition scan_number (c : ascii) (input : bytes) : token * bytes :=
  let start :=
    if code c =?? 0x2D then NsMinus else if code c =?? 0x30 then NsZero else NsAny1 in
  match scan_number_loop start NtUnsigned input [c] with
  | (inl (ty, text), rest) => (number_token ty text, rest)
  | (inr err, rest) => (TParseError err, rest)
  end.

Definition ch (n : N) (c : ascii) : bool := code c =?? n.

Definition scan (input : bytes) : token * bytes :=
  match skip_whitespace input with
  | [] => (TEndOfInput, [])
  | c :: rest =>
    if ch 0x5B c then (TBeginArray, rest)
    else if ch 0x5D c then (TEndArray, rest)
    else if ch 0x7B c then (TBeginObject, rest)
    else if ch 0x7D c then (TEndObject, rest)
    else if ch 0x3A c then (TNameSeparator, rest)
    else if ch 0x2C c then (TValueSeparator, rest)
    else if ch 0x74 c then scan_literal (bytes_of "rue") TTrue rest
    else if ch 0x66 c then scan_literal (bytes_of "alse") TFalse rest
    else if ch 0x6E c then scan_literal (bytes_of "ull") TNull rest
    else if ch 0x22 c then scan_string (S (length rest)) rest []
    else if ch 0x2D c || is_digit c then scan_number c rest
    else if ch 0x00 c then (TEndOfInput, rest)
    else (TParseError "invalid literal", rest)
  end.

(** ** Parser *)

(** The containers being filled, innermost first: the source's [states] and
    [ref_stack] in one. *)
Inductive frame :=
| FArray (elements : list json)
| FObject (members : list (string * json)) (key : string).

(** [OnToken]: [last_token] starts a value.  [OnValue]: a value was parsed. *)
Inductive parse_state := OnToken (t : token) | OnValue (v : json).

Definition is_finite (f : float64) : bool :=
  match f with S754_zero _ | S754_finite _ _ _ => true | _ => false end.

(** A key and the separator after it, starting at the key's token. *)
Definition parse_key (input : bytes) : option (string * token * bytes) :=
  match scan input with
  | (TString k, input) =>
    match scan input with
    | (TNameSeparator, input) => let '(t, input) := scan input in Some (string_of k, t, input)
    | _ => None
    end
  | _ => None
  end.

(** One iteration of [sax_parse_internal]: the next state, the result, or an
    exception. *)
Definition parse_step (st : parse_state) (input : bytes) (stack : list frame)
    : option (json * bytes + parse_state * bytes * list frame) :=
  match st with
  | OnToken TBeginObject =>
    match scan input with
    | (TEndObject, input) => Some (inr (OnValue (JObject []), input, stack))
    | _ => '(k, t, input) ← parse_key input; Some (inr (OnToken t, input, FObject [] k :: stack))
    end
  | OnToken TBeginArray =>
    match scan input with
    | (TEndArray, input) => Some (inr (OnValue (JArray []), input, stack))
    | (t, input) => Some (inr (OnToken t, input, FArray [] :: stack))
    end
  | OnToken (TFloat f) => if is_finite f then Some (inr (OnValue (JFloat f), input, stack)) else None
  | OnToken TFalse => Some (inr (OnValue (JBool false), input, stack))
  | OnToken TNull => Some (inr (OnValue JNull, input, stack))
  | OnToken TTrue => Some (inr (OnValue (JBool true), input, stack))
  | OnToken (TInteger z) => Some (inr (OnValue (JInteger z), input, stack))
  | OnToken (TString s) => Some (inr (OnValue (JString (string_of s)), input, stack))
  | OnToken (TUnsigned n) => Some (inr (OnValue (JUnsigned n), input, stack))
  | OnToken _ => None
  | OnValue v =>
    match stack with
    | [] => Some (inl (v, input))
    | FArray elements :: stack =>
      match scan input with
      | (TValueSeparator, input) =>
        let '(t, input) := scan input in
        Some (inr (OnToken t, input, FArray (elements ++ [v]) :: stack))
      | (TEndArray, input) => Some (inr (OnValue (JArray (elements ++ [v])), input, stack))
      | _ => None
      end
    | FObject members k :: stack =>
      match scan input with
      | (TValueSeparator, input) =>
        '(k', t, input) ← parse_key input;
        Some (inr (OnToken t, input, FObject (obj_set k v members) k' :: stack))
      | (TEndObject, input) => Some (inr (OnValue (JObject (obj_set k v members)), input, stack))
      | _ => None
      end
    end
  end.

Fixpoint parse_loop (fuel : nat) (st : parse_state) (input : bytes) (stack : list frame)
    : option (json * bytes) :=
  match fuel with
  | O => None
  | S fuel =>
    match parse_step st input stack with
    | None => None
    | Some (inl r) => Some r
    | Some (inr (st, input, stack)) => parse_loop fuel st input stack
    end
  end.

(** The byte order mark at the start of the input. *)
Definition skip_bom (input : bytes) : option bytes :=
  match input with
  | c :: rest =>
    if code c =?? 0xEF then
      match rest with
      | d :: e :: rest => if (code d =?? 0xBB) && (code e =?? 0xBF) then Some rest else None
      | _ => None
      end
    else Some input
  | [] => Some []
  end.

(** Every iteration but the last reads a token or closes a value, and every
    token but the end has at least one byte: twice the length is enough. *)
Definition parse_fuel (input : bytes) : nat := 2 * length input + 3.

(** [parser::parse]: with [strict] the input must end after the value. *)
Definition parse_bytes (strict : bool) (input : bytes) : option json :=
  input ← skip_bom input;
  let '(t, rest) := scan input in
  '(v, rest) ← parse_loop (parse_fuel input) (OnToken t) rest [];
  if strict then match scan rest with (TEndOfInput, _) => Some v | _ => None end else Some v.

(** [json::parse(s)] and [stream >> j]. *)
Definition json_parse (s : string) : option json := parse_bytes true (bytes_of s).

Definition json_read (s : bytes) : option json := parse_bytes false s.

(** Text with every apostrophe turned into a quotation mark. *)
Definition dq (s : string) : string :=
  string_of ((fun c => if code c =?? 0x27 then byte 0x22 else c) <$> bytes_of s).

Example parse_sample :
  json_parse (dq "{ 'b' : [1, -2, true, null], 'a':'x\u00e9\n'}") =
  Some (JObject [("a", JString (string_of (byte 0x78 :: byte 0xC3 :: byte 0xA9 :: [byte 0x0A])));
                 ("b", JArray [JUnsigned 1; JInteger (-2); JBool true; JNull])]).
Proof. vm_compute. reflexivity. Qed.

(** 1.5, -0.1 and 2^64 as 64-bit numbers. *)
Example parse_floats :
  json_parse "[1.5,-1e-1,18446744073709551616]" =
  Some (JArray [JFloat (S754_finite false 6755399441055744 (-52));
                JFloat (S754_finite true 7205759403792794 (-56));
                JFloat (S754_finite false 4503599627370496 12)]).
Proof. vm_compute. reflexivity. Qed.
