(* ===== verification/Benchmark.v ===== *)
(** * The recall benchmark ([src/benchmarks/benchmark_recall.cpp])

    The benchmark compares the answers of the index with those of an
    exhaustive search, [brute_force_knn], for several widths of the beam.  The
    generator is the stream of numbers it yields, [std::sort] any function that
    sorts, and the times are left out.  The exhaustive search also serves as
    the reference for [search]: on a small index in which every vector can be
    reached the two agree. *)

From stdpp Require Import relations.
From S2P Require Import Prelude Storage MemoryMap MetadataStore Float32 PriorityQueue IndexTypes FloatExact Distance.
From S2P Require Import Hnsw HnswInv HnswGreedy HnswUpdate HnswSearch BulkLoad Json.

(** ** Double precision *)

Definition dadd (x y : float64) : float64 := SFadd prec64 emax64 x y.

Definition ddiv (x y : float64) : float64 := SFdiv prec64 emax64 x y.

Definition d_of_Z (z : Z) : float64 := binary_normalize prec64 emax64 z 0 false.

Module Recall.

Definition NUM_VECTORS : N := 100000.

Definition NUM_QUERIES : nat := 100.

Definition K : nat := 10.

Definition DB_PATH : string := "data/recall_bench.ndb".

(** [200 * 1024 * 1024] *)
Definition DB_SIZE : N := 209715200.

Definition ef_values : list Z := [10; 20; 40; 60; 80; 100; 150; 200; 300; 500]%Z.

(** ** The exhaustive search *)

(** [!(y < x)] on [pair<float, id_t>]. *)
Definition pair_le (x y : float32 * N) : Prop :=
  fltb y.1 x.1 = false /\ (fltb x.1 y.1 = true \/ x.2 <= y.2).

#[export] Instance pair_le_dec : RelDecision pair_le.
Proof. intros x y. unfold pair_le. apply _. Defined.

Section program.
Context (fused : bool) (std_sort : list (float32 * N) -> list (float32 * N)).

Definition distances (query : list float32) (dataset : list (list float32)) : list (float32 * N) :=
  imap (fun i v => (l2_distance fused query v (length query), N.of_nat i)) dataset.

Definition brute_force_knn (query : list float32) (dataset : list (list float32)) (k : Z) : list N :=
  snd <$> take (Z.to_nat k) (std_sort (distances query dataset)).

(** ** The sweep *)

(** The results among the first [K] that are in the ground truth. *)
Definition hits (ground_truth : list N) (results : list Result) : nat :=
  length (filter (fun r => r_id r ∈ ground_truth) (take K results)).

Fixpoint total_recall (queries : list (list float32)) (ground_truth : list (list N)) (ef : Z) (s : Hnsw.t) (total : float64)
    : option float64 :=
  match queries, ground_truth with
  | q :: queries, gt :: ground_truth =>
    results ← search fused q ef s;
    total_recall queries ground_truth ef s (dadd total (ddiv (d_of_Z (Z.of_nat (hits gt results))) (d_of_Z (Z.of_nat K))))
  | _, _ => Some total
  end.

Definition mean_recall (queries : list (list float32)) (ground_truth : list (list N)) (ef : Z) (s : Hnsw.t) : option float64 :=
  total ← total_recall queries ground_truth ef s (d_of_Z 0); Some (ddiv total (d_of_Z (Z.of_nat NUM_QUERIES))).

(** The lines of the report, without the latency. *)
Definition sweep (queries : list (list float32)) (ground_truth : list (list N)) (s : Hnsw.t) : option (list (Z * float64)) :=
  mapM (fun ef => mean ← mean_recall queries ground_truth ef s; Some (ef, mean)) ef_values.

(** ** The program *)

(** An exception that nobody catches, or the report and the disk. *)
Inductive ending :=
| Uncaught (what : string)
| Finished (report : list (Z * float64)) (disk : gmap string image).

Context (dist : nat -> float32) (env : nat -> draws).

Fixpoint insert_all (i : nat) (dataset : list (list float32)) (s : Hnsw.t) : option (outcome unit * Hnsw.t) :=
  match dataset with
  | [] => Some (Ret tt, s)
  | v :: dataset =>
    '(r, s) ← insert fused (env i) v (N.of_nat i) "" s;
    match r with Throw w => Some (Throw w, s) | Ret _ => insert_all (S i) dataset s end
  end.

(** [queries] are drawn after the data set; both files are removed before and
    after. *)
Definition main (sc : MMapHandler.syscalls) (disk : gmap string image) : option ending :=
  let dataset := take_vectors dist (N.to_nat NUM_VECTORS) 0 in
  let queries := take_vectors dist NUM_QUERIES (N.to_nat NUM_VECTORS * VECTOR_DIM) in
  let ground_truth := (fun q => brute_force_knn q dataset (Z.of_nat K)) <$> queries in
  let disk := delete DB_PATH disk in
  match MMapHandler.open_file sc DB_PATH DB_SIZE MMapHandler.create disk with
  | (Throw w, _, _) => Some (Uncaught w)
  | (Ret _, storage, disk) =>
    index ← create storage disk None L2;
    '(r, index) ← insert_all 0 dataset index;
    match r with
    | Throw w => Some (Uncaught w)
    | Ret _ =>
      report ← sweep queries ground_truth index;
      Some (Finished report (delete DB_PATH (disk_ index)))
    end
  end.
End program.

(** ** Sorting *)

Definition pair_number (x : float32 * N) : Prop := is_nan x.1 = false.

#[export] Instance pair_le_total : Total pair_le.
Proof.
  intros x y. unfold pair_le. destruct (fltb x.1 y.1) eqn:E1.
  - left. split; [by apply fltb_asym|by left].
  - destruct (fltb y.1 x.1) eqn:E2; [right; by split; [|left]|].
    destruct (decide (x.2 <= y.2)); [left|right]; (split; [done|right; lia]).
Qed.

Lemma pair_le_trans x y z : pair_number x -> pair_number y -> pair_number z -> pair_le x y -> pair_le y z -> pair_le x z.
Proof.
  intros Hx Hy Hz [H1 H2] [H3 H4]. assert (fltb z.1 x.1 = false) as H.
  { apply not_true_iff_false. intros H. destruct (swo_cotrans (P := fun f => is_nan f = false) z.1 y.1 x.1 Hz Hy Hx H); congruence. }
  split; [done|]. destruct (fltb x.1 z.1) eqn:E; [by left|right].
  assert (fltb x.1 y.1 = false) as E1.
  { apply not_true_iff_false. intros E1. destruct (swo_cotrans (P := fun f => is_nan f = false) x.1 z.1 y.1 Hx Hz Hy E1); congruence. }
  assert (fltb y.1 z.1 = false) as E2.
  { apply not_true_iff_false. intros E2. destruct (swo_cotrans (P := fun f => is_nan f = false) y.1 x.1 z.1 Hy Hx Hz E2); congruence. }
  destruct H2, H4; congruence || lia.
Qed.

(** What [std::sort] is documented to do, on pairs without a NaN. *)
Definition sorts (std_sort : list (float32 * N) -> list (float32 * N)) : Prop :=
  forall l, Forall pair_number l -> std_sort l ≡ₚ l /\ StronglySorted pair_le (std_sort l).

Lemma merge_sort_sorts : sorts (merge_sort pair_le).
Proof.
  intros l Hl. pose proof (merge_sort_Permutation pair_le l) as Hp. split; [done|].
  assert (Forall pair_number (merge_sort pair_le l)) as Hn by (by rewrite Hp).
  pose proof (Sorted_merge_sort pair_le l) as Hs. clear Hp Hl. induction Hn as [|x k Hx Hk IH]; [constructor|].
  apply Sorted_inv in Hs as [Hs Hh]. specialize (IH Hs). constructor; [done|].
  destruct k as [|y k]; [constructor|]. apply HdRel_inv in Hh. apply StronglySorted_inv in IH as [_ Hy].
  constructor; [done|]. rewrite Forall_forall in *. intros z Hz.
  apply (pair_le_trans x y z); [done|apply Hk, list_elem_of_here|apply Hk; by apply list_elem_of_further|done|by apply Hy].
Qed.

(** ** The width of the beam *)

(** Below 100 the second argument of [search] only cuts the answer. *)
Lemma search_prefix fused query k k' s :
  (Z.of_nat K <= k <= 100)%Z -> (Z.of_nat K <= k' <= 100)%Z ->
  take K <$> search fused query k s = take K <$> search fused query k' s.
Proof.
  intros Hk Hk'. unfold search. case_bool_decide; [done|]. case_bool_decide; [done|].
  replace (Z.max 100 k) with 100%Z by lia. replace (Z.max 100 k') with 100%Z by lia.
  destruct (data s); [|done]. cbn [mbind option_bind]. destruct (distance_to _ _ _ _ _); [|done]. cbn [mbind option_bind].
  destruct (descend _ _ _ _ _ _ _) as [[d curr]|]; [|done]. cbn [mbind option_bind].
  destruct (search_layer _ _ _ _ _ _ _ _); [|done]. cbn [mbind option_bind].
  destruct (collect _ _ _) as [rs|]; [|done]. cbn [mbind option_bind fmap option_fmap option_map].
  rewrite !take_take, !size_t_nonneg by (unfold U64; lia). unfold K in *.
  destruct (decide (10 <= length rs)%nat).
  - by rewrite !Nat.min_l by lia.
  - rewrite !take_ge; [done|rewrite length_reverse; lia..].
Qed.

Lemma total_recall_flat fused queries ground_truth k k' s total :
  (Z.of_nat K <= k <= 100)%Z -> (Z.of_nat K <= k' <= 100)%Z ->
  total_recall fused queries ground_truth k s total = total_recall fused queries ground_truth k' s total.
Proof.
  intros Hk Hk'. revert ground_truth total. induction queries as [|q queries IH]; intros [|gt ground_truth] total; try done.
  cbn [total_recall]. pose proof (search_prefix fused q k k' s Hk Hk') as H.
  destruct (search fused q k s) as [rs|], (search fused q k' s) as [rs'|]; try done. injection H as H.
  cbn [mbind option_bind]. unfold hits. rewrite H. apply IH.
Qed.

(** ** Agreement with the exhaustive search *)

(** An index with the vectors of [dataset] under their positions, few enough
    for one beam, each of which can be reached from each other one. *)
Record complete_index (dataset : list (list float32)) (s : Hnsw.t) (img : image) : Prop := {
  ci_wf : index_wf s img;
  ci_metric : metric_ s = L2;
  ci_entry : entry_point_id_ s <> NO_ENTRY;
  ci_count : element_count_ s < U32;
  ci_small : (length dataset < 100)%nat;
  ci_ids id : occupied img id <-> id < N.of_nat (length dataset);
  ci_vectors i v : dataset !! i = Some v -> payload img (N.of_nat i) = Some (v, false);
  ci_linked a b : occupied img a -> occupied img b -> rtc (linked img 0) a b;
}.

Section agreement.
Context (fused : bool) (query : list float32) (dataset : list (list float32)) (s : Hnsw.t) (img : image).
Hypotheses (Hci : complete_index dataset s img) (Hquery : length query = VECTOR_DIM).

Abbreviation dists := (distances fused query dataset).

(** No two vectors are equally far from the query. *)
Definition separated : Prop :=
  Forall pair_number dists /\ forall x y, x ∈ dists -> y ∈ dists -> x <> y -> fltb x.1 y.1 = true \/ fltb y.1 x.1 = true.

Lemma distances_elem p :
  p ∈ dists <-> exists i v, dataset !! i = Some v /\ p = (l2_distance fused query v VECTOR_DIM, N.of_nat i).
Proof using Hquery.
  unfold distances. rewrite list_elem_of_lookup. setoid_rewrite list_lookup_imap_Some. rewrite Hquery. naive_solver.
Qed.

Lemma distances_NoDup : NoDup (snd <$> dists).
Proof using Type.
  assert (snd <$> dists = N.of_nat <$> seq 0 (length dataset)) as ->.
  { apply list_eq. intros i. unfold distances. rewrite !list_lookup_fmap, list_lookup_imap.
    destruct (dataset !! i) as [v|] eqn:E.
    - pose proof (lookup_lt_Some _ _ _ E). by rewrite lookup_seq_lt.
    - apply lookup_ge_None in E. by rewrite lookup_seq_ge. }
  apply NoDup_fmap_2; [apply _|apply NoDup_seq].
Qed.

Lemma complete_node id x :
  i_nodes img !! id = Some x -> exists i, dataset !! i = Some (n_vector x) /\ id = N.of_nat i /\ n_deleted x = false.
Proof using Hci Hquery.
  intros Hx. assert (id < N.of_nat (length dataset)) as Hid by (apply (ci_ids _ _ _ Hci); by eexists).
  destruct (lookup_lt_is_Some_2 dataset (N.to_nat id)) as [v Hv]; [lia|]. exists (N.to_nat id).
  destruct (occupied_node img id (ix_image _ _ (ci_wf _ _ _ Hci))) as (x' & Hx' & Hg & _); [by eexists|].
  pose proof (ci_vectors _ _ _ Hci _ _ Hv) as Hp. rewrite N2Nat.id in *. unfold payload in Hp. rewrite Hg in Hp.
  cbn in Hp. simplify_eq. split_and!; [done|lia|done].
Qed.

Lemma complete_dist id x :
  i_nodes img !! id = Some x ->
  dist_at fused (metric_ s) img query id = l2_distance fused query (n_vector x) VECTOR_DIM /\
  (l2_distance fused query (n_vector x) VECTOR_DIM, id) ∈ dists.
Proof using Hci Hquery.
  intros Hx. unfold dist_at, dist_of. rewrite Hx, (ci_metric _ _ _ Hci). split; [done|].
  destruct (complete_node id x Hx) as (i & Hi & -> & _). apply distances_elem. by exists i, (n_vector x).
Qed.

Definition as_pair (r : Result) : float32 * N := (r_distance r, r_id r).

(** A result list of a small complete index: a sorted part of the distances,
    and what it leaves out comes later. *)
Lemma complete_search k :
  separated -> (0 <= k <= 2147483647)%Z ->
  exists rs, search fused query k s = Some rs /\ (Z.of_nat (length rs) <= k)%Z /\ NoDup (r_id <$> rs) /\
    StronglySorted (fun x y => fltb (r_distance y) (r_distance x) = false) rs /\ (forall r, r ∈ rs -> as_pair r ∈ dists) /\
    forall p, p ∈ dists -> p ∉ as_pair <$> rs -> Z.of_nat (length rs) = k /\ forall r, r ∈ rs -> fltb p.1 (r_distance r) = false.
Proof using Hci Hquery.
  intros [Hnum _] Hk. pose proof (ci_wf _ _ _ Hci) as Hix. rewrite Forall_forall in Hnum.
  assert (numeric fused (metric_ s) img query) as Hn.
  { intros id x Hx. destruct (complete_dist id x Hx) as [Hd Hin]. unfold dist_at in Hd. rewrite Hx in Hd. cbn [default] in Hd.
    unfold Datatypes.id in Hd. rewrite Hd. exact (Hnum _ Hin). }
  destruct (search_sound_aux fused query k s img Hix) as (rs & E & [Hnd Hlive Hlen _ Hsort]); [lia|unfold U64; lia|].
  destruct (search_small_aux fused query k s img Hix) as (curr & rs' & E' & Hocc & _ & _ & _ & Hleft);
    [apply Hci|lia|done|done| | |apply Hci|].
  { assert (base.size (dom (i_nodes img)) <= N.to_nat (N.of_nat (length dataset)))%nat as Hs.
    { apply size_below. intros id Hid%occupied_dom. by apply (ci_ids _ _ _ Hci). }
    pose proof (ci_small _ _ _ Hci). lia. }
  { intros id Hid%(ci_ids _ _ _ Hci). pose proof (ci_small _ _ _ Hci). lia. }
  rewrite E in E'. injection E' as <-. exists rs. rewrite Forall_forall in Hlive.
  split; [done|]. split; [lia|]. split; [done|]. split; [by apply Hsort|]. split.
  - intros r Hr. destruct (Hlive r Hr) as (x & Hx & _ & Hdist & _). unfold as_pair. rewrite Hdist, (ci_metric _ _ _ Hci).
    by apply complete_dist.
  - intros p Hp Hnot. apply distances_elem in Hp as (i & v & Hi & ->). cbn [fst].
    assert (occupied img (N.of_nat i)) as [x Hx] by (apply (ci_ids _ _ _ Hci); pose proof (lookup_lt_Some _ _ _ Hi); lia).
    destruct (complete_node _ x Hx) as (j & Hj & Eij & Hd). apply Nat2N.inj in Eij as <-. assert (n_vector x = v) as Ev by congruence.
    destruct (complete_dist _ x Hx) as [Hdist _]. rewrite Ev in Hdist.
    destruct (Hleft (N.of_nat i)) as [Hk' Hfar].
    + apply (ci_linked _ _ _ Hci); [done|by exists x].
    + by exists x.
    + intros (r & Er & Hr)%list_elem_of_fmap. apply Hnot. apply list_elem_of_fmap. exists r. split; [|done].
      destruct (Hlive r Hr) as (y & Hy & _ & Hdr & _). rewrite <-Er, Hx in Hy. injection Hy as <-.
      unfold as_pair. by rewrite Hdr, Ev, (ci_metric _ _ _ Hci), <-Er.
    + split; [done|]. intros r Hr. rewrite <-Hdist. by apply Hfar.
Qed.

(** A sorted part of a list that nothing outside it precedes begins the sorted
    list. *)
Lemma sorted_prefix std_sort k rs :
  sorts std_sort -> separated -> (Z.of_nat (length rs) <= k)%Z -> NoDup (r_id <$> rs) ->
  StronglySorted (fun x y => fltb (r_distance y) (r_distance x) = false) rs -> (forall r, r ∈ rs -> as_pair r ∈ dists) ->
  (forall p, p ∈ dists -> p ∉ as_pair <$> rs -> Z.of_nat (length rs) = k /\ forall r, r ∈ rs -> fltb p.1 (r_distance r) = false) ->
  take (Z.to_nat k) (std_sort dists) = as_pair <$> rs.
Proof using Hquery.
  intros Hsorts [Hnum Hsep] Hlen Hnd Hsort Hin Hout. set (ps := as_pair <$> rs).
  assert (NoDup ps) as Hps by (apply (NoDup_fmap_1 snd); unfold ps; by rewrite <-list_fmap_compose).
  assert (ps ⊆+ dists) as [rest Hrest]%submseteq_Permutation.
  { apply NoDup_submseteq; [done|]. intros p (r & -> & Hr)%list_elem_of_fmap. by apply Hin. }
  assert (NoDup dists) as Hdd by (apply (NoDup_fmap_1 snd), distances_NoDup).
  rewrite Hrest in Hdd. apply NoDup_app in Hdd as (_ & Hdis & Hndr).
  assert (Forall pair_number rest) as Hnr by (rewrite Hrest in Hnum; by apply Forall_app in Hnum as [_ ?]).
  destruct (Hsorts rest Hnr) as [Hpr Hsr]. destruct (Hsorts dists Hnum) as [Hpd Hsd].
  assert (forall x y, x ∈ dists -> y ∈ dists -> x <> y -> fltb y.1 x.1 = false -> pair_le x y) as Hle.
  { intros x y Hx Hy Hne Hf. split; [done|left]. destruct (Hsep x y Hx Hy Hne); congruence. }
  assert (StronglySorted pair_le (ps ++ std_sort rest)) as Hall.
  { apply StronglySorted_app_2; [|unfold ps; clear - Hsort Hnd Hin Hle|done].
    - intros x y (r & -> & Hr)%list_elem_of_fmap Hy. rewrite Hpr in Hy.
      assert (y ∈ dists) as Hyd by (rewrite Hrest; apply elem_of_app; by right).
      assert (y ∉ ps) as Hyn by (intros Hy'; by apply (Hdis y)).
      apply Hle; [by apply Hin|done| |by apply (Hout y Hyd Hyn)].
      intros <-. apply Hyn. by apply list_elem_of_fmap_2.
    - induction Hsort as [|r rs Hs IH Hr]; [constructor|]. cbn [fmap list_fmap] in *. apply NoDup_cons in Hnd as [Hni Hnd].
      constructor; [apply IH; [done|intros x Hx; apply Hin; by apply list_elem_of_further]|].
      apply Forall_fmap, Forall_forall. intros y Hy. rewrite Forall_forall in Hr.
      apply Hle; [apply Hin, list_elem_of_here|apply Hin; by apply list_elem_of_further| |by apply Hr].
      intros Heq. apply Hni. apply list_elem_of_fmap. exists y. split; [exact (f_equal snd Heq)|done]. }
  assert (std_sort dists = ps ++ std_sort rest) as ->.
  { apply (StronglySorted_unique_strong pair_le); [|done|done|by rewrite Hpd, Hpr].
    intros x y Hx Hy [H1 _] [H2 _]. destruct (decide (x = y)) as [|Hne]; [done|].
    rewrite Hpd in Hx. rewrite Hpr, <-Hrest in Hy. destruct (Hsep x y Hx Hy Hne); congruence. }
  destruct rest as [|p rest].
  - apply Permutation_nil_r in Hpr. rewrite Hpr, app_nil_r. apply take_ge. unfold ps. rewrite length_fmap. lia.
  - assert (p ∈ dists) as Hp by (rewrite Hrest; apply elem_of_app; right; apply list_elem_of_here).
    assert (p ∉ ps) as Hpn by (intros Hp'; apply (Hdis p Hp'), list_elem_of_here).
    destruct (Hout p Hp Hpn) as [Hk _]. apply take_app_length'. unfold ps. rewrite length_fmap. lia.
Qed.

Lemma search_agrees std_sort k :
  sorts std_sort -> separated -> (0 <= k <= 2147483647)%Z ->
  exists rs, search fused query k s = Some rs /\ r_id <$> rs = brute_force_knn fused std_sort query dataset k.
Proof using Hci Hquery.
  intros Hsorts Hsep Hk. destruct (complete_search k Hsep Hk) as (rs & E & Hlen & Hnd & Hsort & Hin & Hout).
  exists rs. split; [done|]. unfold brute_force_knn. rewrite (sorted_prefix std_sort k rs) by done.
  by rewrite <-list_fmap_compose.
Qed.
End agreement.

(** C17: On a small index [search] is the exhaustive search.  When an index holds
    a data set of fewer than 100 vectors under their positions and every vector
    can be reached from every other one on the ground layer, then for every
    query that is not equally far from two of them and every [k], [search]
    returns exactly the ids that [brute_force_knn] of the benchmark computes, in
    the same order. *)
Theorem search_is_brute_force (fused : bool) (std_sort : list (float32 * N) -> list (float32 * N))
    (query : list float32) (dataset : list (list float32)) (k : Z) (s : Hnsw.t) (img : image) :
  sorts std_sort -> complete_index dataset s img -> length query = VECTOR_DIM -> separated fused query dataset ->
  (0 <= k <= 2147483647)%Z ->
  exists rs, search fused query k s = Some rs /\ r_id <$> rs = brute_force_knn fused std_sort query dataset k.
Proof. intros Hs Hci Hq Hsep Hk. by apply (search_agrees fused query dataset s img Hci Hq). Qed.

(** ** The program *)

Lemma loaded_complete path size vector name n s img :
  loaded path size vector name n s img -> (0 < n < 100)%nat ->
  (forall a b, a < N.of_nat n -> b < N.of_nat n -> rtc (linked img 0) a b) -> complete_index (vector <$> seq 0 n) s img.
Proof.
  intros Hl Hn Hlinked. rewrite <-(length_seq 0 n) in Hn at 2. split; try apply Hl; rewrite ?length_fmap, ?length_seq in *.
  - lia.
  - rewrite (ld_count _ _ _ _ _ _ _ Hl). unfold U32. lia.
  - lia.
  - apply Hl.
  - intros i v. rewrite list_lookup_fmap. intros (j & Hj & ->)%fmap_Some. apply lookup_seq in Hj as [-> Hj]. by apply Hl.
  - intros a b Ha%(ld_ids _ _ _ _ _ _ _ Hl) Hb%(ld_ids _ _ _ _ _ _ _ Hl). by apply Hlinked.
Qed.

Section runs.
Context (fused : bool) (std_sort : list (float32 * N) -> list (float32 * N)) (dist : nat -> float32) (env : nat -> draws).
Hypothesis Hlev : forall i, (get_random_level (env i) < Z.of_nat MAX_LAYERS)%Z.

Abbreviation bench_loaded := (loaded DB_PATH DB_SIZE (vector_at dist) (fun _ => "")).

Lemma dataset_loaded n i s img :
  N.of_nat (i + n) <= 198593 -> bench_loaded i s img ->
  exists s' img', insert_all fused env i (vector_at dist <$> seq i n) s = Some (Ret tt, s') /\ bench_loaded (i + n) s' img'.
Proof using Hlev.
  revert i s img. induction n as [|n IH]; intros i s img Hn Hl.
  { exists s, img. rewrite Nat.add_0_r. done. }
  destruct (loaded_step fused DB_PATH DB_SIZE (vector_at dist) (fun _ => "") (vector_at_length dist) (env i) i s img)
    as (s1 & i1 & E1 & Hl1); [apply Hlev|done|change (capacity DB_SIZE) with 198593; lia|unfold INT_LIMIT; lia|done|].
  destruct (IH (S i) s1 i1 ltac:(lia) Hl1) as (s2 & i2 & E2 & Hl2).
  exists s2, i2. rewrite <-Nat.add_succ_comm. split; [|done].
  cbn [seq fmap list_fmap insert_all]. rewrite E1. cbn [mbind option_bind]. exact E2.
Qed.

Lemma total_recall_defined n queries ground_truth ef s img total :
  bench_loaded n s img -> (0 < n)%nat -> Forall (fun q => length q = VECTOR_DIM) queries -> (0 < ef < Z.of_N U64)%Z ->
  is_Some (total_recall fused queries ground_truth ef s total).
Proof using Type.
  intros Hl Hn Hq Hef. revert ground_truth total. induction Hq as [|q queries Hq _ IH]; intros [|gt ground_truth] total; try by eexists.
  cbn [total_recall]. destruct (loaded_search fused _ _ _ _ n q ef s img Hl Hn Hq Hef) as (rs & -> & _). apply IH.
Qed.

Lemma sweep_report n queries ground_truth s img :
  bench_loaded n s img -> (0 < n)%nat -> Forall (fun q => length q = VECTOR_DIM) queries ->
  exists report, sweep fused queries ground_truth s = Some report /\ report.*1 = ef_values /\
    Forall (fun line => mean_recall fused queries ground_truth line.1 s = Some line.2) report.
Proof using Hlev.
  intros Hl Hn Hq. assert (forall ef, ef ∈ ef_values -> (0 < ef < Z.of_N U64)%Z) as Hef.
  { intros ef Hin. unfold ef_values in Hin. unfold U64. set_solver by lia. }
  unfold sweep. revert Hef. generalize ef_values. induction l as [|ef l IH]; intros Hef; [by exists []|].
  destruct IH as (report & E & Hfst & Hall); [intros ef' H; apply Hef; by apply list_elem_of_further|].
  destruct (total_recall_defined n queries ground_truth ef s img (d_of_Z 0) Hl Hn Hq) as [total Et]; [apply Hef, list_elem_of_here|].
  assert (mean_recall fused queries ground_truth ef s = Some (ddiv total (d_of_Z (Z.of_nat NUM_QUERIES)))) as Em
    by (unfold mean_recall; by rewrite Et).
  cbn [mapM]. rewrite Em. cbn [mbind option_bind]. rewrite E. cbn [mbind option_bind].
  eexists. split; [done|]. split; [cbn; by rewrite Hfst|]. by constructor.
Qed.
End runs.

Lemma narrow ef : ef ∈ take 6 ef_values -> (Z.of_nat K <= ef <= 100)%Z.
Proof. intros H. cbn in H. unfold K. repeat (apply elem_of_cons in H as [->|H]; [lia|]). by apply not_elem_of_nil in H. Qed.

(** The benchmark runs, and half of its sweep measures one search.  On an
    empty disk, when the file can be created and no level reaches the size of
    the node's arrays, the program finishes and removes its file, whatever the
    generator yields.  It reports one line for each of the ten widths, but the
    lines for 10, 20, 40, 60, 80 and 100 always have the same recall: [search]
    never uses a beam below 100.  And every one of the 90000 vectors from number
    10000 on is without links. *)
Theorem benchmark_report (fused : bool) (std_sort : list (float32 * N) -> list (float32 * N)) (dist : nat -> float32) (env : nat -> draws) :
  (forall i, get_random_level (env i) < Z.of_nat MAX_LAYERS)%Z ->
  exists report disk index img,
    main fused std_sort dist env MMapHandler.all_succeed ∅ = Some (Finished report disk) /\
    report.*1 = ef_values /\ disk !! DB_PATH = None /\
    (forall l l', l ∈ take 6 report -> l' ∈ take 6 report -> l.2 = l'.2) /\
    data index = Some img /\ disk = delete DB_PATH (disk_ index) /\
    forall id, 10000 <= id -> id < NUM_VECTORS ->
      exists x, get_node id img = Some x /\ forall layer, (layer < MAX_LAYERS)%nat -> links x layer = Some [].
Proof.
  intros Hlev.
  destruct (create_loaded DB_PATH DB_SIZE (vector_at dist) (fun _ => "")) as (h & disk & s & img & Eo & Ec & Hl); [done|].
  destruct (dataset_loaded fused dist env Hlev (N.to_nat NUM_VECTORS) 0 s img) as (s' & img' & Ei & Hl'); [unfold NUM_VECTORS; lia|exact Hl|].
  set (queries := take_vectors dist NUM_QUERIES (N.to_nat NUM_VECTORS * VECTOR_DIM)).
  set (dataset := take_vectors dist (N.to_nat NUM_VECTORS) 0).
  set (gts := (fun q => brute_force_knn fused std_sort q dataset (Z.of_nat K)) <$> queries).
  destruct (sweep_report fused dist env Hlev (0 + N.to_nat NUM_VECTORS) queries gts s' img') as (report & Er & Hfst & Hall).
  { exact Hl'. } { unfold NUM_VECTORS. lia. }
  { unfold queries. rewrite (take_vectors_eq dist NUM_QUERIES (N.to_nat NUM_VECTORS)). apply Forall_fmap, Forall_forall. intros i _. apply vector_at_length. }
  exists report, (delete DB_PATH (disk_ s')), s', img'. split.
  { unfold main. rewrite delete_empty, Eo, Ec. cbn [mbind option_bind]. fold queries dataset gts.
    unfold dataset at 1. rewrite (take_vectors_eq dist (N.to_nat NUM_VECTORS) 0 : take_vectors dist _ 0 = _), Ei.
    cbn [mbind option_bind]. by rewrite Er. }
  split; [done|]. split; [apply lookup_delete_eq|]. split; [|split; [exact (proj1 (ix_mapped _ _ (ld_wf _ _ _ _ _ _ _ Hl')))|]].
  - assert (forall l, l ∈ take 6 report -> mean_recall fused queries gts 10 s' = Some l.2) as Hsame.
    { intros l Hl6. rewrite Forall_forall in Hall. rewrite <-(Hall l) by (by eapply elem_of_take in Hl6 as (i & Hi & _); eapply list_elem_of_lookup_2).
      assert (l.1 ∈ take 6 ef_values) as Hef by (rewrite <-Hfst, <-fmap_take; by apply list_elem_of_fmap_2).
      unfold mean_recall. rewrite (total_recall_flat fused queries gts 10 l.1 s' (d_of_Z 0)); [done|unfold K; lia|].
      by apply narrow. }
    intros l l' H1%Hsame H2%Hsame. congruence.
  - split; [done|]. intros id H1 H2. apply (ld_unlinked _ _ _ _ _ _ _ Hl' id H1). unfold NUM_VECTORS in *. lia.
Qed.

Lemma benchmark_report_witness :
  exists report disk, main true (merge_sort pair_le) (fun _ => fone) (fun _ => ground) MMapHandler.all_succeed ∅ = Some (Finished report disk) /\
    report.*1 = ef_values.
Proof.
  destruct (benchmark_report true (merge_sort pair_le) (fun _ => fone) (fun _ => ground)) as (report & disk & index & img & E & Hf & _).
  - intros i. reflexivity.
  - exists report, disk. split; [exact E|exact Hf].
Defined.

(** ** Two linked vectors *)

Definition two (i : nat) : list float32 := match i with O => ones | _ => replicate VECTOR_DIM (f_of_Z 3) end.

Definition two_index : option Hnsw.t :=
  s ← new_index; '(_, s) ← insert true ground (two 0) 0 "" s; '(_, s) ← insert true ground (two 1) 1 "" s; Some s.

Lemma two_loaded : exists s img, two_index = Some s /\ loaded "index" PREALLOCATION two (fun _ => "") 2 s img.
Proof.
  destruct (create_loaded "index" PREALLOCATION two (fun _ => "")) as (h & disk & s & img & Eo & Ec & Hl); [done|].
  assert (forall i, length (two i) = VECTOR_DIM) as Hlen by (by intros [|i]).
  destruct (loaded_step true "index" PREALLOCATION two (fun _ => "") Hlen ground 0 s img) as (s1 & i1 & E1 & Hl1); [done..|].
  destruct (loaded_step true "index" PREALLOCATION two (fun _ => "") Hlen ground 1 s1 i1) as (s2 & i2 & E2 & Hl2); [done..|].
  exists s2, i2. split; [|exact Hl2]. unfold two_index, new_index. rewrite Eo, Ec. cbn [mbind option_bind].
  change 0 with (N.of_nat 0). rewrite E1. cbn [mbind option_bind]. change 1 with (N.of_nat 1). by rewrite E2.
Qed.

Lemma two_complete : exists s img, two_index = Some s /\ complete_index [two 0; two 1] s img.
Proof.
  destruct two_loaded as (s & img & E & Hl). exists s, img. split; [exact E|].
  assert (fmap (fun s => img ← data s; n0 ← get_node 0 img; n1 ← get_node 1 img; l0 ← links n0 0; l1 ← links n1 0; Some (l0, l1)) two_index =
    Some (Some ([1], [0]))) as Hlinks by (vm_compute; reflexivity).
  rewrite E in Hlinks. clear E. cbn [fmap option_fmap option_map] in Hlinks. apply (inj Some) in Hlinks. unfold data in Hlinks.
  pose proof (ld_wf _ _ _ _ _ _ _ Hl) as Hix. rewrite (proj1 (ix_mapped _ _ Hix)) in Hlinks. cbn [mbind option_bind] in Hlinks.
  assert (forall id, id < 2 -> exists x, i_nodes img !! id = Some x /\ get_node id img = Some x) as Hnode.
  { intros id Hid. destruct (occupied_node img id (ix_image _ _ Hix)) as (x & Hx & Hg & _); [apply (ld_ids _ _ _ _ _ _ _ Hl); exact Hid|]. exists x. split; assumption. }
  destruct (Hnode 0) as (x & Hx & Hgx); [lia|]. destruct (Hnode 1) as (y & Hy & Hgy); [lia|]. rewrite Hgx in Hlinks. cbn [mbind option_bind] in Hlinks.
  rewrite Hgy in Hlinks. cbn [mbind option_bind] in Hlinks.
  destruct (links x 0) as [l0|] eqn:El; [|done]. cbn [mbind option_bind] in Hlinks. destruct (links y 0) as [l1|] eqn:El'; [|done].
  injection Hlinks as -> ->. apply (loaded_complete _ _ _ _ 2 s img Hl); [lia|]. intros a b Ha Hb.
  assert (a = b \/ (a = 0 /\ b = 1) \/ (a = 1 /\ b = 0)) as [->|[[-> ->]|[-> ->]]] by lia; [done| |]; apply rtc_once.
  - exists x, [1]. split_and!; [done..|apply list_elem_of_here].
  - exists y, [0]. split_and!; [done..|apply list_elem_of_here].
Qed.

Lemma two_separated : separated true ones [two 0; two 1].
Proof.
  unfold separated. assert (distances true ones [two 0; two 1] = [(S754_zero false, 0); (f_of_Z 512, 1)]) as -> by (vm_compute; reflexivity).
  split; [repeat constructor|]. intros p q [->|Hp%list_elem_of_singleton]%elem_of_cons [->|Hq%list_elem_of_singleton]%elem_of_cons Hne; try subst p; try subst q.
  - by destruct Hne.
  - left. reflexivity.
  - right. reflexivity.
  - by destruct Hne.
Qed.

Lemma search_is_brute_force_witness :
  exists s rs, two_index = Some s /\ search true ones 10 s = Some rs /\ r_id <$> rs = [0; 1].
Proof.
  destruct two_complete as (s & img & E & Hci).
  destruct (search_is_brute_force true (merge_sort pair_le) ones [two 0; two 1] 10 s img) as (rs & Hs & Hids).
  - exact merge_sort_sorts.
  - exact Hci.
  - reflexivity.
  - exact two_separated.
  - lia.
  - exists s, rs. split; [exact E|]. split; [exact Hs|]. rewrite Hids. vm_compute. reflexivity.
Defined.
End Recall.
