(* ===== verification/JsonDump.v ===== *)
(** * JSON serializer ([src/include/third_party/json.hpp], class [serializer])

    [dump] with and without indentation, the UTF-8 automaton that guards
    string output, and the two-digits-at-a-time integer printer.  [None] is
    the exception of the strict error handler.  The text of a floating-point
    number is a parameter: the shortest-digits printer is not modelled. *)

From S2P Require Import Prelude Float32 Json.

(** ** UTF-8 decoding *)

(** [utf8d]: classes of the 256 bytes, then the transitions of nine states. *)
Definition utf8_classes : list N :=
  replicate 128 0 ++ replicate 16 1 ++ replicate 16 9 ++ replicate 32 7 ++
  [8; 8] ++ replicate 30 2 ++
  [0xA] ++ replicate 12 3 ++ [4; 3; 3] ++
  [0xB] ++ replicate 3 6 ++ [5] ++ replicate 11 8.

Definition utf8_transitions : list N :=
  [0; 1; 2; 3; 5; 8; 7; 1; 1; 1; 4; 6; 1; 1; 1; 1] ++
  [1; 1; 1; 1; 1; 1; 1; 1; 1; 1; 1; 1; 1; 1; 1; 1] ++
  [1; 0; 1; 1; 1; 1; 1; 0; 1; 0; 1; 1; 1; 1; 1; 1] ++
  [1; 2; 1; 1; 1; 1; 1; 2; 1; 2; 1; 1; 1; 1; 1; 1] ++
  [1; 1; 1; 1; 1; 1; 1; 2; 1; 1; 1; 1; 1; 1; 1; 1] ++
  [1; 2; 1; 1; 1; 1; 1; 1; 1; 2; 1; 1; 1; 1; 1; 1] ++
  [1; 1; 1; 1; 1; 1; 1; 3; 1; 3; 1; 1; 1; 1; 1; 1] ++
  [1; 3; 1; 1; 1; 1; 1; 3; 1; 3; 1; 1; 1; 1; 1; 1] ++
  [1; 3; 1; 1; 1; 1; 1; 1; 1; 1; 1; 1; 1; 1; 1; 1].

Definition utf8d : list N := utf8_classes ++ utf8_transitions.

Definition UTF8_ACCEPT : N := 0.

Definition UTF8_REJECT : N := 1.

(** The new state and code point. *)
Definition decode (state codep b : N) : N * N :=
  let type := default 0 (utf8d !! N.to_nat b) in
  let codep :=
    if state =?? UTF8_ACCEPT then N.land (N.shiftr 0xFF type) b
    else u32 (N.lor (N.land b 0x3F) (N.shiftl codep 6)) in
  (default UTF8_REJECT (utf8d !! N.to_nat (256 + state * 16 + type)), codep).

Definition hex_digit (n : N) : ascii := byte (if n <?? 10 then 0x30 + n else 0x57 + n).

(** [%04x]. *)
Definition hex4 (n : N) : bytes :=
  [hex_digit (N.land (N.shiftr n 12) 0xF); hex_digit (N.land (N.shiftr n 8) 0xF);
   hex_digit (N.land (N.shiftr n 4) 0xF); hex_digit (N.land n 0xF)].

Definition u_escape (n : N) : bytes := byte 0x5C :: byte 0x75 :: hex4 n.

(** What a complete code point adds to the output; [c] is its last byte. *)
Definition escape (ensure_ascii : bool) (codepoint : N) (c : ascii) : bytes :=
  if codepoint =?? 0x08 then [byte 0x5C; byte 0x62]
  else if codepoint =?? 0x09 then [byte 0x5C; byte 0x74]
  else if codepoint =?? 0x0A then [byte 0x5C; byte 0x6E]
  else if codepoint =?? 0x0C then [byte 0x5C; byte 0x66]
  else if codepoint =?? 0x0D then [byte 0x5C; byte 0x72]
  else if codepoint =?? 0x22 then [byte 0x5C; byte 0x22]
  else if codepoint =?? 0x5C then [byte 0x5C; byte 0x5C]
  else if (codepoint <=?? 0x1F) || (ensure_ascii && (0x7F <=?? codepoint)) then
    if codepoint <=?? 0xFFFF then u_escape codepoint
    else u_escape (0xD7C0 + N.shiftr codepoint 10) ++ u_escape (0xDC00 + N.land codepoint 0x3FF)
  else [c].

(** The loop over the bytes of a string; the bytes of a code point that is not
    complete yet are copied when [ensure_ascii] is off. *)
Fixpoint dump_escaped_loop (ensure_ascii : bool) (state codep : N) (s : bytes) : option bytes :=
  match s with
  | [] => if state =?? UTF8_ACCEPT then Some [] else None
  | c :: s =>
    let '(state, codep) := decode state codep (code c) in
    if state =?? UTF8_REJECT then None
    else
      out ← dump_escaped_loop ensure_ascii state codep s;
      if state =?? UTF8_ACCEPT then Some (escape ensure_ascii codep c ++ out)
      else Some (if ensure_ascii then out else c :: out)
  end.

Definition dump_escaped (ensure_ascii : bool) (s : string) : option bytes :=
  dump_escaped_loop ensure_ascii UTF8_ACCEPT 0 (bytes_of s).

(** ** Integers *)

Definition digit (n : N) : ascii := byte (0x30 + n).

(** [digits_to_99]. *)
Definition digits_to_99 (n : N) : ascii * ascii := (digit (n / 10), digit (n mod 10)).

Fixpoint count_digits (fuel : nat) (x n_digits : N) : N :=
  match fuel with
  | O => n_digits
  | S fuel =>
    if x <?? 10 then n_digits
    else if x <?? 100 then n_digits + 1
    else if x <?? 1000 then n_digits + 2
    else if x <?? 10000 then n_digits + 3
    else count_digits fuel (x / 10000) (n_digits + 4)
  end.

(** The loop that fills the buffer from its end. *)
Fixpoint fill_digits (fuel : nat) (abs_value : N) (acc : bytes) : bytes :=
  match fuel with
  | O => acc
  | S fuel =>
    if 100 <=?? abs_value then
      let '(d1, d0) := digits_to_99 (abs_value mod 100) in
      fill_digits fuel (abs_value / 100) (d1 :: d0 :: acc)
    else if 10 <=?? abs_value then
      let '(d1, d0) := digits_to_99 abs_value in d1 :: d0 :: acc
    else digit abs_value :: acc
  end.

(** A 64-bit value has at most 20 digits. *)
Definition DIGIT_FUEL : nat := 20.

(** The digits stand in the last cells of a buffer of [n_chars] zero bytes. *)
Definition dump_integer (x : Z) : bytes :=
  if x =?? 0%Z then [byte 0x30]
  else
    let abs_value := Z.to_N (Z.abs x) in
    let digits := fill_digits DIGIT_FUEL abs_value [] in
    let n_chars := N.to_nat (count_digits DIGIT_FUEL abs_value 1) in
    let padding := replicate (n_chars - length digits) (byte 0) in
    if bool_decide (x < 0)%Z then byte 0x2D :: padding ++ digits else padding ++ digits.

(** ** Values *)

Section dump.
Variable dump_float : float64 -> bytes.

Definition quoted (ensure_ascii : bool) (s : string) : option bytes :=
  out ← dump_escaped ensure_ascii s; Some (byte 0x22 :: out ++ [byte 0x22]).

(** [sep]-separated concatenation of outputs that may fail. *)
Fixpoint joined (sep : bytes) (outs : list (option bytes)) : option bytes :=
  match outs with
  | [] => Some []
  | [o] => o
  | o :: outs => a ← o; b ← joined sep outs; Some (a ++ sep ++ b)
  end.

Definition indentation (n : nat) : bytes := replicate n (byte 0x20).

(** [pretty]: the indentation step, if output is indented. *)
Fixpoint dump_value (pretty : option nat) (ensure_ascii : bool) (current_indent : nat) (j : json)
    : option bytes :=
  match j with
  | JNull => Some (bytes_of "null")
  | JBool b => Some (bytes_of (if b then "true" else "false"))
  | JInteger z => Some (dump_integer z)
  | JUnsigned n => Some (dump_integer (Z.of_N n))
  | JFloat f => Some (if is_finite f then dump_float f else bytes_of "null")
  | JString s => quoted ensure_ascii s
  | JArray [] => Some (bytes_of "[]")
  | JArray l =>
    match pretty with
    | None =>
      body ← joined (bytes_of ",") (dump_value pretty ensure_ascii current_indent <$> l);
      Some (byte 0x5B :: body ++ [byte 0x5D])
    | Some step =>
      let new_indent := (current_indent + step)%nat in
      body ← joined (byte 0x2C :: [byte 0x0A])
               ((fun v => out ← dump_value pretty ensure_ascii new_indent v;
                          Some (indentation new_indent ++ out)) <$> l);
      Some (byte 0x5B :: byte 0x0A :: body ++ byte 0x0A :: indentation current_indent ++ [byte 0x5D])
    end
  | JObject [] => Some (bytes_of "{}")
  | JObject m =>
    match pretty with
    | None =>
      body ← joined (bytes_of ",")
               ((fun kv => key ← quoted ensure_ascii kv.1;
                           out ← dump_value pretty ensure_ascii current_indent kv.2;
                           Some (key ++ byte 0x3A :: out)) <$> m);
      Some (byte 0x7B :: body ++ [byte 0x7D])
    | Some step =>
      let new_indent := (current_indent + step)%nat in
      body ← joined (byte 0x2C :: [byte 0x0A])
               ((fun kv => key ← quoted ensure_ascii kv.1;
                           out ← dump_value pretty ensure_ascii new_indent kv.2;
                           Some (indentation new_indent ++ key ++ byte 0x3A :: byte 0x20 :: out)) <$> m);
      Some (byte 0x7B :: byte 0x0A :: body ++ byte 0x0A :: indentation current_indent ++ [byte 0x7D])
    end
  end.

(** [dump()] and [dump(indent)]. *)
Definition json_dump (j : json) : option string := string_of <$> dump_value None false 0 j.

Definition json_dump_indent (indent : nat) (j : json) : option string :=
  string_of <$> dump_value (Some indent) false 0 j.

End dump.

Example dump_sample :
  json_dump (fun _ => [])
    (JObject [("a", JArray [JUnsigned 0; JInteger (-120); JUnsigned 18446744073709551615]);
              ("b", JString (string_of [byte 0x22; byte 0x0A; byte 0xC3; byte 0xA9; byte 1]))]) =
  Some (dq "{'a':[0,-120,18446744073709551615],'b':'\" +:+
        string_of [byte 0x22] +:+ "\n" +:+ string_of [byte 0xC3; byte 0xA9] +:+ dq "\u0001'}").
Proof. vm_compute. reflexivity. Qed.
