(* ===== verification/Metrics.v ===== *)
(** * Metrics registry ([src/cluster/metrics_registry.hpp])

    Counters, gauges and histograms by name and labels, and their text in the
    Prometheus format.  A reference that the registry hands out is the key of
    the metric; each update is one atomic operation. *)

From S2P Require Import Prelude Float32 Json.

(** ** Counters and gauges *)

(** [int64_t] arithmetic of [fetch_add] and [fetch_sub], which wraps. *)
Definition i64 (z : Z) : Z := ((z + 9223372036854775808) mod 18446744073709551616 - 9223372036854775808)%Z.

Definition counter_inc (n value : N) : N := value +u n.

Definition gauge_inc (n value : Z) : Z := i64 (value + n).

Definition gauge_dec (n value : Z) : Z := i64 (value - n).

(** ** Histograms *)

Module Histogram.

Record t := Mk {
  bounds_ : list float64;
  counts_ : list N;
  count_ : N;
  sum_ : float64;
}.

Definition default_buckets : list float64 :=
  (fun p => decimal_to_float false p.1 p.2) <$>
  [(1, (-3)%Z); (5, (-3)%Z); (1, (-2)%Z); (25, (-3)%Z); (5, (-2)%Z); (1, (-1)%Z); (25, (-2)%Z); (5, (-1)%Z); (1, (0)%Z); (25, (-1)%Z); (5, (0)%Z); (10, (0)%Z)]%list.

Definition create (buckets : list float64) : t :=
  Mk buckets (replicate (S (length buckets)) 0) 0 (S754_zero false).

(** The first bucket whose bound is not below [value]; NaN goes to the last. *)
Fixpoint slot (value : float64) (bounds : list float64) : nat :=
  match bounds with
  | [] => O
  | b :: bounds => if SFleb value b then O else S (slot value bounds)
  end.

Definition observe (value : float64) (h : t) : t :=
  Mk (bounds_ h) (alter (fun c => c +u 1) (slot value (bounds_ h)) (counts_ h)) (count_ h +u 1)
     (SFadd prec64 emax64 (sum_ h) value).

Definition bucket_count (i : nat) (h : t) : option N := counts_ h !! i.

Definition num_buckets (h : t) : nat := S (length (bounds_ h)).

(** The running total [cumulative] after bucket [i], as [render] adds it up. *)
Definition cumulative (i : nat) (h : t) : N := foldl u64_add 0 (take (S i) (counts_ h)).

End Histogram.

(** ** Text *)

Definition quote : string := String (ascii_of_N 34) "".

Definition newline : string := String (ascii_of_N 10) "".

(** Digits of [out << double]: [%g] with six significant digits.  [num / den]
    is the value, [10^x <= num / den < 10^(x + 1)]. *)
Fixpoint decimal_exponent (fuel : nat) (num den : Z) (x : Z) : Z :=
  match fuel with
  | O => x
  | S fuel =>
    if bool_decide (num < den)%Z then decimal_exponent fuel (num * 10) den (x - 1)
    else if bool_decide (10 * den <= num)%Z then decimal_exponent fuel num (den * 10) (x + 1)
    else x
  end.

(** [num / den] rounded to the nearest integer, ties to even. *)
Definition round_even (num den : Z) : Z :=
  let q := (num / den)%Z in
  let r := (num mod den)%Z in
  if bool_decide (2 * r < den)%Z then q
  else if bool_decide (den < 2 * r)%Z then (q + 1)%Z
  else if Z.even q then q else (q + 1)%Z.

Fixpoint strip_zeros (ds : bytes) : bytes :=
  match ds with
  | [] => []
  | d :: ds => match strip_zeros ds with [] => if d =?? ascii_of_N 48 then [] else [d] | ds => d :: ds end
  end.

Definition zeros (n : nat) : bytes := replicate n (ascii_of_N 48).

(** The fraction, without trailing zeros and without a point when empty. *)
Definition fraction (ds : bytes) : bytes :=
  match strip_zeros ds with [] => [] | ds => ascii_of_N 46 :: ds end.

Definition two_digits (n : Z) : bytes := (if bool_decide (n < 10)%Z then zeros 1 else []) ++ bytes_of (pretty n).

Definition show_positive (num den : Z) : bytes :=
  let x := decimal_exponent 800 num den 0 in
  let scaled (k : Z) := if bool_decide (0 <= k)%Z then round_even num (den * 10 ^ k) else round_even (num * 10 ^ (- k)) den in
  let m := scaled (x - 5)%Z in
  let '(m, x) := if bool_decide (m = 1000000)%Z then (100000, x + 1)%Z else (m, x) in
  let ds := bytes_of (pretty m) in
  if bool_decide (-4 <= x < 6)%Z then
    if bool_decide (0 <= x)%Z
    then take (S (Z.to_nat x)) ds ++ fraction (drop (S (Z.to_nat x)) ds)
    else zeros 1 ++ fraction (zeros (Z.to_nat (- x - 1)) ++ ds)
  else take 1 ds ++ fraction (drop 1 ds) ++ bytes_of (if bool_decide (x < 0)%Z then "e-" else "e+") ++ two_digits (Z.abs x).

Definition show_double (f : float64) : string :=
  match f with
  | S754_nan => "nan"
  | S754_infinity s => if s then "-inf" else "inf"
  | S754_zero s => if s then "-0" else "0"
  | S754_finite s m e =>
    (if s then "-" else "") +:+
    string_of (if bool_decide (0 <= e)%Z then show_positive (Zpos m * 2 ^ e) 1 else show_positive (Zpos m) (2 ^ (- e)))
  end.

(** The bounds of the default histogram print as they are written. *)
Example default_buckets_text :
  show_double <$> Histogram.default_buckets =
  ["0.001"; "0.005"; "0.01"; "0.025"; "0.05"; "0.1"; "0.25"; "0.5"; "1"; "2.5"; "5"; "10"].
Proof. vm_compute. reflexivity. Qed.

(** ** The registry *)

Record MetricMeta := MkMeta { mm_name : string; mm_help : string; mm_type : string; mm_labels : string }.

(** A [std::map] of labels: pairs in the order of their keys. *)
Abbreviation label_map := (list (string * string)).

Definition label_text (kv : string * string) : string := kv.1 +:+ "=" +:+ quote +:+ kv.2 +:+ quote.

Fixpoint comma_separated (parts : list string) : string :=
  match parts with
  | [] => ""
  | [p] => p
  | p :: parts => p +:+ "," +:+ comma_separated parts
  end.

Definition format_labels (labels : label_map) : string :=
  match labels with
  | [] => ""
  | _ => "{" +:+ comma_separated (label_text <$> labels) +:+ "}"
  end.

(** ["," + labels.substr(1, labels.size() - 2)] *)
Definition strip_braces (labels : string) : string :=
  match bytes_of labels with
  | [] => ""
  | bs => "," +:+ string_of (take (length bs - 2) (drop 1 bs))
  end.

Module Registry.

Record t := Mk {
  counters_ : gmap string N;
  gauges_ : gmap string Z;
  histograms_ : gmap string Histogram.t;
  meta_ : list MetricMeta;
}.

Definition create : t := Mk ∅ ∅ ∅ [].

Definition key_of (name : string) (labels : label_map) : string := name +:+ format_labels labels.

(** [counter], [gauge] and [histogram]: the key of the metric, which is
    created when it is new. *)
Definition counter (name help : string) (labels : label_map) (r : t) : string * t :=
  let key := key_of name labels in
  match counters_ r !! key with
  | Some _ => (key, r)
  | None => (key, Mk (<[key := 0]> (counters_ r)) (gauges_ r) (histograms_ r)
                     (meta_ r ++ [MkMeta name help "counter" (format_labels labels)]))
  end.

Definition gauge (name help : string) (labels : label_map) (r : t) : string * t :=
  let key := key_of name labels in
  match gauges_ r !! key with
  | Some _ => (key, r)
  | None => (key, Mk (counters_ r) (<[key := 0%Z]> (gauges_ r)) (histograms_ r)
                     (meta_ r ++ [MkMeta name help "gauge" (format_labels labels)]))
  end.

Definition histogram (name help : string) (buckets : list float64) (labels : label_map) (r : t) : string * t :=
  let key := key_of name labels in
  match histograms_ r !! key with
  | Some _ => (key, r)
  | None => (key, Mk (counters_ r) (gauges_ r) (<[key := Histogram.create buckets]> (histograms_ r))
                     (meta_ r ++ [MkMeta name help "histogram" (format_labels labels)]))
  end.

(** Updates through a reference. *)
Definition inc (key : string) (n : N) (r : t) : t :=
  Mk (alter (counter_inc n) key (counters_ r)) (gauges_ r) (histograms_ r) (meta_ r).

Definition set (key : string) (v : Z) (r : t) : t :=
  Mk (counters_ r) (alter (fun _ => v) key (gauges_ r)) (histograms_ r) (meta_ r).

Definition observe (key : string) (v : float64) (r : t) : t :=
  Mk (counters_ r) (gauges_ r) (alter (Histogram.observe v) key (histograms_ r)) (meta_ r).

Definition find_meta (key : string) (r : t) : option MetricMeta :=
  match list_find (fun m => key = mm_name m +:+ mm_labels m) (meta_ r) with
  | Some (_, m) => Some m
  | None => last (meta_ r)
  end.

(** *** Rendering *)

(** The two comment lines of a metric, or a sample. *)
Inductive line := Header (name type help : string) | Sample (series value : string).

Definition line_text (l : line) : string :=
  match l with
  | Header name type help =>
    "# HELP " +:+ name +:+ " " +:+ help +:+ newline +:+ "# TYPE " +:+ name +:+ " " +:+ type +:+ newline
  | Sample series value => series +:+ " " +:+ value +:+ newline
  end.

(** The entries of a map in the order of their keys. *)
Definition key_le {A} (a b : string * A) : Prop := str_lt b.1 a.1 = false.

#[export] Instance key_le_dec {A} (a b : string * A) : Decision (key_le a b).
Proof. unfold key_le. apply _. Defined.

Definition items {A} (m : gmap string A) : list (string * A) := merge_sort key_le (map_to_list m).

Definition emit_type_help (name type help : string) (emitted : gset string) : list line * gset string :=
  if bool_decide (name ∈ emitted) then ([], emitted) else ([Header name type help], {[name]} ∪ emitted).

Definition histogram_samples (m : MetricMeta) (h : Histogram.t) : list line :=
  imap (fun i b => Sample (mm_name m +:+ "_bucket{le=" +:+ quote +:+ show_double b +:+ quote +:+ strip_braces (mm_labels m) +:+ "}")
                          (pretty (Histogram.cumulative i h))) (Histogram.bounds_ h) ++
  [Sample (mm_name m +:+ "_bucket{le=" +:+ quote +:+ "+Inf" +:+ quote +:+ strip_braces (mm_labels m) +:+ "}")
          (pretty (Histogram.cumulative (length (Histogram.bounds_ h)) h));
   Sample (mm_name m +:+ "_sum" +:+ mm_labels m) (show_double (Histogram.sum_ h));
   Sample (mm_name m +:+ "_count" +:+ mm_labels m) (pretty (Histogram.count_ h))].

(** One of the three loops: [type] and the samples of one entry. *)
Fixpoint emit_all {A} (r : t) (type : string) (samples : MetricMeta -> A -> list line)
    (entries : list (string * A)) (emitted : gset string) : option (list line * gset string) :=
  match entries with
  | [] => Some ([], emitted)
  | (key, x) :: entries =>
    m ← find_meta key r;
    let '(header, emitted) := emit_type_help (mm_name m) type (mm_help m) emitted in
    '(rest, emitted) ← emit_all r type samples entries emitted;
    Some (header ++ samples m x ++ rest, emitted)
  end.

Definition counter_samples (m : MetricMeta) (v : N) : list line := [Sample (mm_name m +:+ mm_labels m) (pretty v)].

Definition gauge_samples (m : MetricMeta) (v : Z) : list line := [Sample (mm_name m +:+ mm_labels m) (pretty v)].

(** [None]: [meta_.back()] of an empty vector. *)
Definition render_lines (r : t) : option (list line) :=
  '(cs, emitted) ← emit_all r "counter" counter_samples (items (counters_ r)) ∅;
  '(gs, emitted) ← emit_all r "gauge" gauge_samples (items (gauges_ r)) emitted;
  '(hs, _) ← emit_all r "histogram" histogram_samples (items (histograms_ r)) emitted;
  Some (cs ++ gs ++ hs).

Definition render (r : t) : option string :=
  (fun ls => foldr String.append "" (line_text <$> ls)) <$> render_lines r.

(** *** Histories *)

Inductive op :=
| OCounter (name help : string) (labels : label_map)
| OGauge (name help : string) (labels : label_map)
| OHistogram (name help : string) (buckets : list float64) (labels : label_map)
| OInc (key : string) (n : N)
| OSet (key : string) (v : Z)
| OObserve (key : string) (v : float64).

Definition exec (o : op) (r : t) : t :=
  match o with
  | OCounter name help labels => (counter name help labels r).2
  | OGauge name help labels => (gauge name help labels r).2
  | OHistogram name help buckets labels => (histogram name help buckets labels r).2
  | OInc key n => inc key n r
  | OSet key v => set key v r
  | OObserve key v => observe key v r
  end.

Definition run (ops : list op) : t := foldl (fun r o => exec o r) create ops.

End Registry.

(** ** Histograms count what they are given *)

Lemma SFleb_fltb x y : is_nan x = false -> is_nan y = false -> SFleb x y = negb (fltb y x).
Proof.
  intros Hx Hy. unfold fltb, SFltb, SFleb. destruct x as [[]|[]| |[] m1 e1], y as [[]|[]| |[] m2 e2]; try done;
    cbn [SFcompare];
    change (Pos.compare_cont Eq m1 m2) with (Pos.compare m1 m2); change (Pos.compare_cont Eq m2 m1) with (Pos.compare m2 m1);
    rewrite (Z.compare_antisym e1 e2), (Pos.compare_antisym m1 m2);
    destruct (Z.compare_spec e1 e2), (Pos.compare_spec m1 m2); done.
Qed.

(** The sum of a list of counts. *)
Definition total (l : list N) : N := foldr N.add 0 l.

Lemma total_app k l : total (k ++ l) = total k + total l.
Proof. unfold total. rewrite foldr_app. induction k as [|x k IH]; cbn; [done|]. rewrite IH. lia. Qed.

Lemma foldl_u64 acc l : foldl u64_add (u64 acc) l = u64 (acc + total l).
Proof.
  revert acc. induction l as [|x l IH]; intros acc; cbn [foldl total foldr]; [by rewrite N.add_0_r|].
  unfold u64_add at 2. replace (u64 (u64 acc + x)) with (u64 (acc + x)) by (unfold u64; by rewrite N.Div0.add_mod_idemp_l).
  rewrite IH. f_equal. fold (total l). lia.
Qed.

Lemma total_alter k i l :
  (k < length l)%nat ->
  u64 (total (take i (alter (fun c => c +u 1) k l))) = u64 (total (take i l) + (if bool_decide (k < i)%nat then 1 else 0)).
Proof.
  revert k i. induction l as [|x l IH]; intros k i Hk; [cbn in Hk; lia|].
  destruct i as [|i]; [by rewrite !take_0|]. destruct k as [|k].
  - change (alter (fun c => c +u 1) 0%nat (x :: l)) with ((x +u 1) :: l). cbn [take total foldr].
    rewrite bool_decide_eq_true_2 by lia. unfold u64_add, u64. rewrite N.Div0.add_mod_idemp_l. f_equal. lia.
  - change (alter (fun c => c +u 1) (S k) (x :: l)) with (x :: alter (fun c => c +u 1) k l). cbn [take total foldr].
    fold (total (take i (alter (fun c => c +u 1) k l))). fold (total (take i l)).
    specialize (IH k i). cbn [length] in Hk. specialize (IH ltac:(lia)).
    rewrite (bool_decide_ext (S k < S i)%nat (k < i)%nat) by lia.
    unfold u64 in *. rewrite <-N.Div0.add_mod_idemp_r, IH, N.Div0.add_mod_idemp_r. f_equal. lia.
Qed.

Module HistogramSpec.
Import Histogram.

(** Bounds in increasing order. *)
Definition increasing (bounds : list float64) : Prop :=
  Forall (fun b => is_nan b = false) bounds /\ StronglySorted (fun a b => fltb a b = true) bounds.

Lemma slot_length v bounds : (slot v bounds <= length bounds)%nat.
Proof. induction bounds as [|b bounds IH]; cbn; [done|]. destruct (SFleb v b); lia. Qed.

(** A value is in one of the buckets up to [b] exactly when it is at most [b]. *)
Lemma slot_spec v bounds i b :
  increasing bounds -> is_nan v = false -> bounds !! i = Some b -> (slot v bounds < S i)%nat <-> SFleb v b = true.
Proof.
  intros [Hn Hs] Hv. revert i. induction Hs as [|b0 bounds Hs IH Hb0]; intros i Hi; [done|].
  apply Forall_cons in Hn as [Hn0 Hn]. cbn [slot]. destruct i as [|i]; cbn [lookup list_lookup] in Hi.
  - injection Hi as ->. destruct (SFleb v b); split; try done; lia.
  - destruct (SFleb v b0) eqn:E; [|rewrite <-(IH Hn i Hi); lia]. split; [intros _|lia].
    assert (is_nan b = false) as Hbn by exact (Forall_lookup_1 _ _ _ _ Hn Hi).
    assert (fltb b0 b = true) as Hlt by exact (Forall_lookup_1 _ _ _ _ Hb0 Hi).
    rewrite SFleb_fltb in E |- * by done. apply negb_true_iff in E. apply negb_true_iff, not_true_iff_false. intros Hbv.
    pose proof (swo_trans b0 b v Hn0 Hbn Hv Hlt Hbv). congruence.
Qed.

(** The histogram after some observations. *)
Definition observed (bounds : list float64) (values : list float64) : t :=
  foldl (fun h v => observe v h) (create bounds) values.

Lemma observed_fields bounds values :
  bounds_ (observed bounds values) = bounds /\ length (counts_ (observed bounds values)) = S (length bounds) /\
  count_ (observed bounds values) = u64 (N.of_nat (length values)).
Proof.
  induction values as [|v values IH] using rev_ind; [cbn; by rewrite length_replicate|].
  unfold observed in *. rewrite foldl_snoc. destruct IH as (H1 & H2 & H3). cbn [observe bounds_ counts_ count_].
  rewrite length_alter, H3, length_app. split; [done|]. split; [done|]. unfold u64_add, u64. rewrite N.Div0.add_mod_idemp_l. f_equal. cbn [length]. lia.
Qed.

Lemma cumulative_observed bounds values i :
  cumulative i (observed bounds values) = u64 (N.of_nat (length (filter (fun v => slot v bounds < S i)%nat values))).
Proof.
  unfold cumulative. change 0 with (u64 0) at 1. rewrite foldl_u64, N.add_0_l.
  induction values as [|v values IH] using rev_ind.
  { cbn [observed foldl create counts_]. rewrite take_replicate. cbn [filter list_filter length]. unfold u64. f_equal.
    generalize (S i `min` S (length bounds))%nat. intros n. by induction n. }
  destruct (observed_fields bounds values) as (H1 & H2 & _).
  unfold observed in *. rewrite foldl_snoc. cbn [observe counts_]. rewrite H1.
  rewrite total_alter by (rewrite H2; pose proof (slot_length v bounds); lia).
  rewrite filter_app, length_app, filter_cons. unfold u64 in *. rewrite <-N.Div0.add_mod_idemp_l, IH, N.Div0.add_mod_idemp_l.
  destruct (decide (slot v bounds < S i)%nat) as [Hd|Hd].
  - rewrite bool_decide_eq_true_2 by done. f_equal. cbn [length filter list_filter]. lia.
  - rewrite bool_decide_eq_false_2 by done. f_equal. cbn [length filter list_filter]. lia.
Qed.

(** C36: A histogram is the distribution of what it observed.  With bounds in
    increasing order, after any sequence of observations without NaN, the
    cumulative count that [render] prints for the bound [b] is the number of
    observations that are at most [b], and the count of the bucket [+Inf] is
    the total number of observations, which is also [count]; all of them
    modulo [2^64], the width of the counters. *)
Theorem histogram_distribution (bounds values : list float64) :
  increasing bounds -> Forall (fun v => is_nan v = false) values ->
  let h := observed bounds values in
  (forall i b, bounds !! i = Some b ->
     cumulative i h = u64 (N.of_nat (length (filter (fun v => SFleb v b = true) values)))) /\
  cumulative (length bounds) h = u64 (N.of_nat (length values)) /\ count_ h = u64 (N.of_nat (length values)).
Proof.
  intros Hb Hv. cbn zeta. split_and!.
  - intros i b Hi. rewrite cumulative_observed. do 3 f_equal. clear - Hb Hv Hi.
    induction Hv as [|v values Hv _ IH]; [done|]. rewrite !filter_cons, IH.
    pose proof (slot_spec v bounds i b Hb Hv Hi). by repeat case_decide; tauto.
  - rewrite cumulative_observed. do 3 f_equal. clear. induction values as [|v values IH]; [done|].
    rewrite filter_cons, decide_True, IH; [done|]. pose proof (slot_length v bounds). lia.
  - by destruct (observed_fields bounds values) as (_ & _ & ?).
Qed.

Lemma histogram_distribution_witness :
  cumulative 1 (observed default_buckets [decimal_to_float false 2 (-3); decimal_to_float false 7 0]) = 1.
Proof.
  destruct (histogram_distribution default_buckets [decimal_to_float false 2 (-3); decimal_to_float false 7 0]) as (H & _).
  - split; vm_compute; repeat constructor.
  - by repeat constructor.
  - rewrite (H 1%nat (decimal_to_float false 5 (-3)) eq_refl). reflexivity.
Defined.
End HistogramSpec.

(** ** The text names every metric *)

Module RegistrySpec.
Import Registry.

Definition registered (r : t) (key : string) : Prop :=
  is_Some (counters_ r !! key) \/ is_Some (gauges_ r !! key) \/ is_Some (histograms_ r !! key).

(** Every metric has its entry in [meta_]. *)
Definition described (r : t) : Prop :=
  forall key, registered r key -> exists m, m ∈ meta_ r /\ key = mm_name m +:+ mm_labels m.

(** A new metric under [name] and [labels], or an update of an old one. *)
Lemma described_step r r' ms :
  described r -> meta_ r' = meta_ r ++ ms ->
  (forall key, registered r' key -> registered r key \/ exists m, m ∈ ms /\ key = mm_name m +:+ mm_labels m) -> described r'.
Proof.
  intros Hr Hm Hreg key [Hk|(m & Hin & E)]%Hreg.
  - destruct (Hr key Hk) as (m & Hin & E). exists m. rewrite Hm. split; [|done]. apply elem_of_app. by left.
  - exists m. rewrite Hm. split; [|done]. apply elem_of_app. by right.
Qed.

Lemma is_Some_insert {A} (m : gmap string A) k x key :
  is_Some (<[k := x]> m !! key) -> is_Some (m !! key) \/ key = k.
Proof. destruct (decide (k = key)) as [->|Hne]; [by right|]. rewrite lookup_insert_ne by done. by left. Qed.

Lemma is_Some_alter {A} (m : gmap string A) k f key : is_Some (alter f k m !! key) -> is_Some (m !! key).
Proof.
  destruct (decide (k = key)) as [->|Hne]; [|by rewrite lookup_alter_ne]. rewrite lookup_alter_eq.
  destruct (m !! key); [by eexists|by intros []].
Qed.

Lemma described_exec o r : described r -> described (exec o r).
Proof.
  intros Hr. destruct o as [name help labels|name help labels|name help buckets labels|key n|key v|key v]; cbn [exec].
  - unfold counter. destruct (counters_ r !! _); [done|]. eapply (described_step r); [exact Hr|reflexivity|].
    intros key [[H| ->]%is_Some_insert|H]; [by left; left|right; eexists; by split; [left|]|by left; right].
  - unfold gauge. destruct (gauges_ r !! _); [done|]. eapply (described_step r); [exact Hr|reflexivity|].
    intros key [H|[[H| ->]%is_Some_insert|H]]; [by left; left|by left; right; left|right; eexists; by split; [left|]|by left; right; right].
  - unfold histogram. destruct (histograms_ r !! _); [done|]. eapply (described_step r); [exact Hr|reflexivity|].
    intros key [H|[H|[H| ->]%is_Some_insert]]; [by left; left|by left; right; left|by left; right; right|right; eexists; by split; [left|]].
  - apply (described_step r _ [] Hr); [by rewrite app_nil_r|]. intros k [H%is_Some_alter|H]; [by left; left|by left; right].
  - apply (described_step r _ [] Hr); [by rewrite app_nil_r|].
    intros k [H|[H%is_Some_alter|H]]; [by left; left|by left; right; left|by left; right; right].
  - apply (described_step r _ [] Hr); [by rewrite app_nil_r|].
    intros k [H|[H|H%is_Some_alter]]; [by left; left|by left; right; left|by left; right; right].
Qed.

Lemma described_run ops : described (run ops).
Proof.
  induction ops as [|o ops IH] using rev_ind.
  - intros key [[x H]|[[x H]|[x H]]]; cbn in H; by rewrite lookup_empty in H.
  - unfold run in *. rewrite foldl_snoc. by apply described_exec.
Qed.

Lemma find_meta_described r key :
  described r -> registered r key -> exists m, find_meta key r = Some m /\ key = mm_name m +:+ mm_labels m.
Proof.
  intros Hr (m & Hin & E)%Hr. unfold find_meta. destruct (list_find _ (meta_ r)) as [[i m']|] eqn:Ef.
  - apply list_find_Some in Ef as (_ & HE & _). by exists m'.
  - rewrite list_find_None, Forall_forall in Ef. by destruct (Ef m Hin).
Qed.

(** The names that have header lines. *)
Definition headers (ls : list line) : list string :=
  omap (fun l => match l with Header name _ _ => Some name | Sample _ _ => None end) ls.

Lemma headers_app k l : headers (k ++ l) = headers k ++ headers l.
Proof. apply omap_app. Qed.

Section emit.
Context {A : Type} (r : t) (type : string) (samples : MetricMeta -> A -> list line).
Hypothesis no_headers : forall m x, headers (samples m x) = [].

(** What one of the loops of [render] writes. *)
Record emitted_ok (entries : list (string * A)) (before after : gset string) (ls : list line) : Prop := {
  eo_grows : before ⊆ after;
  eo_once : NoDup (headers ls);
  eo_new name : name ∈ headers ls <-> name ∈ after /\ name ∉ before;
  eo_samples key x : (key, x) ∈ entries ->
    exists m, key = mm_name m +:+ mm_labels m /\ mm_name m ∈ after /\ forall l, l ∈ samples m x -> l ∈ ls;
}.

Lemma emit_all_ok entries before :
  described r -> (forall key x, (key, x) ∈ entries -> registered r key) ->
  exists ls after, emit_all r type samples entries before = Some (ls, after) /\ emitted_ok entries before after ls.
Proof.
  intros Hr. revert before. induction entries as [|[key x] entries IH]; intros before Hreg; cbn [emit_all].
  { exists [], before. split; [done|]. split; [done|constructor| |set_solver]. cbn. set_solver. }
  destruct (find_meta_described r key Hr) as (m & -> & E); [apply (Hreg key x); by left|]. cbn [mbind option_bind].
  unfold emit_type_help. case_bool_decide as Hin.
  - destruct (IH before) as (ls & after & -> & [H1 H2 H3 H4]); [intros k y Hy; apply (Hreg k y); by right|]. cbn [mbind option_bind].
    eexists _, after. split; [done|]. rewrite app_nil_l. split; [done|by rewrite headers_app, no_headers| |].
    + intros name. by rewrite headers_app, no_headers.
    + intros k y [[= -> ->]|Hy]%elem_of_cons.
      * exists m. split_and!; [done|set_solver|]. intros l Hl. apply elem_of_app. by left.
      * destruct (H4 k y Hy) as (m' & ? & ? & Hl). exists m'. split_and!; [done..|]. intros l Hl'. apply elem_of_app. right. by apply Hl.
  - destruct (IH ({[mm_name m]} ∪ before)) as (ls & after & -> & [H1 H2 H3 H4]); [intros k y Hy; apply (Hreg k y); by right|].
    cbn [mbind option_bind]. eexists _, after. split; [done|].
    assert (headers ([Header (mm_name m) type (mm_help m)] ++ samples m x ++ ls) = mm_name m :: headers ls) as Eh
      by (by rewrite !headers_app, no_headers).
    split; [set_solver| | |].
    + rewrite Eh. constructor; [|done]. rewrite H3. set_solver.
    + intros name. rewrite Eh, elem_of_cons, H3. destruct (decide (name = mm_name m)) as [->|]; set_solver.
    + intros k y [[= -> ->]|Hy]%elem_of_cons.
      * exists m. split_and!; [done|set_solver|]. intros l Hl. apply elem_of_app. right. apply elem_of_app. by left.
      * destruct (H4 k y Hy) as (m' & ? & ? & Hl). exists m'. split_and!; [done..|].
        intros l Hl'. apply elem_of_app. right. apply elem_of_app. right. by apply Hl.
Qed.
End emit.

Lemma items_elem {A} (m : gmap string A) key x : (key, x) ∈ items m <-> m !! key = Some x.
Proof. unfold items. rewrite merge_sort_Permutation. apply elem_of_map_to_list. Qed.

Lemma headers_samples {A} (f g : nat -> A -> string) bs : headers (imap (fun i b => Sample (f i b) (g i b)) bs) = [].
Proof.
  revert f g. induction bs as [|b bs IH]; intros f g; [done|]. rewrite imap_cons. cbn [headers omap list_omap].
  apply (IH (fun i => f (S i)) (fun i => g (S i))).
Qed.

Lemma histogram_no_headers m h : headers (histogram_samples m h) = [].
Proof. unfold histogram_samples. by rewrite headers_app, headers_samples. Qed.

Lemma render_described r :
  described r ->
  exists ls, render_lines r = Some ls /\ NoDup (headers ls) /\
    (forall key v, counters_ r !! key = Some v -> Sample key (pretty v) ∈ ls) /\
    (forall key v, gauges_ r !! key = Some v -> Sample key (pretty v) ∈ ls) /\
    (forall key h, histograms_ r !! key = Some h -> exists name labels, key = name +:+ labels /\ name ∈ headers ls /\
       Sample (name +:+ "_count" +:+ labels) (pretty (Histogram.count_ h)) ∈ ls).
Proof.
  intros Hr. unfold render_lines.
  destruct (emit_all_ok r "counter" counter_samples (fun _ _ => eq_refl) (items (counters_ r)) ∅ Hr) as (cs & e1 & -> & [_ C2 C3 C4]).
  { intros key x Hx%items_elem. left. by exists x. }
  cbn [mbind option_bind].
  destruct (emit_all_ok r "gauge" gauge_samples (fun _ _ => eq_refl) (items (gauges_ r)) e1 Hr) as (gs & e2 & -> & [G1 G2 G3 G4]).
  { intros key x Hx%items_elem. right. left. by exists x. }
  cbn [mbind option_bind].
  destruct (emit_all_ok r "histogram" histogram_samples histogram_no_headers (items (histograms_ r)) e2 Hr) as (hs & e3 & -> & [H1 H2 H3 H4]).
  { intros key x Hx%items_elem. right. right. by exists x. }
  cbn [mbind option_bind]. eexists. split; [done|]. split_and!.
  - rewrite !headers_app. apply NoDup_app. split_and!; [done| |apply NoDup_app; split_and!; [done| |done]].
    + intros n Hn%C3. rewrite elem_of_app, G3, H3. set_solver.
    + intros n Hn%G3. rewrite H3. set_solver.
  - intros key v Hv. destruct (C4 key v) as (m & -> & _ & Hl); [by apply items_elem|].
    apply elem_of_app. left. apply Hl. by left.
  - intros key v Hv. destruct (G4 key v) as (m & -> & _ & Hl); [by apply items_elem|].
    apply elem_of_app. right. apply elem_of_app. left. apply Hl. by left.
  - intros key h Hh. destruct (H4 key h) as (m & -> & Hm & Hl); [by apply items_elem|].
    exists (mm_name m), (mm_labels m). split; [done|]. split.
    + rewrite !headers_app, !elem_of_app, C3, G3, H3.
      destruct (decide (mm_name m ∈ e1)); [set_solver|]. destruct (decide (mm_name m ∈ e2)); set_solver.
    + apply elem_of_app. right. apply elem_of_app. right. apply Hl. unfold histogram_samples.
      apply elem_of_app. right. do 2 right. left.
Qed.

(** The text names every metric once.  After any history of registrations
    and updates [render] never falls back to the description of another
    metric: it succeeds, writes the [HELP] and [TYPE] lines of every metric
    name exactly once, one line with the name, the labels and the current
    value for every counter and every gauge, and for every histogram the
    total number of observations. *)
Theorem render_spec (ops : list op) :
  let r := run ops in
  exists ls, render_lines r = Some ls /\ NoDup (headers ls) /\
    (forall key v, counters_ r !! key = Some v -> Sample key (pretty v) ∈ ls) /\
    (forall key v, gauges_ r !! key = Some v -> Sample key (pretty v) ∈ ls) /\
    (forall key h, histograms_ r !! key = Some h -> exists name labels, key = name +:+ labels /\ name ∈ headers ls /\
       Sample (name +:+ "_count" +:+ labels) (pretty (Histogram.count_ h)) ∈ ls).
Proof. apply render_described, described_run. Qed.
End RegistrySpec.
