(* ===== verification/Bindings.v ===== *)
(** * The Python module ([src/src/python_bindings.cpp])

    What a call from Python runs: the default arguments, the text of a result,
    and the functions of the quantizer, which size their output themselves.  An
    argument that is left out is [None].  The conversion of Python values and
    the translation of exceptions belong to pybind11. *)

From S2P Require Import Prelude Storage MemoryMap MetadataStore Float32 PriorityQueue IndexTypes FloatExact FloatRange Distance Quantizer.
From S2P Require Import Hnsw Metrics.

Module Bindings.

(** ** The index *)

Definition metric_values : list (string * DistanceMetric) :=
  [("L2", L2); ("Cosine", Cosine); ("InnerProduct", InnerProduct)].

(** [HNSW(storage, meta_path = "data/metadata.bin", metric = L2)]; [files] are
    the metadata files. *)
Definition py_HNSW (storage : MMapHandler.t) (disk : gmap string image) (files : gmap string bytes)
    (meta_path : option string) (metric : option DistanceMetric) : option Hnsw.t :=
  Hnsw.create storage disk (files !! default "data/metadata.bin" meta_path) (default L2 metric).

Section fused.
Context (fused : bool).

Definition py_insert (d : draws) (vector : list float32) (id : N) (metadata : option string) (s : Hnsw.t)
    : option (outcome unit * Hnsw.t) :=
  Hnsw.insert fused d vector id (default "" metadata) s.

Definition py_search (query : list float32) (k : option Z) (s : Hnsw.t) : option (list Result) :=
  Hnsw.search fused query (default 5%Z k) s.

(** ** Text of a result *)

(** [num / den] with six digits after the point. *)
Definition fixed6 (num den : Z) : string :=
  let q := round_even (num * 1000000) den in
  let digits := bytes_of (pretty (q mod 1000000)%Z) in
  pretty (q / 1000000)%Z +:+ "." +:+ string_of (zeros (6 - length digits) ++ digits).

(** [std::to_string] of a [float]: [%f]. *)
Definition to_string (f : float32) : string :=
  match f with
  | S754_nan => "nan"
  | S754_infinity s => if s then "-inf" else "inf"
  | S754_zero s => if s then "-0.000000" else "0.000000"
  | S754_finite s m e =>
    (if s then "-" else "") +:+ (if bool_decide (0 <= e)%Z then fixed6 (Zpos m * 2 ^ e) 1 else fixed6 (Zpos m) (2 ^ (- e)))
  end.

Definition py_repr (r : Result) : string :=
  "<Result id=" +:+ pretty (r_id r) +:+ " dist=" +:+ to_string (r_distance r) +:+ " meta='" +:+ r_metadata r +:+ "'>".

Example repr_text :
  py_repr (MkResult 7 (S754_finite false 8589935 (-33)) "tag") = "<Result id=7 dist=0.001000 meta='tag'>" /\
  to_string (S754_finite true 10485760 (-23)) = "-1.250000" /\ to_string (f_of_Z 33) = "33.000000".
Proof. vm_compute. done. Qed.

(** ** The quantizer *)

Definition py_train (vecs : list (list float32)) (q : ScalarQuantizer.t) : option ScalarQuantizer.t :=
  ScalarQuantizer.train vecs q.

(** The output has the length of the argument. *)
Definition py_quantize (vec : list float32) (q : ScalarQuantizer.t) : option (outcome (list Z)) :=
  ScalarQuantizer.quantize fused vec (length vec) q.

Definition py_dequantize (vec : list Z) (dim : nat) (q : ScalarQuantizer.t) : option (outcome (list float32)) :=
  ScalarQuantizer.dequantize fused vec dim q.

Lemma mapM_seq_defined {A} (f : nat -> option A) n :
  is_Some (mapM f (seq 0 n)) <-> forall i, (i < n)%nat -> is_Some (f i).
Proof.
  rewrite mapM_is_Some, Forall_forall. split.
  - intros H i Hi. apply H, elem_of_seq. lia.
  - intros H i Hi%elem_of_seq. apply H. lia.
Qed.

Lemma lookup_defined {A B} (l : list A) i (f : A -> option B) : is_Some (l !! i ≫= f) -> (i < length l)%nat.
Proof. destruct (l !! i) eqn:E; [|by intros []]. intros _. by eapply lookup_lt_Some. Qed.

Lemma ret_defined {A} (o : option A) : is_Some (x ← o; Some (Ret x)) <-> is_Some o.
Proof. destruct o; cbn; [split; by eexists|split; by intros []]. Qed.

(** A trained quantizer has a finite range for each of its dimensions. *)
Record quant_wf (q : ScalarQuantizer.t) : Prop := {
  qw_min : length (ScalarQuantizer.min_ q) = ScalarQuantizer.dim_ q;
  qw_max : length (ScalarQuantizer.max_ q) = ScalarQuantizer.dim_ q;
  qw_range i lo hi : ScalarQuantizer.min_ q !! i = Some lo -> ScalarQuantizer.max_ q !! i = Some hi ->
    finite lo /\ finite hi /\ finite (fsub hi lo);
}.

Lemma create_quant_wf : quant_wf ScalarQuantizer.create.
Proof. by split. Qed.

(** A sample from which a range can be computed in every dimension. *)
Definition trainable (dim : nat) (vecs : list (list float32)) : Prop :=
  ScalarQuantizer.sample dim vecs /\
  forall i a b, a ∈ ScalarQuantizer.column i vecs -> b ∈ ScalarQuantizer.column i vecs -> finite (fsub a b).

Lemma py_train_wf dim vecs q :
  trainable dim vecs ->
  exists q', py_train vecs q = Some q' /\ quant_wf q' /\ ScalarQuantizer.trained_ q' = true /\ ScalarQuantizer.dim_ q' = dim.
Proof.
  intros [Hsm Hdiff]. destruct (ScalarQuantizer.train_spec dim vecs q Hsm) as (q' & E & Ht & Hd & Hl1 & Hl2 & Hr).
  exists q'. split; [exact E|]. split; [|done]. split; [congruence..|]. intros i lo hi Hlo Hhi.
  destruct (Hr i) as (lo' & hi' & Hlo' & Hhi' & (H1 & H2 & _)); [apply lookup_lt_Some in Hlo; lia|].
  assert (lo' = lo) as -> by congruence. assert (hi' = hi) as -> by congruence.
  pose proof (ScalarQuantizer.column_finite i vecs (ScalarQuantizer.sm_finite _ _ Hsm)) as Hcol. rewrite Forall_forall in Hcol.
  split; [by apply Hcol|]. split; [by apply Hcol|by apply (Hdiff i)].
Qed.

Lemma range_lookup q i :
  quant_wf q -> (i < ScalarQuantizer.dim_ q)%nat ->
  exists lo hi, ScalarQuantizer.min_ q !! i = Some lo /\ ScalarQuantizer.max_ q !! i = Some hi.
Proof.
  intros [H1 H2 _] Hi. destruct (lookup_lt_is_Some_2 (ScalarQuantizer.min_ q) i) as [lo Hlo]; [lia|].
  destruct (lookup_lt_is_Some_2 (ScalarQuantizer.max_ q) i) as [hi Hhi]; [lia|]. by exists lo, hi.
Qed.

(** Which arguments a trained quantizer takes. *)
Lemma py_quantize_defined v q :
  quant_wf q -> ScalarQuantizer.trained_ q = true -> Forall finite v ->
  is_Some (py_quantize v q) <-> (length v <= ScalarQuantizer.dim_ q)%nat.
Proof.
  intros Hq Ht Hv. unfold py_quantize, ScalarQuantizer.quantize. rewrite Ht. cbn [negb].
  rewrite ret_defined, mapM_seq_defined. split.
  - intros H. apply Nat.nlt_ge. intros Hlt. specialize (H _ Hlt). apply lookup_defined in H. rewrite (qw_min _ Hq) in H. lia.
  - intros Hle i Hi. destruct (range_lookup q i Hq) as (lo & hi & Hlo & Hhi); [lia|].
    destruct (qw_range _ Hq i lo hi Hlo Hhi) as (H1 & H2 & H3). rewrite Hlo, Hhi.
    destruct (lookup_lt_is_Some_2 v i Hi) as [y Hy]. rewrite Hy. cbn [mbind option_bind].
    destruct (ScalarQuantizer.quantize_one_range fused lo hi y) as (z & -> & _); [done|done| |done|by eexists].
    by apply (Forall_lookup_1 _ _ _ _ Hv Hy).
Qed.

Lemma py_quantize_length v q out : py_quantize v q = Some (Ret out) -> length out = length v.
Proof.
  unfold py_quantize, ScalarQuantizer.quantize. destruct (negb _); [done|].
  intros (l & Hl & [= <-])%bind_Some. apply mapM_Some, Forall2_length in Hl. by rewrite length_seq in Hl.
Qed.

Lemma py_dequantize_defined b n q :
  quant_wf q -> ScalarQuantizer.trained_ q = true ->
  is_Some (py_dequantize b n q) <-> (n <= ScalarQuantizer.dim_ q)%nat /\ (n <= length b)%nat.
Proof.
  intros Hq Ht. unfold py_dequantize, ScalarQuantizer.dequantize. rewrite Ht. cbn [negb].
  rewrite ret_defined, mapM_seq_defined. split.
  - intros H. split; apply Nat.nlt_ge; intros Hlt; specialize (H _ Hlt).
    + apply lookup_defined in H. rewrite (qw_min _ Hq) in H. lia.
    + destruct H as (y & (lo & _ & (hi & _ & (x & Hx & _)%bind_Some)%bind_Some)%bind_Some). apply lookup_lt_Some in Hx. lia.
  - intros [H1 H2] i Hi. destruct (range_lookup q i Hq) as (lo & hi & -> & ->); [lia|].
    destruct (lookup_lt_is_Some_2 b i ltac:(lia)) as [x ->]. by eexists.
Qed.

Lemma py_dequantize_length b n q out : py_dequantize b n q = Some (Ret out) -> length out = n.
Proof.
  unfold py_dequantize, ScalarQuantizer.dequantize. destruct (negb _); [done|].
  intros (l & Hl & [= <-])%bind_Some. apply mapM_Some, Forall2_length in Hl. by rewrite length_seq in Hl.
Qed.
End fused.

(** Which arguments the quantizer functions of the module can take.  After
    training on vectors of one dimension with finite components whose ranges do
    not overflow, [quantize(v)] of finite numbers is defined exactly when [v]
    is no longer than the vectors of the sample, and then returns a list of the
    same length; [dequantize(b, n)] is defined exactly when [n] is at most both
    that dimension and the length of [b].  Every other call reads outside an
    array: nothing checks the lengths that come from Python. *)
Theorem py_quantizer_bounds (fused : bool) (dim : nat) (vecs : list (list float32)) (q : ScalarQuantizer.t) :
  ScalarQuantizer.sample dim vecs ->
  (forall i a b, a ∈ ScalarQuantizer.column i vecs -> b ∈ ScalarQuantizer.column i vecs -> finite (fsub a b)) ->
  exists q', py_train vecs q = Some q' /\
    (forall v, Forall finite v -> is_Some (py_quantize fused v q') <-> (length v <= dim)%nat) /\
    (forall v out, py_quantize fused v q' = Some (Ret out) -> length out = length v) /\
    (forall b n, is_Some (py_dequantize fused b n q') <-> (n <= dim)%nat /\ (n <= length b)%nat).
Proof.
  intros Hsm Hdiff. destruct (py_train_wf dim vecs q (conj Hsm Hdiff)) as (q' & E & Hq & Ht & <-).
  exists q'. split; [exact E|]. split_and!.
  - intros v Hv. by apply py_quantize_defined.
  - intros v out. apply py_quantize_length.
  - intros b n. by apply py_dequantize_defined.
Qed.

(** The dimension of the sample and one more. *)
Lemma py_quantizer_bounds_witness :
  exists q, py_train [[fone; fzero]; [f_of_Z 3; fzero]] ScalarQuantizer.create = Some q /\
    is_Some (py_quantize true [fone; fone] q) /\ ~ is_Some (py_quantize true [fone; fone; fone] q) /\
    ~ is_Some (py_dequantize true [1%Z] 2 q).
Proof.
  destruct (py_quantizer_bounds true 2 [[fone; fzero]; [f_of_Z 3; fzero]] ScalarQuantizer.create) as (q & Ht & Hq & _ & Hd).
  - split; [discriminate|by repeat constructor|by repeat constructor].
  - intros [|[|i]] a b Ha Hb; cbn in Ha, Hb;
      repeat (apply elem_of_cons in Ha as [->|Ha]); try (by apply not_elem_of_nil in Ha);
      repeat (apply elem_of_cons in Hb as [->|Hb]); try (by apply not_elem_of_nil in Hb); vm_compute; repeat split; discriminate.
  - exists q. split; [exact Ht|]. split; [|split].
    + apply Hq; [by repeat constructor|cbn; lia].
    + rewrite Hq by (by repeat constructor). cbn. lia.
    + rewrite Hd. cbn. lia.
Defined.

End Bindings.
