(* ===== verification/PySession.v ===== *)
(** * A Python program that uses the module ([src/src/python_bindings.cpp])

    The objects a program holds: a memory map, the index that was built on it,
    and a quantizer.  The index keeps a reference to the memory map, so that
    [open_file] and [close_file] of the Python object act on the storage of the
    index.  A program is a list of calls; a call gives a value, raises, or is
    undefined behaviour ([None]). *)

From S2P Require Import Prelude Storage MemoryMap MetadataStore Float32 PriorityQueue IndexTypes FloatExact FloatRange Distance Quantizer.
From S2P Require Import Hnsw HnswInv HnswGreedy HnswUpdate HnswSearch Bindings.
Import Bindings.

Module PySession.

(** The methods of the module with their arguments; [draws] and [syscalls] are
    what the environment decides during the call. *)
Inductive py_call :=
  | OpenFile (sc : MMapHandler.syscalls) (filepath : string) (min_size : N)
  | CloseFile
  | Insert (d : draws) (vector : list float32) (id : N) (metadata : option string)
  | Search (query : list float32) (k : option Z)
  | DeleteVector (id : N)
  | IsDeleted (id : N)
  | GetMetadata (id : N)
  | Size
  | Metric
  | Train (vectors : list (list float32))
  | Quantize (vector : list float32)
  | Dequantize (vector : list Z) (dim : nat)
  | IsTrained
  | Dim.

Inductive py_value :=
  | VNone
  | VRaise (what : string)
  | VResults (rs : list Result)
  | VBool (b : bool)
  | VText (t : string)
  | VCount (n : N)
  | VMetric (m : DistanceMetric)
  | VBytes (l : list Z)
  | VFloats (l : list float32).

Record session := MkSession {
  ss_index : Hnsw.t;
  ss_quantizer : ScalarQuantizer.t;
}.

Definition with_index (x : Hnsw.t) (s : session) : session := MkSession x (ss_quantizer s).

(** The memory map of the index, after a method of the Python object that
    shares it. *)
Definition with_storage (h : MMapHandler.t) (disk : gmap string image) (x : Hnsw.t) : Hnsw.t :=
  Hnsw.Mk h disk (metadata_storage_ x) (metric_ x) (entry_point_id_ x) (current_max_layer_ x) (element_count_ x) (node_locks_ x).

Definition value {A} (f : A -> py_value) (o : outcome A) : py_value :=
  match o with Ret x => f x | Throw w => VRaise w end.

Definition py_open_file (sc : MMapHandler.syscalls) (filepath : string) (min_size : N) (x : Hnsw.t) : outcome unit * Hnsw.t :=
  let '(r, h, disk) := MMapHandler.open_file sc filepath min_size (storage_ x) (disk_ x) in (r, with_storage h disk x).

Definition py_close_file (x : Hnsw.t) : Hnsw.t := with_storage (MMapHandler.close_file (storage_ x)) (disk_ x) x.

Section fused.
Context (fused : bool).

Definition exec_call (c : py_call) (s : session) : option (py_value * session) :=
  let x := ss_index s in
  let q := ss_quantizer s in
  match c with
  | OpenFile sc filepath min_size =>
    let '(r, x) := py_open_file sc filepath min_size x in Some (value (fun _ => VNone) r, with_index x s)
  | CloseFile => Some (VNone, with_index (py_close_file x) s)
  | Insert d vector id metadata =>
    '(r, x) ← py_insert fused d vector id metadata x; Some (value (fun _ => VNone) r, with_index x s)
  | Search query k => rs ← py_search fused query k x; Some (VResults rs, s)
  | DeleteVector id => x ← delete_vector id x; Some (VNone, with_index x s)
  | IsDeleted id => b ← is_deleted id x; Some (VBool b, s)
  | GetMetadata id => Some (VText (get_metadata id x), s)
  | Size => Some (VCount (Hnsw.size x), s)
  | Metric => Some (VMetric (metric x), s)
  | Train vectors => q ← py_train vectors q; Some (VNone, MkSession x q)
  | Quantize vector => r ← py_quantize fused vector q; Some (value VBytes r, s)
  | Dequantize vector dim => r ← py_dequantize fused vector dim q; Some (value VFloats r, s)
  | IsTrained => Some (VBool (ScalarQuantizer.is_trained q), s)
  | Dim => Some (VCount (N.of_nat (ScalarQuantizer.dim q)), s)
  end.

Fixpoint exec_calls (cs : list py_call) (s : session) : option (list py_value * session) :=
  match cs with
  | [] => Some ([], s)
  | c :: cs => '(v, s) ← exec_call c s; '(vs, s) ← exec_calls cs s; Some (v :: vs, s)
  end.

(** ** What a program can rely on *)

(** A session as its user sees it: the size of the file, the vectors by id with
    their tombstones, the texts by id, the count, the metric, and the sample of
    the last training, empty before the first. *)
Record py_spec := MkPySpec {
  ps_size : N;
  ps_vectors : gmap N (list float32 * bool);
  ps_texts : gmap N string;
  ps_count : N;
  ps_metric : DistanceMetric;
  ps_sample : list (list float32);
}.

(** A slot of the file that was never written. *)
Definition blank : list float32 * bool := (replicate VECTOR_DIM fzero, false).

Definition slot_of (id : N) (sp : py_spec) : list float32 * bool := default blank (ps_vectors sp !! id).

(** What a call changes.  An insertion counts also when it replaces a vector,
    and the deletion of a slot that is not marked counts also when nothing was
    ever inserted there. *)
Definition spec_call (c : py_call) (sp : py_spec) : py_spec :=
  let '(MkPySpec size vectors texts count metric sample) := sp in
  match c with
  | Insert _ vector id metadata =>
    MkPySpec (grown_size id size) (<[id := (vector, false)]> vectors)
      (if default "" metadata =?? "" then texts else <[id := default "" metadata]> texts) (count +u 1) metric sample
  | DeleteVector id =>
    if size <?? slot_end id then sp
    else let '(vector, deleted) := slot_of id sp in
      MkPySpec size (<[id := (vector, true)]> vectors) texts (if deleted then count else count -u 1) metric sample
  | Train [] => sp
  | Train vectors' => MkPySpec size vectors texts count metric vectors'
  | _ => sp
  end.

Definition sample_dim (sample : list (list float32)) : nat := default 0%nat (length <$> head sample).

(** The arguments that the methods rely on. *)
Definition call_ok (sp : py_spec) (c : py_call) : Prop :=
  match c with
  | OpenFile _ _ _ | CloseFile => False
  | Insert d vector id _ =>
    (get_random_level d < Z.of_nat MAX_LAYERS)%Z /\ d_sys d = MMapHandler.all_succeed /\ length vector = VECTOR_DIM /\
    id < INT_LIMIT /\ id <= (ps_size sp - HEADER_SIZE) / SIZEOF_NODE
  | Search query k => (VECTOR_DIM <= length query)%nat /\ (default 5 k <= 2147483647)%Z
  | GetMetadata id => id < U32
  | Train vectors => vectors = [] \/ trainable (sample_dim vectors) vectors
  | Quantize vector => ps_sample sp <> [] -> Forall finite vector /\ (length vector <= sample_dim (ps_sample sp))%nat
  | Dequantize codes dim => ps_sample sp <> [] -> (dim <= sample_dim (ps_sample sp))%nat /\ (dim <= length codes)%nat
  | _ => True
  end.

(** A program all of whose calls have such arguments. *)
Fixpoint admissible (cs : list py_call) (sp : py_spec) : Prop :=
  match cs with
  | [] => True
  | c :: cs => call_ok sp c /\ admissible cs (spec_call c sp)
  end.

(** The distance of a stored vector from a query. *)
Definition spec_distance (sp : py_spec) (query vector : list float32) : float32 :=
  compute_distance fused query vector VECTOR_DIM (ps_metric sp).

Record results_ok (sp : py_spec) (query : list float32) (k : Z) (rs : list Result) : Prop := {
  ro_nodup : NoDup (r_id <$> rs);
  ro_live r : r ∈ rs -> exists vector, ps_vectors sp !! r_id r = Some (vector, false) /\ r_distance r = spec_distance sp query vector;
  ro_text r : r ∈ rs -> r_id r < U32 -> r_metadata r = default "" (ps_texts sp !! r_id r);
  ro_length : (Z.of_nat (length rs) <= if bool_decide (0 <= k)%Z then k else 100)%Z;
  ro_sorted : (forall id x, ps_vectors sp !! id = Some x -> is_nan (spec_distance sp query x.1) = false) ->
    StronglySorted (fun x y => fltb (r_distance y) (r_distance x) = false) rs;
}.

(** Byte [b] for the number [x] of dimension [i]. *)
Definition byte_ok (sp : py_spec) (i : nat) (x : float32) (b : Z) : Prop :=
  (-127 <= b <= 127)%Z /\
  exists lo hi, ScalarQuantizer.range_of i (ps_sample sp) lo hi /\ ScalarQuantizer.quantize_one fused lo hi x = Some b /\
    (fgtb (fsub hi lo) ScalarQuantizer.range_epsilon = true -> (x = lo -> b = -127) /\ (x = hi -> b = 127))%Z.

(** Number [x] for the byte [b] of dimension [i]: the formula of [dequantize]
    on the range of the sample, and its least value for -127. *)
Definition number_ok (sp : py_spec) (i : nat) (b : Z) (x : float32) : Prop :=
  exists lo hi, ScalarQuantizer.range_of i (ps_sample sp) lo hi /\ x = ScalarQuantizer.dequantize_one fused lo hi b /\
    (b = (-127)%Z -> fltb x lo = false /\ fltb lo x = false).

(** The value of a call. *)
Definition answer_ok (sp : py_spec) (c : py_call) (v : py_value) : Prop :=
  match c with
  | Search query k => exists rs, v = VResults rs /\ results_ok sp query (default 5%Z k) rs
  | IsDeleted id => v = VBool (default false (snd <$> ps_vectors sp !! id))
  | GetMetadata id => v = VText (default "" (ps_texts sp !! id))
  | Size => v = VCount (ps_count sp)
  | Metric => v = VMetric (ps_metric sp)
  | IsTrained => v = VBool (negb (bool_decide (ps_sample sp = [])))
  | Dim => v = VCount (N.of_nat (sample_dim (ps_sample sp)))
  | Quantize vector =>
    if bool_decide (ps_sample sp = []) then v = VRaise ScalarQuantizer.not_trained
    else exists out, v = VBytes out /\ length out = length vector /\
      forall i x b, vector !! i = Some x -> out !! i = Some b -> byte_ok sp i x b
  | Dequantize codes dim =>
    if bool_decide (ps_sample sp = []) then v = VRaise ScalarQuantizer.not_trained
    else exists out, v = VFloats out /\ length out = dim /\
      forall i b x, codes !! i = Some b -> out !! i = Some x -> number_ok sp i b x
  | _ => v = VNone
  end.

Fixpoint answers (cs : list py_call) (vs : list py_value) (sp : py_spec) : Prop :=
  match cs, vs with
  | [], [] => True
  | c :: cs, v :: vs => answer_ok sp c v /\ answers cs vs (spec_call c sp)
  | _, _ => False
  end.

(** ** The objects represent it *)

Definition quantizer_of (sample : list (list float32)) (q : ScalarQuantizer.t) : Prop :=
  match sample with
  | [] => ScalarQuantizer.trained_ q = false /\ ScalarQuantizer.dim_ q = 0%nat
  | _ => ScalarQuantizer.trained_ q = true /\ ScalarQuantizer.dim_ q = sample_dim sample /\ trainable (sample_dim sample) sample /\
    forall i, (i < sample_dim sample)%nat -> exists lo hi,
      ScalarQuantizer.min_ q !! i = Some lo /\ ScalarQuantizer.max_ q !! i = Some hi /\ ScalarQuantizer.range_of i sample lo hi
  end.

Record represents (sp : py_spec) (s : session) (img : image) : Prop := {
  rp_wf : index_wf (ss_index s) img;
  rp_size : i_size img = ps_size sp;
  rp_slot id : in_range img id -> payload img id = Some (slot_of id sp);
  rp_known id : occupied img id -> is_Some (ps_vectors sp !! id);
  rp_text id : id < U32 -> get_metadata id (ss_index s) = default "" (ps_texts sp !! id);
  rp_count : element_count_ (ss_index s) = ps_count sp;
  rp_metric : metric_ (ss_index s) = ps_metric sp;
  rp_quantizer : quantizer_of (ps_sample sp) (ss_quantizer s);
  rp_inside id x : ps_vectors sp !! id = Some x -> in_range img id;
}.

Lemma in_range_size img img' id : i_size img <= i_size img' -> in_range img id -> in_range img' id.
Proof. unfold in_range. lia. Qed.

(** A slot that no insertion or deletion has reached. *)
Lemma unoccupied_blank img id : in_range img id -> ~ occupied img id -> payload img id = Some blank.
Proof.
  intros Hr Ho. unfold payload, get_node. rewrite bool_decide_eq_true_2 by exact Hr.
  destruct (i_nodes img !! id) as [n|] eqn:E; [|done]. destruct Ho. by exists n.
Qed.

Lemma represents_insert d vec id m sp x q img :
  represents sp (MkSession x q) img -> call_ok sp (Insert d vec id m) ->
  exists x' img', py_insert fused d vec id m x = Some (Ret tt, x') /\ represents (spec_call (Insert d vec id m) sp) (MkSession x' q) img'.
Proof.
  intros [Hix Hsz Hsl Hkn Htx Hct Hme Hq Hins] (H1 & H2 & H3 & H4 & H5). cbn [ss_index ss_quantizer] in *.
  destruct (insert_spec fused d vec id (default "" m) x img) as (x' & i' & E & Hix' & Hsz' & Hd & Hp & Ho & [I1 I2 I3 I4 I5]);
    [done..|by unfold slots; rewrite Hsz|].
  assert (i_size img <= i_size i') as Hgrow by (rewrite Hsz'; apply grown_size_le).
  assert (in_range i' id) as Hid by (unfold payload in Hp; destruct (get_node id i') eqn:Eg; [by eapply get_node_in_range|done]).
  exists x', i'. split; [exact E|]. destruct sp as [size vectors texts count mt sample]. cbn [ps_size ps_vectors ps_texts ps_count ps_metric ps_sample] in *.
  split; cbn [spec_call ss_index ss_quantizer ps_size ps_vectors ps_texts ps_count ps_metric ps_sample]; [exact Hix'|by rewrite Hsz', Hsz| | | | | |exact Hq|].
  - intros id' Hr. unfold slot_of. cbn [ps_vectors]. destruct (decide (id' = id)) as [->|Hne]; [by rewrite lookup_insert_eq|].
    rewrite lookup_insert_ne by done. destruct (decide (slot_end id' <= i_size img)) as [Hin|Hout]; [by apply Ho, (Hsl id' Hin)|].
    assert (vectors !! id' = None) as -> by (destruct (vectors !! id') eqn:Ev; [|done]; destruct Hout; exact (Hins _ _ Ev)).
    apply unoccupied_blank; [exact Hr|]. rewrite occupied_dom, Hd. intros Hd'. apply Hout.
    apply (occupied_in_range img id' (ix_image _ _ Hix)), occupied_dom. set_solver.
  - intros id'. rewrite occupied_dom, Hd, elem_of_union, elem_of_singleton, <-occupied_dom. destruct (decide (id' = id)) as [->|Hne].
    + rewrite lookup_insert_eq. by eexists.
    + rewrite lookup_insert_ne by done. intros [?|?]; [done|by apply Hkn].
  - intros id' Hlim. case_bool_decide as Em.
    + destruct (decide (id' = id)) as [->|Hne]; [by rewrite I4; auto|by rewrite I5; auto].
    + destruct (decide (id' = id)) as [->|Hne]; [rewrite lookup_insert_eq; by apply I3|rewrite lookup_insert_ne, I5 by done; by apply Htx].
  - by rewrite I1, Hct.
  - by rewrite I2, Hme.
  - intros id' v. destruct (decide (id' = id)) as [->|Hne]; [done|]. rewrite lookup_insert_ne by done. intros Hv.
    by eapply in_range_size, Hins.
Qed.

Lemma represents_delete id sp x q img :
  represents sp (MkSession x q) img ->
  exists x' img', delete_vector id x = Some x' /\ represents (spec_call (DeleteVector id) sp) (MkSession x' q) img'.
Proof.
  intros [Hix Hsz Hsl Hkn Htx Hct Hme Hq Hins]. cbn [ss_index ss_quantizer] in *.
  destruct (delete_spec id x img Hix) as (x' & i' & E & Hix' & Hsz' & Hocc & Hp & Ho & Hmeta & Hmet & Hc).
  exists x', i'. split; [exact E|]. destruct sp as [size vectors texts count mt sample]. cbn [ps_size ps_vectors ps_texts ps_count ps_metric ps_sample] in *.
  assert (forall id', id' < U32 -> get_metadata id' x' = default "" (texts !! id')) as Htx' by (intros; unfold get_metadata; rewrite Hmeta; by apply Htx).
  assert (forall id', in_range i' id' <-> in_range img id') as Hrr by (intros; unfold in_range; by rewrite Hsz').
  cbn [spec_call]. case_bool_decide as Hr.
  { assert (payload img id = None) as Hnone by (unfold payload, get_node; rewrite bool_decide_eq_false_2; [done|rewrite Hsz; lia]).
    rewrite Hnone in Hp, Hc. rewrite decide_False in Hc by done. split; cbn; try done; try congruence.
    - intros id' Hr'%Hrr. destruct (decide (id' = id)) as [->|Hne]; [unfold in_range in Hr'; lia|]. rewrite Ho by done. by apply Hsl.
    - intros id' Ho'. destruct (Hocc _ Ho') as [?| ->]; [by apply Hkn|].
      apply (occupied_in_range i' id (ix_image _ _ Hix')), Hrr in Ho'. unfold in_range in Ho'. lia.
    - intros id' v Hv. by apply Hrr, (Hins id' v). }
  assert (in_range img id) as Hir by (unfold in_range; lia). pose proof (Hsl id Hir) as Hpay. rewrite Hpay in Hp, Hc.
  destruct (slot_of id (MkPySpec size vectors texts count mt sample)) as [v del] eqn:Es.
  split; cbn [ss_index ss_quantizer ps_size ps_vectors ps_texts ps_count ps_metric ps_sample]; [done|congruence| | |done| |congruence|done|].
  - intros id' Hr'%Hrr. unfold slot_of. cbn [ps_vectors]. destruct (decide (id' = id)) as [->|Hne]; [by rewrite lookup_insert_eq|].
    rewrite lookup_insert_ne, Ho by done. by apply Hsl.
  - intros id' Ho'. destruct (decide (id' = id)) as [->|Hne]; [rewrite lookup_insert_eq; by eexists|]. rewrite lookup_insert_ne by done.
    destruct (Hocc _ Ho') as [?|?]; [by apply Hkn|done].
  - rewrite Hc, Hct. by destruct del.
  - intros id' y. destruct (decide (id' = id)) as [->|Hne]; [by rewrite Hrr|]. rewrite lookup_insert_ne by done. intros Hy.
    by apply Hrr, (Hins id' y).
Qed.

Lemma is_deleted_spec id x img :
  index_wf x img -> is_deleted id x = Some (default false (snd <$> payload img id)).
Proof.
  intros [Hm Hw _ _ _ _]. unfold is_deleted, out_of_range, payload. pose proof (proj2 Hm) as Hsz.
  cbn [c_size image_contents] in Hsz. rewrite Hsz. case_bool_decide as Hr.
  { unfold get_node. by rewrite bool_decide_eq_false_2 by lia. }
  unfold data. rewrite (proj1 Hm). cbn [mbind option_bind].
  destruct (get_node_wf img id Hw) as (n & -> & _); [unfold in_range; lia|]. done.
Qed.

Lemma represents_search query k sp s img :
  represents sp s img -> (VECTOR_DIM <= length query)%nat -> (k <= 2147483647)%Z ->
  exists rs, search fused query k (ss_index s) = Some rs /\ results_ok sp query k rs.
Proof.
  intros [Hix Hsz Hsl Hkn Htx Hct Hme Hq Hins] Hlen Hk.
  destruct (search_sound_aux fused query k (ss_index s) img) as (rs & E & [Hnd Hlive Hl Hl' Hsort]);
    [done|done|change (Z.of_N U64) with 18446744073709551616%Z; lia|].
  exists rs. split; [exact E|]. rewrite Forall_forall in Hlive.
  assert (forall id n, i_nodes img !! id = Some n -> ps_vectors sp !! id = Some (n_vector n, n_deleted n)) as Hnode.
  { intros id n Hn. assert (occupied img id) as Ho by (by exists n). destruct (Hkn id Ho) as [x Hx].
    pose proof (occupied_in_range img id (ix_image _ _ Hix) Ho) as Hr. specialize (Hsl id Hr). unfold slot_of in Hsl. rewrite Hx in Hsl |- *.
    unfold payload, get_node in Hsl. rewrite bool_decide_eq_true_2, Hn in Hsl by exact Hr. cbn in Hsl. unfold Datatypes.id in Hsl. by injection Hsl as <-. }
  split; [exact Hnd| | | |].
  - intros r Hr. destruct (Hlive r Hr) as (n & Hn & Hdel & Hdist & _). exists (n_vector n). rewrite (Hnode _ _ Hn), Hdel. split; [done|].
    unfold spec_distance. by rewrite <-Hme.
  - intros r Hr Hlim. destruct (Hlive r Hr) as (n & _ & _ & _ & ->). by apply Htx.
  - case_bool_decide; [by apply Hl|apply Hl'; lia].
  - intros Hnum. apply Hsort. intros id n Hn. unfold spec_distance in Hnum. rewrite <-Hme in Hnum. exact (Hnum _ _ (Hnode id n Hn)).
Qed.

Lemma represents_is_deleted id sp s img :
  represents sp s img -> is_deleted id (ss_index s) = Some (default false (snd <$> ps_vectors sp !! id)).
Proof.
  intros [Hix Hsz Hsl Hkn Htx Hct Hme Hq Hins]. rewrite (is_deleted_spec id _ img Hix).
  destruct (decide (slot_end id <= i_size img)) as [Hr|Hr].
  - rewrite (Hsl id Hr). unfold slot_of. by destruct (ps_vectors sp !! id).
  - unfold payload, get_node. rewrite bool_decide_eq_false_2 by exact Hr.
    destruct (ps_vectors sp !! id) eqn:E; [|done]. destruct Hr. exact (Hins _ _ E).
Qed.

(** ** The quantizer *)

Lemma dequantize_low lo hi :
  finite lo -> finite (fsub hi lo) ->
  fltb (ScalarQuantizer.dequantize_one fused lo hi (-127)) lo = false /\ fltb lo (ScalarQuantizer.dequantize_one fused lo hi (-127)) = false.
Proof.
  intros Hlo Hr. unfold ScalarQuantizer.dequantize_one.
  assert (fdiv (fadd (f_of_Z (-127)) (f_of_Z 127)) (f_of_Z 254) = S754_zero false) as -> by (vm_compute; reflexivity).
  assert (exists s, fmul (S754_zero false) (fsub hi lo) = S754_zero s) as [s Es] by (destruct (fsub hi lo); try done; by eexists).
  assert (muladd fused (S754_zero false) (fsub hi lo) lo = fadd (S754_zero s) lo \/
          muladd fused (S754_zero false) (fsub hi lo) lo = fadd lo (S754_zero s)) as [-> | ->].
  { unfold muladd, ffma. rewrite Es. destruct fused; [by left|by right]. }
  all: destruct lo as [b| | |b m e]; try done; [by destruct s, b|]; split; apply fltb_irrefl.
Qed.

Lemma range_finite i sample lo hi :
  trainable (sample_dim sample) sample -> ScalarQuantizer.range_of i sample lo hi -> finite lo /\ finite hi /\ finite (fsub hi lo).
Proof.
  intros [Hsm Hdiff] (H1 & H2 & _). pose proof (ScalarQuantizer.column_finite i _ (ScalarQuantizer.sm_finite _ _ Hsm)) as Hcol.
  rewrite Forall_forall in Hcol. split; [by apply Hcol|]. split; [by apply Hcol|by apply (Hdiff i)].
Qed.

Lemma represents_quantize vec sp q :
  quantizer_of (ps_sample sp) q -> call_ok sp (Quantize vec) ->
  exists r, py_quantize fused vec q = Some r /\ answer_ok sp (Quantize vec) (value VBytes r).
Proof.
  unfold quantizer_of, call_ok, answer_ok, py_quantize, ScalarQuantizer.quantize. destruct (ps_sample sp) as [|v0 vs] eqn:Esm.
  { intros [Ht _] _. rewrite Ht. eexists. split; [reflexivity|]. by rewrite bool_decide_eq_true_2. }
  rewrite <-Esm. intros (Ht & Hd & Htr & Hr) Hok. rewrite Ht. cbn [negb]. destruct Hok as [Hf Hlen]; [by rewrite Esm|].
  destruct (ScalarQuantizer.mapM_seq_spec (fun i => lo ← ScalarQuantizer.min_ q !! i; hi ← ScalarQuantizer.max_ q !! i; x ← vec !! i;
    ScalarQuantizer.quantize_one fused lo hi x) (length vec) (fun i b => forall x, vec !! i = Some x -> byte_ok sp i x b)) as (out & -> & Hl & Hout).
  { intros i Hi. destruct (Hr i ltac:(lia)) as (lo & hi & -> & -> & Hrange). destruct (lookup_lt_is_Some_2 vec i Hi) as [x Hx]. rewrite Hx.
    cbn [mbind option_bind]. destruct (range_finite i _ lo hi Htr Hrange) as (F1 & F2 & F3).
    destruct (ScalarQuantizer.quantize_one_range fused lo hi x F1 F2 (Forall_lookup_1 _ _ _ _ Hf Hx) F3) as (b & Eb & Hb).
    exists b. split; [exact Eb|]. intros y [= <-]. split; [exact Hb|]. exists lo, hi. split; [exact Hrange|]. split; [exact Eb|].
    intros He. destruct (ScalarQuantizer.quantize_one_ends fused lo hi F1 F2 F3 He) as [E1 E2]. split; intros ->; congruence. }
  cbn [mbind option_bind value]. eexists. split; [reflexivity|]. rewrite bool_decide_eq_false_2 by (by rewrite Esm).
  exists out. split; [done|]. split; [exact Hl|]. intros i x b Hx Hb. exact (Hout i b Hb x Hx).
Qed.

Lemma represents_dequantize codes n sp q :
  quantizer_of (ps_sample sp) q -> call_ok sp (Dequantize codes n) ->
  exists r, py_dequantize fused codes n q = Some r /\ answer_ok sp (Dequantize codes n) (value VFloats r).
Proof.
  unfold quantizer_of, call_ok, answer_ok, py_dequantize, ScalarQuantizer.dequantize. destruct (ps_sample sp) as [|v0 vs] eqn:Esm.
  { intros [Ht _] _. rewrite Ht. eexists. split; [reflexivity|]. by rewrite bool_decide_eq_true_2. }
  rewrite <-Esm. intros (Ht & Hd & Htr & Hr) Hok. rewrite Ht. cbn [negb]. destruct Hok as [Hn Hlen]; [by rewrite Esm|].
  destruct (ScalarQuantizer.mapM_seq_spec (fun i => lo ← ScalarQuantizer.min_ q !! i; hi ← ScalarQuantizer.max_ q !! i; b ← codes !! i;
    Some (ScalarQuantizer.dequantize_one fused lo hi b)) n (fun i x => forall b, codes !! i = Some b -> number_ok sp i b x)) as (out & -> & Hl & Hout).
  { intros i Hi. destruct (Hr i ltac:(lia)) as (lo & hi & -> & -> & Hrange). destruct (lookup_lt_is_Some_2 codes i ltac:(lia)) as [b Hb].
    rewrite Hb. cbn [mbind option_bind]. destruct (range_finite i _ lo hi Htr Hrange) as (F1 & _ & F3).
    eexists. split; [reflexivity|]. intros b' [= <-]. exists lo, hi. split; [exact Hrange|]. split; [reflexivity|].
    intros ->. by apply dequantize_low. }
  cbn [mbind option_bind value]. eexists. split; [reflexivity|]. rewrite bool_decide_eq_false_2 by (by rewrite Esm).
  exists out. split; [done|]. split; [exact Hl|]. intros i b x Hb Hx. exact (Hout i x Hx b Hb).
Qed.

Lemma represents_train vecs sp x q img :
  represents sp (MkSession x q) img -> call_ok sp (Train vecs) ->
  exists q', py_train vecs q = Some q' /\ represents (spec_call (Train vecs) sp) (MkSession x q') img.
Proof.
  intros Hrep Hok. destruct sp as [size vectors texts count mt sample]. destruct vecs as [|v0 vs].
  { exists q. by split. }
  destruct Hok as [?|Htr]; [done|]. pose proof Htr as [Hsm _].
  destruct (ScalarQuantizer.train_spec _ _ q Hsm) as (q' & E & Ht & Hd & _ & _ & Hr). exists q'. split; [exact E|].
  destruct Hrep as [Hix Hsz Hsl Hkn Htx Hct Hme _ Hins]. by split.
Qed.

(** ** Calls and programs *)

Lemma represents_call c sp s img :
  represents sp s img -> call_ok sp c ->
  exists v s' img', exec_call c s = Some (v, s') /\ answer_ok sp c v /\ represents (spec_call c sp) s' img'.
Proof.
  destruct s as [x q]. intros Hrep Hok. pose proof Hrep as [_ _ _ _ Htx Hct Hme Hq _]. cbn [ss_index ss_quantizer] in *.
  assert (forall c, match c with Insert _ _ _ _ | DeleteVector _ | Train _ => False | _ => True end -> spec_call c sp = sp) as Hsame
    by (intros []; by destruct sp).
  destruct c as [sc path n| |d vec id m|query k|id|id|id| | |vecs|vec|codes n| |]; try done; cbn [exec_call ss_index ss_quantizer].
  - destruct (represents_insert d vec id m sp x q img Hrep Hok) as (x' & i' & -> & Hr). by exists VNone, (MkSession x' q), i'.
  - destruct Hok as [H1 H2]. destruct (represents_search query (default 5%Z k) sp _ img Hrep H1 H2) as (rs & E & Hrs).
    cbn [ss_index] in E. unfold py_search. rewrite E. exists (VResults rs), (MkSession x q), img. rewrite Hsame by done. split; [done|]. split; [by exists rs|done].
  - destruct (represents_delete id sp x q img Hrep) as (x' & i' & -> & Hr). by exists VNone, (MkSession x' q), i'.
  - pose proof (represents_is_deleted id sp _ img Hrep) as E. cbn [ss_index] in E. rewrite E.
    eexists _, (MkSession x q), img. rewrite Hsame by done. by split_and!.
  - eexists _, (MkSession x q), img. rewrite Hsame by done. split; [done|]. split; [|done]. cbn. by rewrite Htx.
  - eexists _, (MkSession x q), img. rewrite Hsame by done. split; [done|]. split; [|done]. cbn. unfold Hnsw.size. by rewrite Hct.
  - eexists _, (MkSession x q), img. rewrite Hsame by done. split; [done|]. split; [|done]. cbn. unfold metric. by rewrite Hme.
  - destruct (represents_train vecs sp x q img Hrep Hok) as (q' & -> & Hr). by exists VNone, (MkSession x q'), img.
  - destruct (represents_quantize vec sp q Hq Hok) as (r & -> & Hr). eexists _, (MkSession x q), img. rewrite Hsame by done. by split_and!.
  - destruct (represents_dequantize codes n sp q Hq Hok) as (r & -> & Hr). eexists _, (MkSession x q), img. rewrite Hsame by done. by split_and!.
  - eexists _, (MkSession x q), img. rewrite Hsame by done. split; [done|]. split; [|done]. cbn. unfold ScalarQuantizer.is_trained.
    unfold quantizer_of in Hq. destruct (ps_sample sp); destruct Hq as [-> _]; done.
  - eexists _, (MkSession x q), img. rewrite Hsame by done. split; [done|]. split; [|done]. cbn. unfold ScalarQuantizer.dim.
    unfold quantizer_of in Hq. destruct (ps_sample sp); [by destruct Hq as [_ ->]|by destruct Hq as (_ & -> & _)].
Qed.

Fixpoint spec_calls (cs : list py_call) (sp : py_spec) : py_spec :=
  match cs with [] => sp | c :: cs => spec_calls cs (spec_call c sp) end.

Lemma represents_calls cs sp s img :
  represents sp s img -> admissible cs sp ->
  exists vs s' img', exec_calls cs s = Some (vs, s') /\ answers cs vs sp /\ represents (spec_calls cs sp) s' img'.
Proof.
  revert sp s img. induction cs as [|c cs IH]; intros sp s img Hrep Hok; [by exists [], s, img|]. destruct Hok as [Hc Hok].
  destruct (represents_call c sp s img Hrep Hc) as (v & s1 & i1 & E1 & Ha & Hrep1).
  destruct (IH _ s1 i1 Hrep1 Hok) as (vs & s2 & i2 & E2 & Has & Hrep2).
  exists (v :: vs), s2, i2. cbn [exec_calls]. rewrite E1. cbn [mbind option_bind]. rewrite E2. cbn [mbind option_bind]. by split_and!.
Qed.

(** ** Closing the file under the index *)

Lemma closed_data x : data (py_close_file x) = None.
Proof.
  unfold data, py_close_file, MMapHandler.get_data, MMapHandler.close_file. cbn [storage_ disk_ with_storage].
  by destruct (MMapHandler.data_ (storage_ x)) eqn:E; cbn [MMapHandler.data_]; rewrite ?E.
Qed.

Lemma closed_size x : MMapHandler.get_size (storage_ (py_close_file x)) = MMapHandler.get_size (storage_ x).
Proof. unfold py_close_file, MMapHandler.close_file. cbn [storage_ with_storage]. by destruct (MMapHandler.data_ (storage_ x)). Qed.

(** Opening the same file again brings the index back. *)
Lemma reopened_wf x img min_size :
  index_wf x img -> min_size <= i_size img ->
  exists x', py_open_file MMapHandler.all_succeed (MMapHandler.file_path_ (storage_ x)) min_size (py_close_file x) = (Ret tt, x') /\
    index_wf x' img /\ element_count_ x' = element_count_ x /\ entry_point_id_ x' = entry_point_id_ x.
Proof.
  intros [Hm Hw Hmeta He Hmag Hhd] Hsz. pose proof (proj1 Hm) as Hg. unfold MMapHandler.get_data in Hg.
  destruct (MMapHandler.data_ (storage_ x)) eqn:Ed; [done|done|].
  unfold py_open_file. cbn [disk_ py_close_file with_storage].
  destruct (MMapHandler.open_spec (MMapHandler.file_path_ (storage_ x)) min_size (storage_ (py_close_file x)) (disk_ x))
    as (h & disk & E & Hm' & _). rewrite Hg in Hm'. cbn [default from_option] in Hm'.
  rewrite bool_decide_eq_false_2 in Hm' by (cbn [c_size image_contents]; unfold Datatypes.id; lia). rewrite E.
  eexists. split; [reflexivity|]. by split.
Qed.
End fused.


(** [close_file] of the memory map pulls the file from under the index.
    On an index that has an entry point, after [close_file] every search with a
    full vector, and every insertion, deletion and [is_deleted] of an id inside
    the file dereferences the null pointer, while [size] and [get_metadata]
    still answer as before; opening the same file again brings everything
    back. *)
Theorem py_close_then_search (fused : bool) (x : Hnsw.t) (q : ScalarQuantizer.t) (img : image) :
  index_wf x img -> entry_point_id_ x <> NO_ENTRY ->
  exists s, exec_call fused CloseFile (MkSession x q) = Some (VNone, s) /\
    (forall query k, (VECTOR_DIM <= length query)%nat -> exec_call fused (Search query k) s = None) /\
    (forall d v id m, in_range img id -> exec_call fused (Insert d v id m) s = None) /\
    (forall id, in_range img id -> exec_call fused (DeleteVector id) s = None /\ exec_call fused (IsDeleted id) s = None) /\
    exec_call fused Size s = Some (VCount (element_count_ x), s) /\
    (forall id, exec_call fused (GetMetadata id) s = Some (VText (get_metadata id x), s)) /\
    forall min_size, min_size <= i_size img ->
      exists s', exec_call fused (OpenFile MMapHandler.all_succeed (MMapHandler.file_path_ (storage_ x)) min_size) s = Some (VNone, s') /\
        index_wf (ss_index s') img /\ entry_point_id_ (ss_index s') = entry_point_id_ x.
Proof.
  intros Hix He. exists (MkSession (py_close_file x) q). split; [done|]. pose proof (closed_data x) as Hd.
  pose proof (closed_size x) as Hc. rewrite (proj2 (ix_mapped _ _ Hix)) in Hc. cbn [c_size image_contents] in Hc.
  split_and!; cbn [exec_call ss_index ss_quantizer].
  - intros query k Hq. unfold py_search, search. rewrite bool_decide_eq_false_2 by done.
    rewrite bool_decide_eq_false_2 by lia. by rewrite Hd.
  - intros d v id m Hr. unfold py_insert, insert, expand. rewrite Hc, bool_decide_eq_false_2 by (unfold in_range in Hr; lia).
    by rewrite Hd.
  - intros id Hr. unfold delete_vector, is_deleted, out_of_range. rewrite Hc, bool_decide_eq_false_2 by (unfold in_range in Hr; lia).
    by rewrite Hd.
  - done.
  - done.
  - intros min_size Hm. destruct (reopened_wf x img min_size Hix Hm) as (x' & E & Hix' & _ & He'). rewrite E.
    exists (MkSession x' q). by split_and!.
Qed.

(** A new index and a new quantizer. *)
Definition new_session : py_spec := MkPySpec PREALLOCATION ∅ ∅ 0 L2 [].

Definition some_calls : list py_call :=
  [Insert ground ones 0 (Some "tag"); Search ones None; DeleteVector 0; IsDeleted 0; GetMetadata 0; Size;
   Quantize ones; Train [[fone; fzero]; [f_of_Z 3; fzero]]; Quantize [fone; fone]; Dim].

Lemma sample_trainable : trainable 2 [[fone; fzero]; [f_of_Z 3; fzero]].
Proof.
  split; [split; [discriminate|by repeat constructor|by repeat constructor]|].
  intros [|[|i]] a b Ha Hb; cbn in Ha, Hb;
    repeat (apply elem_of_cons in Ha as [->|Ha]); try (by apply not_elem_of_nil in Ha);
    repeat (apply elem_of_cons in Hb as [->|Hb]); try (by apply not_elem_of_nil in Hb); vm_compute; repeat split; discriminate.
Qed.

Lemma some_calls_ok : admissible some_calls new_session.
Proof.
  unfold some_calls. cbn [admissible call_ok]. split_and!; try exact I.
  - vm_compute. reflexivity.
  - reflexivity.
  - reflexivity.
  - reflexivity.
  - vm_compute. discriminate.
  - vm_compute. lia.
  - vm_compute. discriminate.
  - vm_compute. reflexivity.
  - intros H. by destruct H.
  - right. exact sample_trainable.
  - intros _. split; [by repeat constructor|vm_compute; lia].
Qed.

Lemma new_represents :
  exists x img, new_index = Some x /\ represents new_session (MkSession x ScalarQuantizer.create) img.
Proof.
  destruct (create_fresh "index") as (h & disk & x & img & Eo & Ec & Hix & Hn & Hsz & Hmeta & Hmet & _ & Hc & _).
  exists x, img. split; [unfold new_index; rewrite Eo; exact Ec|]. split; cbn [ss_index ss_quantizer new_session ps_size ps_count ps_metric ps_sample ps_vectors ps_texts].
  - exact Hix.
  - exact Hsz.
  - intros id Hr. apply unoccupied_blank; [exact Hr|]. unfold occupied. rewrite Hn, lookup_empty. by intros [].
  - unfold occupied. rewrite Hn. intros id [? H]. by rewrite lookup_empty in H.
  - intros id _. unfold get_metadata. rewrite Hmeta, lookup_empty. cbn. unfold MetadataHandler.get_metadata. cbn. by repeat case_bool_decide.
  - exact Hc.
  - exact Hmet.
  - done.
  - intros id y. by rewrite lookup_empty.
Qed.

Lemma some_answers vs :
  answers true some_calls vs new_session ->
  exists rs out, vs = [VNone; VResults rs; VNone; VBool true; VText "tag"; VCount 0; VRaise ScalarQuantizer.not_trained; VNone; VBytes out; VCount 2] /\
    length out = 2%nat.
Proof.
  unfold some_calls. do 10 (destruct vs as [|? vs]; cbn [answers]; [tauto|]).
  intros (-> & (rs & -> & _) & -> & -> & -> & -> & H7 & -> & H9 & -> & H). destruct vs; [|done].
  cbn in H7. rewrite bool_decide_eq_true_2 in H7 by done. cbn in H9. rewrite bool_decide_eq_false_2 in H9 by done.
  destruct H9 as (out & -> & Hl & _). subst. by exists rs, out.
Qed.


Lemma py_close_then_search_witness :
  exists x s, one_vector = Some x /\ exec_call true CloseFile (MkSession x ScalarQuantizer.create) = Some (VNone, s) /\
    exec_call true (Search ones None) s = None /\ exec_call true (IsDeleted 0) s = None.
Proof.
  destruct one_vector_wf as (x & img & E & Hix & He & _ & _ & _ & Hsz & _).
  destruct (py_close_then_search true x ScalarQuantizer.create img Hix) as (s & Ec & Hs & _ & Hd & _).
  - rewrite He. discriminate.
  - exists x, s. split; [exact E|]. split; [exact Ec|]. split.
    + apply Hs. vm_compute. lia.
    + apply Hd. unfold in_range. rewrite Hsz. vm_compute. discriminate.
Defined.
End PySession.
