(* ===== verification/Http.v ===== *)
(** * HTTP responses and conversions shared by the servers

    [src/src/server.cpp] and [src/cluster/coordinator_main.cpp] answer with a
    status and a JSON text.  The body is the JSON value that the text denotes;
    the text of an exception is not modelled. *)

From S2P Require Import Prelude Float32 Json.

Inductive http_body := Body (j : json) | ExceptionText.

Record response := MkResponse { rs_status : Z; rs_body : http_body }.

Definition error_response (status : Z) (message : string) : response :=
  MkResponse status (Body (j_object [("error", JString message)])).

Definition invalid_json : response := MkResponse 400 ExceptionText.

(** [get<long long>()]: not one of the library's own number types.  A
    [JFloat] must be in the range of [converts]. *)
Definition get_i64 (j : json) : option Z :=
  match j with
  | JBool b => Some (if b then 1 else 0)%Z
  | JUnsigned n => Some (if n <?? 9223372036854775808 then Z.of_N n else Z.of_N n - 18446744073709551616)%Z
  | JInteger z => Some z
  | JFloat f => trunc_float f
  | _ => None
  end.

(** [static_cast<float>] of a [double]. *)
Definition round_to_float32 (f : float64) : float32 :=
  match f with
  | S754_finite s m e => binary_normalize prec32 emax32 (cond_Zopp s (Zpos m)) e s
  | _ => f
  end.

(** [get<float>()]. *)
Definition get_float (j : json) : option float32 :=
  match j with
  | JBool b => Some (f_of_Z (if b then 1 else 0))
  | JUnsigned n => Some (f_of_Z (Z.of_N n))
  | JInteger z => Some (f_of_Z z)
  | JFloat f => Some (round_to_float32 f)
  | _ => None
  end.

(** The implicit conversion of a [float] to [double]. *)
Definition float64_of (f : float32) : float64 :=
  match f with
  | S754_finite s m e => binary_normalize prec64 emax64 (cond_Zopp s (Zpos m)) e s
  | _ => f
  end.

(** [size()] *)
Definition j_size (j : json) : nat :=
  match j with
  | JNull => 0
  | JArray l => length l
  | JObject m => length m
  | _ => 1
  end.

(** Whether the conversion of a number to an integer type that holds
    [lo .. hi - 1] is defined. *)
Definition converts (lo hi : Z) (j : json) : bool :=
  match j with
  | JFloat f => match trunc_float f with Some z => bool_decide (lo <= z < hi)%Z | None => false end
  | _ => true
  end.

(** [get<uint32_t>()] *)
Definition get_u32 (j : json) : option N :=
  match j with
  | JBool b => Some (if b then 1 else 0)
  | JUnsigned n => Some (u32 n)
  | JInteger z => Some (i32_to_u32 z)
  | JFloat f => z ← trunc_float f; Some (i32_to_u32 z)
  | _ => None
  end.
