(* ===== verification/Server.v ===== *)
(** * The single-node HTTP server ([src/src/server.cpp])

    The four handlers over one HNSW index, and [main].  [None] is undefined
    behaviour.  An exception that a handler does not catch is answered by the
    HTTP library with the status 500. *)

From S2P Require Import Prelude Storage MemoryMap MetadataStore Float32 PriorityQueue IndexTypes FloatExact Distance.
From S2P Require Import Hnsw HnswInv HnswGreedy HnswUpdate HnswSearch Json JsonDump Http.

Definition metric_to_string (m : DistanceMetric) : string :=
  match m with
  | L2 => "L2"
  | Cosine => "Cosine"
  | InnerProduct => "InnerProduct"
  end.

Definition dimension_mismatch : response := error_response 400 "vector dimension mismatch, expected 128".

Definition uncaught : response := MkResponse 500 ExceptionText.

(** [vec_json[i].get<float>()] for the [VECTOR_DIM] components; only an array
    can be indexed by a number. *)
Definition read_vector (vec_json : json) : option (list float32) :=
  match vec_json with
  | JArray l => mapM get_float l
  | _ => None
  end.

Definition id_reply (status : Z) (id : N) : response :=
  MkResponse status (Body (j_object [("status", JString "ok"); ("id", JUnsigned id)])).

Section server.
Context (fused : bool) (dump_float : float64 -> bytes).

(** ** [POST /vectors] *)

Definition post_vectors (d : draws) (text : string) (s : Hnsw.t) : option (Hnsw.t * response) :=
  match json_parse text with
  | None => Some (s, invalid_json)
  | Some body =>
    match j_at "id" body, j_at "vector" body with
    | Some id_json, Some vec_json =>
      if negb (converts 0 4294967296 id_json) then None
      else
        match get_u32 id_json with
        | None => Some (s, invalid_json)
        | Some id =>
          if negb (bool_decide (j_size vec_json = VECTOR_DIM)) then Some (s, dimension_mismatch)
          else
            match (vec ← read_vector vec_json; metadata ← j_value get_string "metadata" "" body; Some (vec, metadata)) with
            | None => Some (s, invalid_json)
            | Some (vec, metadata) =>
              '(r, s) ← insert fused d vec id metadata s;
              Some (s, match r with Ret _ => id_reply 201 id | Throw _ => uncaught end)
            end
        end
    | _, _ => Some (s, error_response 400 "missing required fields: id, vector")
    end
  end.

(** ** [POST /search] *)

Definition result_json (r : Result) : json :=
  j_object [("id", JUnsigned (r_id r)); ("distance", JFloat (float64_of (r_distance r)));
            ("metadata", JString (r_metadata r))].

Definition results_reply (rs : list Result) : response :=
  let body := j_object [("results", JArray (result_json <$> rs))] in
  match json_dump dump_float body with
  | Some _ => MkResponse 200 (Body body)
  | None => invalid_json
  end.

Definition post_search (text : string) (s : Hnsw.t) : option response :=
  match json_parse text with
  | None => Some invalid_json
  | Some body =>
    match j_at "vector" body, j_at "k" body with
    | Some vec_json, Some k_json =>
      if negb (converts (-2147483648) 2147483648 k_json) then None
      else
        match get_int k_json with
        | None => Some invalid_json
        | Some k =>
          if negb (bool_decide (j_size vec_json = VECTOR_DIM)) then Some dimension_mismatch
          else if bool_decide (k <= 0)%Z then Some (error_response 400 "k must be positive")
          else
            match read_vector vec_json with
            | None => Some invalid_json
            | Some vec => rs ← search fused vec k s; Some (results_reply rs)
            end
        end
    | _, _ => Some (error_response 400 "missing required fields: vector, k")
    end
  end.

(** ** [DELETE /vectors/(\d+)] *)

(** [std::stoul] of the digits throws when they do not fit 64 bits; its result
    is cut to the 32 bits of [id_t]. *)
Definition delete_vectors (digits : bytes) (s : Hnsw.t) : option (Hnsw.t * response) :=
  let n := digits_value digits in
  if U64 <=?? n then Some (s, uncaught)
  else
    let id := u32 n in
    s ← delete_vector id s;
    Some (s, id_reply 200 id).

(** ** [GET /stats] *)

Definition get_stats (s : Hnsw.t) : response :=
  MkResponse 200 (Body (j_object [("element_count", JUnsigned (Hnsw.size s));
    ("vector_dim", JUnsigned (N.of_nat VECTOR_DIM)); ("metric", JString (metric_to_string (Hnsw.metric s)))])).

(** ** The server *)

(** [main]: [Throw] is the exit code 1. *)
Definition server_main (sc : MMapHandler.syscalls) (data_dir : string) (disk : gmap string image)
    (metadata_file : option bytes) : option (outcome Hnsw.t) :=
  match MMapHandler.open_file sc (data_dir +:+ "/index.ndb") PREALLOCATION MMapHandler.create disk with
  | (Throw w, _, _) => Some (Throw w)
  | (Ret _, storage, disk) => index ← Hnsw.create storage disk metadata_file L2; Some (Ret index)
  end.

(** A request with what the environment contributes. *)
Inductive request :=
| PostVectors (d : draws) (text : string)
| PostSearch (text : string)
| DeleteVectors (digits : bytes)
| GetStats.

Definition handle (r : request) (s : Hnsw.t) : option (Hnsw.t * response) :=
  match r with
  | PostVectors d text => post_vectors d text s
  | PostSearch text => res ← post_search text s; Some (s, res)
  | DeleteVectors digits => delete_vectors digits s
  | GetStats => Some (s, get_stats s)
  end.

Fixpoint handle_all (rs : list request) (s : Hnsw.t) : option (Hnsw.t * list response) :=
  match rs with
  | [] => Some (s, [])
  | r :: rs => '(s, a) ← handle r s; '(s, l) ← handle_all rs s; Some (s, a :: l)
  end.
End server.

(** ** The vectors of the index *)

(** What [get_vector_data] returns, by the contents of the slot. *)
Lemma vector_data_payload s img id :
  index_wf s img ->
  Hnsw.get_vector_data id s = Some (match payload img id with Some (v, false) => v | _ => [] end).
Proof.
  intros [Hm Hw _ _ _ _]. unfold Hnsw.get_vector_data, out_of_range, data. rewrite (proj1 Hm).
  pose proof (proj2 Hm) as Hs. cbn [c_size image_contents] in Hs. rewrite Hs. unfold payload. case_bool_decide as Hr.
  - unfold get_node. by rewrite bool_decide_eq_false_2 by lia.
  - destruct (get_node_wf img id Hw) as (n & Hg & _); [unfold in_range; lia|]. cbn [mbind option_bind]. rewrite Hg. cbn.
    by destruct (n_deleted n).
Qed.

Section properties.
Context (fused : bool) (dump_float : float64 -> bytes).

(** The level of a new node is one of the layers, and the file can grow.  The
    first is a restriction: [get_random_level] reaches 4 with probability
    [0.03^4], and [HnswFindings.high_level_breaks_search] shows what follows. *)
Definition draws_ok (d : draws) : Prop :=
  (get_random_level d < Z.of_nat MAX_LAYERS)%Z /\ d_sys d = MMapHandler.all_succeed.

(** The id and the vector of the body of an insertion. *)
Definition insertion (text : string) (body : json) (id : N) (vec : list float32) (metadata : string) : Prop :=
  json_parse text = Some body /\
  (exists j, j_at "id" body = Some j /\ converts 0 4294967296 j = true /\ get_u32 j = Some id) /\
  (exists j, j_at "vector" body = Some j /\ j_size j = VECTOR_DIM /\ read_vector j = Some vec) /\
  j_value get_string "metadata" "" body = Some metadata.

Lemma read_vector_length j vec : read_vector j = Some vec -> length vec = j_size j.
Proof. destruct j; try done. intros H. cbn [j_size]. symmetry. by apply mapM_Some, Forall2_length in H. Qed.

Lemma insertion_length text body id vec metadata : insertion text body id vec metadata -> length vec = VECTOR_DIM.
Proof. intros (_ & _ & (j & _ & <- & H) & _). by apply read_vector_length. Qed.

(** A request either is an insertion, or leaves the index alone. *)
Lemma post_vectors_cases d text :
  (exists body id vec metadata, insertion text body id vec metadata /\ forall s,
     post_vectors fused d text s =
     '(r, s) ← insert fused d vec id metadata s; Some (s, match r with Ret _ => id_reply 201 id | Throw _ => uncaught end)) \/
  (exists res, (forall s, post_vectors fused d text s = Some (s, res)) /\ rs_status res = 400%Z) \/
  (exists body j, json_parse text = Some body /\ j_at "id" body = Some j /\ converts 0 4294967296 j = false).
Proof.
  unfold post_vectors. destruct (json_parse text) as [body|] eqn:Ep; [|right; left; by eexists].
  destruct (j_at "id" body) as [ij|] eqn:Ei; [|right; left; by eexists].
  destruct (j_at "vector" body) as [vj|] eqn:Ev; [|right; left; by eexists].
  destruct (converts _ _ ij) eqn:Ec; cbn [negb]; [|right; right; by exists body, ij].
  destruct (get_u32 ij) as [id|] eqn:Eg; [|right; left; by eexists].
  case_bool_decide as Es; cbn [negb]; [|right; left; by eexists].
  destruct (read_vector vj) as [vec|] eqn:Er; cbn [mbind option_bind]; [|right; left; by eexists].
  destruct (j_value get_string _ _ body) as [md|] eqn:Em; cbn [mbind option_bind]; [|right; left; by eexists].
  left. exists body, id, vec, md. split; [|done]. split; [done|]. split; [by exists ij|]. split; [by exists vj|done].
Qed.

(** An insertion within reach of the file. *)
Lemma post_vectors_insert d text body id vec metadata s img :
  index_wf s img -> draws_ok d -> insertion text body id vec metadata -> id < INT_LIMIT -> id <= slots img ->
  exists s' img', post_vectors fused d text s = Some (s', id_reply 201 id) /\ index_wf s' img' /\
    i_size img <= i_size img' /\ payload img' id = Some (vec, false) /\
    (forall id' x, id' <> id -> payload img id' = Some x -> payload img' id' = Some x) /\ inserted id metadata s s'.
Proof.
  intros Hix [Hl Hs] Hins Hid Hr. pose proof (insertion_length _ _ _ _ _ Hins) as Hv.
  destruct (insert_spec fused d vec id metadata s img Hix Hl Hs Hv Hid Hr) as (s' & img' & E & Hix' & Hsz & _ & Hp & Ho & Hi).
  exists s', img'. split; [|split; [done|split; [rewrite Hsz; apply grown_size_le|done]]].
  destruct Hins as (Ep & (ij & Ei & Ec & Eg) & (vj & Ev & Es & Er) & Em). unfold post_vectors.
  rewrite Ep, Ei, Ev, Ec, Eg, bool_decide_eq_true_2, Er, Em by done. cbn [negb mbind option_bind]. by rewrite E.
Qed.


(** ** Requests that are always answered *)

(** Requests whose numbers are in range, with ids below [limit]. *)
Definition admissible (limit : N) (r : request) : Prop :=
  match r with
  | PostVectors d text => draws_ok d /\
    forall body j, json_parse text = Some body -> j_at "id" body = Some j ->
      converts 0 4294967296 j = true /\ forall id, get_u32 j = Some id -> id < limit
  | PostSearch text =>
    forall body j, json_parse text = Some body -> j_at "k" body = Some j -> converts (-2147483648) 2147483648 j = true
  | DeleteVectors digits => digits_value digits < U64
  | GetStats => True
  end.

Definition answered (res : response) : Prop := rs_status res = 200%Z \/ rs_status res = 201%Z \/ rs_status res = 400%Z.

Lemma get_int_bound j k : get_int j = Some k -> (k < Z.of_N U64)%Z.
Proof.
  assert (forall z, to_i32 z < Z.of_N U64)%Z as Hi.
  { intros z. unfold to_i32, u32_to_i32. pose proof (i32_to_u32_bound z). unfold U32, U64 in *. case_decide; lia. }
  destruct j; cbn [get_int]; try done; intros H.
  - injection H as <-. destruct b; done.
  - injection H as <-. apply Hi.
  - injection H as <-. apply Hi.
  - destruct (trunc_float f) as [z|]; [|done]. cbn [mbind option_bind] in H. case_bool_decide as Hb; [|done].
    injection H as <-. unfold U64. lia.
Qed.

Lemma post_search_answers text s img :
  index_wf s img ->
  (forall body j, json_parse text = Some body -> j_at "k" body = Some j -> converts (-2147483648) 2147483648 j = true) ->
  exists res, post_search fused dump_float text s = Some res /\ answered res.
Proof.
  intros Hix Hconv. unfold post_search, answered. destruct (json_parse text) as [body|] eqn:Ep; [|by eexists; auto].
  destruct (j_at "vector" body) as [vj|]; [|by eexists; auto]. destruct (j_at "k" body) as [kj|] eqn:Ek; [|by eexists; auto].
  rewrite (Hconv body kj eq_refl Ek). cbn [negb]. destruct (get_int kj) as [k|] eqn:Eg; [|by eexists; auto].
  case_bool_decide as Es; cbn [negb]; [|by eexists; auto]. case_bool_decide; [by eexists; auto|].
  destruct (read_vector vj) as [vec|] eqn:Er; [|by eexists; auto].
  destruct (search_sound_aux fused vec k s img Hix) as (rs & -> & _).
  { rewrite (read_vector_length vj vec Er), Es. done. }
  { by apply (get_int_bound kj). }
  cbn [mbind option_bind]. eexists. split; [done|]. unfold results_reply. destruct (json_dump _ _); auto.
Qed.

Lemma handle_answers limit r s img :
  index_wf s img -> admissible limit r -> limit <= INT_LIMIT -> limit <= slots img ->
  exists s' img' res, handle fused dump_float r s = Some (s', res) /\ answered res /\ index_wf s' img' /\ i_size img <= i_size img'.
Proof.
  intros Hix Hr Hlim Hsl. destruct r as [d text|text|digits|]; cbn [handle admissible] in *.
  - destruct Hr as [Hd Hid].
    destruct (post_vectors_cases d text) as [(body & id & vec & md & Hins & _)|[(res & -> & Hst)|(body & j & Ep & Ej & Ec)]].
    + pose proof Hins as (Ep & (ij & Ei & _ & Eg) & _). destruct (Hid body ij Ep Ei) as [_ Hb]. specialize (Hb id Eg).
      destruct (post_vectors_insert d text body id vec md s img Hix Hd Hins) as (s' & img' & E & Hix' & Hsz & _); [lia|lia|].
      exists s', img', (id_reply 201 id). split; [done|]. split; [right; by left|done].
    + exists s, img, res. split; [done|]. split; [right; by right|done].
    + destruct (Hid body j Ep Ej) as [Hc _]. by rewrite Hc in Ec.
  - destruct (post_search_answers text s img Hix Hr) as (res & -> & Ha). cbn [mbind option_bind]. by exists s, img, res.
  - unfold delete_vectors. rewrite bool_decide_eq_false_2 by lia.
    destruct (delete_spec (u32 (digits_value digits)) s img Hix) as (s' & img' & -> & Hix' & Hsz & _). cbn [mbind option_bind].
    exists s', img', (id_reply 200 (u32 (digits_value digits))). split; [done|]. split; [by left|]. split; [done|]. lia.
  - exists s, img, (get_stats s). split; [done|]. split; [by left|done].
Qed.

Lemma handle_all_answers limit rs s img :
  index_wf s img -> Forall (admissible limit) rs -> limit <= INT_LIMIT -> limit <= slots img ->
  exists s' img' answers, handle_all fused dump_float rs s = Some (s', answers) /\ length answers = length rs /\
    Forall answered answers /\ index_wf s' img'.
Proof.
  intros Hix Hrs Hlim. revert s img Hix. induction Hrs as [|r rs Hr _ IH]; intros s img Hix Hsl; cbn [handle_all].
  { by exists s, img, []. }
  destruct (handle_answers limit r s img Hix Hr Hlim Hsl) as (s1 & i1 & a & -> & Ha & Hix1 & Hsz). cbn [mbind option_bind].
  destruct (IH s1 i1 Hix1) as (s2 & i2 & l & -> & Hl & Hla & Hix2).
  { apply (N.le_trans _ _ _ Hsl). unfold slots. apply N.Div0.div_le_mono. lia. }
  cbn [mbind option_bind]. exists s2, i2, (a :: l). split; [done|]. split; [cbn; by rewrite Hl|]. split; [by constructor|done].
Qed.

(** The ids that have a slot in a new file. *)
Definition FIRST_SLOTS : N := 99296.


(** ** Requests that are not *)

Lemma insert_far d vec id metadata s img :
  index_wf s img -> d_sys d = MMapHandler.all_succeed -> i_size img + RESIZE_STEP < slot_end id ->
  i_size img + RESIZE_STEP < U64 -> insert fused d vec id metadata s = None.
Proof.
  intros [Hm Hw _ _ _ _] Hs Hfar H64. unfold insert, expand. pose proof (proj2 Hm) as Hsz. cbn [c_size image_contents] in Hsz.
  rewrite Hs, Hsz, bool_decide_eq_true_2 by (unfold RESIZE_STEP in *; lia). rewrite u64_add_small by done.
  destruct (MMapHandler.resize_spec (i_size img + RESIZE_STEP) _ _ _ Hm) as (h' & disk' & -> & Hm' & _).
  cbn [c_size image_contents c_extend] in Hm'. rewrite bool_decide_eq_true_2 in Hm' by (unfold RESIZE_STEP; lia).
  unfold data. cbn [storage_ disk_]. rewrite (proj1 Hm'). cbn [mbind option_bind]. unfold put_node. cbn [i_size].
  by rewrite (bool_decide_eq_false_2 (slot_end id <= i_size img + RESIZE_STEP)) by (apply N.lt_nge; exact Hfar).
Qed.

(** An insertion far behind the end of the file is undefined.  The file
    grows by one step of 10 MB, whatever the id: a valid [POST /vectors] whose
    slot is not inside the grown file writes outside the mapping. *)
Theorem far_id_undefined (d : draws) (text : string) (body : json) (id : N) (vec : list float32) (metadata : string)
    (s : Hnsw.t) (img : image) :
  index_wf s img -> d_sys d = MMapHandler.all_succeed -> insertion text body id vec metadata ->
  i_size img + RESIZE_STEP < slot_end id -> i_size img + RESIZE_STEP < U64 ->
  post_vectors fused d text s = None.
Proof.
  intros Hix Hs (Ep & (ij & Ei & Ec & Eg) & (vj & Ev & Es & Er) & Em) Hfar H64. unfold post_vectors.
  rewrite Ep, Ei, Ev, Ec, Eg, bool_decide_eq_true_2, Er, Em by done. cbn [negb mbind option_bind].
  by rewrite (insert_far d vec id metadata s img).
Qed.

(** A deletion can remove another vector.  The digits of
    [DELETE /vectors/n] are read as a 64-bit number and cut to 32 bits: the
    deletion of an [n] from [2^32] on is answered with 200 and removes the
    vector whose id is [n] modulo [2^32]. *)
Theorem delete_cuts_id (digits : bytes) (s : Hnsw.t) (img : image) (v : list float32) :
  index_wf s img -> U32 <= digits_value digits < U64 ->
  Hnsw.get_vector_data (u32 (digits_value digits)) s = Some v -> v <> [] ->
  exists s', delete_vectors digits s = Some (s', id_reply 200 (u32 (digits_value digits))) /\
    u32 (digits_value digits) <> digits_value digits /\
    Hnsw.get_vector_data (u32 (digits_value digits)) s' = Some [] /\ Hnsw.size s' = Hnsw.size s -u 1.
Proof.
  intros Hix Hn Hv Hne. unfold delete_vectors. rewrite bool_decide_eq_false_2 by lia. set (id := u32 (digits_value digits)) in *.
  destruct (delete_spec id s img Hix) as (s' & img' & -> & Hix' & _ & _ & Hp & _ & _ & _ & Hc). cbn [mbind option_bind].
  rewrite (vector_data_payload s img id Hix) in Hv.
  destruct (payload img id) as [[v' []]|] eqn:E; [by injection Hv as <-| |by injection Hv as <-].
  exists s'. split; [done|]. split_and!.
  - unfold id, u32. pose proof (N.mod_lt (digits_value digits) U32 ltac:(done)). lia.
  - by rewrite (vector_data_payload s' img' id Hix'), Hp.
  - unfold Hnsw.size. by rewrite Hc, decide_True.
Qed.
End properties.

(** ** Examples *)

(** The body of an insertion, the components all one. *)
Definition sample_text (id : string) : string :=
  dq ("{'id': " +:+ id +:+ ", 'vector': [1" +:+ foldr String.append "" (replicate 127 ",1") +:+ "]}").

Definition sample_body (id : N) : json :=
  JObject [("id", JUnsigned id); ("vector", JArray (replicate VECTOR_DIM (JUnsigned 1)))].

Lemma sample_small : json_parse (sample_text "7") = Some (sample_body 7).
Proof. vm_compute. reflexivity. Qed.

Lemma sample_large : json_parse (sample_text "200000") = Some (sample_body 200000).
Proof. vm_compute. reflexivity. Qed.

Lemma sample_insertion text id :
  json_parse text = Some (sample_body id) -> id < U32 -> insertion text (sample_body id) id ones "".
Proof.
  intros Hp Hid. split; [exact Hp|]. split; [|split; [|reflexivity]].
  - exists (JUnsigned id). split; [reflexivity|]. split; [reflexivity|]. cbn. unfold u32. by rewrite N.mod_small.
  - eexists. split; [reflexivity|]. split; vm_compute; reflexivity.
Qed.

Lemma ground_draws : draws_ok ground.
Proof. split; [vm_compute; reflexivity|reflexivity]. Qed.



Lemma far_id_undefined_witness :
  exists s, new_index = Some s /\ post_vectors true ground (sample_text "200000") s = None.
Proof.
  destruct (create_fresh "index") as (h & disk & s & img & Eo & Ec & Hix & _ & Hsz & _).
  exists s. split; [unfold new_index; rewrite Eo; exact Ec|].
  apply (far_id_undefined true ground (sample_text "200000") (sample_body 200000) 200000 ones "" s img Hix).
  - reflexivity.
  - apply sample_insertion; [exact sample_large|reflexivity].
  - rewrite Hsz. vm_compute. reflexivity.
  - rewrite Hsz. vm_compute. reflexivity.
Defined.

Lemma delete_cuts_id_witness :
  exists s s', one_vector = Some s /\ delete_vectors (bytes_of "4294967296") s = Some (s', id_reply 200 0) /\
    Hnsw.get_vector_data 0 s' = Some [].
Proof.
  destruct one_vector_wf as (s & img & E & Hix & _ & _ & _ & _ & Hsz & Hn).
  destruct (delete_cuts_id (bytes_of "4294967296") s img ones Hix) as (s' & Hd & _ & Hg & _).
  - vm_compute. split; [discriminate|reflexivity].
  - change (u32 (digits_value (bytes_of "4294967296"))) with 0. rewrite (vector_data_payload s img 0 Hix).
    unfold payload, get_node. rewrite Hsz, bool_decide_eq_true_2 by (vm_compute; discriminate).
    rewrite Hn, lookup_singleton_eq. vm_compute. reflexivity.
  - discriminate.
  - exists s, s'. split; [exact E|]. split; [exact Hd|exact Hg].
Defined.
