(* ===== verification/ServerRestart.v ===== *)
(** * The server as a process, and its restart ([src/src/server.cpp])

    [main] from its start to its exit: the file is opened, requests are handled
    until the server is stopped, the file is closed.  What the next process
    finds is the index file and the metadata file.  Both processes together
    answer as one that was never stopped. *)

From S2P Require Import Prelude Storage MemoryMap MetadataStore Float32 PriorityQueue IndexTypes FloatExact Distance.
From S2P Require Import Hnsw HnswInv HnswGreedy HnswUpdate HnswSearch HnswReopen Json JsonDump Http Server.

(** ** The process *)

Record ending := MkEnding {
  e_code : Z;
  e_answers : list response;
  e_disk : gmap string image;
  e_metadata : option bytes;
}.

(** [bound] says whether the port could be bound; otherwise [listen] returns at
    once.  [rs] are the requests until [stop]. *)
Definition server_process (fused : bool) (dump_float : float64 -> bytes) (sc : MMapHandler.syscalls) (data_dir : string)
    (disk : gmap string image) (metadata_file : option bytes) (bound : bool) (rs : list request) : option ending :=
  r ← server_main sc data_dir disk metadata_file;
  match r with
  | Throw _ =>
    let '(_, _, disk) := MMapHandler.open_file sc (data_dir +:+ "/index.ndb") PREALLOCATION MMapHandler.create disk in
    Some (MkEnding 1 [] disk metadata_file)
  | Ret index =>
    '(index, answers) ← handle_all fused dump_float (if bound then rs else []) index;
    Some (MkEnding 0 answers (disk_ index) (Some (MetadataHandler.file_ (metadata_storage_ index))))
  end.

(** ** What a restart changes *)

(** The lock table and the metadata table are rebuilt. *)
Definition rebuilt (m : MetadataHandler.t) (locks : N) (s : t) : t :=
  Mk (storage_ s) (disk_ s) m (metric_ s) (entry_point_id_ s) (current_max_layer_ s) (element_count_ s) locks.

Lemma rebuilt_self s : rebuilt (metadata_storage_ s) (node_locks_ s) s = s.
Proof. by destruct s. Qed.

(** The locks that every process makes. *)
Definition LOCKS : N := 10000.

(** Saving keeps the tables alike. *)
Lemma save_same_text id text m m' m1 :
  MetadataHandler.wf m -> MetadataHandler.wf m' -> same_text m m' -> (0 <= id)%Z ->
  MetadataHandler.save_metadata id text m = Some m1 ->
  exists m1', MetadataHandler.save_metadata id text m' = Some m1' /\ MetadataHandler.wf m1' /\ same_text m1 m1'.
Proof.
  intros Hw Hw' Hs Hid E.
  destruct (MetadataHandler.save_get_frame id text m Hw Hid) as (x & Ex & _ & H1 & H2 & H3). rewrite E in Ex. injection Ex as <-.
  destruct (MetadataHandler.save_get_frame id text m' Hw' Hid) as (m1' & E' & Hw1 & H1' & H2' & H3').
  exists m1'. split; [exact E'|]. split; [exact Hw1|]. intros id'. destruct (decide (text = "")) as [->|Hne].
  { by rewrite (H2 eq_refl), (H2' eq_refl). }
  destruct (decide (id' = id)) as [->|Hd]; [by rewrite (H1 Hne), (H1' Hne)|by rewrite (H3 _ Hd), (H3' _ Hd)].
Qed.

Section restart.
Context (fused : bool) (dump_float : float64 -> bytes).

(** ** Links do not depend on the size of a sufficient lock table *)

Section locks.
Context (metric : DistanceMetric) (n n' : N) (Hn : LOCKS <= n) (Hn' : LOCKS <= n').

Lemma add_link_locks src dest layer img :
  src < LOCKS -> add_link fused metric n src dest layer img = add_link fused metric n' src dest layer img.
Proof using Hn Hn'. intros H. unfold add_link. by rewrite !bool_decide_eq_false_2 by lia. Qed.

Lemma link_all_locks id layer selected img :
  id < LOCKS -> Forall (fun x => x < LOCKS) selected ->
  link_all fused metric n id layer selected img = link_all fused metric n' id layer selected img.
Proof using Hn Hn'.
  intros Hid Hs. revert img. induction Hs as [|x xs Hx _ IH]; intros img; [done|]. cbn [link_all].
  rewrite (add_link_locks id x layer img Hid). destruct (add_link fused metric n' id x layer img) as [i1|]; [|done].
  cbn [mbind option_bind]. rewrite (add_link_locks x id layer i1 Hx).
  destruct (add_link fused metric n' x id layer i1) as [i2|]; [|done]. cbn [mbind option_bind]. apply IH.
Qed.

Lemma connect_locks count id query layers curr img :
  image_wf img -> occupied img id -> occupied img curr -> (forall x, occupied img x -> x < LOCKS) ->
  Forall (fun l => 0 <= l < Z.of_nat MAX_LAYERS)%Z layers ->
  connect fused metric n count id query layers curr img = connect fused metric n' count id query layers curr img.
Proof using Hn Hn'.
  intros Hw Hid Hcurr Hocc Hls. revert curr img Hw Hid Hcurr Hocc.
  induction Hls as [|l layers Hl _ IH]; intros curr img Hw Hid Hcurr Hocc; [done|].
  cbn [connect]. unfold layer_index. rewrite bool_decide_eq_true_2 by lia. cbn [mbind option_bind].
  destruct (search_layer_spec fused metric img query count curr EF_CONSTRUCTION (Z.to_nat l))
    as (found & -> & Hres); [done|done|done|lia|]. cbn [mbind option_bind].
  pose proof (select_occupied _ _ _ _ _ _ Hres) as Hsel.
  rewrite link_all_locks; [|by apply Hocc|by eapply Forall_impl; [exact Hsel|apply Hocc]].
  destruct (link_all_spec fused metric n' id (Z.to_nat l) (select_neighbors found) img) as (i1 & -> & Hw1 & Hp1);
    [done|done|done|lia|]. cbn [mbind option_bind].
  apply IH; [exact Hw1|by apply (same_occupied _ _ _ Hp1)| |].
  - apply (same_occupied _ _ _ Hp1). by destruct Hsel.
  - intros x Hx. apply Hocc. by apply (same_occupied _ _ _ Hp1).
Qed.
End locks.

(** ** Two processes side by side *)

(** [s'] is [s] with tables of its own. *)
Record twin (s s' : t) : Prop := {
  tw_rest : s' = rebuilt (metadata_storage_ s') (node_locks_ s') s;
  tw_locks : LOCKS <= node_locks_ s;
  tw_locks' : LOCKS <= node_locks_ s';
  tw_meta : MetadataHandler.wf (metadata_storage_ s');
  tw_text : same_text (metadata_storage_ s) (metadata_storage_ s');
}.

Lemma twin_rebuilt s m locks :
  LOCKS <= node_locks_ s -> LOCKS <= locks -> MetadataHandler.wf m -> same_text (metadata_storage_ s) m -> twin s (rebuilt m locks s).
Proof. by split. Qed.

Lemma finish_twin id text s m locks s1 :
  LOCKS <= node_locks_ s -> LOCKS <= locks -> MetadataHandler.wf (metadata_storage_ s) -> MetadataHandler.wf m ->
  same_text (metadata_storage_ s) m -> id < LOCKS -> finish_insert id text s = Some s1 ->
  exists s2, finish_insert id text (rebuilt m locks s) = Some s2 /\ twin s1 s2.
Proof.
  intros H1 H2 Hw Hw' Ht Hid. unfold finish_insert, persist_header.
  change (data (with_counters (entry_point_id_ (rebuilt m locks s)) (current_max_layer_ (rebuilt m locks s))
    (element_count_ (rebuilt m locks s) +u 1) (rebuilt m locks s))) with (data s).
  change (data (with_counters (entry_point_id_ s) (current_max_layer_ s) (element_count_ s +u 1) s)) with (data s).
  destruct (data s) as [img|]; [|done]. cbn [mbind option_bind]. case_bool_decide; [|done]. cbn [mbind option_bind].
  unfold save_metadata. assert (0 <= u32_to_i32 id)%Z as Hid'.
  { rewrite u32_to_i32_small by (unfold INT_LIMIT, LOCKS in *; lia). lia. }
  case_bool_decide.
  { intros [= <-]. eexists. split; [reflexivity|]. by apply (twin_rebuilt (with_data _ (with_counters _ _ _ s)) m locks). }
  intros (m1 & Em & [= <-])%bind_Some.
  destruct (save_same_text _ text _ m m1 Hw Hw' Ht Hid' Em) as (m2 & Em2 & Hw2 & Ht2).
  cbn [metadata_storage_ with_data with_counters rebuilt]. rewrite Em2. cbn [mbind option_bind]. eexists. split; [reflexivity|].
  by apply (twin_rebuilt (with_metadata m1 (with_data _ (with_counters _ _ _ s))) m2 locks).
Qed.
(** Both on the same file of the preallocated size. *)
Record paired (path : string) (s s' : t) (img : image) : Prop := {
  pa_wf : index_wf s img;
  pa_twin : twin s s';
  pa_ids x : occupied img x -> x < LOCKS;
  pa_size : i_size img = PREALLOCATION;
  pa_storage : storage_ s = MMapHandler.Mk path PREALLOCATION MMapHandler.Mapped true;
  pa_metric : metric_ s = L2;
}.

(** Every id with a lock has a slot. *)
Lemma locks_in_range id img : i_size img = PREALLOCATION -> id < LOCKS -> in_range img id.
Proof. intros Hs Hid. unfold in_range, slot_end, PREALLOCATION, HEADER_SIZE, SIZEOF_NODE, LOCKS in *. rewrite Hs. lia. Qed.

Lemma insert_storage d v id m s r s' :
  slot_end id <= MMapHandler.get_size (storage_ s) -> insert fused d v id m s = Some (r, s') -> storage_ s' = storage_ s.
Proof.
  intros Hr. unfold insert, expand. rewrite bool_decide_eq_false_2 by lia. destruct (data s); [|done]. cbn [mbind option_bind].
  destruct (put_node _ _ _); [|done]. cbn [mbind option_bind]. intros (s1 & Es & [= _ <-])%bind_Some.
  case_bool_decide; [by apply finish_insert_keeps in Es as [-> _]|]. unfold insert_linked in Es.
  apply bind_Some in Es as (im & _ & Es). apply bind_Some in Es as (x & _ & Es). apply bind_Some in Es as ([y z] & _ & Es).
  apply bind_Some in Es as (im' & _ & Es). apply finish_insert_keeps in Es as [-> _]. by case_bool_decide.
Qed.

Lemma linked_twin id level query text s m locks img s1 :
  MMapHandler.mapped (storage_ s) (disk_ s) img -> image_wf img -> MetadataHandler.wf (metadata_storage_ s) ->
  (entry_point_id_ s = NO_ENTRY \/ occupied img (entry_point_id_ s) /\ 0 <= current_max_layer_ s < Z.of_nat MAX_LAYERS)%Z ->
  occupied img id -> (0 <= level < Z.of_nat MAX_LAYERS)%Z -> (forall x, occupied img x -> x < LOCKS) ->
  LOCKS <= node_locks_ s -> LOCKS <= locks -> MetadataHandler.wf m -> same_text (metadata_storage_ s) m ->
  (if entry_point_id_ s =?? NO_ENTRY
   then finish_insert id text (with_counters id level (element_count_ s) s)
   else insert_linked fused id level query text s) = Some s1 ->
  exists s2, (if entry_point_id_ s =?? NO_ENTRY
     then finish_insert id text (with_counters id level (element_count_ s) (rebuilt m locks s))
     else insert_linked fused id level query text (rebuilt m locks s)) = Some s2 /\ twin s1 s2.
Proof.
  intros Hm Hw Hmw He Hid Hlev Hocc H1 H2 Hw' Ht. case_bool_decide as Hentry.
  { apply (finish_twin id text (with_counters id level (element_count_ s) s) m locks); try done. by apply Hocc. }
  destruct He as [?|[Her Hlay]]; [done|]. unfold insert_linked. change (data (rebuilt m locks s)) with (data s).
  cbn [rebuilt metric_ entry_point_id_ current_max_layer_ node_locks_ element_count_].
  unfold data. rewrite (proj1 Hm). cbn [mbind option_bind].
  rewrite (distance_to_at fused (metric_ s) img query _ (occupied_in_range _ _ Hw Her)). cbn [mbind option_bind].
  destruct (descend_spec fused (metric_ s) img query Hw (layers_down (current_max_layer_ s) level)
    (dist_at fused (metric_ s) img query (entry_point_id_ s)) (entry_point_id_ s)) as (curr & -> & Hcr & _); [|done|done|].
  { apply Forall_forall. intros l Hl%layers_down_bound. lia. }
  cbn [mbind option_bind]. rewrite (connect_locks (metric_ s) (node_locks_ s) locks H1 H2); try done.
  2: { apply Forall_forall. intros l Hl%layers_down_bound. lia. }
  destruct (connect _ _ _ _ _ _ _ _ _) as [i1|]; [|done]. cbn [mbind option_bind].
  change (current_max_layer_ (with_data i1 s)) with (current_max_layer_ s).
  change (current_max_layer_ (with_data i1 (rebuilt m locks s))) with (current_max_layer_ s).
  case_bool_decide; intros E.
  - apply (finish_twin id text (with_counters id level (element_count_ s) (with_data i1 s)) m locks); try done. by apply Hocc.
  - apply (finish_twin id text (with_data i1 s) m locks); try done. by apply Hocc.
Qed.

Lemma insert_twin path d v id text s s' img :
  paired path s s' img -> draws_ok d -> length v = VECTOR_DIM -> id < LOCKS ->
  exists s1 s1' img1, insert fused d v id text s = Some (Ret tt, s1) /\ insert fused d v id text s' = Some (Ret tt, s1') /\
    paired path s1 s1' img1.
Proof.
  intros [Hix [-> H1 H2 Hw' Ht] Hocc Hsl Hst Hmet] [Hlev Hsys] Hv Hid.
  set (m := metadata_storage_ s') in *. set (locks := node_locks_ s') in *. pose proof (locks_in_range id img Hsl Hid) as Hr.
  pose proof (proj1 (in_range_slots img id (iw_header _ (ix_image _ _ Hix))) Hr) as Hlt.
  destruct (insert_spec fused d v id text s img) as (s1 & i1 & E & Hix1 & Hsz & Hdom & _ & _ & Hins);
    [done|done|done|done|unfold INT_LIMIT, LOCKS in *; lia|lia|].
  assert (i_size i1 = i_size img) as Hsz1.
  { rewrite Hsz. unfold grown_size. by rewrite bool_decide_eq_false_2 by (unfold in_range in Hr; lia). }
  assert (exists s2, insert fused d v id text (rebuilt m locks s) = Some (Ret tt, s2) /\ twin s1 s2) as (s2 & E2 & Htw).
  2: { exists s1, s2, i1. split; [exact E|]. split; [exact E2|]. 
       split; [exact Hix1|exact Htw| |by rewrite Hsz1| |by rewrite (in_metric _ _ _ _ Hins)].
       2: { rewrite (insert_storage _ _ _ _ _ _ _ ltac:(rewrite Hst; unfold in_range in Hr; rewrite <-Hsl; exact Hr) E). exact Hst. }
       intros x. rewrite occupied_dom, Hdom, elem_of_union, elem_of_singleton, <-occupied_dom. intros [->|Hx]; [exact Hid|by apply Hocc]. }
  revert E. unfold insert, expand. change (storage_ (rebuilt m locks s)) with (storage_ s).
  pose proof Hix as [Hm Hw Hmw He _ _]. pose proof (proj2 Hm) as Hs. cbn [c_size image_contents] in Hs. rewrite Hs.
  rewrite bool_decide_eq_false_2 by (unfold in_range in Hr; lia). change (data (rebuilt m locks s)) with (data s).
  unfold data. rewrite (proj1 Hm). cbn [mbind option_bind].
  destruct (new_node_wf img (d_garbage d) id (get_random_level d) v Hv) as [Hnw _].
  destruct (put_node_spec img id _ Hw Hr Hnw) as (i2 & -> & Hw2 & Hs2 & _ & Hd2 & _). cbn [mbind option_bind].
  intros (s3 & E & [= <-])%bind_Some.
  destruct (linked_twin id (get_random_level d) (n_vector (new_node (d_garbage d) id (get_random_level d) v)) text
    (with_data i2 s) m locks i2 s3) as (s2 & E2 & Htw); try done.
  - by apply (with_data_mapped img).
  - destruct He as [[? _]|(_ & Ho & Hl)]; [by left|right]. split; [|done]. apply occupied_dom. rewrite Hd2.
    apply occupied_dom in Ho. cbn [entry_point_id_ with_data]. set_solver.
  - apply occupied_dom. rewrite Hd2. set_solver.
  - unfold get_random_level in *. lia.
  - intros x. rewrite occupied_dom, Hd2, elem_of_union, elem_of_singleton, <-occupied_dom. intros [->|Hx]; [exact Hid|by apply Hocc].
  - exists s2. split; [|exact Htw].
    change (with_data i2 (rebuilt m locks s)) with (rebuilt m locks (with_data i2 s)).
    change (entry_point_id_ (rebuilt m locks (with_data i2 s))) with (entry_point_id_ (with_data i2 s)).
    change (element_count_ (rebuilt m locks (with_data i2 s))) with (element_count_ (with_data i2 s)). by rewrite E2.
Qed.
(** ** Requests *)

Lemma collect_twin img m m' rs : same_text m m' -> collect img m rs = collect img m' rs.
Proof.
  intros H. induction rs as [|r rs IH]; [done|]. cbn [collect]. destruct (get_node (r_id r) img) as [n|]; [|done].
  cbn [mbind option_bind]. rewrite IH. destruct (collect img m' rs); [|done]. cbn [mbind option_bind]. by rewrite H.
Qed.

Lemma search_twin query k s s' : twin s s' -> search fused query k s' = search fused query k s.
Proof.
  intros [-> _ _ _ Ht]. unfold search. change (data (rebuilt _ _ s)) with (data s).
  cbn [rebuilt metric_ entry_point_id_ current_max_layer_ element_count_ metadata_storage_].
  destruct (_ =?? _); [done|]. case_bool_decide; [done|]. destruct (data s) as [img|]; [|done]. cbn [mbind option_bind].
  destruct (distance_to _ _ _ _ _) as [d|]; [|done]. cbn [mbind option_bind].
  destruct (descend _ _ _ _ _ _ _) as [[d' curr]|]; [|done]. cbn [mbind option_bind].
  destruct (search_layer _ _ _ _ _ _ _ _) as [found|]; [|done]. cbn [mbind option_bind]. by rewrite (collect_twin _ _ _ _ Ht).
Qed.

Lemma delete_rebuilt id m locks s : delete_vector id (rebuilt m locks s) = rebuilt m locks <$> delete_vector id s.
Proof.
  unfold delete_vector. change (out_of_range id (rebuilt m locks s)) with (out_of_range id s).
  change (data (rebuilt m locks s)) with (data s). destruct (out_of_range id s); [done|].
  destruct (data s) as [img|]; [|done]. cbn [mbind option_bind]. destruct (get_node id img) as [n|]; [|done].
  cbn [mbind option_bind]. destruct (n_deleted n); [done|]. destruct (put_node _ _ _) as [i1|]; [|done]. cbn [mbind option_bind].
  unfold persist_header. cbn zeta.
  set (s1 := with_counters _ _ _ (with_data i1 s)). set (s2 := with_counters _ _ _ (with_data i1 (rebuilt m locks s))).
  change (data s2) with (data s1). destruct (data s1) as [i2|]; [|done]. cbn [mbind option_bind]. by case_bool_decide.
Qed.

(** Requests that name ids for which every process has a lock. *)
Definition small_request (r : request) : Prop :=
  admissible LOCKS r /\
  match r with DeleteVectors digits => u32 (digits_value digits) < LOCKS | _ => True end.

Lemma delete_twin path id s s' img :
  paired path s s' img -> id < LOCKS ->
  exists s1 s1' img1, delete_vector id s = Some s1 /\ delete_vector id s' = Some s1' /\ paired path s1 s1' img1.
Proof.
  intros [Hix [-> H1 H2 Hw Ht] Hocc Hsl Hst Hmet] Hid. set (m := metadata_storage_ s') in *. set (locks := node_locks_ s') in *.
  destruct (delete_spec id s img Hix) as (s1 & i1 & E & Hix1 & Hsz & Ho & _ & _ & Hmeta & Hmetric & _).
  destruct (delete_keeps id s s1 E) as [Hl Hst1].
  exists s1, (rebuilt m locks s1), i1. split; [exact E|]. rewrite delete_rebuilt, E. split; [done|]. split.
  - exact Hix1.
  - apply twin_rebuilt; [by rewrite Hl|exact H2|exact Hw|by rewrite Hmeta].
  - intros x Hx. destruct (Ho x Hx) as [?| ->]; [by apply Hocc|exact Hid].
  - by rewrite Hsz.
  - by rewrite Hst1.
  - by rewrite Hmetric.
Qed.

Lemma handle_twin path r s s' img :
  paired path s s' img -> small_request r ->
  exists s1 s1' img1 a, handle fused dump_float r s = Some (s1, a) /\ handle fused dump_float r s' = Some (s1', a) /\ paired path s1 s1' img1.
Proof.
  intros Hp [Hr Hd]. destruct r as [d text|text|digits|]; cbn [handle admissible] in *.
  - destruct Hr as [Hok Hid].
    destruct (post_vectors_cases fused d text) as [(body & id & vec & md & Hins & Hpv)|[(res & Hres & _)|(body & j & Ep & Ej & Ec)]].
    + pose proof Hins as (Ep & (ij & Ei & _ & Eg) & _). destruct (Hid body ij Ep Ei) as [_ Hb]. specialize (Hb id Eg).
      destruct (insert_twin path d vec id md s s' img Hp Hok (insertion_length _ _ _ _ _ Hins) Hb) as (s1 & s1' & i1 & E & E' & Hp1).
      exists s1, s1', i1, (id_reply 201 id). rewrite !Hpv, E, E'. done.
    + exists s, s', img, res. by rewrite !Hres.
    + destruct (Hid body j Ep Ej) as [Hc _]. by rewrite Hc in Ec.
  - destruct (post_search_answers fused dump_float text s img (pa_wf _ _ _ _ Hp) Hr) as (res & E & _).
    exists s, s', img, res. rewrite E. split; [done|]. split; [|exact Hp].
    assert (post_search fused dump_float text s' = Some res) as ->; [|done]. rewrite <-E. unfold post_search.
    destruct (json_parse text) as [body|]; [|done]. destruct (j_at "vector" body) as [vj|]; [|done].
    destruct (j_at "k" body) as [kj|]; [|done]. destruct (negb _); [done|]. destruct (get_int kj) as [k|]; [|done].
    destruct (negb _); [done|]. case_bool_decide; [done|]. destruct (read_vector vj) as [vec|]; [|done].
    by rewrite (search_twin vec k s s' (pa_twin _ _ _ _ Hp)).
  - unfold delete_vectors. rewrite bool_decide_eq_false_2 by lia.
    destruct (delete_twin path (u32 (digits_value digits)) s s' img Hp Hd) as (s1 & s1' & i1 & -> & -> & Hp1).
    cbn [mbind option_bind]. by exists s1, s1', i1, (id_reply 200 (u32 (digits_value digits))).
  - exists s, s', img, (get_stats s). split; [done|]. split; [|exact Hp].
    destruct Hp as [_ [Hs' _ _ _ _] _ _ _ _]. rewrite Hs' at 2. done.
Qed.

Lemma handle_all_twin path rs s s' img :
  paired path s s' img -> Forall small_request rs ->
  exists s1 s1' img1 l, handle_all fused dump_float rs s = Some (s1, l) /\ handle_all fused dump_float rs s' = Some (s1', l) /\
    paired path s1 s1' img1.
Proof.
  intros Hp Hrs. revert s s' img Hp. induction Hrs as [|r rs Hr _ IH]; intros s s' img Hp; cbn [handle_all].
  { by exists s, s', img, []. }
  destruct (handle_twin path r s s' img Hp Hr) as (s1 & s1' & i1 & a & -> & -> & Hp1). cbn [mbind option_bind].
  destruct (IH s1 s1' i1 Hp1) as (s2 & s2' & i2 & l & -> & -> & Hp2). cbn [mbind option_bind]. by exists s2, s2', i2, (a :: l).
Qed.

Lemma handle_all_app rs1 rs2 s s1 l1 :
  handle_all fused dump_float rs1 s = Some (s1, l1) ->
  handle_all fused dump_float (rs1 ++ rs2) s = '(s, l2) ← handle_all fused dump_float rs2 s1; Some (s, l1 ++ l2).
Proof.
  revert s l1. induction rs1 as [|r rs1 IH]; intros s l1; cbn [handle_all app].
  { intros [= <- <-]. by destruct (handle_all fused dump_float rs2 s) as [[]|]. }
  intros ([s0 a] & Ea & E)%bind_Some. rewrite Ea. cbn [mbind option_bind]. apply bind_Some in E as ([s2 l] & El & [= <- <-]).
  rewrite (IH s0 l El). by destruct (handle_all fused dump_float rs2 s2) as [[]|].
Qed.

(** ** What the requests leave in the counters and in the metadata file *)

(** The id and the metadata of an insertion. *)
Definition read_insertion (text : string) : option (N * string) :=
  body ← json_parse text;
  id_json ← j_at "id" body;
  vec_json ← j_at "vector" body;
  id ← get_u32 id_json;
  if j_size vec_json =?? VECTOR_DIM then
    _ ← read_vector vec_json;
    metadata ← j_value get_string "metadata" "" body;
    Some (id, metadata)
  else None.

(** The tombstones, the number of elements and the texts saved. *)
Record ledger := MkLedger { lg_dead : gset N; lg_count : N; lg_saved : list (N * string) }.

(** A deletion counts back whatever has no tombstone, stored or not. *)
Definition note (r : request) (l : ledger) : ledger :=
  match r with
  | PostVectors _ text =>
    match read_insertion text with
    | Some (id, metadata) =>
      MkLedger (lg_dead l ∖ {[id]}) (lg_count l +u 1) (lg_saved l ++ ((fun m => (id, m)) <$> MetadataHandler.appended metadata))
    | None => l
    end
  | DeleteVectors digits =>
    let id := u32 (digits_value digits) in
    if decide (id ∈ lg_dead l) then l else MkLedger ({[id]} ∪ lg_dead l) (lg_count l -u 1) (lg_saved l)
  | PostSearch _ | GetStats => l
  end.

Definition ledger_of (rs : list request) : ledger := foldl (fun l r => note r l) (MkLedger ∅ 0 []) rs.

Definition saves (l : ledger) : list (Z * string) := (fun x => (Z.of_N x.1, x.2)) <$> lg_saved l.

Record booked (s : t) (img : image) (l : ledger) : Prop := {
  bk_count : element_count_ s = lg_count l;
  bk_dead id : id < LOCKS -> snd <$> payload img id = Some (bool_decide (id ∈ lg_dead l));
  bk_saved : MetadataHandler.save_all (saves l) (MetadataHandler.open_file None) = Some (metadata_storage_ s);
}.

Lemma read_insertion_spec text body id vec metadata :
  insertion text body id vec metadata -> read_insertion text = Some (id, metadata).
Proof.
  intros (Ep & (ij & Ei & _ & Eg) & (vj & Ev & Es & Er) & Em). unfold read_insertion.
  rewrite Ep. cbn [mbind option_bind]. rewrite Ei. cbn [mbind option_bind]. rewrite Ev. cbn [mbind option_bind]. rewrite Eg.
  cbn [mbind option_bind]. rewrite bool_decide_eq_true_2 by done. rewrite Er. cbn [mbind option_bind]. by rewrite Em.
Qed.

Lemma read_insertion_inv text id metadata :
  read_insertion text = Some (id, metadata) ->
  (forall body j, json_parse text = Some body -> j_at "id" body = Some j -> converts 0 4294967296 j = true) ->
  exists body vec, insertion text body id vec metadata.
Proof.
  unfold read_insertion. intros (body & Ep & H)%bind_Some Hc. apply bind_Some in H as (ij & Ei & H).
  apply bind_Some in H as (vj & Ev & H). apply bind_Some in H as (i & Eg & H). case_bool_decide as Hs; [|done].
  apply bind_Some in H as (vec & Er & H). apply bind_Some in H as (md & Em & [= <- <-]).
  exists body, vec. split; [done|]. split; [exists ij; split; [done|split; [by apply (Hc body)|done]]|]. split; [by exists vj|done].
Qed.

Lemma insert_booked path d v id m s s' s1 img i1 l :
  paired path s s' img -> draws_ok d -> length v = VECTOR_DIM -> id < LOCKS -> booked s img l ->
  insert fused d v id m s = Some (Ret tt, s1) -> index_wf s1 i1 ->
  booked s1 i1 (MkLedger (lg_dead l ∖ {[id]}) (lg_count l +u 1) (lg_saved l ++ ((fun x => (id, x)) <$> MetadataHandler.appended m))).
Proof.
  intros [Hix _ _ Hsl _ _] [Hlev Hsys] Hv Hid [Hc Hd Hs] E Hix1.
  pose proof (locks_in_range id img Hsl Hid) as Hr. pose proof (proj1 (in_range_slots img id (iw_header _ (ix_image _ _ Hix))) Hr) as Hlt.
  destruct (insert_spec fused d v id m s img) as (s2 & i2 & E2 & Hix2 & _ & _ & Hp & Ho & Hins);
    [done|done|done|done|unfold INT_LIMIT, LOCKS in *; lia|lia|]. rewrite E in E2. injection E2 as <-.
  assert (i2 = i1) as ->.
  { pose proof (proj1 (ix_mapped _ _ Hix1)) as H1. rewrite (proj1 (ix_mapped _ _ Hix2)) in H1. by injection H1. }
  split; cbn [lg_count lg_dead lg_saved].
  - by rewrite (in_count _ _ _ _ Hins), Hc.
  - intros x Hx. destruct (decide (x = id)) as [->|Hne].
    + rewrite Hp. cbn. by rewrite bool_decide_eq_false_2 by set_solver.
    + specialize (Hd x Hx). destruct (payload img x) as [y|] eqn:Ey; [|done]. rewrite (Ho x y Hne Ey). etrans; [exact Hd|]. f_equal. apply bool_decide_ext. set_solver.
  - unfold saves in *. cbn [lg_saved]. rewrite fmap_app, <-list_fmap_compose. apply insert_saves in E.
    rewrite u32_to_i32_small in E by (unfold INT_LIMIT, LOCKS in *; lia). unfold MetadataHandler.appended. case_decide as Hm.
    + rewrite app_nil_r, Hs. unfold MetadataHandler.save_metadata in E. by rewrite bool_decide_eq_true_2 in E by done.
    + cbn [fmap list_fmap compose]. rewrite MetadataHandler.save_all_snoc, Hs. exact E.
Qed.

Lemma delete_booked path id s s' s1 img i1 l :
  paired path s s' img -> id < LOCKS -> booked s img l -> delete_vector id s = Some s1 -> index_wf s1 i1 ->
  booked s1 i1 (if decide (id ∈ lg_dead l) then l else MkLedger ({[id]} ∪ lg_dead l) (lg_count l -u 1) (lg_saved l)).
Proof.
  intros [Hix _ _ Hsl _ _] Hid [Hc Hd Hs] E Hix1.
  destruct (delete_spec id s img Hix) as (s2 & i2 & E2 & Hix2 & _ & _ & Hp & Ho & Hmeta & _ & Hcnt).
  rewrite E in E2. injection E2 as <-. assert (i2 = i1) as ->.
  { pose proof (proj1 (ix_mapped _ _ Hix1)) as H1. rewrite (proj1 (ix_mapped _ _ Hix2)) in H1. by injection H1. }
  pose proof (Hd id Hid) as Hme. rewrite Hme in Hcnt. destruct (payload img id) as [[v b]|] eqn:Ep; [|done].
  destruct (decide (id ∈ lg_dead l)) as [Hin|Hin]; [rewrite bool_decide_eq_true_2 in Hme, Hcnt by done|rewrite bool_decide_eq_false_2 in Hme, Hcnt by done].
  - split; [rewrite Hcnt, decide_False by done; done| |by rewrite Hmeta]. intros x Hx. destruct (decide (x = id)) as [->|Hne].
    + rewrite Hp. cbn. by rewrite bool_decide_eq_true_2.
    + rewrite Ho by done. by apply Hd.
  - split; cbn [lg_count lg_dead lg_saved]; [rewrite Hcnt, decide_True by done; by rewrite Hc| |by rewrite Hmeta].
    intros x Hx. destruct (decide (x = id)) as [->|Hne].
    + rewrite Hp. cbn. by rewrite bool_decide_eq_true_2 by set_solver.
    + rewrite Ho, Hd by done. f_equal. apply bool_decide_ext. set_solver.
Qed.

Lemma handle_booked path r s s' s1 img i1 a l :
  paired path s s' img -> small_request r -> booked s img l -> handle fused dump_float r s = Some (s1, a) -> index_wf s1 i1 ->
  booked s1 i1 (note r l).
Proof.
  intros Hp [Hr Hd] Hb E Hix1.
  assert (forall i, index_wf s i -> booked s i l) as Hsame.
  { intros i Hi. pose proof (proj1 (ix_mapped _ _ Hi)) as H1. rewrite (proj1 (ix_mapped _ _ (pa_wf _ _ _ _ Hp))) in H1.
    by injection H1 as <-. }
  destruct r as [d text|text|digits|]; cbn [handle admissible note] in *.
  - destruct Hr as [Hok Hid].
    destruct (post_vectors_cases fused d text) as [(body & id & vec & md & Hins & Hpv)|[(res & Hres & Hst)|(body & j & Ep & Ej & Ec)]].
    + pose proof Hins as (Ep & (ij & Ei & _ & Eg) & _). destruct (Hid body ij Ep Ei) as [_ Hlt]. specialize (Hlt id Eg).
      rewrite (read_insertion_spec _ _ _ _ _ Hins).
      destruct (insert_twin path d vec id md s s' img Hp Hok (insertion_length _ _ _ _ _ Hins) Hlt) as (s2 & _ & _ & E2 & _).
      rewrite Hpv, E2 in E. cbn [mbind option_bind] in E. injection E as <- _.
      by eapply insert_booked; [exact Hp|exact Hok|by eapply insertion_length|..].
    + rewrite Hres in E. injection E as <- <-. destruct (read_insertion text) as [[id md]|] eqn:Er; [|by apply Hsame].
      destruct (read_insertion_inv text id md Er) as (body & vec & Hins); [intros b j H1 H2; by apply (Hid b j H1 H2)|].
      pose proof Hins as (Ep & (ij & Ei & _ & Eg) & _). destruct (Hid body ij Ep Ei) as [_ Hlt]. specialize (Hlt id Eg).
      pose proof (proj1 (in_range_slots img id (iw_header _ (ix_image _ _ (pa_wf _ _ _ _ Hp)))) (locks_in_range id img (pa_size _ _ _ _ Hp) Hlt)).
      destruct (post_vectors_insert fused d text body id vec md s img (pa_wf _ _ _ _ Hp) Hok Hins) as (s2 & _ & E2 & _);
        [unfold INT_LIMIT, LOCKS in *; lia|lia|]. rewrite Hres in E2. injection E2 as _ ->. done.
    + destruct (Hid body j Ep Ej) as [Hc _]. by rewrite Hc in Ec.
  - apply bind_Some in E as (res & _ & [= <- _]). by apply Hsame.
  - unfold delete_vectors in E. rewrite bool_decide_eq_false_2 in E by lia. apply bind_Some in E as (s2 & E & [= <- _]).
    by eapply delete_booked.
  - injection E as <- _. by apply Hsame.
Qed.

Lemma handle_all_booked path rs s s' s1 img i1 answers l :
  paired path s s' img -> Forall small_request rs -> booked s img l -> handle_all fused dump_float rs s = Some (s1, answers) ->
  index_wf s1 i1 -> booked s1 i1 (foldl (fun l r => note r l) l rs).
Proof.
  intros Hp Hrs. revert s s' img answers l Hp. induction Hrs as [|r rs Hr _ IH]; intros s s' img answers l Hp Hb; cbn [handle_all foldl].
  - intros [= <- _] Hi. pose proof (proj1 (ix_mapped _ _ Hi)) as H1. rewrite (proj1 (ix_mapped _ _ (pa_wf _ _ _ _ Hp))) in H1.
    by injection H1 as <-.
  - intros ([s2 a] & E & H)%bind_Some Hi. apply bind_Some in H as ([s3 l'] & E' & [= <- _]).
    destruct (handle_twin path r s s' img Hp Hr) as (s2' & t2 & i2 & a' & E2 & _ & Hp2). rewrite E in E2. injection E2 as <- <-.
    eapply (IH s2 t2 i2 l'); [exact Hp2| |exact E'|exact Hi]. eapply handle_booked; [exact Hp|exact Hr|exact Hb|exact E|apply Hp2].
Qed.

(** Texts that were saved for the ids 0, 1, 2, ... in this order. *)
Definition saved_in_order (l : ledger) : Prop :=
  (lg_saved l).*1 = N.of_nat <$> seq 0 (length (lg_saved l)) /\ Forall (fun m => strlen m < U32) (lg_saved l).*2.

Lemma saved_nonempty rs l : Forall (fun m => m <> "") (lg_saved l).*2 -> Forall (fun m => m <> "") (lg_saved (foldl (fun l r => note r l) l rs)).*2.
Proof.
  revert l. induction rs as [|r rs IH]; intros l Hl; [done|]. cbn [foldl]. apply IH.
  destruct r as [d text|text|digits|]; cbn [note]; [|done|by case_decide|done].
  destruct (read_insertion text) as [[id md]|]; [|done]. cbn [lg_saved]. rewrite fmap_app. apply Forall_app. split; [done|].
  unfold MetadataHandler.appended. case_decide; by repeat constructor.
Qed.

Lemma saves_sequential l : saved_in_order l -> saves l = MetadataHandler.sequential (lg_saved l).*2.
Proof.
  intros [Hids _]. apply list_eq. intros i. unfold saves, MetadataHandler.sequential.
  rewrite list_lookup_imap, !list_lookup_fmap. destruct (lg_saved l !! i) as [[id m]|] eqn:E; [|done]. cbn.
  apply (f_equal (fun x => x !! i)) in Hids. rewrite !list_lookup_fmap, E in Hids. cbn in Hids.
  rewrite lookup_seq_lt in Hids by (by eapply lookup_lt_Some). cbn in Hids. injection Hids as ->. do 2 f_equal. lia.
Qed.

(** Then a restart finds every text under its id. *)
Lemma in_order_kept l m :
  saved_in_order l -> Forall (fun x => x <> "") (lg_saved l).*2 ->
  MetadataHandler.save_all (saves l) (MetadataHandler.open_file None) = Some m -> metadata_kept m.
Proof.
  intros Hord Hne E. rewrite (saves_sequential l Hord) in E. destruct Hord as [_ Hlen].
  assert (Forall (fun x => x <> "" /\ strlen x < U32) (lg_saved l).*2) as Hok by (by apply Forall_and).
  destruct (MetadataHandler.save_sequential _ Hne) as (m' & E' & _ & Hg). rewrite E in E'. injection E' as <-.
  pose proof (MetadataHandler.save_all_file _ _ _ E ltac:(by rewrite MetadataHandler.sequential_metadata)) as Hf.
  rewrite MetadataHandler.sequential_metadata in Hf. change (MetadataHandler.file_ (MetadataHandler.open_file None)) with (@nil ascii) in Hf.
  cbn [app] in Hf. unfold metadata_kept. rewrite Hf. split; [by apply MetadataHandler.open_records_wf|]. intros id.
  destruct (decide (id < 0)%Z); [unfold MetadataHandler.get_metadata; by rewrite !bool_decide_eq_true_2 by done|].
  replace id with (Z.of_nat (Z.to_nat id)) by lia. rewrite Hg. symmetry. by apply MetadataHandler.open_records.
Qed.

(** ** The end of one process and the start of the next *)

Lemma start_fresh data_dir :
  exists s img, server_main MMapHandler.all_succeed data_dir ∅ None = Some (Ret s) /\
    paired (data_dir +:+ "/index.ndb") s s img /\ booked s img (MkLedger ∅ 0 []).
Proof.
  destruct (create_fresh (data_dir +:+ "/index.ndb")) as (h & disk & s & img & Eo & Ec & Hix & Hn & Hsz & Hmeta & Hmet & _ & Hcnt & Hl).
  exists s, img. unfold server_main. rewrite Eo, Ec. split; [done|]. split.
  2: { split; [exact Hcnt| |by rewrite Hmeta]. intros id Hid. pose proof (locks_in_range id img Hsz Hid) as Hr. unfold in_range in Hr.
       unfold payload, get_node. rewrite bool_decide_eq_true_2 by done. by rewrite Hn, lookup_empty. }
  split; [exact Hix| | |exact Hsz| |exact Hmet].
  - split; [by rewrite rebuilt_self|by rewrite Hl|by rewrite Hl|apply Hix|by intros id].
  - intros x [n Hx]. by rewrite Hn, lookup_empty in Hx.
  - revert Eo Ec. unfold MMapHandler.open_file, create.
    cbn [MMapHandler.sc_mkdir MMapHandler.sc_open MMapHandler.sc_ftruncate MMapHandler.sc_mmap MMapHandler.all_succeed negb].
    rewrite andb_false_r, lookup_empty. cbn [default]. case_bool_decide as Hc; [|by destruct Hc].
    intros [= <- <-]. destruct (MMapHandler.get_data _ _) as [i|]; [|done]. cbn [mbind option_bind].
    case_bool_decide; [|done]. case_bool_decide; by intros [= <-].
Qed.

(** The next process has the same index with new tables. *)
Lemma start_again data_dir s s' img :
  paired (data_dir +:+ "/index.ndb") s s' img -> element_count_ s < U32 -> metadata_kept (metadata_storage_ s) ->
  exists s2, server_main MMapHandler.all_succeed data_dir (disk_ s) (Some (MetadataHandler.file_ (metadata_storage_ s))) = Some (Ret s2) /\
    paired (data_dir +:+ "/index.ndb") s s2 img.
Proof.
  intros [Hix [_ Hl _ _ _] Hocc Hsz Hst Hmet] Hc [Hmw Ht]. pose proof (proj1 (ix_mapped _ _ Hix)) as Hd.
  unfold MMapHandler.get_data in Hd. rewrite Hst in Hd. cbn [MMapHandler.data_ MMapHandler.file_path_] in Hd.
  exists (rebuilt (MetadataHandler.open_file (Some (MetadataHandler.file_ (metadata_storage_ s)))) (element_count_ s + 10000) s).
  split; [|split; [done| |done..]; by apply twin_rebuilt; [|unfold LOCKS; lia|..]].
  assert (entry_point_id_ s < U32) as He.
  { destruct (ix_entry _ _ Hix) as [[-> _]|(_ & Ho & _)]; [done|]. apply Hocc in Ho. unfold LOCKS, U32 in *. lia. }
  unfold server_main, MMapHandler.open_file.
  cbn [MMapHandler.sc_mkdir MMapHandler.sc_open MMapHandler.sc_ftruncate MMapHandler.sc_mmap MMapHandler.all_succeed negb].
  rewrite andb_false_r, Hd. cbn [default]. change (Datatypes.id img) with img. cbn [c_size image_contents].
  rewrite bool_decide_eq_false_2 by lia. rewrite !insert_insert_eq, (insert_id _ _ _ Hd).
  unfold create, MMapHandler.get_data. cbn [MMapHandler.data_ MMapHandler.file_path_]. rewrite Hd. cbn [mbind option_bind].
  rewrite bool_decide_eq_true_2 by apply Hix. rewrite (ix_magic _ _ Hix), bool_decide_eq_true_2 by done.
  rewrite (ix_header _ _ Hix). cbn [header_of h_element_count h_entry_point_id h_max_layer].
  rewrite u32_roundtrip by done. assert (u32 (element_count_ s) = element_count_ s) as -> by (by apply N.mod_small).
  cbn [mbind option_bind]. unfold rebuilt. by rewrite Hst, Hmet, Hsz.
Qed.
End restart.


(** The body of an insertion of id 0 with metadata. *)
Definition meta_text : string :=
  dq ("{'id': 0, 'metadata': 'm', 'vector': [1" +:+ foldr String.append "" (replicate 127 ",1") +:+ "]}").

Lemma meta_request : small_request (PostVectors ground meta_text).
Proof.
  split; [split; [exact ground_draws|]|exact I]. intros body j Hp.
  assert (json_parse meta_text = Some (JObject [("id", JUnsigned 0); ("metadata", JString "m");
    ("vector", JArray (replicate VECTOR_DIM (JUnsigned 1)))])) as Hm by (vm_compute; reflexivity).
  rewrite Hm in Hp. injection Hp as <-. intros Hj. injection Hj as <-. split; [reflexivity|]. intros id Hid. injection Hid as <-. reflexivity.
Qed.

Lemma meta_in_order : lg_count (ledger_of [PostVectors ground meta_text]) < U32 /\ saved_in_order (ledger_of [PostVectors ground meta_text]).
Proof.
  split; [vm_compute; reflexivity|]. split; [vm_compute; reflexivity|]. apply (bool_decide_unpack _). vm_compute. exact I.
Qed.

