(* ===== verification/JsonRoundtrip.v ===== *)
(** * Reading back what was written

    [json_parse] and [json_read] invert [json_dump] and [json_dump_indent] on
    values without floating-point numbers, up to the library's own
    normalization: non-negative integers come back as unsigned. *)

From S2P Require Import Prelude Float32 Json JsonDump.

(** ** Values that can be written and read back *)

Section json_ind.
Variable P : json -> Prop.
Hypothesis HNull : P JNull.
Hypothesis HBool : forall b, P (JBool b).
Hypothesis HInteger : forall z, P (JInteger z).
Hypothesis HUnsigned : forall n, P (JUnsigned n).
Hypothesis HFloat : forall f, P (JFloat f).
Hypothesis HString : forall s, P (JString s).
Hypothesis HArray : forall l, Forall P l -> P (JArray l).
Hypothesis HObject : forall m, Forall (fun kv => P kv.2) m -> P (JObject m).

Fixpoint json_rect' (j : json) : P j :=
  match j with
  | JNull => HNull
  | JBool b => HBool b
  | JInteger z => HInteger z
  | JUnsigned n => HUnsigned n
  | JFloat f => HFloat f
  | JString s => HString s
  | JArray l =>
    HArray l ((fix go l : Forall P l :=
                 match l with
                 | [] => Forall_nil_2 _
                 | j :: l => Forall_cons_2 _ _ _ (json_rect' j) (go l)
                 end) l)
  | JObject m =>
    HObject m ((fix go m : Forall (fun kv => P kv.2) m :=
                  match m with
                  | [] => Forall_nil_2 _
                  | kv :: m => Forall_cons_2 _ _ _ (json_rect' kv.2) (go m)
                  end) m)
  end.

End json_ind.

(** Keys in strictly increasing order. *)
Fixpoint keys_sorted (m : list (string * json)) : bool :=
  match m with
  | [] => true
  | (k, _) :: m' => forallb (fun kv => str_lt k kv.1) m' && keys_sorted m'
  end.

(** Integers fit 64 bits, objects are maps, and there is no float. *)
Fixpoint plain (j : json) : bool :=
  match j with
  | JInteger z => bool_decide (- 9223372036854775808 <= z < 9223372036854775808)%Z
  | JUnsigned n => n <?? U64
  | JFloat _ => false
  | JArray l => forallb plain l
  | JObject m => keys_sorted m && forallb (fun kv => plain kv.2) m
  | _ => true
  end.

(** What the parser makes of a printed value. *)
Fixpoint normalize (j : json) : json :=
  match j with
  | JInteger z => if bool_decide (0 <= z)%Z then JUnsigned (Z.to_N z) else JInteger z
  | JArray l => JArray (normalize <$> l)
  | JObject m => JObject ((fun kv => (kv.1, normalize kv.2)) <$> m)
  | _ => j
  end.

(** ** The order of keys *)

Lemma str_lt_irrefl a : str_lt a a = false.
Proof.
  induction a as [|c a IH]; cbn; [done|]. rewrite bool_decide_eq_false_2 by lia.
  by rewrite bool_decide_eq_true_2.
Qed.

Lemma str_lt_trans a b c : str_lt a b = true -> str_lt b c = true -> str_lt a c = true.
Proof.
  revert b c. induction a as [|x a IH]; intros [|y b] [|z c]; cbn; try done.
  repeat case_bool_decide; try done; try lia; intros; eauto.
Qed.

Lemma obj_set_last k v m :
  forallb (fun kv => str_lt kv.1 k) m = true -> obj_set k v m = m ++ [(k, v)].
Proof.
  induction m as [|[k' v'] m IH]; cbn; [done|]. intros [H1 H2]%andb_true_iff.
  destruct (str_lt k k') eqn:E.
  { pose proof (str_lt_trans _ _ _ E H1) as Hc. by rewrite str_lt_irrefl in Hc. }
  case_bool_decide as Hk; [subst; by rewrite str_lt_irrefl in H1|]. by rewrite IH.
Qed.

(** ** Bytes *)

Lemma code_bound c : code c < 256.
Proof. apply N_ascii_bounded. Qed.

Lemma byte_code c : byte (code c) = c.
Proof. apply ascii_N_embedding. Qed.

Lemma code_byte n : n < 256 -> code (byte n) = n.
Proof. apply N_ascii_embedding. Qed.

(** A decidable property of bytes is checked on all 256 of them. *)
Definition all_bytes : list N := N.of_nat <$> seq 0 256.

Lemma all_bytes_spec (f : N -> bool) : forallb f all_bytes = true -> forall c, f (code c) = true.
Proof.
  intros H c. rewrite forallb_forall in H. apply H. apply list_elem_of_In.
  apply list_elem_of_fmap. exists (N.to_nat (code c)). split; [lia|].
  apply elem_of_seq. pose proof (code_bound c). lia.
Qed.

(** ** The UTF-8 automaton and the lexer's ranges *)

(** The ranges the lexer would still ask for in a state of the automaton. *)
Definition pending_ranges (state : N) : list (N * N) :=
  match state with
  | 2 => [(0x80, 0xBF)]
  | 3 => [(0x80, 0xBF); (0x80, 0xBF)]
  | 4 => [(0xA0, 0xBF); (0x80, 0xBF)]
  | 5 => [(0x80, 0x9F); (0x80, 0xBF)]
  | 6 => [(0x90, 0xBF); (0x80, 0xBF); (0x80, 0xBF)]
  | 7 => [(0x80, 0xBF); (0x80, 0xBF); (0x80, 0xBF)]
  | 8 => [(0x80, 0x8F); (0x80, 0xBF); (0x80, 0xBF)]
  | _ => []
  end.

(** A lower bound for the bits read so far. *)
Definition min_codep (state : N) : N :=
  match state with 0 => 128 | 2 => 2 | 3 => 1 | 5 => 1 | 7 => 1 | 8 => 1 | _ => 0 end.

Definition max_codep (state : N) : N :=
  match length (pending_ranges state) with
  | 3%nat => 8 | 2%nat => 512 | 1%nat => 32768 | _ => 2097152
  end.

Definition codep_ok (state cp : N) : bool := (min_codep state <=?? cp) && (cp <?? max_codep state).

Definition first_byte_ok (b : N) : bool :=
  let '(st, cp) := decode 0 0 b in
  if b <?? 0x80 then (st =?? 0) && (cp =?? b)
  else (st =?? 1) ||
       ((2 <=?? st) && (st <=?? 8) && codep_ok st cp &&
        (following_ranges b =?? Some (pending_ranges st))).

Lemma first_byte_checked c : first_byte_ok (code c) = true.
Proof. apply all_bytes_spec. vm_compute. reflexivity. Qed.

(** A continuation byte is in the first pending range, and the rest stays
    pending. *)
Definition next_byte_ok (st b : N) : bool :=
  let st' := (decode st 0 b).1 in
  (st' =?? 1) ||
  match pending_ranges st with
  | [] => false
  | (lo, hi) :: tl =>
    (lo <=?? b) && (b <=?? hi) && (pending_ranges st' =?? tl) && (st' <=?? 8) &&
    match tl with [] => st' =?? 0 | _ => 2 <=?? st' end &&
    (* the smallest code point that can result *)
    (min_codep st' <=?? min_codep st * 64 + N.land b 0x3F)
  end.

Lemma next_byte_checked st c : 2 <= st -> st <= 8 -> next_byte_ok st (code c) = true.
Proof.
  intros H2 H8. assert (st ∈ [2; 3; 4; 5; 6; 7; 8]) as Hst.
  { rewrite !elem_of_cons. lia. }
  revert c. apply all_bytes_spec. rewrite !elem_of_cons in Hst.
  repeat destruct Hst as [->|Hst]; [vm_compute; reflexivity..|]. by apply not_elem_of_nil in Hst.
Qed.

Lemma codep_step b cp :
  N.lor (N.land b 0x3F) (N.shiftl cp 6) = cp * 64 + N.land b 0x3F.
Proof.
  assert (N.land (N.land b 0x3F) (N.shiftl cp 6) = 0) as Hd.
  { apply N.bits_inj. intros i. rewrite !N.land_spec, N.bits_0.
    destruct (decide (i < 6)).
    - rewrite N.shiftl_spec_low by done. by rewrite andb_false_r.
    - change 0x3F with (N.ones 6). rewrite N.ones_spec_high by lia. by rewrite andb_false_r. }
  rewrite <-N.lxor_lor, <-N.add_nocarry_lxor by done. rewrite N.shiftl_mul_pow2. lia.
Qed.

Lemma low6_bound b : N.land b 0x3F < 64.
Proof. change 0x3F with (N.ones 6). rewrite N.land_ones. by apply N.mod_lt. Qed.

(** One continuation byte. *)
Lemma decode_next st cp c :
  2 <= st -> st <= 8 -> codep_ok st cp = true ->
  let '(st', cp') := decode st cp (code c) in
  st' = 1 \/
  exists lo hi, pending_ranges st = (lo, hi) :: pending_ranges st' /\
    lo <= code c <= hi /\ st' <= 8 /\ codep_ok st' cp' = true /\
    (st' = 0 \/ 2 <= st').
Proof.
  intros H2 H8 Hcp. pose proof (next_byte_checked st c H2 H8) as Hn. unfold next_byte_ok in Hn.
  assert (decode st cp (code c) =
          ((decode st 0 (code c)).1, u32 (cp * 64 + N.land (code c) 0x3F))) as ->.
  { unfold decode. rewrite bool_decide_eq_false_2 by (unfold UTF8_ACCEPT; lia).
    by rewrite codep_step. }
  generalize dependent (decode st 0 (code c)).1. intros st' Hn.
  apply orb_true_iff in Hn as [?%bool_decide_eq_true|Hn]; [by left|]. right.
  destruct (pending_ranges st) as [|[lo hi] tl] eqn:Ep; [done|].
  rewrite !andb_true_iff, !bool_decide_eq_true in Hn.
  destruct Hn as [[[[[Hlo Hhi] Htl] Hst8] Hst] Hmin]. exists lo, hi. rewrite Htl.
  split_and!; [done|done|done|done| |].
  - unfold codep_ok in *. rewrite andb_true_iff, !bool_decide_eq_true in *.
    pose proof (low6_bound (code c)).
    assert (max_codep st * 64 <= max_codep st') as Hmax.
    { unfold max_codep. rewrite Ep, <-Htl. cbn [length].
      assert (length (pending_ranges st) <= 3)%nat as Hlen.
      { unfold pending_ranges. repeat case_match; cbn; lia. }
      rewrite Ep, <-Htl in Hlen. cbn [length] in Hlen.
      destruct (length (pending_ranges st')) as [|[|[|]]]; lia. }
    assert (max_codep st' <= 2097152) as Hm2 by (unfold max_codep; repeat case_match; lia).
    unfold u32. rewrite N.mod_small by (unfold U32; lia). split; lia.
  - destruct tl; apply bool_decide_eq_true in Hst; [by left|by right].
Qed.

(** The rest of a multi-byte code point is copied unchanged, and the lexer
    accepts exactly those bytes. *)
Lemma dump_continuation s st cp out :
  2 <= st -> st <= 8 -> codep_ok st cp = true ->
  dump_escaped_loop false st cp s = Some out ->
  exists taken s' out' cp', s = taken ++ s' /\ out = taken ++ out' /\
    (forall x, next_byte_in_range (pending_ranges st) (taken ++ x) = Some (taken, x)) /\
    dump_escaped_loop false 0 cp' s' = Some out'.
Proof.
  revert st cp out. induction s as [|c s IH]; intros st cp out H2 H8 Hcp; cbn [dump_escaped_loop].
  { by rewrite bool_decide_eq_false_2 by (unfold UTF8_ACCEPT; lia). }
  pose proof (decode_next st cp c H2 H8 Hcp) as Hd.
  destruct (decode st cp (code c)) as [st' cp']. case_bool_decide as Hrej; [done|].
  destruct Hd as [?|(lo & hi & Hp & Hc & H8' & Hcp' & Hst')]; [done|].
  destruct (dump_escaped_loop false st' cp' s) as [out1|] eqn:E; [|done]. cbn [mbind option_bind].
  destruct Hst' as [->|H2'].
  - rewrite bool_decide_eq_true_2 by done. unfold codep_ok in Hcp'.
    rewrite andb_true_iff, !bool_decide_eq_true in Hcp'. cbn in Hcp'.
    assert (escape false cp' c = [c]) as ->.
    { unfold escape. repeat (rewrite bool_decide_eq_false_2 by lia). done. }
    intros [= <-]. exists [c], s, out1, cp'. rewrite Hp. split_and!; [done..| |done].
    intros x. cbn. rewrite !bool_decide_eq_true_2 by lia. done.
  - rewrite bool_decide_eq_false_2 by (unfold UTF8_ACCEPT; lia). intros [= <-].
    destruct (IH st' cp' out1 H2' H8' Hcp' E) as (taken & s1 & out2 & cp2 & -> & -> & Hr & Hd2).
    exists (c :: taken), s1, out2, cp2. rewrite Hp. split_and!; [done..| |done].
    intros x. cbn. rewrite !bool_decide_eq_true_2 by lia. cbn. by rewrite Hr.
Qed.

(** ** Strings *)

Lemma scan_plain fuel c tail buf :
  0x20 <= code c -> code c <= 0x7F -> code c <> 0x22 -> code c <> 0x5C ->
  scan_string (S fuel) (c :: tail) buf = scan_string fuel tail (buf ++ [c]).
Proof.
  intros. cbn [scan_string]. rewrite !bool_decide_eq_false_2 by lia.
  by rewrite bool_decide_eq_true_2 by lia.
Qed.

Lemma scan_backslash fuel input buf added rest :
  scan_escape input = (inl added, rest) ->
  scan_string (S fuel) (byte 0x5C :: input) buf = scan_string fuel rest (buf ++ added).
Proof. intros E. cbn [scan_string]. change (code (byte 0x5C)) with 0x5C. cbn. by rewrite E. Qed.

(** Every escape sequence of a one-byte code point is read back. *)
Lemma scan_escape_control n tail :
  n < 0x20 -> scan_escape (byte 0x75 :: hex4 n ++ tail) = (inl [byte n], tail).
Proof.
  intros Hn. assert (n ∈ (N.of_nat <$> seq 0 32)) as Hin.
  { apply list_elem_of_fmap. exists (N.to_nat n). split; [lia|]. apply elem_of_seq. lia. }
  cbn in Hin. rewrite !elem_of_cons in Hin.
  repeat destruct Hin as [->|Hin]; [vm_compute; reflexivity..|]. by apply not_elem_of_nil in Hin.
Qed.

Lemma scan_escaped fuel c tail buf :
  code c < 0x80 ->
  scan_string (S fuel) (escape false (code c) c ++ tail) buf =
  scan_string fuel tail (buf ++ [c]).
Proof.
  intros Hc. unfold escape.
  do 7 (let H := fresh in case_bool_decide as H;
    [rewrite <-(byte_code c), H; apply scan_backslash; vm_compute; reflexivity|]).
  case_bool_decide as Hctl; cbn [orb].
  - rewrite bool_decide_eq_true_2 by lia. unfold u_escape. cbn [app].
    rewrite (scan_backslash _ _ _ [c] tail); [done|].
    rewrite scan_escape_control by lia. by rewrite byte_code.
  - apply scan_plain; lia.
Qed.

Lemma escape_nonempty c : (1 <= length (escape false (code c) c))%nat.
Proof. unfold escape. repeat case_match; cbn; lia. Qed.

(** The lexer inverts [dump_escaped]. *)
Lemma scan_dump_escaped s cp out fuel buf rest :
  dump_escaped_loop false 0 cp s = Some out -> (length out < fuel)%nat ->
  scan_string fuel (out ++ byte 0x22 :: rest) buf = (TString (buf ++ s), rest).
Proof.
  revert cp out fuel buf. induction s as [s IH] using (induction_ltof1 _ length).
  unfold ltof in IH. intros cp out fuel buf. destruct s as [|c s]; cbn [dump_escaped_loop].
  { intros [= <-] Hf. destruct fuel; [cbn in Hf; lia|]. cbn [app scan_string].
    by rewrite bool_decide_eq_true_2, app_nil_r. }
  pose proof (first_byte_checked c) as Hfb. unfold first_byte_ok in Hfb.
  change (decode 0 cp (code c)) with (decode 0 0 (code c)).
  destruct (decode 0 0 (code c)) as [st cp']. destruct (decide (st = 1)) as [->|Hrej]; [done|].
  rewrite (bool_decide_eq_false_2 (st = UTF8_REJECT)) by done.
  destruct (dump_escaped_loop false st cp' s) as [out1|] eqn:E; [|done]. cbn [mbind option_bind].
  destruct (bool_decide_reflect (code c < 0x80)) as [Hasc|Hasc].
  - rewrite andb_true_iff, !bool_decide_eq_true in Hfb. destruct Hfb as [-> ->].
    rewrite bool_decide_eq_true_2 by done. intros [= <-] Hf.
    pose proof (escape_nonempty c) as Hne. rewrite length_app in Hf.
    destruct fuel as [|fuel]; [lia|]. rewrite <-app_assoc, scan_escaped by done.
    rewrite (IH s) with (cp := code c); [by rewrite <-app_assoc|cbn; lia|done|lia].
  - rewrite orb_true_iff, !andb_true_iff, !bool_decide_eq_true in Hfb.
    destruct Hfb as [?|[[[H2 H8] Hcp] Hfr]]; [done|].
    rewrite bool_decide_eq_false_2 by (unfold UTF8_ACCEPT; lia). intros [= <-] Hf.
    destruct (dump_continuation s st cp' out1 H2 H8 Hcp E)
      as (taken & s' & out' & cp2 & -> & -> & Hr & Hd).
    cbn [length] in Hf. rewrite length_app in Hf.
    destruct fuel as [|fuel]; [lia|]. cbn [app scan_string].
    rewrite !bool_decide_eq_false_2 by lia. rewrite Hfr, <-app_assoc, Hr.
    rewrite (IH s') with (cp := cp2); [|cbn; rewrite length_app; lia|done|lia].
    by rewrite <-app_assoc.
Qed.

(** ** Integers *)

Lemma code_digit n : n < 10 -> code (digit n) = 0x30 + n.
Proof. intros. unfold digit. apply code_byte. lia. Qed.

Lemma is_digit_digit n : n < 10 -> is_digit (digit n) = true.
Proof.
  intros. unfold is_digit. rewrite code_digit by done.
  by rewrite !bool_decide_eq_true_2 by lia.
Qed.

Lemma digits_value_snoc ds c : digits_value (ds ++ [c]) = 10 * digits_value ds + (code c - 0x30).
Proof. unfold digits_value. by rewrite foldl_app. Qed.

(** [ds] are the decimal digits of [n], without leading zeros. *)
Definition decimal (n : N) (ds : bytes) : Prop :=
  Forall (fun c => is_digit c = true) ds /\ digits_value ds = n /\
  (1 <= length ds)%nat /\ n < 10 ^ N.of_nat (length ds) /\
  (n <> 0 -> 10 ^ (N.of_nat (length ds) - 1) <= n /\
     exists d ds', ds = d :: ds' /\ code d <> 0x30).

Lemma decimal_one n : n < 10 -> decimal n [digit n].
Proof.
  intros Hn. split_and!.
  - constructor; [by apply is_digit_digit|constructor].
  - unfold digits_value. cbn [foldl]. rewrite code_digit by done. lia.
  - done.
  - done.
  - intros Hz. split; [change (1 <= n); lia|]. exists (digit n), []. rewrite code_digit by done. split; [done|lia].
Qed.

Lemma decimal_snoc n ds d :
  decimal n ds -> n <> 0 -> d < 10 -> decimal (10 * n + d) (ds ++ [digit d]).
Proof.
  intros (Hf & Hv & Hl & Hb & Hnz) Hn Hd. destruct (Hnz Hn) as (Hlo & x & ds' & -> & Hx).
  assert (N.of_nat (length ((x :: ds') ++ [digit d])) = N.of_nat (length (x :: ds')) + 1) as El
    by (rewrite length_app; cbn; lia).
  split_and!.
  - apply Forall_app. split; [done|]. constructor; [by apply is_digit_digit|constructor].
  - rewrite digits_value_snoc, Hv, code_digit by done. lia.
  - rewrite length_app. cbn. lia.
  - rewrite El, N.pow_add_r. lia.
  - intros _. split; [|by exists x, (ds' ++ [digit d])]. rewrite El.
    replace (N.of_nat (length (x :: ds')) + 1 - 1) with ((N.of_nat (length (x :: ds')) - 1) + 1)
      by (cbn [length]; lia).
    rewrite N.pow_add_r. lia.
Qed.

(** Two digits at a time is the same as one at a time. *)
Lemma fill_digits_spec fuel n acc :
  n < 100 ^ N.of_nat fuel -> (0 < fuel)%nat ->
  exists ds, fill_digits fuel n acc = ds ++ acc /\ decimal n ds.
Proof.
  revert n acc. induction fuel as [|fuel IH]; intros n acc Hn Hf; [lia|]. cbn [fill_digits].
  pose proof (N.div_mod n 100 ltac:(done)) as Hdm. pose proof (N.mod_lt n 100 ltac:(done)) as Hml.
  unfold digits_to_99. case_bool_decide as H100.
  - destruct fuel as [|fuel]; [cbn in Hn; lia|].
    destruct (IH (n / 100) (digit (n mod 100 / 10) :: digit (n mod 100 mod 10) :: acc))
      as (ds & -> & Hd).
    { rewrite Nat2N.inj_succ, N.pow_succ_r' in Hn. by apply N.Div0.div_lt_upper_bound. }
    { lia. }
    exists ((ds ++ [digit (n mod 100 / 10)]) ++ [digit (n mod 100 mod 10)]).
    split; [by rewrite <-!app_assoc|].
    pose proof (N.div_mod (n mod 100) 10 ltac:(done)). pose proof (N.mod_lt (n mod 100) 10 ltac:(done)).
    pose proof (N.le_0_l (n mod 100 / 10)). pose proof (N.le_0_l (n / 100)).
    replace n with (10 * (10 * (n / 100) + n mod 100 / 10) + n mod 100 mod 10) at 1 by lia.
    apply decimal_snoc; [apply decimal_snoc; [done|lia|by apply N.Div0.div_lt_upper_bound]|lia|lia].
  - case_bool_decide as H10.
    + exists ([digit (n / 10)] ++ [digit (n mod 10)]). split; [done|].
      pose proof (N.div_mod n 10 ltac:(done)). pose proof (N.mod_lt n 10 ltac:(done)).
      replace n with (10 * (n / 10) + n mod 10) at 1 by lia.
      apply decimal_snoc; [apply decimal_one, N.Div0.div_lt_upper_bound; lia|lia|lia].
    + exists [digit n]. split; [done|]. apply decimal_one. lia.
Qed.

Lemma pow10_unique a b n :
  10 ^ (a - 1) <= n -> n < 10 ^ a -> 10 ^ (b - 1) <= n -> n < 10 ^ b -> 1 <= a -> 1 <= b -> a = b.
Proof.
  intros Ha1 Ha2 Hb1 Hb2 H1 H2. assert (10 ^ (a - 1) < 10 ^ b) as H3 by lia.
  assert (10 ^ (b - 1) < 10 ^ a) as H4 by lia.
  apply N.pow_lt_mono_r_iff in H3; [|lia]. apply N.pow_lt_mono_r_iff in H4; [|lia]. lia.
Qed.

(** [count_digits] counts the digits of [x], on top of those already counted. *)
Lemma count_digits_spec fuel x k :
  x <> 0 -> x < 10000 ^ N.of_nat fuel -> 1 <= k ->
  exists c, count_digits fuel x k = c + (k - 1) /\ 1 <= c /\ 10 ^ (c - 1) <= x /\ x < 10 ^ c.
Proof.
  revert x k. induction fuel as [|fuel IH]; intros x k Hx Hb Hk; [cbn in Hb; lia|].
  cbn [count_digits].
  case_bool_decide; [exists 1; change (10 ^ (1 - 1)) with 1; change (10 ^ 1) with 10; lia|].
  case_bool_decide; [exists 2; change (10 ^ (2 - 1)) with 10; change (10 ^ 2) with 100; lia|].
  case_bool_decide; [exists 3; change (10 ^ (3 - 1)) with 100; change (10 ^ 3) with 1000; lia|].
  case_bool_decide; [exists 4; change (10 ^ (4 - 1)) with 1000; change (10 ^ 4) with 10000; lia|].
  pose proof (N.div_mod x 10000 ltac:(done)). pose proof (N.mod_lt x 10000 ltac:(done)).
  pose proof (N.le_0_l (x mod 10000)).
  destruct (IH (x / 10000) (k + 4)) as (c & -> & Hc1 & Hlo & Hhi).
  { lia. }
  { rewrite Nat2N.inj_succ, N.pow_succ_r' in Hb. by apply N.Div0.div_lt_upper_bound. }
  { lia. }
  exists (c + 4). split_and!; [lia|lia| |].
  - replace (c + 4 - 1) with ((c - 1) + 4) by lia. rewrite N.pow_add_r. change (10 ^ 4) with 10000. lia.
  - rewrite N.pow_add_r. change (10 ^ 4) with 10000. lia.
Qed.

Lemma dump_integer_spec z :
  (- 18446744073709551616 < z < 18446744073709551616)%Z ->
  exists ds, decimal (Z.to_N (Z.abs z)) ds /\
    dump_integer z = if bool_decide (z < 0)%Z then byte 0x2D :: ds else ds.
Proof.
  intros Hz. unfold dump_integer. case_bool_decide as H0.
  { subst. exists [digit 0]. split; [by apply decimal_one|]. done. }
  set (n := Z.to_N (Z.abs z)). assert (n <> 0) as Hn by lia.
  assert (n < 18446744073709551616) as Hb by lia.
  destruct (fill_digits_spec DIGIT_FUEL n []) as (ds & -> & Hd); [unfold DIGIT_FUEL; cbn; lia|unfold DIGIT_FUEL; lia|].
  destruct (count_digits_spec DIGIT_FUEL n 1) as (c & -> & Hc & Hlo & Hhi);
    [done|unfold DIGIT_FUEL; cbn; lia|lia|].
  pose proof Hd as (_ & _ & Hl & Hdb & Hnz). destruct (Hnz Hn) as [Hdlo _].
  assert (c = N.of_nat (length ds)) as -> by (eapply pow10_unique; [done..|lia]).
  rewrite app_nil_r. replace (N.to_nat (N.of_nat (length ds) + (1 - 1)) - length ds)%nat with 0%nat by lia.
  exists ds. split; [done|]. by case_bool_decide.
Qed.

(** ** Tokens *)

(** Text that ends a number: nothing, or a comma, a bracket or a line feed. *)
Definition stops (l : bytes) : Prop :=
  match l with
  | [] => True
  | c :: _ => code c = 0x2C \/ code c = 0x5D \/ code c = 0x7D \/ code c = 0x0A
  end.

Definition blank (ws : bytes) : Prop := Forall (fun c => is_space c = true) ws.

Lemma scan_blank ws l : blank ws -> scan (ws ++ l) = scan l.
Proof.
  intros Hw. unfold scan. enough (skip_whitespace (ws ++ l) = skip_whitespace l) as -> by done.
  induction Hw as [|c ws Hc Hw IH]; cbn; [done|]. by rewrite Hc.
Qed.

Lemma blank_indentation n : blank (indentation n).
Proof. apply Forall_replicate. done. Qed.

Lemma stop_in_number s c :
  (s = NsZero \/ s = NsAny1) ->
  code c = 0x2C \/ code c = 0x5D \/ code c = 0x7D \/ code c = 0x0A -> number_next s c = Stop.
Proof.
  intros Hs Hc. unfold number_next, is_point, is_exp, is_digit.
  destruct Hs as [-> | ->], Hc as [->|[->|[->| ->]]]; done.
Qed.

Lemma scan_number_stop s ty rest buf :
  (s = NsZero \/ s = NsAny1) -> stops rest ->
  scan_number_loop s ty rest buf = (inl (ty, buf), rest).
Proof.
  intros Hs Hr. destruct rest as [|c rest]; cbn [scan_number_loop].
  - by destruct Hs as [-> | ->].
  - rewrite stop_in_number by done. by destruct Hs as [-> | ->].
Qed.

Lemma scan_digits ds ty rest buf :
  Forall (fun c => is_digit c = true) ds -> stops rest ->
  scan_number_loop NsAny1 ty (ds ++ rest) buf = (inl (ty, buf ++ ds), rest).
Proof.
  intros Hd Hr. revert buf. induction Hd as [|c ds Hc Hd IH]; intros buf.
  - rewrite app_nil_r. apply scan_number_stop; [by right|done].
  - cbn [app scan_number_loop number_next number_type_in]. rewrite Hc, IH. by rewrite <-app_assoc.
Qed.

Lemma scan_first_digit c rest : is_digit c = true -> scan (c :: rest) = scan_number c rest.
Proof.
  unfold is_digit. rewrite andb_bool_decide. intros [H1 H2].
  unfold scan. cbn [skip_whitespace].
  assert (is_space c = false) as ->.
  { unfold is_space. by rewrite !bool_decide_eq_false_2 by lia. }
  unfold ch, is_digit. do 11 (rewrite bool_decide_eq_false_2 by lia). cbn [orb].
  by rewrite !bool_decide_eq_true_2 by lia.
Qed.

(** A printed integer is one token. *)
Lemma scan_integer z rest :
  (- 9223372036854775808 <= z < 18446744073709551616)%Z -> stops rest ->
  scan (dump_integer z ++ rest) =
  (if bool_decide (0 <= z)%Z then TUnsigned (Z.to_N z) else TInteger z, rest).
Proof.
  intros Hz Hr. destruct (decide (z = 0)%Z) as [->|H0].
  { change (dump_integer 0 ++ rest) with (byte 0x30 :: rest).
    rewrite scan_first_digit by done. unfold scan_number.
    change (code (byte 0x30)) with 0x30. rewrite scan_number_stop; [done|by left|done]. }
  destruct (dump_integer_spec z) as (ds & (Hf & Hv & _ & _ & Hnz) & ->); [lia|].
  destruct (Hnz ltac:(lia)) as [_ (d & ds' & -> & Hd)]. inversion_clear Hf as [|? ? Hdd Hds].
  case_bool_decide as Hneg.
  - rewrite (bool_decide_eq_false_2 (0 <= z)%Z) by lia.
    change (scan ((byte 0x2D :: d :: ds') ++ rest)) with (scan_number (byte 0x2D) (d :: ds' ++ rest)).
    unfold scan_number. change (code (byte 0x2D)) with 0x2D. cbn [scan_number_loop].
    rewrite (bool_decide_eq_true_2 (45 = 45)) by done. cbn [number_next].
    rewrite bool_decide_eq_false_2 by done. rewrite Hdd. cbn [number_type_in].
    rewrite scan_digits by done. unfold number_token. cbn [app tail].
    rewrite Hv, bool_decide_eq_true_2 by lia. f_equal. f_equal. lia.
  - rewrite (bool_decide_eq_true_2 (0 <= z)%Z) by lia. cbn [app].
    rewrite scan_first_digit by done. unfold scan_number.
    rewrite (bool_decide_eq_false_2 (code d = 0x30)) by done.
    rewrite (bool_decide_eq_false_2 (code d = 0x2D)).
    + rewrite scan_digits by done. unfold number_token. cbn [app].
      rewrite Hv, bool_decide_eq_true_2 by (unfold U64; lia). f_equal. f_equal. lia.
    + unfold is_digit in Hdd. rewrite andb_bool_decide in Hdd. lia.
Qed.

(** ** Values *)

Definition from (fuel : nat) (input : bytes) (stack : list frame) : option (json * bytes) :=
  let '(t, input) := scan input in parse_loop fuel (OnToken t) input stack.

(** From the text [out], followed by [rest], the parser gets to [v], within
    two iterations per byte. *)
Definition reads (out rest : bytes) (v : json) : Prop :=
  (scan (out ++ rest)).1 <> TEndArray /\
  exists k, (k <= 2 * length out)%nat /\
    forall fuel stack, from (k + fuel) (out ++ rest) stack = parse_loop fuel (OnValue v) rest stack.

Lemma reads_token out rest v t :
  (1 <= length out)%nat -> t <> TEndArray ->
  scan (out ++ rest) = (t, rest) ->
  (forall stack, parse_step (OnToken t) rest stack = Some (inr (OnValue v, rest, stack))) ->
  reads out rest v.
Proof.
  intros Hl Ht Hs Hp. split; [by rewrite Hs|]. exists 1%nat. split; [lia|].
  intros fuel stack. unfold from. rewrite Hs. cbn [Nat.add parse_loop]. by rewrite Hp.
Qed.

Lemma reads_blank ws out rest v : blank ws -> reads out rest v -> reads (ws ++ out) rest v.
Proof.
  intros Hw [Hs (k & Hk & Hf)]. unfold reads. rewrite <-app_assoc, scan_blank by done.
  split; [done|]. exists k. split; [rewrite length_app; lia|]. intros fuel stack.
  unfold from. rewrite scan_blank by done. apply Hf.
Qed.

Lemma scan_quoted s q rest :
  quoted false s = Some q ->
  scan (q ++ rest) = (TString (bytes_of s), rest) /\ (2 <= length q)%nat.
Proof.
  unfold quoted. destruct (dump_escaped false s) as [out|] eqn:E; [|done]. intros Hq.
  assert (q = byte 0x22 :: out ++ [byte 0x22]) as -> by (symmetry; exact (Some_inj _ _ Hq)).
  split; [|cbn; rewrite length_app; cbn; lia].
  change (scan ((byte 0x22 :: out ++ [byte 0x22]) ++ rest))
    with (scan_string (S (length ((out ++ [byte 0x22]) ++ rest))) ((out ++ [byte 0x22]) ++ rest) []).
  rewrite <-app_assoc. cbn [app].
  rewrite (scan_dump_escaped (bytes_of s) 0 out); [done|exact E|]. rewrite length_app. lia.
Qed.

(** Items joined by a separator: the first, then the rest each behind a
    separator. *)
Definition behind (sep : bytes) (outs : list bytes) : bytes := concat ((fun o => sep ++ o) <$> outs).

Lemma joined_Some sep os body :
  joined sep os = Some body -> os <> [] ->
  exists o outs, os = Some <$> (o :: outs) /\ body = o ++ behind sep outs.
Proof.
  revert body. induction os as [|o1 os IH]; intros body; [done|]. intros Hj _.
  destruct os as [|o2 os]; cbn in Hj.
  { exists body, []. subst. unfold behind. cbn. by rewrite app_nil_r. }
  destruct o1 as [a|]; [|done]. cbn in Hj.
  destruct (joined sep (o2 :: os)) as [b|] eqn:E; [|by cbn in E, Hj; rewrite E in Hj].
  assert (Some (a ++ sep ++ b) = Some body) as Hb by (by cbn in E; rewrite E in Hj).
  injection Hb as <-. destruct (IH b) as (o & outs & Ho & ->); [done|done|].
  exists a, (o :: outs). rewrite Ho. split; [done|]. unfold behind. cbn. by rewrite <-!app_assoc.
Qed.

Lemma stops_behind sep outs ws c rest :
  (exists ws', sep = byte 0x2C :: ws') -> code c = 0x5D \/ code c = 0x7D ->
  ws = [] \/ (exists ws', ws = byte 0x0A :: ws') ->
  stops (behind sep outs ++ ws ++ c :: rest).
Proof.
  intros [ws' ->] Hc Hws. destruct outs as [|o outs]; cbn.
  - destruct Hws as [->|[ws2 ->]]; cbn; [tauto|]. change (code (byte 0x0A)) with 0x0A. tauto.
  - change (code (byte 0x2C)) with 0x2C. by left.
Qed.

(** How a container closes: after blanks. *)
Record closing (sep ws : bytes) : Prop := {
  cl_sep : exists ws', sep = byte 0x2C :: ws' /\ blank ws';
  cl_blank : blank ws;
  cl_form : ws = [] \/ exists ws', ws = byte 0x0A :: ws';
}.

Lemma scan_sep sep ws l :
  closing sep ws -> exists ws', blank ws' /\ scan (sep ++ l) = (TValueSeparator, ws' ++ l).
Proof. intros [(ws' & -> & Hb) _ _]. exists ws'. by split. Qed.

(** After an element, the rest of an array. *)
Lemma elements_read sep ws outs vs rest :
  closing sep ws ->
  Forall2 (fun o v => forall rest, stops rest -> reads o rest v) outs vs ->
  exists k, (k <= 2 * length (behind sep outs) + 1)%nat /\
    forall fuel v acc stack,
      parse_loop (k + fuel) (OnValue v) (behind sep outs ++ ws ++ byte 0x5D :: rest)
        (FArray acc :: stack) =
      parse_loop fuel (OnValue (JArray (acc ++ v :: vs))) rest stack.
Proof.
  intros Hcl. induction 1 as [|o v outs vs Ho Hos IH].
  - exists 1%nat. split; [lia|]. intros fuel v acc stack. cbn [behind Nat.add parse_loop app].
    unfold behind. cbn [fmap list_fmap concat app parse_step].
    rewrite scan_blank by apply Hcl. done.
  - destruct IH as (k & Hk & IH).
    assert (stops (behind sep outs ++ ws ++ byte 0x5D :: rest)) as Hst.
    { apply stops_behind; [|by left|apply Hcl]. destruct Hcl as [(ws' & -> & _) _ _]. by eexists. }
    destruct (Ho _ Hst) as [_ (k1 & Hk1 & Hr)].
    exists (1 + k1 + k)%nat. unfold behind in *. cbn [fmap list_fmap concat]. rewrite !length_app.
    assert (1 <= length sep)%nat by (destruct Hcl as [(ws' & -> & _) _ _]; cbn; lia).
    split; [lia|]. intros fuel v' acc stack. cbn [Nat.add parse_loop parse_step].
    rewrite <-!app_assoc. destruct (scan_sep sep ws (o ++ concat ((λ o, sep ++ o) <$> outs) ++
      ws ++ byte 0x5D :: rest) Hcl) as (ws' & Hws' & ->).
    rewrite scan_blank by done. specialize (Hr (k + fuel)%nat (FArray (acc ++ [v']) :: stack)).
    unfold from in Hr. destruct (scan (o ++ _)) as [t input].
    rewrite <-Nat.add_assoc, Hr, IH. by rewrite <-app_assoc.
Qed.

(** An array of at least one element. *)
Lemma array_reads sep ws pre o outs v vs rest :
  closing sep ws -> blank pre ->
  Forall2 (fun o v => forall rest, stops rest -> reads o rest v) (o :: outs) (v :: vs) ->
  reads (byte 0x5B :: pre ++ (o ++ behind sep outs) ++ ws ++ [byte 0x5D]) rest (JArray (v :: vs)).
Proof.
  intros Hcl Hpre Hall. inversion_clear Hall as [|? ? ? ? Ho Hos].
  destruct (elements_read sep ws outs vs rest Hcl Hos) as (k2 & Hk2 & H2).
  assert (stops (behind sep outs ++ ws ++ byte 0x5D :: rest)) as Hst.
  { apply stops_behind; [|by left|apply Hcl]. destruct Hcl as [(ws' & -> & _) _ _]. by eexists. }
  destruct (Ho _ Hst) as [Hnot (k1 & Hk1 & H1)]. split; [done|].
  exists (1 + (k1 + k2))%nat. split; [cbn; rewrite !length_app; cbn; lia|].
  intros fuel stack. unfold from.
  change (scan ((byte 0x5B :: pre ++ (o ++ behind sep outs) ++ ws ++ [byte 0x5D]) ++ rest))
    with (TBeginArray, (pre ++ (o ++ behind sep outs) ++ ws ++ [byte 0x5D]) ++ rest).
  rewrite <-!app_assoc. cbn [app Nat.add parse_loop parse_step]. rewrite scan_blank by done.
  specialize (H1 (k2 + fuel)%nat (FArray [] :: stack)). unfold from in H1.
  destruct (scan (o ++ _)) as [t input]. cbn [fst] in Hnot.
  destruct t; try done; rewrite Nat.add_assoc in H1; cbn [app] in *; rewrite H1; apply H2.
Qed.

(** The text of one member of an object. *)
Definition member (o : bytes) (kv : string * json) : Prop :=
  exists pre q sp out, o = pre ++ q ++ byte 0x3A :: sp ++ out /\ blank pre /\ blank sp /\
    quoted false kv.1 = Some q /\ forall rest, stops rest -> reads out rest kv.2.

Lemma member_read o kv rest :
  member o kv -> stops rest ->
  (scan (o ++ rest)).1 <> TEndObject /\
  exists t input k, (k + 1 <= 2 * length o)%nat /\ parse_key (o ++ rest) = Some (kv.1, t, input) /\
    forall fuel stack, parse_loop (k + fuel) (OnToken t) input stack =
                       parse_loop fuel (OnValue kv.2) rest stack.
Proof.
  intros (pre & q & sp & out & -> & Hpre & Hsp & Hq & Hr) Hst.
  destruct (Hr _ Hst) as [_ (k & Hk & Hf)]. rewrite <-!app_assoc. cbn [app]. rewrite <-app_assoc.
  destruct (scan_quoted _ _ (byte 0x3A :: sp ++ out ++ rest) Hq) as [Hs Hl].
  unfold parse_key. rewrite scan_blank by done. rewrite Hs. split; [done|].
  change (scan (byte 0x3A :: sp ++ out ++ rest)) with (TNameSeparator, sp ++ out ++ rest).
  cbv beta iota. rewrite scan_blank by done. unfold from in Hf.
  destruct (scan (out ++ rest)) as [t input]. exists t, input, k.
  rewrite string_of_bytes_of. split_and!; [|done|done].
  rewrite !length_app. cbn. rewrite length_app. lia.
Qed.

Lemma keys_sorted_mid acc k v l :
  keys_sorted (acc ++ (k, v) :: l) = true -> forallb (fun kv => str_lt kv.1 k) acc = true.
Proof.
  induction acc as [|[k' v'] acc IH]; cbn; [done|]. rewrite forallb_app. cbn.
  intros [[_ [H1 _]%andb_true_iff]%andb_true_iff H2]%andb_true_iff. by rewrite H1, IH.
Qed.

Lemma members_read sep ws outs kvs rest :
  closing sep ws -> Forall2 member outs kvs ->
  exists n, (n <= 2 * length (behind sep outs) + 1)%nat /\
    forall fuel k v acc stack, keys_sorted (acc ++ (k, v) :: kvs) = true ->
      parse_loop (n + fuel) (OnValue v) (behind sep outs ++ ws ++ byte 0x7D :: rest)
        (FObject acc k :: stack) =
      parse_loop fuel (OnValue (JObject (acc ++ (k, v) :: kvs))) rest stack.
Proof.
  intros Hcl. induction 1 as [|o kv outs kvs Ho Hos IH].
  - exists 1%nat. split; [lia|]. intros fuel k v acc stack Hs.
    unfold behind. cbn [fmap list_fmap concat app parse_step Nat.add parse_loop].
    rewrite scan_blank by apply Hcl. rewrite <-(obj_set_last k v acc); [done|].
    by eapply keys_sorted_mid.
  - destruct IH as (n & Hn & IH).
    assert (stops (behind sep outs ++ ws ++ byte 0x7D :: rest)) as Hst.
    { apply stops_behind; [|by right|apply Hcl]. destruct Hcl as [(ws' & -> & _) _ _]. by eexists. }
    destruct (member_read _ _ _ Ho Hst) as (_ & t & input & n1 & Hn1 & Hkey & Hr).
    exists (1 + (n1 + n))%nat. unfold behind in *. cbn [fmap list_fmap concat]. rewrite !length_app.
    split; [lia|]. intros fuel k v acc stack Hs. cbn [Nat.add parse_loop parse_step].
    rewrite <-!app_assoc. destruct (scan_sep sep ws (o ++ concat ((λ o, sep ++ o) <$> outs) ++
      ws ++ byte 0x7D :: rest) Hcl) as (ws' & Hws' & ->).
    unfold parse_key in *. rewrite scan_blank by done. rewrite Hkey. cbn [mbind option_bind].
    rewrite (obj_set_last k v acc) by (by eapply keys_sorted_mid).
    rewrite <-Nat.add_assoc, Hr. destruct kv as [k' v']. rewrite IH; by rewrite <-!app_assoc.
Qed.

Lemma object_reads sep ws pre o outs kv kvs rest :
  closing sep ws -> blank pre -> Forall2 member (o :: outs) (kv :: kvs) ->
  keys_sorted (kv :: kvs) = true ->
  reads (byte 0x7B :: pre ++ (o ++ behind sep outs) ++ ws ++ [byte 0x7D]) rest (JObject (kv :: kvs)).
Proof.
  intros Hcl Hpre Hall Hsorted. inversion_clear Hall as [|? ? ? ? Ho Hos].
  destruct (members_read sep ws outs kvs rest Hcl Hos) as (k2 & Hk2 & H2).
  assert (stops (behind sep outs ++ ws ++ byte 0x7D :: rest)) as Hst.
  { apply stops_behind; [|by right|apply Hcl]. destruct Hcl as [(ws' & -> & _) _ _]. by eexists. }
  destruct (member_read _ _ _ Ho Hst) as (Hnot & t & input & k1 & Hk1 & Hkey & H1). split; [done|].
  exists (1 + (k1 + k2))%nat. split; [cbn; rewrite !length_app; cbn; lia|].
  intros fuel stack. unfold from.
  change (scan ((byte 0x7B :: pre ++ (o ++ behind sep outs) ++ ws ++ [byte 0x7D]) ++ rest))
    with (TBeginObject, (pre ++ (o ++ behind sep outs) ++ ws ++ [byte 0x7D]) ++ rest).
  rewrite <-!app_assoc. cbn [app Nat.add parse_loop parse_step]. unfold parse_key in *.
  rewrite scan_blank by done. rewrite Hkey. cbn [mbind option_bind].
  destruct (scan (o ++ _)) as [t' input']. cbn [fst] in Hnot.
  destruct kv as [k v]. specialize (H2 fuel k v [] stack Hsorted).
  destruct t'; try done; rewrite <-Nat.add_assoc, H1; exact H2.
Qed.

(** ** Whole values *)

Lemma fmap_Some_Forall2 {A B} (f : A -> option B) l bs :
  f <$> l = Some <$> bs -> Forall2 (fun b a => f a = Some b) bs l.
Proof.
  revert bs. induction l as [|a l IH]; intros [|b bs]; cbn; intros H; try done.
  injection H as H1 H2. constructor; [done|]. by apply IH.
Qed.

(** What is joined around the items of a non-empty container. *)
Lemma joined_items {A} sep (f : A -> option bytes) x l body :
  joined sep (f <$> x :: l) = Some body ->
  exists o outs, body = o ++ behind sep outs /\ Forall2 (fun b a => f a = Some b) (o :: outs) (x :: l).
Proof.
  intros H. destruct (joined_Some _ _ _ H) as (o & outs & Ho & ->); [done|].
  exists o, outs. split; [done|]. by apply fmap_Some_Forall2.
Qed.

Lemma closing_compact : closing (bytes_of ",") [].
Proof. split; [exists []; split; [done|]|..|by left]; apply Forall_nil_2. Qed.

Lemma closing_pretty n : closing (byte 0x2C :: [byte 0x0A]) (byte 0x0A :: indentation n).
Proof.
  split; [exists [byte 0x0A]; split; [done|by repeat constructor]| |by right; eexists].
  constructor; [done|apply blank_indentation].
Qed.

Lemma keys_sorted_normalize m :
  keys_sorted ((fun kv => (kv.1, normalize kv.2)) <$> m) = keys_sorted m.
Proof.
  induction m as [|[k v] m IH]; cbn; [done|]. f_equal; [|exact IH].
  clear IH. induction m as [|[k' v'] m IH]; cbn; [done|]. by f_equal.
Qed.

Lemma Forall2_transfer {A B C} (P : A -> Prop) (R : C -> A -> Prop) (Q : C -> B -> Prop) (g : A -> B) cs l :
  Forall P l -> Forall2 R cs l -> (forall c a, R c a -> P a -> Q c (g a)) -> Forall2 Q cs (g <$> l).
Proof.
  intros HP HR Hi. induction HR as [|c a cs l Hc HR IH]; [constructor|].
  inversion_clear HP. cbn. constructor; [by apply Hi|by apply IH].
Qed.

Section values.
Variable dump_float : float64 -> bytes.

(** The text of [j] is read back as its normal form. *)
Definition returns (pretty : option nat) (j : json) : Prop :=
  forall ind out, dump_value dump_float pretty false ind j = Some out ->
  forall rest, stops rest -> reads out rest (normalize j).

Lemma literal_returns out rest t v :
  t <> TEndArray -> out <> [] -> scan (out ++ rest) = (t, rest) ->
  (forall stack, parse_step (OnToken t) rest stack = Some (inr (OnValue v, rest, stack))) ->
  reads out rest v.
Proof. intros Ht Ho Hs Hp. eapply reads_token; [|done..]. destruct out; [done|cbn; lia]. Qed.

Lemma empty_reads a b rest v :
  scan ((a :: [b]) ++ rest) = (TBeginArray, b :: rest) /\ scan (b :: rest) = (TEndArray, rest) /\ v = JArray [] \/
  scan ((a :: [b]) ++ rest) = (TBeginObject, b :: rest) /\ scan (b :: rest) = (TEndObject, rest) /\ v = JObject [] ->
  reads [a; b] rest v.
Proof.
  intros [(H1 & H2 & ->)|(H1 & H2 & ->)]; (split; [by rewrite H1|]); exists 1%nat; (split; [cbn; lia|]);
    intros fuel stack; unfold from; rewrite H1; cbn [Nat.add parse_loop parse_step]; by rewrite H2.
Qed.

Lemma array_returns pretty l : Forall (returns pretty) l -> returns pretty (JArray l).
Proof.
  intros Hl ind out Hout rest Hst. destruct l as [|x l].
  { apply Some_inj in Hout as <-. apply empty_reads. by left. }
  cbn [normalize]. rewrite fmap_cons.
  destruct pretty as [step|]; cbn [dump_value] in Hout.
  - destruct (joined _ _) as [body|] eqn:E; [|done]. apply Some_inj in Hout as <-.
    apply joined_items in E as (o & outs & -> & H2).
    apply (array_reads _ (byte 0x0A :: indentation ind) [byte 0x0A]);
      [apply closing_pretty|by repeat constructor|].
    rewrite <-fmap_cons. apply (Forall2_transfer _ _ _ _ _ _ Hl H2).
    intros c a Hc Ha rest' Hst'. destruct (dump_value _ _ _ _ a) as [oa|] eqn:Ea; [|done].
    apply Some_inj in Hc as <-. apply reads_blank; [apply blank_indentation|]. by eapply Ha.
  - destruct (joined _ _) as [body|] eqn:E; [|done]. apply Some_inj in Hout as <-.
    apply joined_items in E as (o & outs & -> & H2).
    apply (array_reads _ [] []); [apply closing_compact|apply Forall_nil_2|].
    rewrite <-fmap_cons. apply (Forall2_transfer _ _ _ _ _ _ Hl H2).
    intros c a Hc Ha rest' Hst'. by eapply Ha.
Qed.

Lemma object_returns pretty m :
  keys_sorted m = true -> Forall (fun kv => returns pretty kv.2) m -> returns pretty (JObject m).
Proof.
  intros Hs Hl ind out Hout rest Hst. destruct m as [|x m].
  { apply Some_inj in Hout as <-. apply empty_reads. by right. }
  cbn [normalize]. rewrite fmap_cons. rewrite <-keys_sorted_normalize, fmap_cons in Hs.
  destruct pretty as [step|]; cbn [dump_value] in Hout.
  - destruct (joined _ _) as [body|] eqn:E; [|done]. apply Some_inj in Hout as <-.
    apply joined_items in E as (o & outs & -> & H2).
    apply (object_reads _ (byte 0x0A :: indentation ind) [byte 0x0A]);
      [apply closing_pretty|by repeat constructor| |done].
    rewrite <-(fmap_cons (fun kv : string * json => (kv.1, normalize kv.2))).
    apply (Forall2_transfer _ _ _ _ _ _ Hl H2).
    intros c [k a] Hc Ha. cbn [fst snd] in *. destruct (quoted false k) as [q|] eqn:Eq; [|done].
    destruct (dump_value _ _ _ _ a) as [oa|] eqn:Ea; [|done]. apply Some_inj in Hc as <-.
    exists (indentation (ind + step)), q, [byte 0x20], oa.
    split_and!; [done|apply blank_indentation|by repeat constructor|done|by eapply Ha].
  - destruct (joined _ _) as [body|] eqn:E; [|done]. apply Some_inj in Hout as <-.
    apply joined_items in E as (o & outs & -> & H2).
    apply (object_reads _ [] []); [apply closing_compact|apply Forall_nil_2| |done].
    rewrite <-(fmap_cons (fun kv : string * json => (kv.1, normalize kv.2))).
    apply (Forall2_transfer _ _ _ _ _ _ Hl H2).
    intros c [k a] Hc Ha. cbn [fst snd] in *. destruct (quoted false k) as [q|] eqn:Eq; [|done].
    destruct (dump_value _ _ _ _ a) as [oa|] eqn:Ea; [|done]. apply Some_inj in Hc as <-.
    exists [], q, [], oa. split_and!; [done|apply Forall_nil_2|apply Forall_nil_2|done|by eapply Ha].
Qed.

Lemma dump_integer_length z :
  (- 18446744073709551616 < z < 18446744073709551616)%Z -> dump_integer z <> [].
Proof.
  intros Hz. destruct (dump_integer_spec z Hz) as (ds & (_ & _ & Hl & _) & ->).
  case_bool_decide; [done|]. intros ->. cbn in Hl. lia.
Qed.

Lemma dump_returns pretty j : plain j = true -> returns pretty j.
Proof.
  induction j as [|b|z|n|f|s|l IH|m IH] using json_rect'; intros Hp ind out Hout; try done;
    try (apply Some_inj in Hout as <-); intros rest Hst.
  - by apply (literal_returns _ _ TNull).
  - destruct b; [by apply (literal_returns _ _ TTrue)|by apply (literal_returns _ _ TFalse)].
  - apply bool_decide_eq_true in Hp. cbn [normalize].
    pose proof (scan_integer z rest ltac:(lia) Hst) as Hs.
    eapply literal_returns; [|by apply dump_integer_length; lia|exact Hs|]; by case_bool_decide.
  - apply bool_decide_eq_true in Hp. unfold U64 in Hp. cbn [normalize].
    pose proof (scan_integer (Z.of_N n) rest ltac:(lia) Hst) as Hs.
    rewrite bool_decide_eq_true_2, N2Z.id in Hs by lia.
    eapply literal_returns; [|by apply dump_integer_length; lia|exact Hs|]; done.
  - destruct (scan_quoted _ _ rest Hout) as [Hs Hl].
    eapply reads_token; [lia| |exact Hs|]; [done|]. intros stack. cbn. by rewrite string_of_bytes_of.
  - revert ind out Hout rest Hst. apply array_returns.
    cbn [plain] in Hp. rewrite forallb_forall in Hp. rewrite Forall_forall in IH |- *.
    intros x Hx. apply IH; [done|]. by apply Hp, list_elem_of_In.
  - cbn [plain] in Hp. apply andb_true_iff in Hp as [Hs Hp].
    revert ind out Hout rest Hst. apply object_returns; [done|].
    rewrite forallb_forall in Hp. rewrite Forall_forall in IH |- *.
    intros x Hx. apply IH; [done|]. by apply Hp, list_elem_of_In.
Qed.
End values.

Lemma reads_no_bom out v : reads out [] v -> skip_bom out = Some out.
Proof.
  intros [_ (k & _ & Hf)]. specialize (Hf 1%nat []). rewrite app_nil_r in Hf.
  destruct out as [|c out]; [done|]. unfold skip_bom. case_bool_decide as Hc; [|done]. exfalso.
  assert (c = byte 0xEF) as -> by (by rewrite <-(byte_code c), Hc).
  unfold from in Hf. cbn in Hf. by destruct k.
Qed.

Lemma reads_parse strict out v : reads out [] v -> parse_bytes strict out = Some v.
Proof.
  intros Hr. unfold parse_bytes. rewrite (reads_no_bom out v) by done. cbn [mbind option_bind].
  destruct Hr as [_ (k & Hk & Hf)].
  specialize (Hf (S (parse_fuel out - k - 1)) []). rewrite app_nil_r in Hf. unfold from in Hf.
  replace (k + S (parse_fuel out - k - 1))%nat with (parse_fuel out) in Hf by (unfold parse_fuel; lia).
  destruct (scan out) as [t rest]. rewrite Hf. cbn. by destruct strict.
Qed.

(** Values whose strings are ASCII can be printed. *)
Definition ascii_text (s : string) : bool := forallb (fun c => code c <?? 0x80) (bytes_of s).

Fixpoint all_ascii (j : json) : bool :=
  match j with
  | JString s => ascii_text s
  | JArray l => forallb all_ascii l
  | JObject m => forallb (fun kv => ascii_text kv.1 && all_ascii kv.2) m
  | _ => true
  end.

Lemma dump_escaped_ascii s : ascii_text s = true -> is_Some (quoted false s).
Proof.
  intros Ha. unfold quoted, dump_escaped. enough (exists o, forall cp, dump_escaped_loop false UTF8_ACCEPT cp (bytes_of s) = Some o)
    as [o Ho] by (rewrite Ho; by eexists).
  unfold ascii_text in Ha. induction (bytes_of s) as [|c l IH]; [by exists []|].
  cbn in Ha. apply andb_true_iff in Ha as [Hc Ha]. destruct (IH Ha) as [o Ho].
  pose proof (first_byte_checked c) as Hf. unfold first_byte_ok in Hf.
  exists (escape false (code c) c ++ o). intros cp. cbn [dump_escaped_loop].
  change (decode UTF8_ACCEPT cp (code c)) with (decode 0 0 (code c)).
  destruct (decode 0 0 (code c)) as [st cp']. rewrite Hc in Hf.
  apply andb_true_iff in Hf as [Hst%bool_decide_eq_true Hcp%bool_decide_eq_true]. subst.
  rewrite bool_decide_eq_false_2 by done. by rewrite Ho.
Qed.

Lemma joined_total {A} sep (f : A -> option bytes) l :
  (forall a, a ∈ l -> is_Some (f a)) -> is_Some (joined sep (f <$> l)).
Proof.
  induction l as [|a l IH]; intros Hf; [by eexists|].
  destruct (Hf a) as [o Ho]; [by left|]. destruct IH as [b Hb]; [intros; apply Hf; by right|].
  rewrite fmap_cons, Ho. destruct (f <$> l) as [|o' os]; [by eexists|]. exists (o ++ sep ++ b).
  change (joined sep (Some o :: o' :: os)) with (b ← joined sep (o' :: os); Some (o ++ sep ++ b)).
  by rewrite Hb.
Qed.

Lemma dump_ascii df pretty j ind : all_ascii j = true -> is_Some (dump_value df pretty false ind j).
Proof.
  revert ind. induction j as [|b|z|n|f|s|l IH|m IH] using json_rect'; intros ind Ha; try by eexists.
  - by apply dump_escaped_ascii.
  - cbn [all_ascii] in Ha. rewrite forallb_forall in Ha. rewrite Forall_forall in IH.
    destruct l as [|x l]; [by eexists|].
    assert (forall i a, a ∈ x :: l -> is_Some (dump_value df pretty false i a)) as Hi.
    { intros i a Hin. apply IH; [done|]. by apply Ha, list_elem_of_In. }
    destruct pretty as [step|]; cbn [dump_value].
    + destruct (joined_total (byte 0x2C :: [byte 0x0A]) (fun v => out ← dump_value df (Some step) false (ind + step) v;
        Some (indentation (ind + step) ++ out)) (x :: l)) as [b Hb]; [|rewrite Hb; by eexists].
      intros a Hin. destruct (Hi (ind + step)%nat a Hin) as [o Ho]. rewrite Ho. by eexists.
    + destruct (joined_total (bytes_of ",") (dump_value df None false ind) (x :: l)) as [b Hb];
        [by apply Hi|rewrite Hb; by eexists].
  - cbn [all_ascii] in Ha. rewrite forallb_forall in Ha. rewrite Forall_forall in IH.
    destruct m as [|x m]; [by eexists|].
    assert (forall i a, a ∈ x :: m -> is_Some (quoted false a.1) /\ is_Some (dump_value df pretty false i a.2)) as Hi.
    { intros i a Hin. specialize (Ha a (proj1 (list_elem_of_In _ _) Hin)).
      apply andb_true_iff in Ha as [H1 H2]. split; [by apply dump_escaped_ascii|by apply IH]. }
    destruct pretty as [step|]; cbn [dump_value].
    + destruct (joined_total (byte 0x2C :: [byte 0x0A]) (fun kv => key ← quoted false kv.1;
        out ← dump_value df (Some step) false (ind + step) kv.2;
        Some (indentation (ind + step) ++ key ++ byte 0x3A :: byte 0x20 :: out)) (x :: m))
        as [b Hb]; [|rewrite Hb; by eexists].
      intros a Hin. destruct (Hi (ind + step)%nat a Hin) as [[q Hq] [o Ho]]. rewrite Hq, Ho. by eexists.
    + destruct (joined_total (bytes_of ",") (fun kv => key ← quoted false kv.1;
        out ← dump_value df None false ind kv.2; Some (key ++ byte 0x3A :: out)) (x :: m))
        as [b Hb]; [|rewrite Hb; by eexists].
      intros a Hin. destruct (Hi ind a Hin) as [[q Hq] [o Ho]]. rewrite Hq, Ho. by eexists.
Qed.

Lemma dump_then_parse df pretty strict j out :
  plain j = true -> dump_value df pretty false 0 j = Some out ->
  parse_bytes strict out = Some (normalize j).
Proof. intros Hp Hd. apply reads_parse. by eapply (dump_returns df pretty j Hp 0%nat out Hd []). Qed.

(** C28: JSON round trip.  Whatever text [dump()] or [dump(indent)] produces
    for a value without floats is parsed back, by [json::parse] and by
    [stream >> j], as that value (non-negative integers as unsigned); and the
    serializer does produce a text whenever the strings are ASCII. *)
Theorem json_roundtrip df indent j :
  plain j = true ->
  (forall s, json_dump df j = Some s \/ json_dump_indent df indent j = Some s ->
     json_parse s = Some (normalize j) /\ json_read (bytes_of s) = Some (normalize j)) /\
  (all_ascii j = true -> is_Some (json_dump df j) /\ is_Some (json_dump_indent df indent j)).
Proof.
  intros Hp. unfold json_parse, json_read. split.
  - intros s [Hd|Hd]; apply fmap_Some in Hd as (out & Hout & ->); rewrite bytes_of_string_of;
      (split; [apply (dump_then_parse df _ _ _ _ Hp Hout)|apply (dump_then_parse df _ _ _ _ Hp Hout)]).
  - intros Ha. split; apply fmap_is_Some; by apply dump_ascii.
Qed.

(** An object with a nested array, negative and non-negative integers. *)
Definition sample_value : json :=
  JObject [("cmd", JString "set_primary"); ("ids", JArray [JInteger (-3); JInteger 7; JBool true])].

Lemma json_roundtrip_witness :
  json_parse (dq "{'cmd':'set_primary','ids':[-3,7,true]}") =
    Some (JObject [("cmd", JString "set_primary");
                   ("ids", JArray [JInteger (-3); JUnsigned 7; JBool true])]) /\
  is_Some (json_dump_indent (fun _ => []) 2 sample_value).
Proof.
  pose proof (json_roundtrip (fun _ => []) 2 sample_value ltac:(vm_compute; reflexivity)) as [H1 H2].
  split; [apply H1; left; vm_compute; reflexivity|apply H2; vm_compute; reflexivity].
Defined.
