(* ===== verification/JsonTermination.v ===== *)
(** * The parser stops ([src/include/third_party/json.hpp])

    Every token but the end of the input takes at least one byte, so the loop
    of [sax_parse_internal] runs at most [parse_fuel] times and the loop of
    [scan_string] at most once per byte, on any input. *)

From S2P Require Import Prelude Float32 Json.

(** ** Tokens consume input *)

Lemma skip_whitespace_length l : (length (skip_whitespace l) <= length l)%nat.
Proof. induction l as [|c l IH]; cbn; [lia|]. case_match; cbn; lia. Qed.

Lemma scan_literal_length lit ok l : (length (scan_literal lit ok l).2 <= length l)%nat.
Proof.
  revert l. induction lit as [|c lit IH]; intros [|d l]; cbn; try lia.
  case_bool_decide; [specialize (IH l)|cbn]; lia.
Qed.

Lemma scan_number_loop_length s ty l buf : (length (scan_number_loop s ty l buf).2 <= length l)%nat.
Proof.
  revert s ty buf. induction l as [|c l IH]; intros s ty buf; cbn [scan_number_loop].
  - by destruct (number_end s).
  - destruct (number_next s c); cbn; [specialize (IH s0 (number_type_in s ty) (buf ++ [c]))|..]; lia.
Qed.

Lemma scan_number_length c l : (length (scan_number c l).2 <= length l)%nat.
Proof.
  unfold scan_number.
  pose proof (scan_number_loop_length (if code c =?? 0x2D then NsMinus else if code c =?? 0x30
    then NsZero else NsAny1) NtUnsigned l [c]) as H.
  by destruct (scan_number_loop _ _ _ _) as [[[ty text]|err] rest].
Qed.

Lemma get_codepoint_length l cp rest : get_codepoint l = Some (cp, rest) -> (length rest <= length l)%nat.
Proof.
  destruct l as [|c3 [|c2 [|c1 [|c0 l]]]]; try done. unfold get_codepoint.
  destruct (hex_value c3), (hex_value c2), (hex_value c1), (hex_value c0); try done. intros [= _ <-]. cbn. lia.
Qed.

Lemma scan_unicode_length l : (length (scan_unicode l).2 <= length l)%nat.
Proof.
  unfold scan_unicode. destruct (get_codepoint l) as [[cp1 rest]|] eqn:E1; [|done].
  apply get_codepoint_length in E1.
  destruct (_ && _); [|destruct (_ && _); done].
  destruct rest as [|b [|u rest2]]; cbn; [lia..|].
  destruct (_ && _); cbn in *; [|lia].
  destruct (get_codepoint rest2) as [[cp2 rest3]|] eqn:E2; cbn; [|lia].
  apply get_codepoint_length in E2. destruct (_ && _); cbn; lia.
Qed.

Lemma scan_escape_length l : (length (scan_escape l).2 <= length l)%nat.
Proof.
  destruct l as [|c l]; cbn [scan_escape]; [done|].
  pose proof (scan_unicode_length l). repeat (case_bool_decide; [cbn; lia|]). cbn. lia.
Qed.

Lemma next_byte_in_range_length ranges l taken rest :
  next_byte_in_range ranges l = Some (taken, rest) -> (length rest <= length l)%nat.
Proof.
  revert l taken rest. induction ranges as [|[lo hi] ranges IH]; intros l taken rest; cbn.
  { by intros [= _ <-]. }
  destruct l as [|c l]; [done|]. destruct (_ && _); [|done].
  destruct (next_byte_in_range ranges l) as [[tk r]|] eqn:E; [|done]. cbn. intros [= _ <-].
  apply IH in E. lia.
Qed.

Lemma scan_escape_message l e rest : scan_escape l = (inr e, rest) -> e <> "".
Proof.
  destruct l as [|c l]; cbn [scan_escape]; [by intros [= <- _]|].
  repeat (case_bool_decide; [try done|]); [|by intros [= <- _]].
  unfold scan_unicode. repeat case_match; by intros [= <- _].
Qed.

(** Enough fuel: the string ends, or is refused for a reason of its own. *)
Lemma scan_string_total fuel l buf :
  (length l < fuel)%nat ->
  (length (scan_string fuel l buf).2 <= length l)%nat /\ (scan_string fuel l buf).1 <> TParseError "".
Proof.
  revert l buf. induction fuel as [|fuel IH]; intros l buf Hf; [lia|].
  destruct l as [|c l]; [done|]. cbn [scan_string]. cbn [length] in Hf |- *.
  assert (forall l' buf', (length l' <= length l)%nat ->
    (length (scan_string fuel l' buf').2 <= S (length l))%nat /\
    (scan_string fuel l' buf').1 <> TParseError "") as Hrec.
  { intros l' buf' Hl. destruct (IH l' buf' ltac:(lia)). split; [lia|done]. }
  case_bool_decide; [split; [cbn; lia|done]|].
  case_bool_decide.
  { pose proof (scan_escape_length l) as Hl. pose proof (scan_escape_message l) as Hm.
    destruct (scan_escape l) as [[added|err] rest]; [by apply Hrec|].
    specialize (Hm err rest eq_refl). cbn in *. split; [lia|congruence]. }
  case_bool_decide; [split; [cbn; lia|done]|].
  case_bool_decide; [by apply Hrec|].
  destruct (following_ranges _) as [ranges|]; [|split; [cbn; lia|done]].
  destruct (next_byte_in_range ranges l) as [[taken rest]|] eqn:E; [|split; [cbn; lia|done]].
  apply next_byte_in_range_length in E. by apply Hrec.
Qed.

Lemma scan_length l :
  (length (scan l).2 <= length l)%nat /\
  ((scan l).1 <> TEndOfInput -> (length (scan l).2 < length l)%nat).
Proof.
  pose proof (skip_whitespace_length l) as Hw. unfold scan.
  destruct (skip_whitespace l) as [|c rest]; [cbn in *; split; [lia|done]|]. cbn in Hw.
  pose proof (scan_literal_length (bytes_of "rue") TTrue rest).
  pose proof (scan_literal_length (bytes_of "alse") TFalse rest).
  pose proof (scan_literal_length (bytes_of "ull") TNull rest).
  pose proof (scan_string_total (S (length rest)) rest [] ltac:(lia)) as [? _].
  pose proof (scan_number_length c rest).
  enough (forall r : token * bytes, (length r.2 <= length rest)%nat ->
    (length r.2 <= length l)%nat /\ (r.1 <> TEndOfInput -> (length r.2 < length l)%nat)) as Hr.
  { repeat (destruct (ch _ c); [by apply Hr|]). destruct (_ || _); [by apply Hr|].
    destruct (ch _ c); by apply Hr. }
  intros r Hr. lia.
Qed.

(** ** The loop *)

(** What is left to do: two per byte, and one for a token in hand. *)
Definition work (st : parse_state) (input : bytes) : nat :=
  2 * length input + match st with OnToken TEndOfInput => 0 | OnToken _ => 1 | OnValue _ => 0 end.

Lemma work_token l : (work (OnToken (scan l).1) (scan l).2 <= 2 * length l)%nat.
Proof.
  destruct (scan_length l) as [H1 H2]. unfold work.
  destruct (scan l) as [t rest]; cbn in *.
  destruct t; try (specialize (H2 ltac:(done))); lia.
Qed.

Lemma parse_key_work l k t rest :
  parse_key l = Some (k, t, rest) -> (work (OnToken t) rest + 4 <= 2 * length l)%nat.
Proof.
  unfold parse_key. pose proof (scan_length l) as [_ H1].
  destruct (scan l) as [t1 l1]; cbn in H1. destruct t1; try done. specialize (H1 ltac:(done)).
  pose proof (scan_length l1) as [_ H2].
  destruct (scan l1) as [t2 l2]; cbn in H2. destruct t2; try done. specialize (H2 ltac:(done)).
  pose proof (work_token l2) as H3. destruct (scan l2) as [t3 l3]; cbn [fst snd] in H3.
  intros [= _ <- <-]. lia.
Qed.

Lemma parse_step_work st input stack st' input' stack' :
  parse_step st input stack = Some (inr (st', input', stack')) ->
  (work st' input' < work st input)%nat.
Proof.
  pose proof (scan_length input) as [Hle Hlt]. pose proof (work_token input) as Hw.
  destruct st as [t|v]; cbn [parse_step].
  - destruct t; try done; try (by intros [= <- <- _]; unfold work; lia).
    + destruct (scan input) as [t rest]. cbn [fst snd] in *.
      destruct t; try (by intros [= <- <- _]; specialize (Hlt ltac:(done)); unfold work; lia);
        destruct (parse_key input) as [[[k t'] rest']|] eqn:E; try done; cbn [mbind option_bind];
        apply parse_key_work in E; intros [= <- <- _]; unfold work at 2; lia.
    + destruct (scan input) as [t rest]. cbn [fst snd] in *.
      destruct t; intros [= <- <- _]; unfold work in *; lia.
    + destruct (is_finite f); [|done]. intros [= <- <- _]. unfold work. lia.
  - destruct stack as [|[elements|members k] stack]; [done|..];
      destruct (scan input) as [t rest]; cbn [fst snd] in *; destruct t; try done;
      specialize (Hlt ltac:(done)).
    + intros [= <- <- _]. unfold work. lia.
    + pose proof (work_token rest) as Hw2. destruct (scan rest) as [t2 rest2].
      intros [= <- <- _]. cbn [fst snd] in Hw2. unfold work at 2. lia.
    + intros [= <- <- _]. unfold work. lia.
    + destruct (parse_key rest) as [[[k' t'] rest']|] eqn:E; [|done]. cbn [mbind option_bind].
      apply parse_key_work in E. intros [= <- <- _]. unfold work at 2. lia.
Qed.

(** Whether the loop leaves by [return] or by an exception within [fuel]
    iterations. *)
Fixpoint parse_halts (fuel : nat) (st : parse_state) (input : bytes) (stack : list frame) : bool :=
  match fuel with
  | O => false
  | S fuel =>
    match parse_step st input stack with
    | Some (inr (st, input, stack)) => parse_halts fuel st input stack
    | _ => true
    end
  end.

Lemma parse_halts_work fuel st input stack :
  (work st input < fuel)%nat -> parse_halts fuel st input stack = true.
Proof.
  revert st input stack. induction fuel as [|fuel IH]; intros st input stack Hw; [lia|].
  cbn [parse_halts]. destruct (parse_step st input stack) as [[r|[[st' input'] stack']]|] eqn:E; try done.
  apply IH. apply parse_step_work in E. lia.
Qed.

(** C37: The JSON parser terminates on every input: its loop leaves, with a
    value or an exception, within [parse_fuel] iterations, and the loop over
    the bytes of a string literal leaves within one iteration per byte. *)
Theorem parse_terminates input :
  parse_halts (parse_fuel input) (OnToken (scan input).1) (scan input).2 [] = true /\
  forall buffer, (scan_string (S (length input)) input buffer).1 <> TParseError "".
Proof.
  split.
  - apply parse_halts_work. pose proof (work_token input). unfold parse_fuel. lia.
  - intros buffer. apply scan_string_total. lia.
Qed.
