(* ===== verification/ClusterConfig.v ===== *)
(** * Configuration files ([src/cluster/cluster_config.hpp], [src/cluster/raft_config.hpp])

    Reading and writing the list of shard replicas and of Raft peers as JSON,
    and the temp-file-and-rename protocol that lets several coordinators share
    one configuration path. *)

From S2P Require Import Prelude Float32 Json JsonDump JsonRoundtrip Storage RaftState RaftLog RaftNode.

Record ShardEndpoint := MkEndpoint {
  ep_shard_id : Z;
  ep_replica_id : Z;
  ep_host : string;
  ep_port : Z;
  ep_is_primary : bool;
}.

Definition endpoint_address (ep : ShardEndpoint) : string :=
  ep_host ep +:+ ":" +:+ pretty (ep_port ep).

(** ** Reading *)

(** One element of ["shards"]; [None] is an exception. *)
Definition load_endpoint (s : json) : option ShardEndpoint :=
  shard_id ← j_at "shard_id" s ≫= get_int;
  replica_id ← j_value get_int "replica_id" 0%Z s;
  host ← j_at "host" s ≫= get_string;
  port ← j_at "port" s ≫= get_int;
  is_primary ← j_value get_bool "primary" true s;
  Some (MkEndpoint shard_id replica_id host port is_primary).

Definition load_cluster_config (file : option bytes) : option (list ShardEndpoint) :=
  f ← file;
  j ← json_read f;
  shards ← j_at "shards" j;
  eps ← mapM load_endpoint (j_elements shards);
  match eps with [] => None | _ => Some eps end.

Definition load_peer (p : json) : option RaftPeer :=
  node_id ← j_at "node_id" p ≫= get_int;
  host ← j_at "host" p ≫= get_string;
  port ← j_at "raft_port" p ≫= get_int;
  Some (MkPeer node_id host port).

Definition load_raft_peers (file : option bytes) : option (list RaftPeer) :=
  f ← file;
  j ← json_read f;
  peers ← j_at "peers" j;
  ps ← mapM load_peer (j_elements peers);
  match ps with [] => None | _ => Some ps end.

(** ** Writing *)

Definition endpoint_json (ep : ShardEndpoint) : json :=
  j_object [("shard_id", JInteger (ep_shard_id ep)); ("replica_id", JInteger (ep_replica_id ep));
            ("host", JString (ep_host ep)); ("port", JInteger (ep_port ep));
            ("primary", JBool (ep_is_primary ep))].

Definition config_json (shards : list ShardEndpoint) : json :=
  JObject [("shards", JArray (endpoint_json <$> shards))].

(** The text that goes to the temporary file; [None] when [dump] throws. *)
Definition config_text (dump_float : float64 -> bytes) (shards : list ShardEndpoint) : option bytes :=
  bytes_of <$> json_dump_indent dump_float 2 (config_json shards).

(** ** Round trip *)

Record endpoint_wf (ep : ShardEndpoint) : Prop := {
  epw_shard_id : is_i32 (ep_shard_id ep);
  epw_replica_id : is_i32 (ep_replica_id ep);
  epw_port : is_i32 (ep_port ep);
}.

Lemma get_int_normalize z : is_i32 z -> get_int (normalize (JInteger z)) = Some z.
Proof.
  intros Hz. cbn [normalize]. case_bool_decide as H0; cbn [get_int]; unfold to_i32.
  - rewrite Z2N.id by done. by rewrite u32_to_i32_of.
  - by rewrite u32_to_i32_of.
Qed.

Lemma i32_plain z : is_i32 z -> plain (JInteger z) = true.
Proof. unfold is_i32. intros Hz. cbn. apply bool_decide_eq_true. lia. Qed.

Lemma endpoint_json_eq ep :
  endpoint_json ep =
  JObject [("host", JString (ep_host ep)); ("port", JInteger (ep_port ep));
           ("primary", JBool (ep_is_primary ep)); ("replica_id", JInteger (ep_replica_id ep));
           ("shard_id", JInteger (ep_shard_id ep))].
Proof. reflexivity. Qed.

Lemma endpoint_plain ep : endpoint_wf ep -> plain (endpoint_json ep) = true.
Proof.
  intros [H1 H2 H3]. rewrite endpoint_json_eq.
  apply i32_plain in H1, H2, H3. cbn [plain keys_sorted forallb snd] in *.
  by rewrite H1, H2, H3.
Qed.

Lemma obj_find_normalize k m :
  obj_find k ((fun kv => (kv.1, normalize kv.2)) <$> m) = normalize <$> obj_find k m.
Proof. induction m as [|[k' v'] m IH]; [done|]. cbn. by case_bool_decide. Qed.

(** Access to a member of an object that went through the file. *)
Lemma j_at_normalize k m v :
  obj_find k m = Some v -> j_at k (normalize (JObject m)) = Some (normalize v).
Proof. intros H. cbn [normalize j_at]. by rewrite obj_find_normalize, H. Qed.

Lemma j_value_normalize {A} (get : json -> option A) k d m v :
  obj_find k m = Some v -> j_value get k d (normalize (JObject m)) = get (normalize v).
Proof. intros H. cbn [normalize j_value]. by rewrite obj_find_normalize, H. Qed.

Lemma load_endpoint_json ep : endpoint_wf ep -> load_endpoint (normalize (endpoint_json ep)) = Some ep.
Proof.
  intros [H1 H2 H3]. rewrite endpoint_json_eq. unfold load_endpoint.
  erewrite !j_at_normalize, !j_value_normalize by reflexivity. cbn [mbind option_bind].
  rewrite !get_int_normalize by done. by destruct ep.
Qed.

Lemma config_plain eps : Forall endpoint_wf eps -> plain (config_json eps) = true.
Proof.
  intros Hw. cbn. rewrite andb_true_r. apply forallb_forall. intros j Hj%list_elem_of_In.
  apply list_elem_of_fmap in Hj as (ep & -> & Hep). rewrite Forall_forall in Hw.
  by apply endpoint_plain, Hw.
Qed.

(** The text of a configuration is read back as that configuration. *)
Lemma load_config_text df eps text :
  Forall endpoint_wf eps -> eps <> [] -> config_text df eps = Some text ->
  load_cluster_config (Some text) = Some eps.
Proof.
  intros Hw Hne Ht. unfold config_text, json_dump_indent in Ht.
  apply fmap_Some in Ht as (s & Hs & ->). apply fmap_Some in Hs as (out & Hout & ->).
  rewrite bytes_of_string_of. unfold load_cluster_config, json_read. cbn [mbind option_bind].
  rewrite (dump_then_parse df _ _ _ _ (config_plain _ Hw) Hout). cbn [mbind option_bind].
  unfold config_json. erewrite j_at_normalize by reflexivity.
  cbn [mbind option_bind normalize j_elements].
  assert (mapM load_endpoint (normalize <$> (endpoint_json <$> eps)) = Some eps) as ->.
  { apply mapM_Some. clear Hne Hout. induction Hw as [|ep eps Hep Hw IH]; cbn; constructor; [|done].
    by apply load_endpoint_json. }
  destruct eps; [congruence|reflexivity].
Qed.

Lemma config_text_ascii df eps :
  Forall (fun ep => ascii_text (ep_host ep) = true) eps -> is_Some (config_text df eps).
Proof.
  intros Ha. unfold config_text, json_dump_indent. apply fmap_is_Some, fmap_is_Some, dump_ascii.
  unfold config_json. cbn [all_ascii forallb fst snd]. rewrite andb_true_r. cbn.
  apply forallb_forall. intros j Hj%list_elem_of_In. apply list_elem_of_fmap in Hj as (ep & -> & Hep).
  rewrite Forall_forall in Ha. rewrite endpoint_json_eq. cbn [all_ascii forallb fst snd].
  by rewrite (Ha ep Hep).
Qed.

(** ** Several coordinators on one path *)

(** A directory: names refer to inodes, whose contents outlive their names. *)
Record filesystem := MkFs { names : gmap string nat; inodes : list bytes }.

Definition contents (fs : filesystem) (ino : nat) : bytes := default [] (inodes fs !! ino).

(** [open] with [O_TRUNC | O_CREAT]: the inode, empty. *)
Definition open_trunc (name : string) (fs : filesystem) : filesystem * nat :=
  match names fs !! name with
  | Some ino => (MkFs (names fs) (<[ino := []]> (inodes fs)), ino)
  | None =>
    let ino := length (inodes fs) in
    (MkFs (<[name := ino]> (names fs)) (inodes fs ++ [[]]), ino)
  end.

(** [write] at an offset, a gap filled with zero bytes. *)
Definition write_at (ino off : nat) (data : bytes) (fs : filesystem) : filesystem :=
  let old := contents fs ino in
  MkFs (names fs)
    (<[ino := take off old ++ replicate (off - length old) (byte 0) ++ data ++
              drop (off + length data) old]> (inodes fs)).

Definition rename (from to : string) (fs : filesystem) : option filesystem :=
  ino ← names fs !! from; Some (MkFs (<[to := ino]> (delete from (names fs))) (inodes fs)).

(** [path + "." + pid + "." + seq + ".tmp"]. *)
Definition tmp_path (path : string) (pid seq : N) : string :=
  path +:+ "." +:+ pretty pid +:+ "." +:+ pretty seq +:+ ".tmp".

Inductive save_pc :=
| SaveOpen
| SaveWriting (ino off : nat) (rest : bytes)
| SaveRename (ino : nat)
| SaveDone
| SaveFailed.

(** One call of [save_cluster_config], by the process [pid], with its text. *)
Record saver := MkSaver { sv_pid : N; sv_seq : N; sv_text : bytes; sv_pc : save_pc }.

Definition with_pc (pc : save_pc) (w : saver) : saver :=
  MkSaver (sv_pid w) (sv_seq w) (sv_text w) pc.

Section sharing.
Variable path : string.

Definition sv_tmp (w : saver) : string := tmp_path path (sv_pid w) (sv_seq w).

(** The system calls of [save_cluster_config]; any of them may fail, and the
    process may stop at any point. *)
Inductive save_step : filesystem -> saver -> filesystem -> saver -> Prop :=
| save_open fs w fs' ino :
    sv_pc w = SaveOpen -> open_trunc (sv_tmp w) fs = (fs', ino) ->
    save_step fs w fs' (with_pc (SaveWriting ino 0 (sv_text w)) w)
| save_write fs w ino off data rest :
    sv_pc w = SaveWriting ino off (data ++ rest) ->
    save_step fs w (write_at ino off data fs) (with_pc (SaveWriting ino (off + length data) rest) w)
| save_close fs w ino off :
    sv_pc w = SaveWriting ino off [] -> save_step fs w fs (with_pc (SaveRename ino) w)
| save_rename fs w fs' ino :
    sv_pc w = SaveRename ino -> rename (sv_tmp w) path fs = Some fs' ->
    save_step fs w fs' (with_pc SaveDone w)
| save_fail fs w : save_step fs w fs (with_pc SaveFailed w).

Inductive sharing_step : filesystem * list saver -> filesystem * list saver -> Prop :=
| sharing_step_intro fs ws i w fs' w' :
    ws !! i = Some w -> save_step fs w fs' w' ->
    sharing_step (fs, ws) (fs', <[i := w']> ws).
End sharing.

(** ** Temporary names are distinct *)

Definition no_dot (s : string) : Prop := Forall (fun c => code c <> 0x2E) (bytes_of s).

Lemma bytes_of_app s t : bytes_of (s +:+ t) = bytes_of s ++ bytes_of t.
Proof.
  induction s as [|c s IH]; [done|].
  change (c :: bytes_of (s +:+ t) = c :: bytes_of s ++ bytes_of t). by rewrite IH.
Qed.

Lemma pretty_N_go_no_dot x s : no_dot s -> no_dot (pretty_N_go x s).
Proof.
  revert s. induction (N.lt_wf_0 x) as [x _ IH]. intros s Hs.
  destruct (decide (0 < x)) as [Hx|Hx]; [|assert (x = 0) as -> by lia; by rewrite pretty_N_go_0].
  rewrite pretty_N_go_step by done. apply IH; [by apply N.div_lt|]. constructor; [|done].
  pose proof (N.mod_lt x 10 ltac:(done)) as Hm. revert Hm. generalize (x mod 10). intros d Hd.
  destruct d as [|p]; [done|]. do 4 (destruct p as [p|p|]; try done; try lia).
Qed.

Lemma pretty_no_dot (n : N) : no_dot (pretty n).
Proof.
  unfold pretty, pretty_N. case_decide; [by repeat constructor|]. apply pretty_N_go_no_dot. constructor.
Qed.

Lemma split_at_dot s s' t t' :
  no_dot s -> no_dot s' -> s +:+ "." +:+ t = s' +:+ "." +:+ t' -> s = s' /\ t = t'.
Proof.
  unfold no_dot. revert s'. induction s as [|c s IH]; intros [|c' s'] Hs Hs' H; cbn in *.
  - by injection H.
  - injection H as <- _. by inversion Hs'.
  - injection H as -> _. by inversion Hs.
  - injection H as -> H. inversion_clear Hs. inversion_clear Hs'.
    by destruct (IH s') as [-> ->].
Qed.

Lemma app_inj_l (s t t' : string) : s +:+ t = s +:+ t' -> t = t'.
Proof. induction s as [|c s IH]; cbn; [done|]. intros [= H]. by apply IH. Qed.

Lemma tmp_path_inj path pid seq pid' seq' :
  tmp_path path pid seq = tmp_path path pid' seq' -> pid = pid' /\ seq = seq'.
Proof.
  unfold tmp_path. intros H%app_inj_l. apply (app_inj_l ".") in H.
  apply split_at_dot in H as [Hp H]; [|apply pretty_no_dot..].
  apply (split_at_dot (pretty seq) (pretty seq') "tmp" "tmp") in H as [Hs _]; [|apply pretty_no_dot..].
  split; by apply (inj pretty).
Qed.

Lemma tmp_path_ne path pid seq : tmp_path path pid seq <> path.
Proof.
  intros H. assert (length (bytes_of (tmp_path path pid seq)) = length (bytes_of path)) as Hl by (by rewrite H).
  unfold tmp_path in Hl. rewrite !bytes_of_app, !length_app in Hl. cbn in Hl. lia.
Qed.

(** ** No reader sees a partial file *)

Lemma contents_insert names l ino c j :
  (ino < length l)%nat ->
  contents (MkFs names (<[ino := c]> l)) j = if bool_decide (j = ino) then c else default [] (l !! j).
Proof.
  intros Hi. unfold contents. cbn. case_bool_decide as Hj.
  - subst. by rewrite list_lookup_insert_eq.
  - by rewrite list_lookup_insert_ne.
Qed.

Section invariant.
Variable path : string.

(** What a call relies on while it is under way. *)
Definition saver_ok (fs : filesystem) (w : saver) : Prop :=
  match sv_pc w with
  | SaveWriting ino off rest =>
    names fs !! sv_tmp path w = Some ino /\ sv_text w = contents fs ino ++ rest /\
    off = length (contents fs ino)
  | SaveRename ino => names fs !! sv_tmp path w = Some ino /\ contents fs ino = sv_text w
  | _ => True
  end.

(** [ino] has no name but [path]. *)
Definition sealed (fs : filesystem) (ino : nat) : Prop :=
  (ino < length (inodes fs))%nat /\ forall name, names fs !! name = Some ino -> name = path.

Record sharing_inv (before : option bytes) (fs : filesystem) (ws : list saver) : Prop := {
  shi_bound : forall name ino, names fs !! name = Some ino -> (ino < length (inodes fs))%nat;
  shi_inj : forall a b ino, names fs !! a = Some ino -> names fs !! b = Some ino -> a = b;
  shi_ids : NoDup ((fun w => (sv_pid w, sv_seq w)) <$> ws);
  shi_savers : forall i w, ws !! i = Some w -> saver_ok fs w;
  shi_path : forall ino, names fs !! path = Some ino ->
    before = Some (contents fs ino) \/ contents fs ino ∈ sv_text <$> ws;
}.

(** A change that only concerns the temporary name of [w], its inode [ino] and
    [path]. *)
Record touches (w : saver) (ino : nat) (fs fs' : filesystem) : Prop := {
  tc_names : forall n, n <> sv_tmp path w -> n <> path -> names fs' !! n = names fs !! n;
  tc_other : forall j, j <> ino -> (j < length (inodes fs))%nat -> contents fs' j = contents fs j;
  tc_length : (length (inodes fs) <= length (inodes fs'))%nat;
  tc_fresh : names fs !! sv_tmp path w = Some ino \/ (length (inodes fs) <= ino)%nat;
}.

Lemma sv_tmp_ne_path w : sv_tmp path w <> path.
Proof. apply tmp_path_ne. Qed.

Lemma sv_tmp_ne ws i j w v :
  NoDup ((fun w => (sv_pid w, sv_seq w)) <$> ws) -> ws !! i = Some w -> ws !! j = Some v -> i <> j ->
  sv_tmp path v <> sv_tmp path w.
Proof.
  intros Hnd Hi Hj Hne Heq. apply tmp_path_inj in Heq as [Hp Hs]. apply Hne.
  eapply (NoDup_lookup _ i j (sv_pid w, sv_seq w) Hnd); rewrite list_lookup_fmap; [by rewrite Hi|].
  rewrite Hj. cbn. by rewrite Hp, Hs.
Qed.

(** Other calls keep what they rely on. *)
Lemma touches_saver before fs ws fs' i j w v ino :
  sharing_inv before fs ws -> touches w ino fs fs' -> ws !! i = Some w -> ws !! j = Some v -> i <> j ->
  saver_ok fs' v.
Proof.
  intros Hinv Ht Hi Hj Hne. pose proof (shi_savers _ _ _ Hinv j v Hj) as Hv.
  pose proof (sv_tmp_ne ws i j w v (shi_ids _ _ _ Hinv) Hi Hj Hne) as Htmp.
  assert (forall k, names fs !! sv_tmp path v = Some k ->
    names fs' !! sv_tmp path v = Some k /\ contents fs' k = contents fs k) as Hk.
  { intros k Hk. rewrite (tc_names _ _ _ _ Ht) by (done || apply sv_tmp_ne_path). split; [done|].
    pose proof (shi_bound _ _ _ Hinv _ _ Hk) as Hb.
    apply (tc_other _ _ _ _ Ht); [|done]. intros ->.
    destruct (tc_fresh _ _ _ _ Ht) as [Hn|Hn]; [|lia].
    by apply Htmp, (shi_inj _ _ _ Hinv _ _ ino). }
  unfold saver_ok in *. destruct (sv_pc v) as [|k off rest|k| |]; try done.
  - destruct Hv as (Hn & Ht' & Ho). destruct (Hk k Hn) as [-> ->]. done.
  - destruct Hv as (Hn & Ht'). destruct (Hk k Hn) as [-> ->]. done.
Qed.

(** A sealed inode keeps its contents. *)
Lemma touches_contents fs fs' w ino k :
  touches w ino fs fs' -> sealed fs k -> contents fs' k = contents fs k.
Proof.
  intros Ht [Hk Hs]. apply (tc_other _ _ _ _ Ht); [|done]. intros ->.
  destruct (tc_fresh _ _ _ _ Ht) as [Hn|Hn]; [|lia]. by apply (sv_tmp_ne_path w), Hs.
Qed.

Lemma open_touches w fs fs' ino :
  (forall name ino, names fs !! name = Some ino -> (ino < length (inodes fs))%nat) ->
  open_trunc (sv_tmp path w) fs = (fs', ino) ->
  touches w ino fs fs' /\ names fs' !! sv_tmp path w = Some ino /\ contents fs' ino = [] /\
  names fs' !! path = names fs !! path /\ (ino < length (inodes fs'))%nat.
Proof.
  intros Hb. pose proof (sv_tmp_ne_path w) as Hp.
  unfold open_trunc. destruct (names fs !! sv_tmp path w) as [k|] eqn:E; intros [= <- <-].
  - pose proof (Hb _ _ E) as Hk. split_and!; [split| | | |]; cbn.
    + done.
    + intros j Hj Hl. rewrite contents_insert by done. by rewrite bool_decide_eq_false_2.
    + by rewrite length_insert.
    + by left.
    + done.
    + rewrite contents_insert by done. by rewrite bool_decide_eq_true_2.
    + done.
    + by rewrite length_insert.
  - split_and!; [split| | | |]; cbn.
    + intros n Hn _. by rewrite lookup_insert_ne.
    + intros j Hj Hl. unfold contents. cbn. by rewrite lookup_app_l.
    + rewrite length_app. lia.
    + by right.
    + by rewrite lookup_insert_eq.
    + unfold contents. cbn. by rewrite list_lookup_middle.
    + by rewrite lookup_insert_ne.
    + rewrite length_app. cbn. lia.
Qed.

Lemma write_touches w fs ino off data rest :
  (ino < length (inodes fs))%nat -> names fs !! sv_tmp path w = Some ino ->
  sv_text w = contents fs ino ++ data ++ rest -> off = length (contents fs ino) ->
  touches w ino fs (write_at ino off data fs) /\
  contents (write_at ino off data fs) ino = contents fs ino ++ data.
Proof.
  intros Hi Hn Ht ->. split; [split|]; cbn.
  - done.
  - intros j Hj Hl. unfold write_at. rewrite contents_insert by done. by rewrite bool_decide_eq_false_2.
  - by rewrite length_insert.
  - by left.
  - unfold write_at. rewrite contents_insert by done. rewrite bool_decide_eq_true_2 by done.
    rewrite take_ge, Nat.sub_diag, drop_ge by lia. by rewrite app_nil_r.
Qed.

Lemma rename_touches w fs fs' ino :
  names fs !! sv_tmp path w = Some ino -> rename (sv_tmp path w) path fs = Some fs' ->
  touches w ino fs fs' /\ names fs' = <[path := ino]> (delete (sv_tmp path w) (names fs)) /\
  inodes fs' = inodes fs.
Proof.
  intros Hn. unfold rename. rewrite Hn. intros [= <-]. split; [|done]. split; cbn; try done; [|by left].
  intros n H1 H2. rewrite lookup_insert_ne by done. by rewrite lookup_delete_ne.
Qed.

(** The step of one call, given what it does to the files. *)
Lemma inv_update before fs fs' ws i w pc ino :
  sharing_inv before fs ws -> ws !! i = Some w -> touches w ino fs fs' ->
  (forall name k, names fs' !! name = Some k -> (k < length (inodes fs'))%nat) ->
  (forall a b k, names fs' !! a = Some k -> names fs' !! b = Some k -> a = b) ->
  saver_ok fs' (with_pc pc w) ->
  (forall k, names fs' !! path = Some k -> names fs !! path = Some k \/ contents fs' k = sv_text w) ->
  sharing_inv before fs' (<[i := with_pc pc w]> ws).
Proof.
  intros Hinv Hi Ht Hb Hj Hw Hp. assert (i < length ws)%nat as Hil by (by eapply lookup_lt_Some).
  assert (forall A (f : saver -> A), f (with_pc pc w) = f w -> f <$> <[i := with_pc pc w]> ws = f <$> ws) as Hmap.
  { intros A f Hf. rewrite list_fmap_insert, Hf. apply list_insert_id. by rewrite list_lookup_fmap, Hi. }
  split; [done|done|by rewrite Hmap; [apply Hinv|]| |].
  - intros j v Hv. destruct (decide (i = j)) as [<-|Hne].
    + rewrite list_lookup_insert_eq in Hv by done. by injection Hv as <-.
    + rewrite list_lookup_insert_ne in Hv by done. by eapply touches_saver.
  - intros k Hk. rewrite Hmap by done. destruct (Hp k Hk) as [Hold|Hnew].
    + rewrite (tc_other _ _ _ _ Ht); [by apply Hinv| |by eapply Hinv].
      intros ->. destruct (tc_fresh _ _ _ _ Ht) as [Hn|Hn].
      * apply (sv_tmp_ne_path w). by eapply Hinv.
      * pose proof (shi_bound _ _ _ Hinv _ _ Hold). lia.
    + right. rewrite Hnew. apply list_elem_of_fmap. exists w. split; [done|].
      by eapply list_elem_of_lookup_2.
Qed.

(** What one step of a call preserves. *)
Definition step_ok (before : option bytes) (fs fs' : filesystem) (ws : list saver) (i : nat) (w' : saver) : Prop :=
  sharing_inv before fs' (<[i := w']> ws) /\
  forall k, sealed fs k -> sealed fs' k /\ contents fs' k = contents fs k.

Lemma open_step before fs fs' ws i w ino :
  sharing_inv before fs ws -> ws !! i = Some w -> open_trunc (sv_tmp path w) fs = (fs', ino) ->
  step_ok before fs fs' ws i (with_pc (SaveWriting ino 0 (sv_text w)) w).
Proof.
  intros Hinv Hi H0. pose proof (sv_tmp_ne_path w) as Hne.
  destruct (open_touches w fs fs' ino (shi_bound _ _ _ Hinv) H0) as (Ht & Hn & Hc & Hp & Hb).
  assert (forall name k, names fs' !! name = Some k -> name <> sv_tmp path w -> names fs !! name = Some k) as Hold.
  { intros name k Hk Hname. destruct (decide (name = path)) as [->|Hnp]; [by rewrite <-Hp|].
    by rewrite <-(tc_names _ _ _ _ Ht). }
  assert (forall name k, names fs' !! name = Some k -> name <> sv_tmp path w -> k <> ino) as Hdiff.
  { intros name k Hk Hname ->. pose proof (Hold _ _ Hk Hname) as Ho.
    destruct (tc_fresh _ _ _ _ Ht) as [Hf|Hf]; [by apply Hname, (shi_inj _ _ _ Hinv _ _ ino)|].
    pose proof (shi_bound _ _ _ Hinv _ _ Ho). lia. }
  split.
  - eapply inv_update; [done..| | | |].
    + intros name k Hk. destruct (decide (name = sv_tmp path w)) as [->|Hname]; [by simplify_eq|].
      pose proof (shi_bound _ _ _ Hinv _ _ (Hold _ _ Hk Hname)). pose proof (tc_length _ _ _ _ Ht). lia.
    + intros a b k Ha Hb'.
      destruct (decide (a = sv_tmp path w)) as [->|Hna], (decide (b = sv_tmp path w)) as [->|Hnb]; [done|..].
      * simplify_eq. by destruct (Hdiff b ino).
      * simplify_eq. by destruct (Hdiff a ino).
      * eapply (shi_inj _ _ _ Hinv); eauto.
    + unfold saver_ok. cbn [with_pc sv_pc sv_text]. by rewrite Hc.
    + intros k Hk. left. by rewrite <-Hp.
  - intros k Hk. split; [|by eapply touches_contents]. destruct Hk as [Hk1 Hk2].
    split; [pose proof (tc_length _ _ _ _ Ht); lia|]. intros name Hname.
    destruct (decide (name = sv_tmp path w)) as [->|Hnn]; [|by apply Hk2, Hold].
    simplify_eq. destruct (tc_fresh _ _ _ _ Ht) as [Hf|Hf]; [by apply Hk2|lia].
Qed.

Lemma write_step before fs ws i w ino off data rest :
  sharing_inv before fs ws -> ws !! i = Some w -> sv_pc w = SaveWriting ino off (data ++ rest) ->
  step_ok before fs (write_at ino off data fs) ws i (with_pc (SaveWriting ino (off + length data) rest) w).
Proof.
  intros Hinv Hi Hpc. pose proof (shi_savers _ _ _ Hinv i w Hi) as Hok. unfold saver_ok in Hok.
  rewrite Hpc in Hok. destruct Hok as (Hn & Htext & Hoff).
  destruct (write_touches w fs ino off data rest (shi_bound _ _ _ Hinv _ _ Hn) Hn Htext Hoff) as [Ht Hc].
  split.
  - eapply inv_update; [done..| | | |].
    + intros name k Hk. cbn. rewrite length_insert. by eapply Hinv.
    + apply Hinv.
    + unfold saver_ok. cbn [with_pc sv_pc sv_text]. rewrite Hc, length_app, <-app_assoc. by rewrite Hoff.
    + intros k Hk. by left.
  - intros k Hk. split; [|by eapply touches_contents]. destruct Hk as [Hk1 Hk2].
    split; [by cbn; rewrite length_insert|done].
Qed.

Lemma rename_step before fs fs' ws i w ino :
  sharing_inv before fs ws -> ws !! i = Some w -> sv_pc w = SaveRename ino ->
  rename (sv_tmp path w) path fs = Some fs' -> step_ok before fs fs' ws i (with_pc SaveDone w).
Proof.
  intros Hinv Hi Hpc H0. pose proof (shi_savers _ _ _ Hinv i w Hi) as Hok. unfold saver_ok in Hok.
  rewrite Hpc in Hok. destruct Hok as (Hn & Htext).
  destruct (rename_touches w fs fs' ino Hn H0) as (Ht & Hnames & Hinodes).
  assert (forall k, contents fs' k = contents fs k) as Hcont by (intros k; unfold contents; by rewrite Hinodes).
  assert (forall name k, names fs' !! name = Some k -> name = path /\ k = ino \/
    name <> path /\ name <> sv_tmp path w /\ names fs !! name = Some k) as Hcases.
  { intros name k. rewrite Hnames. destruct (decide (name = path)) as [->|Hnp].
    - rewrite lookup_insert_eq. intros [= <-]. by left.
    - rewrite lookup_insert_ne by done. intros Hk%lookup_delete_Some. right. naive_solver. }
  split.
  - eapply inv_update; [done..| | |done|].
    + intros name k Hk. rewrite Hinodes. destruct (Hcases _ _ Hk) as [[-> ->]|(_ & _ & Ho)]; by eapply Hinv.
    + intros a b k Ha Hb.
      destruct (Hcases _ _ Ha) as [[-> ->]|(? & ? & Ho)], (Hcases _ _ Hb) as [[-> ?]|(? & ? & Ho')].
      * done.
      * by assert (b = sv_tmp path w) by (by eapply Hinv).
      * subst. by assert (a = sv_tmp path w) by (by eapply Hinv).
      * by eapply Hinv.
    + intros k Hk. right. rewrite Hcont. by destruct (Hcases _ _ Hk) as [[_ ->]|(? & _)].
  - intros k Hk. split; [|done]. destruct Hk as [Hk1 Hk2]. split; [by rewrite Hinodes|].
    intros name Hname. destruct (Hcases _ _ Hname) as [[-> ->]|(? & ? & Ho)]; [done|]. by apply Hk2.
Qed.

Lemma save_step_inv before fs fs' ws i w w' :
  sharing_inv before fs ws -> ws !! i = Some w -> save_step path fs w fs' w' -> step_ok before fs fs' ws i w'.
Proof.
  intros Hinv Hi Hs. pose proof (shi_savers _ _ _ Hinv i w Hi) as Hok. unfold saver_ok in Hok.
  inversion Hs; subst; [by eapply open_step|by eapply write_step| |by eapply rename_step|].
  - rewrite H in Hok. destruct Hok as (Hn & Htext & Hoff). split; [|done].
    apply (inv_update before fs' fs' ws i w _ ino);
      [done|done|by split; try done; left|apply Hinv|apply Hinv| |by left].
    unfold saver_ok. cbn [with_pc sv_pc sv_text]. split; [done|]. by rewrite Htext, app_nil_r.
  - split; [|done].
    apply (inv_update before fs' fs' ws i w _ (length (inodes fs')));
      [done|done|by split; try done; right|apply Hinv|apply Hinv|done|by left].
Qed.

Lemma sharing_steps before s s' :
  rtc (sharing_step path) s s' -> sharing_inv before s.1 s.2 ->
  sharing_inv before s'.1 s'.2 /\ (sv_text <$> s'.2 = sv_text <$> s.2) /\
  forall k, sealed s.1 k -> sealed s'.1 k /\ contents s'.1 k = contents s.1 k.
Proof.
  induction 1 as [s|s s1 s' Hst Hr IH]; intros Hinv; [done|].
  inversion Hst as [fs ws i w fs1 w1 Hi Hsv]; subst. cbn [fst snd] in *.
  destruct (save_step_inv _ _ _ _ _ _ _ Hinv Hi Hsv) as [Hinv1 Hsealed].
  destruct (IH Hinv1) as (H1 & H2 & H3). split_and!; [done| |].
  - rewrite H2, list_fmap_insert. apply list_insert_id. rewrite list_lookup_fmap, Hi. cbn. f_equal.
    by inversion Hsv.
  - intros k Hk. destruct (Hsealed k Hk) as [Hk1 <-]. by apply H3.
Qed.
End invariant.

(** ** What a coordinator relies on *)

(** Configuration round trip.  What [save_cluster_config] writes for a
    non-empty list of replicas is loaded back unchanged, and it does write
    something when the host names are ASCII. *)
Theorem config_roundtrip df eps :
  Forall endpoint_wf eps -> eps <> [] ->
  (forall text, config_text df eps = Some text -> load_cluster_config (Some text) = Some eps) /\
  (Forall (fun ep => ascii_text (ep_host ep) = true) eps -> is_Some (config_text df eps)).
Proof.
  intros Hw Hne. split; [intros text; by apply load_config_text|apply config_text_ascii].
Qed.

Definition sample_endpoints : list ShardEndpoint :=
  [MkEndpoint 0 0 "localhost" 9090 true; MkEndpoint 0 1 "localhost" 9091 false].

Lemma sample_endpoints_wf : Forall endpoint_wf sample_endpoints.
Proof. by repeat constructor. Qed.

Lemma config_roundtrip_witness :
  exists text, config_text (fun _ => []) sample_endpoints = Some text /\
               load_cluster_config (Some text) = Some sample_endpoints.
Proof.
  destruct (config_roundtrip (fun _ => []) sample_endpoints sample_endpoints_wf ltac:(done)) as [H1 H2].
  destruct H2 as [text Ht]; [by repeat constructor|]. exists text. split; [exact Ht|exact (H1 text Ht)].
Defined.

(** A call of [save_cluster_config] by a process: its pid, its value of
    [s_write_counter] and the replicas to write. *)
Record save_call := MkCall { sc_pid : N; sc_seq : N; sc_eps : list ShardEndpoint }.

Definition start_call (df : float64 -> bytes) (c : save_call) : saver :=
  MkSaver (sc_pid c) (sc_seq c) (default [] (config_text df (sc_eps c))) SaveOpen.

Definition call_wf (df : float64 -> bytes) (c : save_call) : Prop :=
  Forall endpoint_wf (sc_eps c) /\ sc_eps c <> [] /\ is_Some (config_text df (sc_eps c)).

(** Names refer to existing files, one name each. *)
Definition fs_wf (fs : filesystem) : Prop :=
  (forall name ino, names fs !! name = Some ino -> (ino < length (inodes fs))%nat) /\
  (forall a b ino, names fs !! a = Some ino -> names fs !! b = Some ino -> a = b).

Definition file_at (fs : filesystem) (name : string) : option bytes := contents fs <$> names fs !! name.

Lemma start_inv df path fs calls :
  fs_wf fs -> NoDup ((fun c => (sc_pid c, sc_seq c)) <$> calls) ->
  sharing_inv path (file_at fs path) fs (start_call df <$> calls).
Proof.
  intros [Hb Hi] Hnd. split; [done|done| | |].
  - by rewrite <-list_fmap_compose.
  - intros i w Hw. rewrite list_lookup_fmap in Hw. by destruct (calls !! i) as [c|]; simplify_eq/=.
  - intros ino Hino. left. unfold file_at. by rewrite Hino.
Qed.

(** C27: A shared configuration file is never torn.  Whatever the interleaving
    of the system calls of any number of concurrent [save_cluster_config]
    calls by processes with distinct pid and counter, and wherever they fail
    or stop, a coordinator that opens the path and then reads it, however
    slowly, loads either the configuration that was there at first or exactly
    the one that one of the calls was given. *)
Theorem config_never_torn df path fs0 calls s s' ino :
  fs_wf fs0 -> NoDup ((fun c => (sc_pid c, sc_seq c)) <$> calls) -> Forall (call_wf df) calls ->
  rtc (sharing_step path) (fs0, start_call df <$> calls) s ->
  names s.1 !! path = Some ino ->
  rtc (sharing_step path) s s' ->
  load_cluster_config (Some (contents s'.1 ino)) = load_cluster_config (file_at fs0 path) \/
  exists c, c ∈ calls /\ load_cluster_config (Some (contents s'.1 ino)) = Some (sc_eps c).
Proof.
  intros Hfs Hnd Hc H1 Hino H2. pose proof (start_inv df path fs0 calls Hfs Hnd) as Hinv.
  destruct (sharing_steps _ _ _ _ H1 Hinv) as (Hinv1 & Htexts & _).
  destruct (sharing_steps _ _ _ _ H2 Hinv1) as (_ & _ & Hsealed).
  destruct (Hsealed ino) as [_ ->].
  { split; [by eapply Hinv1|]. intros name Hname. by eapply Hinv1. }
  destruct (shi_path _ _ _ _ Hinv1 ino Hino) as [->|Hin]; [by left|]. right.
  rewrite Htexts in Hin. cbn [snd] in Hin. rewrite <-list_fmap_compose in Hin.
  apply list_elem_of_fmap in Hin as (c & Heq & Hin). exists c. split; [done|].
  rewrite Forall_forall in Hc. destruct (Hc c Hin) as (Hw & Hne & [text Ht]).
  rewrite Heq. unfold compose, start_call. cbn [sv_text]. rewrite Ht. by eapply load_config_text.
Qed.

(** One call that runs to its end on an empty directory. *)
Lemma single_save path pid seq text :
  rtc (sharing_step path) (MkFs ∅ [], [MkSaver pid seq text SaveOpen])
    (MkFs {[path := 0%nat]} [text], [MkSaver pid seq text SaveDone]).
Proof.
  pose (w := MkSaver pid seq text SaveOpen). pose (fs1 := MkFs {[sv_tmp path w := 0%nat]} [[]]).
  pose (fs2 := MkFs {[sv_tmp path w := 0%nat]} [text]).
  apply rtc_l with (fs1, [with_pc (SaveWriting 0 0 text) w]).
  { apply (sharing_step_intro _ _ [w] 0 w _ (with_pc (SaveWriting 0 0 text) w)); [done|].
    by apply (save_open path (MkFs ∅ []) w fs1 0). }
  apply rtc_l with (fs2, [with_pc (SaveWriting 0 (length text) []) w]).
  { apply (sharing_step_intro _ _ [_] 0 (with_pc (SaveWriting 0 0 text) w) _
             (with_pc (SaveWriting 0 (length text) []) w)); [done|].
    replace fs2 with (write_at 0 0 text fs1) by (unfold write_at; cbn; by rewrite drop_nil, app_nil_r).
    apply (save_write path fs1 (with_pc (SaveWriting 0 0 text) w) 0 0 text []). cbn. by rewrite app_nil_r. }
  apply rtc_l with (fs2, [with_pc (SaveRename 0) w]).
  { apply (sharing_step_intro _ _ [_] 0 (with_pc (SaveWriting 0 (length text) []) w) _
             (with_pc (SaveRename 0) w)); [done|].
    by apply (save_close path fs2 (with_pc (SaveWriting 0 (length text) []) w) 0 (length text)). }
  apply rtc_once.
  apply (sharing_step_intro _ _ [_] 0 (with_pc (SaveRename 0) w) _ (with_pc SaveDone w)); [done|].
  apply (save_rename path fs2 (with_pc (SaveRename 0) w) _ 0); [done|]. unfold rename. cbn [names fs2].
  change (sv_tmp path (with_pc (SaveRename 0) w)) with (sv_tmp path w).
  rewrite lookup_singleton_eq. cbn. by rewrite delete_singleton_eq.
Qed.

Lemma config_never_torn_witness :
  exists (s : filesystem * list saver) ino, names s.1 !! "c.json" = Some ino /\
    load_cluster_config (Some (contents s.1 ino)) = Some sample_endpoints.
Proof.
  pose (call := MkCall 7 0 sample_endpoints).
  destruct (config_text (fun _ => []) sample_endpoints) as [text|] eqn:Et; [|vm_compute in Et; done].
  assert (Forall (call_wf (fun _ => [])) [call]) as Hcalls.
  { apply Forall_singleton. split_and!; [exact sample_endpoints_wf|done|exists text; exact Et]. }
  pose proof (single_save "c.json" 7 0 text) as Hrun.
  assert (start_call (fun _ => []) <$> [call] = [MkSaver 7 0 text SaveOpen]) as Hstart.
  { unfold call, start_call. cbn -[config_text]. by rewrite Et. }
  rewrite <-Hstart in Hrun.
  exists (MkFs {["c.json" := 0%nat]} [text], [MkSaver 7 0 text SaveDone]), 0%nat. split; [|
    destruct (config_never_torn (fun _ => []) "c.json" (MkFs ∅ []) [call] _ _ 0%nat
      ltac:(split; done) ltac:(by apply NoDup_singleton) Hcalls Hrun eq_refl (rtc_refl _ _))
      as [H|(c & Hc & H)]].
  - reflexivity.
  - exfalso. cbn -[load_cluster_config] in H. rewrite (load_config_text _ _ _ sample_endpoints_wf ltac:(done) Et) in H. done.
  - apply list_elem_of_singleton in Hc as ->. exact H.
Defined.
