(* ===== verification/Topology.v ===== *)
(** * The coordinator's replicated topology ([src/cluster/coordinator_main.cpp])

    The state machine that every coordinator runs on the commands Raft
    commits: the list of shard replicas, the routing ring, the cursor into the
    applied commands, snapshots of the topology and the compaction trigger.
    Commands and snapshots are JSON texts, parsed and printed by [Json] and
    [JsonDump]; the text of floats is the parameter of the printer. *)

From S2P Require Import Prelude Float32 Json JsonDump JsonRoundtrip Storage RaftState RaftLog RaftNode HashRing IdMapStore ShardService ClusterConfig.

(** ** State *)

Record ShardClient := MkClient {
  cl_shard_id : Z;
  cl_replica_id : Z;
  cl_host : string;
  cl_port : Z;
  active : bool;
  is_primary : bool;
  epoch : N;
}.

#[export] Instance ShardClient_eq_dec : EqDecision ShardClient.
Proof. solve_decision. Defined.

Definition make_shard_client (shard_id replica_id : Z) (host : string) (port : Z) (is_primary : bool)
    : ShardClient :=
  MkClient shard_id replica_id host port true is_primary 0.

Definition with_epoch (e : N) (sc : ShardClient) : ShardClient :=
  MkClient (cl_shard_id sc) (cl_replica_id sc) (cl_host sc) (cl_port sc) (active sc) (is_primary sc) e.

Definition deactivate (sc : ShardClient) : ShardClient :=
  MkClient (cl_shard_id sc) (cl_replica_id sc) (cl_host sc) (cl_port sc) false (is_primary sc) (epoch sc).

Definition with_primary (p : bool) (sc : ShardClient) : ShardClient :=
  MkClient (cl_shard_id sc) (cl_replica_id sc) (cl_host sc) (cl_port sc) (active sc) p (epoch sc).

(** The globals behind [cluster_mutex] and [g_apply_mutex], and the counter
    [g_raft_commits]. *)
Record coordinator := MkCoordinator {
  g_shards : list ShardClient;
  active_ring : list point;
  g_local_applied_count : N;
  g_snapshot_applied_index : N;
  g_raft_commits : N;
}.

Definition with_shards (shards : list ShardClient) (ring : list point) (c : coordinator) : coordinator :=
  MkCoordinator shards ring (g_local_applied_count c) (g_snapshot_applied_index c) (g_raft_commits c).

Definition with_cursor (count index : N) (c : coordinator) : coordinator :=
  MkCoordinator (g_shards c) (active_ring c) count index (g_raft_commits c).

Definition COMPACTION_THRESHOLD : N := 64.

(** ** Views *)

Definition live_shards (c : coordinator) : list ShardClient := filter (fun sc => active sc = true) (g_shards c).

Definition ring_snapshot (c : coordinator) : list point := active_ring c.

(** [std::set<int>], in ascending order. *)
Definition int_set (ids : list Z) : list Z := merge_sort Z.le (remove_dups ids).

Definition live_ids (shards : list ShardClient) : list Z :=
  int_set (cl_shard_id <$> filter (fun sc => active sc = true) shards).

(** [active_ring.build] from the live shard ids. *)
Definition rebuild (shards : list ShardClient) (c : coordinator) : coordinator :=
  with_shards shards (HashRing.build (live_ids shards)) c.

(** Start-up from the configuration file; [snapshot_last_index] is that of
    the Raft log, 0 without Raft. *)
Definition start (endpoints : list ShardEndpoint) (snapshot_last_index : N) : coordinator :=
  let shards := (fun ep => make_shard_client (ep_shard_id ep) (ep_replica_id ep) (ep_host ep)
                             (ep_port ep) (ep_is_primary ep)) <$> endpoints in
  MkCoordinator shards (HashRing.build (int_set (ep_shard_id <$> endpoints))) 0 snapshot_last_index 0.

(** What [persist_cluster_state] hands to [save_cluster_config]. *)
Definition persisted_endpoints (c : coordinator) : list ShardEndpoint :=
  (fun sc => MkEndpoint (cl_shard_id sc) (cl_replica_id sc) (cl_host sc) (cl_port sc) (is_primary sc)) <$> live_shards c.

(** ** Snapshots *)

Definition client_json (sc : ShardClient) : json :=
  j_object [("shard_id", JInteger (cl_shard_id sc)); ("replica_id", JInteger (cl_replica_id sc));
            ("host", JString (cl_host sc)); ("port", JInteger (cl_port sc));
            ("primary", JBool (is_primary sc)); ("epoch", JUnsigned (epoch sc))].

Section coordinator.
Variable dump_float : float64 -> bytes.

Definition serialize_raft_snapshot (c : coordinator) : option string :=
  json_dump dump_float (j_object [("shards", JArray (client_json <$> live_shards c))]).

(** One replica of a snapshot, or of an [add_shard] command. *)
Definition snapshot_client (r : json) : option ShardClient :=
  shard_id ← j_at "shard_id" r ≫= get_int;
  replica_id ← j_at "replica_id" r ≫= get_int;
  host ← j_at "host" r ≫= get_string;
  port ← j_at "port" r ≫= get_int;
  primary ← j_value get_bool "primary" false r;
  e ← j_value get_u64 "epoch" 0 r;
  Some (with_epoch e (make_shard_client shard_id replica_id host port primary)).

(** An exception leaves the topology as it was. *)
Definition apply_raft_snapshot (snapshot_data : string) (c : coordinator) : coordinator :=
  if snapshot_data =?? "" then c
  else
    match snap ← json_parse snapshot_data; shards ← j_at "shards" snap;
          mapM snapshot_client (j_elements shards) with
    | Some new_clients => rebuild ((deactivate <$> g_shards c) ++ new_clients) c
    | None => c
    end.

(** ** Commands *)

Definition command_client (shard_id : Z) (command_epoch : N) (r : json) : option ShardClient :=
  replica_id ← j_at "replica_id" r ≫= get_int;
  host ← j_at "host" r ≫= get_string;
  port ← j_at "port" r ≫= get_int;
  primary ← j_value get_bool "primary" false r;
  Some (with_epoch command_epoch (make_shard_client shard_id replica_id host port primary)).

Definition retire (shard_id : Z) (sc : ShardClient) : ShardClient :=
  if cl_shard_id sc =?? shard_id then deactivate sc else sc.

Definition promote (command_epoch : N) (shard_id new_primary_replica_id : Z) (sc : ShardClient) : ShardClient :=
  if cl_shard_id sc =?? shard_id
  then with_epoch command_epoch (with_primary (cl_replica_id sc =?? new_primary_replica_id) sc)
  else sc.

Definition has_shard (shard_id : Z) (shards : list ShardClient) : bool :=
  existsb (fun sc => cl_shard_id sc =?? shard_id) shards.

Definition apply_add_shard (command_epoch : N) (cmd : json) (c : coordinator) : option coordinator :=
  shard_id ← j_at "shard_id" cmd ≫= get_int;
  if has_shard shard_id (g_shards c) then Some c
  else
    replicas ← j_at "replicas" cmd;
    new_clients ← mapM (command_client shard_id command_epoch) (j_elements replicas);
    Some (rebuild (g_shards c ++ new_clients) c).

Definition apply_remove_shard (cmd : json) (c : coordinator) : option coordinator :=
  shard_id ← j_at "shard_id" cmd ≫= get_int;
  Some (rebuild (retire shard_id <$> g_shards c) c).

Definition apply_set_primary (command_epoch : N) (cmd : json) (c : coordinator) : option coordinator :=
  shard_id ← j_at "shard_id" cmd ≫= get_int;
  new_primary_replica_id ← j_at "replica_id" cmd ≫= get_int;
  Some (with_shards (promote command_epoch shard_id new_primary_replica_id <$> g_shards c) (active_ring c) c).

(** The body of the loop: an exception, and an unknown type, change nothing. *)
Definition apply_command (command_epoch : N) (text : string) (c : coordinator) : coordinator :=
  default c
    (cmd ← json_parse text;
     type ← j_at "type" cmd ≫= get_string;
     if type =?? "add_shard" then apply_add_shard command_epoch cmd c
     else if type =?? "remove_shard" then apply_remove_shard cmd c
     else if type =?? "set_primary" then apply_set_primary command_epoch cmd c
     else Some c).

(** The commands from position [i] on. *)
Fixpoint apply_commands (snapshot_last_index i : N) (cmds : list string) (c : coordinator) : coordinator :=
  match cmds with
  | [] => c
  | cmd :: cmds =>
    apply_commands snapshot_last_index (i +u 1) cmds
      (apply_command (snapshot_last_index +u i +u 1) cmd c)
  end.

(** Snapshot catch-up. *)
Definition catch_up (st : RaftNode.Status) (c : coordinator) : coordinator :=
  let index := RaftNode.st_snapshot_last_index st in
  if g_snapshot_applied_index c <?? index
  then with_cursor 0 index (apply_raft_snapshot (RaftNode.st_snapshot_data st) c) else c.

Definition size_of (st : RaftNode.Status) : N := N.of_nat (length (RaftNode.st_applied_commands st)).

(** The commands behind the cursor, in order, and the new cursor. *)
Definition apply_new (st : RaftNode.Status) (c : coordinator) : coordinator :=
  let count := g_local_applied_count c in
  let c := MkCoordinator (g_shards c) (active_ring c) count (g_snapshot_applied_index c)
             (g_raft_commits c + (size_of st - count)) in
  let c := apply_commands (RaftNode.st_snapshot_last_index st) count
             (drop (N.to_nat count) (RaftNode.st_applied_commands st)) c in
  with_cursor (size_of st) (g_snapshot_applied_index c) c.

(** The first part of [apply_pending_raft_commands], on a status of the Raft
    node: everything before the compaction trigger. *)
Definition apply_status (st : RaftNode.Status) (c : coordinator) : coordinator :=
  let c := catch_up st c in
  if size_of st <=?? g_local_applied_count c then c else apply_new st c.

(** The compaction the call asks Raft for, if any; [None] inside is the
    exception of [dump]. *)
Definition compaction_request (st : RaftNode.Status) (c : coordinator) : option (N * option string) :=
  if COMPACTION_THRESHOLD <=?? g_local_applied_count c
  then Some (RaftNode.st_snapshot_last_index st +u g_local_applied_count c, serialize_raft_snapshot c)
  else None.

(** The whole call, when the Raft node does not move while it runs; [None] is
    an exception that leaves the function.  The early return for lack of new
    commands comes before the trigger. *)
Definition apply_pending_raft_commands (n : RaftNode.t) (c : coordinator) : option (RaftNode.t * coordinator) :=
  let st := RaftNode.status n in
  let c' := apply_status st c in
  if size_of st <=?? g_local_applied_count (catch_up st c) then Some (n, c')
  else
    match compaction_request st c' with
    | None => Some (n, c')
    | Some (_, None) => None
    | Some (up_to, Some snap) =>
      let '(n', ok) := RaftNode.compact up_to snap n in
      Some (n', if ok then with_cursor 0 (g_snapshot_applied_index c') c' else c')
    end.
End coordinator.

(** ** The ring covers exactly the live shards *)

Lemma elem_of_int_set x ids : x ∈ int_set ids <-> x ∈ ids.
Proof. unfold int_set. by rewrite merge_sort_Permutation, elem_of_remove_dups. Qed.

Definition ring_ok (c : coordinator) : Prop := active_ring c = HashRing.build (live_ids (g_shards c)).

Lemma rebuild_ring_ok shards c : ring_ok (rebuild shards c).
Proof. done. Qed.

Lemma with_cursor_ring_ok n i c : ring_ok c -> ring_ok (with_cursor n i c).
Proof. done. Qed.

Lemma start_ring_ok eps i : ring_ok (start eps i).
Proof.
  unfold ring_ok, start, live_ids. cbn [g_shards active_ring]. f_equal. f_equal.
  induction eps as [|ep eps IH]; [done|]. rewrite !fmap_cons, filter_cons_True by done.
  by rewrite fmap_cons, IH.
Qed.

Lemma apply_raft_snapshot_ring_ok data c : ring_ok c -> ring_ok (apply_raft_snapshot data c).
Proof. intros H. unfold apply_raft_snapshot. repeat case_match; done. Qed.

(** A map that keeps ids and liveness keeps the ring. *)
Lemma live_ids_map f shards :
  (forall sc, cl_shard_id (f sc) = cl_shard_id sc /\ active (f sc) = active sc) ->
  live_ids (f <$> shards) = live_ids shards.
Proof.
  intros Hf. unfold live_ids. f_equal. induction shards as [|sc shards IH]; [done|].
  destruct (Hf sc) as [Hid Ha]. rewrite fmap_cons, !filter_cons, Ha.
  case_decide; [|done]. rewrite !fmap_cons, Hid. by f_equal.
Qed.

(** *** Commands as values *)

Inductive command :=
| AddShard (shard_id : Z) (new_clients : list ShardClient)
| RemoveShard (shard_id : Z)
| SetPrimary (shard_id replica_id : Z).

(** What a text means at a given log index. *)
Definition decode_command (e : N) (text : string) : option command :=
  cmd ← json_parse text;
  type ← j_at "type" cmd ≫= get_string;
  if type =?? "add_shard" then
    shard_id ← j_at "shard_id" cmd ≫= get_int;
    replicas ← j_at "replicas" cmd;
    AddShard shard_id <$> mapM (command_client shard_id e) (j_elements replicas)
  else if type =?? "remove_shard" then RemoveShard <$> (j_at "shard_id" cmd ≫= get_int)
  else if type =?? "set_primary" then
    shard_id ← j_at "shard_id" cmd ≫= get_int;
    SetPrimary shard_id <$> (j_at "replica_id" cmd ≫= get_int)
  else None.

Definition execute (e : N) (cmd : command) (c : coordinator) : coordinator :=
  match cmd with
  | AddShard id new => if has_shard id (g_shards c) then c else rebuild (g_shards c ++ new) c
  | RemoveShard id => rebuild (retire id <$> g_shards c) c
  | SetPrimary id rid => with_shards (promote e id rid <$> g_shards c) (active_ring c) c
  end.

Lemma apply_command_execute e text c :
  apply_command e text c = from_option (fun cmd => execute e cmd c) c (decode_command e text).
Proof.
  unfold apply_command, decode_command.
  destruct (json_parse text) as [cmd|]; [cbn [mbind option_bind]|done].
  destruct (j_at "type" cmd ≫= get_string) as [type|]; [cbn [mbind option_bind]|done].
  repeat case_bool_decide; [| | |done].
  - unfold apply_add_shard. destruct (j_at "shard_id" cmd ≫= get_int) as [id|]; [cbn [mbind option_bind]|done].
    destruct (j_at "replicas" cmd) as [replicas|]; cbn [mbind option_bind]; [|by destruct (has_shard _ _)].
    destruct (mapM _ _); cbn; by destruct (has_shard _ _).
  - unfold apply_remove_shard. by destruct (j_at "shard_id" cmd ≫= get_int).
  - unfold apply_set_primary. destruct (j_at "shard_id" cmd ≫= get_int); [cbn [mbind option_bind]|done].
    by destruct (j_at "replica_id" cmd ≫= get_int).
Qed.

Lemma command_client_spec id e r sc :
  command_client id e r = Some sc -> cl_shard_id sc = id /\ active sc = true /\ epoch sc = e.
Proof.
  unfold command_client. destruct (j_at "replica_id" r ≫= get_int); [cbn [mbind option_bind]|done].
  destruct (j_at "host" r ≫= get_string); [cbn [mbind option_bind]|done].
  destruct (j_at "port" r ≫= get_int); [cbn [mbind option_bind]|done].
  destruct (j_value get_bool "primary" false r); [cbn [mbind option_bind]|done]. by intros [= <-].
Qed.

(** New replicas are live, of the named shard, in the command's epoch. *)
Definition command_wf (e : N) (cmd : command) : Prop :=
  match cmd with
  | AddShard id new => Forall (fun sc => cl_shard_id sc = id /\ active sc = true /\ epoch sc = e) new
  | _ => True
  end.

Lemma decode_command_wf e text cmd : decode_command e text = Some cmd -> command_wf e cmd.
Proof.
  unfold decode_command. destruct (json_parse text) as [j|]; [cbn [mbind option_bind]|done].
  destruct (j_at "type" j ≫= get_string) as [type|]; [cbn [mbind option_bind]|done].
  repeat case_bool_decide; [| | |done].
  - destruct (j_at "shard_id" j ≫= get_int) as [id|]; [cbn [mbind option_bind]|done].
    destruct (j_at "replicas" j) as [replicas|]; cbn [mbind option_bind]; [|done].
    destruct (mapM _ _) as [new|] eqn:E; [|done]. intros [= <-]. cbn. apply mapM_Some in E.
    apply Forall_forall. intros sc Hsc. apply list_elem_of_lookup_1 in Hsc as [i Hi].
    destruct (Forall2_lookup_r _ _ _ _ _ E Hi) as (r & _ & Hr). by eapply command_client_spec.
  - by destruct (j_at "shard_id" j ≫= get_int); [intros [= <-]|].
  - destruct (j_at "shard_id" j ≫= get_int); [cbn [mbind option_bind]|done].
    by destruct (j_at "replica_id" j ≫= get_int); [intros [= <-]|].
Qed.

Lemma promote_live e id rid sc :
  cl_shard_id (promote e id rid sc) = cl_shard_id sc /\ active (promote e id rid sc) = active sc.
Proof. unfold promote. by case_bool_decide. Qed.

Lemma apply_command_ring_ok e text c : ring_ok c -> ring_ok (apply_command e text c).
Proof.
  intros H. rewrite apply_command_execute. destruct (decode_command e text) as [[id new|id|id rid]|]; [..|done].
  - cbn. by destruct (has_shard _ _).
  - done.
  - unfold ring_ok in *. cbn [from_option execute with_shards g_shards active_ring].
    by rewrite live_ids_map by apply promote_live.
Qed.

Lemma apply_commands_ring_ok index i cmds c : ring_ok c -> ring_ok (apply_commands index i cmds c).
Proof. revert i c. induction cmds; intros i c H; [done|]. cbn. by apply IHcmds, apply_command_ring_ok. Qed.

Lemma catch_up_ring_ok st c : ring_ok c -> ring_ok (catch_up st c).
Proof. intros H. unfold catch_up. case_bool_decide; [by apply with_cursor_ring_ok, apply_raft_snapshot_ring_ok|done]. Qed.

Lemma apply_status_ring_ok st c : ring_ok c -> ring_ok (apply_status st c).
Proof.
  intros H. unfold apply_status. apply (catch_up_ring_ok st) in H. case_bool_decide; [done|].
  by apply with_cursor_ring_ok, apply_commands_ring_ok.
Qed.

(** Any number of calls, each with the status of its moment. *)
Definition follow (sts : list RaftNode.Status) (c : coordinator) : coordinator :=
  foldl (fun c st => apply_status st c) c sts.

Lemma follow_ring_ok sts c : ring_ok c -> ring_ok (follow sts c).
Proof. revert c. induction sts; intros c H; [done|]. cbn. by apply IHsts, apply_status_ring_ok. Qed.

Lemma route_live c key :
  ring_ok c ->
  match HashRing.route (ring_snapshot c) key with
  | Some sid => exists sc, sc ∈ live_shards c /\ cl_shard_id sc = sid
  | None => live_shards c = []
  end.
Proof.
  intros Hok. unfold ring_snapshot. rewrite Hok.
  assert (forall sid, sid ∈ live_ids (g_shards c) -> exists sc, sc ∈ live_shards c /\ cl_shard_id sc = sid) as Hin.
  { intros sid Hs. unfold live_ids in Hs. rewrite elem_of_int_set in Hs.
    apply list_elem_of_fmap in Hs as (sc & -> & Hsc). by exists sc. }
  destruct (HashRing.route _ key) as [sid|] eqn:E.
  - apply Hin. unfold HashRing.route in E. apply fmap_Some in E as (p & Ho & ->).
    apply owner_build in Ho as [Hp _]. by apply elem_of_points in Hp as [Hp _].
  - destruct (live_shards c) as [|sc l] eqn:El; [done|]. exfalso.
    destruct (owner_is_Some (well_mixed_hash key) (HashRing.build (live_ids (g_shards c)))) as [p Hp].
    + apply build_nonempty. intros Hnil.
      assert (cl_shard_id sc ∈ live_ids (g_shards c)) as Hsc.
      { unfold live_ids. apply elem_of_int_set, list_elem_of_fmap. exists sc. split; [done|].
        change (sc ∈ live_shards c). rewrite El. apply list_elem_of_here. }
      rewrite Hnil in Hsc. by apply not_elem_of_nil in Hsc.
    + unfold HashRing.route in E. by rewrite Hp in E.
Qed.

(** C32: Writes go to live shards.  Whatever the coordinator was started with
    and whatever Raft has told it since, its ring sends a key to a shard
    exactly when some replica is live, and then to a shard that has a live
    replica. *)
Theorem routes_to_live_shard eps index sts key :
  let c := follow sts (start eps index) in
  match HashRing.route (ring_snapshot c) key with
  | Some sid => exists sc, sc ∈ live_shards c /\ cl_shard_id sc = sid
  | None => live_shards c = []
  end.
Proof. intros c. apply route_live, follow_ring_ok, start_ring_ok. Qed.

(** ** Every command once, in order *)

Lemma execute_frame e cmd s r n i k :
  execute e cmd (MkCoordinator s r n i k) =
  let c' := execute e cmd (MkCoordinator s r 0 0 0) in
  MkCoordinator (g_shards c') (active_ring c') n i k.
Proof. destruct cmd as [id new|id|id rid]; unfold execute; cbn [g_shards]; [by destruct (has_shard id s)|done..]. Qed.

Lemma apply_command_frame e text s r n i k :
  apply_command e text (MkCoordinator s r n i k) =
  let c' := apply_command e text (MkCoordinator s r 0 0 0) in
  MkCoordinator (g_shards c') (active_ring c') n i k.
Proof.
  rewrite !apply_command_execute. destruct (decode_command e text) as [cmd|]; [|done].
  cbn [from_option]. by rewrite execute_frame.
Qed.

(** Commands change the topology only, and depend on it only. *)
Lemma apply_commands_frame index j cmds s r n i k :
  apply_commands index j cmds (MkCoordinator s r n i k) =
  let c' := apply_commands index j cmds (MkCoordinator s r 0 0 0) in
  MkCoordinator (g_shards c') (active_ring c') n i k.
Proof.
  revert j s r. induction cmds as [|cmd cmds IH]; intros j s r; [done|]. cbn [apply_commands].
  rewrite apply_command_frame. destruct (apply_command _ cmd (MkCoordinator s r 0 0 0)) as [s' r' n' i' k'] eqn:E.
  assert (n' = 0 /\ i' = 0 /\ k' = 0) as (-> & -> & ->).
  { rewrite apply_command_frame in E. cbn in E. by injection E. }
  cbn [g_shards active_ring]. apply IH.
Qed.

Lemma apply_commands_app index i a b c :
  i + N.of_nat (length a) < U64 ->
  apply_commands index i (a ++ b) c =
  apply_commands index (i + N.of_nat (length a)) b (apply_commands index i a c).
Proof.
  revert i c. induction a as [|cmd a IH]; intros i c Hb; cbn [app apply_commands length].
  - by rewrite N.add_0_r.
  - cbn [length] in Hb. assert (i +u 1 = i + 1) as -> by (apply u64_add_small; lia).
    rewrite IH by lia. f_equal. lia.
Qed.

Lemma apply_new_again st1 st2 more c :
  RaftNode.st_snapshot_last_index st1 = RaftNode.st_snapshot_last_index st2 ->
  RaftNode.st_applied_commands st2 = RaftNode.st_applied_commands st1 ++ more ->
  size_of st2 < U64 -> g_local_applied_count c < size_of st1 ->
  apply_new st2 (apply_new st1 c) = apply_new st2 c.
Proof.
  intros Hi Hc Hb Hlt. destruct c as [s r n i k]. unfold apply_new, size_of in *. rewrite Hc, Hi in *.
  cbn [g_local_applied_count g_shards active_ring g_snapshot_applied_index g_raft_commits] in *.
  set (l := RaftNode.st_applied_commands st1) in *. rewrite length_app in *.
  assert (drop (N.to_nat n) (l ++ more) = drop (N.to_nat n) l ++ more) as -> by (apply drop_app_le; lia).
  rewrite apply_commands_app by (rewrite length_drop; lia).
  replace (n + N.of_nat (length (drop (N.to_nat n) l))) with (N.of_nat (length l)) by (rewrite length_drop; lia).
  set (index := RaftNode.st_snapshot_last_index st2).
  rewrite (apply_commands_frame index n (drop _ l) s r n i (k + (N.of_nat (length l) - n))).
  rewrite (apply_commands_frame index n (drop _ l) s r n i (k + _)).
  destruct (apply_commands index n (drop (N.to_nat n) l) (MkCoordinator s r 0 0 0)) as [s' r' n' i' k'].
  cbn [with_cursor g_local_applied_count g_shards active_ring g_snapshot_applied_index g_raft_commits].
  rewrite Nat2N.id, drop_app_length.
  rewrite (apply_commands_frame index _ more s' r' n), (apply_commands_frame index _ more s' r' (N.of_nat (length l))).
  destruct (apply_commands index _ more (MkCoordinator s' r' 0 0 0)) as [s2 r2 n2 i2 k2].
  cbn [with_cursor g_local_applied_count g_shards active_ring g_snapshot_applied_index g_raft_commits].
  unfold with_cursor. cbn [g_shards active_ring g_raft_commits g_snapshot_applied_index]. f_equal. lia.
Qed.

Lemma apply_new_fields st c :
  g_snapshot_applied_index (apply_new st c) = g_snapshot_applied_index c /\
  g_local_applied_count (apply_new st c) = size_of st.
Proof.
  destruct c as [s r n i k]. unfold apply_new. cbn [g_local_applied_count g_shards active_ring
    g_snapshot_applied_index g_raft_commits]. by rewrite apply_commands_frame.
Qed.

Lemma catch_up_index st c : RaftNode.st_snapshot_last_index st <= g_snapshot_applied_index (catch_up st c).
Proof. unfold catch_up. case_bool_decide; cbn; lia. Qed.

Lemma catch_up_done st c :
  RaftNode.st_snapshot_last_index st <= g_snapshot_applied_index c -> catch_up st c = c.
Proof. intros H. unfold catch_up. by rewrite bool_decide_eq_false_2 by lia. Qed.

(** The step before the compaction trigger can be taken early. *)
Lemma apply_status_again st1 st2 more c :
  RaftNode.st_snapshot_last_index st1 = RaftNode.st_snapshot_last_index st2 ->
  RaftNode.st_snapshot_data st1 = RaftNode.st_snapshot_data st2 ->
  RaftNode.st_applied_commands st2 = RaftNode.st_applied_commands st1 ++ more ->
  size_of st2 < U64 ->
  apply_status st2 (apply_status st1 c) = apply_status st2 c.
Proof.
  intros Hi Hd Hc Hb. assert (size_of st1 + N.of_nat (length more) = size_of st2) as Hsize.
  { unfold size_of. rewrite Hc, length_app. lia. }
  assert (catch_up st2 c = catch_up st1 c) as Hcu by (unfold catch_up; by rewrite Hi, Hd).
  unfold apply_status. rewrite Hcu. pose proof (catch_up_index st1 c) as Hidx. rewrite Hi in Hidx.
  destruct (bool_decide_reflect (size_of st1 <= g_local_applied_count (catch_up st1 c))) as [Hs1|Hs1].
  { by rewrite catch_up_done. }
  destruct (apply_new_fields st1 (catch_up st1 c)) as [Hf1 Hf2].
  rewrite (catch_up_done st2) by (by rewrite Hf1). rewrite Hf2.
  rewrite (bool_decide_eq_false_2 (size_of st2 <= g_local_applied_count _)) by lia.
  destruct (bool_decide_reflect (size_of st2 <= size_of st1)) as [Hs2|Hs2].
  - assert (more = []) as -> by (apply length_zero_iff_nil; lia). rewrite app_nil_r in Hc.
    unfold apply_new, size_of. by rewrite Hc, Hi.
  - apply (apply_new_again st1 st2 more); [done..|lia].
Qed.

(** ** Snapshots *)

Record client_wf (sc : ShardClient) : Prop := {
  clw_shard_id : is_i32 (cl_shard_id sc);
  clw_replica_id : is_i32 (cl_replica_id sc);
  clw_port : is_i32 (cl_port sc);
  clw_epoch : is_u64 (epoch sc);
}.

Lemma client_json_eq sc :
  client_json sc =
  JObject [("epoch", JUnsigned (epoch sc)); ("host", JString (cl_host sc)); ("port", JInteger (cl_port sc));
           ("primary", JBool (is_primary sc)); ("replica_id", JInteger (cl_replica_id sc));
           ("shard_id", JInteger (cl_shard_id sc))].
Proof. reflexivity. Qed.

Lemma client_plain sc : client_wf sc -> plain (client_json sc) = true.
Proof.
  intros [H1 H2 H3 H4]. rewrite client_json_eq. apply i32_plain in H1, H2, H3.
  cbn [plain keys_sorted forallb snd] in *. unfold is_u64 in H4.
  by rewrite H1, H2, H3, bool_decide_eq_true_2.
Qed.

Lemma snapshot_client_json sc :
  client_wf sc -> active sc = true -> snapshot_client (normalize (client_json sc)) = Some sc.
Proof.
  intros [H1 H2 H3 H4] Ha. rewrite client_json_eq. unfold snapshot_client.
  erewrite !j_at_normalize, !j_value_normalize by reflexivity. cbn [mbind option_bind].
  rewrite !get_int_normalize by done. cbn [mbind option_bind normalize get_string get_bool get_u64].
  destruct sc as [sid rid h p a pr e]. cbn in Ha, H4. subst. unfold u64.
  by rewrite N.mod_small.
Qed.

Lemma live_deactivated shards : filter (fun sc => active sc = true) (deactivate <$> shards) = [].
Proof. induction shards as [|sc shards IH]; [done|]. rewrite fmap_cons, filter_cons_False; done. Qed.

Lemma live_ids_live c : live_ids (g_shards c) = int_set (cl_shard_id <$> live_shards c).
Proof. done. Qed.

Lemma snapshot_installs df c c2 t :
  Forall client_wf (live_shards c) -> serialize_raft_snapshot df c = Some t ->
  apply_raft_snapshot t c2 = rebuild ((deactivate <$> g_shards c2) ++ live_shards c) c2.
Proof.
  intros Hw Hs. unfold serialize_raft_snapshot, json_dump in Hs.
  change (j_object _) with (JObject [("shards", JArray (client_json <$> live_shards c))]) in Hs.
  apply fmap_Some in Hs as (out & Hout & ->).
  assert (plain (JObject [("shards", JArray (client_json <$> live_shards c))]) = true) as Hp.
  { cbn. rewrite andb_true_r. apply forallb_forall. intros j Hj%list_elem_of_In.
    apply list_elem_of_fmap in Hj as (sc & -> & Hsc). rewrite Forall_forall in Hw. by apply client_plain, Hw. }
  pose proof (dump_then_parse df None true _ _ Hp Hout) as Hparse.
  assert (json_parse (string_of out) = Some (normalize (JObject [("shards", JArray (client_json <$> live_shards c))])))
    as Hj by (unfold json_parse; by rewrite bytes_of_string_of).
  unfold apply_raft_snapshot. case_bool_decide as He; [by rewrite He in Hj|]. rewrite Hj.
  cbn [mbind option_bind]. erewrite j_at_normalize by reflexivity. cbn [mbind option_bind normalize j_elements].
  assert (mapM snapshot_client (normalize <$> (client_json <$> live_shards c)) = Some (live_shards c)) as ->.
  { apply mapM_Some. clear Hp Hparse Hj He Hout. unfold live_shards in *.
    induction (g_shards c) as [|sc l IH]; [constructor|].
    destruct (decide (active sc = true)) as [Ha|Ha];
      [rewrite !filter_cons_True in Hw |- * by done|rewrite filter_cons_False in Hw |- * by done; by apply IH].
    inversion_clear Hw. rewrite !fmap_cons. constructor; [by apply snapshot_client_json|by apply IH]. }
  done.
Qed.

Lemma snapshot_restores df c c2 t :
  Forall client_wf (live_shards c) -> serialize_raft_snapshot df c = Some t ->
  live_shards (apply_raft_snapshot t c2) = live_shards c /\
  active_ring (apply_raft_snapshot t c2) = HashRing.build (live_ids (g_shards c)).
Proof.
  intros Hw Hs. rewrite (snapshot_installs df c c2 t Hw Hs).
  assert (live_shards (rebuild ((deactivate <$> g_shards c2) ++ live_shards c) c2) = live_shards c) as Hlive.
  { unfold live_shards at 1. cbn [rebuild with_shards g_shards].
    rewrite filter_app, live_deactivated. cbn [app]. unfold live_shards.
    induction (g_shards c) as [|sc l IH]; [done|]. rewrite filter_cons. case_decide; [|done].
    rewrite filter_cons_True by done. by rewrite IH. }
  split; [exact Hlive|]. cbn [rebuild with_shards active_ring].
  change (live_ids ((deactivate <$> g_shards c2) ++ live_shards c))
    with (live_ids (g_shards (rebuild ((deactivate <$> g_shards c2) ++ live_shards c) c2))).
  by rewrite !live_ids_live, Hlive.
Qed.

(** *** Two coordinators with the same live replicas *)

(** They may remember different removed shards, those in [T]. *)
Record agree (T : Z -> Prop) (c c' : coordinator) : Prop := {
  ag_live : live_shards c = live_shards c';
  ag_ring : active_ring c = active_ring c';
  ag_known : forall id, ~ T id -> has_shard id (g_shards c) = has_shard id (g_shards c');
}.

Lemma has_shard_app id a b : has_shard id (a ++ b) = has_shard id a || has_shard id b.
Proof. apply existsb_app. Qed.

Lemma has_shard_map f id (l : list ShardClient) :
  (forall sc, cl_shard_id (f sc) = cl_shard_id sc) -> has_shard id (f <$> l) = has_shard id l.
Proof.
  intros Hf. induction l as [|sc l IH]; [done|]. unfold has_shard in *. cbn. by rewrite Hf, IH.
Qed.

Lemma retire_id id sc : cl_shard_id (retire id sc) = cl_shard_id sc.
Proof. unfold retire. by case_bool_decide. Qed.

Lemma live_retire id (l : list ShardClient) :
  filter (fun sc => active sc = true) (retire id <$> l) =
  filter (fun sc => cl_shard_id sc <> id) (filter (fun sc => active sc = true) l).
Proof.
  induction l as [|sc l IH]; [done|]. rewrite fmap_cons, (filter_cons _ sc l).
  unfold retire at 1. case_bool_decide as Hid.
  - rewrite filter_cons_False by done. rewrite IH. case_decide; [|done]. by rewrite filter_cons_False by tauto.
  - rewrite filter_cons. case_decide; [|done]. rewrite filter_cons_True by done. by rewrite IH.
Qed.

Lemma live_promote e id rid (l : list ShardClient) :
  filter (fun sc => active sc = true) (promote e id rid <$> l) =
  promote e id rid <$> filter (fun sc => active sc = true) l.
Proof.
  induction l as [|sc l IH]; [done|]. rewrite fmap_cons, !filter_cons.
  destruct (promote_live e id rid sc) as [_ ->]. case_decide; [|done]. by rewrite fmap_cons, IH.
Qed.

(** The ring after a change of the replicas depends on the live ones. *)
Lemma rebuild_agree T c c' (s s' : list ShardClient) :
  filter (fun sc => active sc = true) s = filter (fun sc => active sc = true) s' ->
  (forall id, ~ T id -> has_shard id s = has_shard id s') ->
  agree T (rebuild s c) (rebuild s' c').
Proof. intros Hl Hh. split; [done| |done]. cbn. unfold live_ids. by rewrite Hl. Qed.

Lemma execute_agree T e cmd c c' :
  agree T c c' -> (forall id new, cmd = AddShard id new -> ~ T id) ->
  agree T (execute e cmd c) (execute e cmd c').
Proof.
  intros [Hl Hr Hk] Hadd. unfold live_shards in Hl. destruct cmd as [id new|id|id rid]; unfold execute.
  - rewrite <-(Hk id) by (by eapply Hadd). destruct (has_shard id (g_shards c)); [by split|].
    apply rebuild_agree; [by rewrite !filter_app, Hl|].
    intros i Hi. by rewrite !has_shard_app, Hk.
  - apply rebuild_agree; [by rewrite !live_retire, Hl|].
    intros i Hi. rewrite !has_shard_map by apply retire_id. by apply Hk.
  - split; [|done|].
    + unfold live_shards. cbn [with_shards g_shards]. by rewrite !live_promote, Hl.
    + intros i Hi. cbn [with_shards g_shards].
      rewrite !has_shard_map by (intros sc; apply (promote_live e id rid sc)). by apply Hk.
Qed.

(** No command of the list adds a shard of [T]. *)
Definition adds_outside (T : Z -> Prop) (cmds : list string) : Prop :=
  forall text e id new, text ∈ cmds -> decode_command e text = Some (AddShard id new) -> ~ T id.

Lemma apply_commands_agree T n i m j cmds c c' :
  agree T c c' -> adds_outside T cmds -> n + i = m + j -> n + i + N.of_nat (length cmds) < U64 ->
  agree T (apply_commands n i cmds c) (apply_commands m j cmds c').
Proof.
  revert i j c c'. induction cmds as [|text cmds IH]; intros i j c c' Ha Hadd Heq Hb; [done|].
  cbn [apply_commands length] in *.
  assert (n +u i +u 1 = m +u j +u 1) as He by (rewrite !u64_add_small; rewrite ?u64_add_small; lia).
  apply IH.
  - rewrite He, !apply_command_execute. destruct (decode_command _ text) as [cmd|] eqn:E; [|done].
    apply execute_agree; [done|]. intros id new ->. eapply Hadd; [apply list_elem_of_here|done].
  - intros t e id new Ht. apply Hadd. by apply list_elem_of_further.
  - rewrite !u64_add_small by lia. lia.
  - rewrite !u64_add_small by lia. lia.
Qed.

(** C11: A snapshot stands for the commands it replaces.  A coordinator [c]
    that has applied the log up to index [i] writes a snapshot; another
    coordinator [c2], in whatever state, installs it; then both apply the same
    further commands, [c] from the log and [c2] from behind the snapshot.
    They have the same live replicas, with the same primaries and epochs, and
    the same ring, provided the further commands do not add back a shard that
    one of the two remembers as removed and the other does not. *)
Theorem snapshot_replay_agrees df c c2 t i cmds :
  Forall client_wf (live_shards c) -> ring_ok c -> serialize_raft_snapshot df c = Some t ->
  adds_outside (fun id => has_shard id (g_shards c) <>
                          has_shard id (g_shards (apply_raft_snapshot t c2))) cmds ->
  i + N.of_nat (length cmds) < U64 ->
  let full := apply_commands 0 i cmds c in
  let restored := apply_commands i 0 cmds (apply_raft_snapshot t c2) in
  live_shards full = live_shards restored /\ active_ring full = active_ring restored.
Proof.
  intros Hw Hok Hs Hadd Hb full restored. destruct (snapshot_restores df c c2 t Hw Hs) as [Hl Hr].
  set (T := fun id => has_shard id (g_shards c) <> has_shard id (g_shards (apply_raft_snapshot t c2))) in *.
  assert (agree T c (apply_raft_snapshot t c2)) as Ha.
  { split; [symmetry; exact Hl|rewrite Hr; exact Hok|]. intros id Hid. apply dec_stable. exact Hid. }
  pose proof (apply_commands_agree T 0 i i 0 cmds _ _ Ha Hadd ltac:(lia) ltac:(lia)) as [Hlive Hring _].
  exact (conj Hlive Hring).
Qed.

(** ** Commands are applied once

    [apply_pending_raft_commands] as a whole: with the snapshot that it makes
    after [COMPACTION_THRESHOLD] commands, and that its next call installs. *)

Lemma get_int_i32 j z : get_int j = Some z -> is_i32 z.
Proof.
  assert (forall x, is_i32 (to_i32 x)) as Hi.
  { intros x. unfold to_i32, u32_to_i32, is_i32. pose proof (i32_to_u32_bound x). unfold U32 in *. case_decide; lia. }
  destruct j; cbn [get_int]; intros H; try discriminate; try (injection H as <-; apply Hi).
  - injection H as <-. unfold is_i32. destruct b; lia.
  - destruct (trunc_float f); [|done]. cbn [mbind option_bind] in H. case_bool_decide; [|done]. by injection H as <-.
Qed.

Lemma get_u64_u64 j n : get_u64 j = Some n -> is_u64 n.
Proof.
  unfold is_u64, U64. destruct j; cbn [get_u64]; intros H; try discriminate.
  - injection H as <-. pose proof (Z.mod_pos_bound z 18446744073709551616 ltac:(done)). lia.
  - injection H as <-. by apply N.mod_lt.
  - destruct (trunc_float f); [|done]. cbn [mbind option_bind] in H. case_bool_decide; [|done]. injection H as <-. lia.
Qed.

Lemma int_at_i32 key r z : j_at key r ≫= get_int = Some z -> is_i32 z.
Proof. intros (j & _ & H)%bind_Some. by eapply get_int_i32. Qed.

Lemma command_client_wf id e r sc : is_i32 id -> is_u64 e -> command_client id e r = Some sc -> client_wf sc.
Proof.
  intros Hid He. unfold command_client. intros (rid & Hr%int_at_i32 & H)%bind_Some. apply bind_Some in H as (host & _ & H).
  apply bind_Some in H as (port & Hp%int_at_i32 & H). apply bind_Some in H as (primary & _ & [= <-]). by split.
Qed.

Lemma snapshot_client_wf r sc : snapshot_client r = Some sc -> client_wf sc.
Proof.
  unfold snapshot_client. intros (id & Hi%int_at_i32 & H)%bind_Some. apply bind_Some in H as (rid & Hr%int_at_i32 & H).
  apply bind_Some in H as (host & _ & H). apply bind_Some in H as (port & Hp%int_at_i32 & H).
  apply bind_Some in H as (primary & _ & H). apply bind_Some in H as (e & He & [= <-]). split; [done..|].
  unfold j_value in He. cbn [epoch with_epoch make_shard_client].
  repeat case_match; simplify_eq; try done; by eapply get_u64_u64.
Qed.

(** The fields of the replicas fit their C++ types. *)
Abbreviation clients_wf := (fun c => Forall client_wf (g_shards c)).

Lemma mapM_Forall {A B} (f : A -> option B) (P : B -> Prop) l l' :
  (forall x y, f x = Some y -> P y) -> mapM f l = Some l' -> Forall P l'.
Proof. intros Hf E%mapM_Some. induction E; constructor; [by eapply Hf|done]. Qed.

Lemma apply_command_wf e text c : is_u64 e -> clients_wf c -> clients_wf (apply_command e text c).
Proof.
  intros He Hc. unfold apply_command. destruct (json_parse text) as [cmd|]; [cbn [mbind option_bind]|done].
  destruct (j_at "type" cmd ≫= get_string) as [type|]; [cbn [mbind option_bind]|done]. repeat case_bool_decide; [| | |done].
  - unfold apply_add_shard. destruct (j_at "shard_id" cmd ≫= get_int) as [id|] eqn:Ei; [cbn [mbind option_bind]|done].
    destruct (has_shard _ _); [done|]. destruct (j_at "replicas" cmd); [cbn [mbind option_bind]|done].
    destruct (mapM _ _) as [new|] eqn:En; [|done]. apply Forall_app. split; [done|].
    eapply mapM_Forall; [|exact En]. intros x y. apply command_client_wf; [by eapply int_at_i32|done].
  - unfold apply_remove_shard. destruct (j_at "shard_id" cmd ≫= get_int); [|done]. apply Forall_fmap.
    eapply Forall_impl; [exact Hc|]. intros sc []. unfold compose, retire. case_bool_decide; by split.
  - unfold apply_set_primary. destruct (j_at "shard_id" cmd ≫= get_int); [cbn [mbind option_bind]|done].
    destruct (j_at "replica_id" cmd ≫= get_int); [|done]. apply Forall_fmap.
    eapply Forall_impl; [exact Hc|]. intros sc []. unfold compose, promote. case_bool_decide; by split.
Qed.

Lemma apply_commands_wf index i cmds c : clients_wf c -> clients_wf (apply_commands index i cmds c).
Proof.
  revert i c. induction cmds as [|cmd cmds IH]; intros i c Hc; [done|]. cbn [apply_commands]. apply IH, apply_command_wf; [|done].
  unfold is_u64, u64_add, u64. by apply N.mod_lt.
Qed.

Lemma apply_status_wf st c : clients_wf c -> clients_wf (apply_status st c).
Proof.
  intros Hc. assert (clients_wf (catch_up st c)) as Hcu.
  { unfold catch_up. case_bool_decide; [|done]. cbn [with_cursor g_shards]. unfold apply_raft_snapshot. case_bool_decide; [done|].
    destruct (snap ← _; _) as [new|] eqn:En; [|done]. cbn [rebuild with_shards g_shards]. apply Forall_app. split.
    - apply Forall_fmap. eapply Forall_impl; [exact Hc|]. by intros sc [].
    - apply bind_Some in En as (snap & _ & En). apply bind_Some in En as (sh & _ & En).
      eapply mapM_Forall; [|exact En]. apply snapshot_client_wf. }
  unfold apply_status. case_bool_decide; [done|]. unfold apply_new. cbn [with_cursor g_shards]. by apply apply_commands_wf.
Qed.

(** [n'] is [n] after the commands [more] were applied, its snapshot unchanged. *)
Definition moved_on (n n' : RaftNode.t) (more : list string) : Prop :=
  let st := RaftNode.status n in let st' := RaftNode.status n' in
  RaftNode.st_snapshot_last_index st' = RaftNode.st_snapshot_last_index st /\
  RaftNode.st_snapshot_data st' = RaftNode.st_snapshot_data st /\
  RaftNode.st_applied_commands st' = RaftNode.st_applied_commands st ++ more.

(** What clients and the metrics see of a coordinator. *)
Definition same_topology (c c' : coordinator) : Prop :=
  live_shards c = live_shards c' /\ active_ring c = active_ring c' /\ g_raft_commits c = g_raft_commits c'.

Definition last_applied_index (n : RaftNode.t) : N :=
  RaftNode.st_snapshot_last_index (RaftNode.status n) + size_of (RaftNode.status n).

(** The call either stops before the trigger, or compacts everything. *)
Lemma pending_cases df n c n' c' :
  RaftLog.fits (RaftNode.log_ n) -> last_applied_index n < U64 -> apply_pending_raft_commands df n c = Some (n', c') ->
  let c1 := apply_status (RaftNode.status n) c in
  (n' = n /\ c' = c1) \/
  exists t, serialize_raft_snapshot df c1 = Some t /\ c' = with_cursor 0 (g_snapshot_applied_index c1) c1 /\
    g_local_applied_count c1 = size_of (RaftNode.status n) /\
    RaftNode.st_snapshot_last_index (RaftNode.status n') = last_applied_index n /\
    RaftNode.st_snapshot_data (RaftNode.status n') = t /\ RaftNode.st_applied_commands (RaftNode.status n') = [].
Proof.
  intros Hf Hb. unfold apply_pending_raft_commands, last_applied_index in *. set (st := RaftNode.status n) in *. case_bool_decide as Hs.
  { intros [= <- <-]. by left. }
  assert (g_local_applied_count (apply_status st c) = size_of st) as Hc.
  { unfold apply_status. rewrite bool_decide_eq_false_2 by done. apply apply_new_fields. }
  unfold compaction_request. case_bool_decide as Hth; [|intros [= <- <-]; by left]. rewrite Hc, u64_add_small by done.
  destruct (serialize_raft_snapshot df (apply_status st c)) as [t|] eqn:Et; [|done].
  unfold RaftNode.compact. change (RaftLog.snapshot_last_index (RaftNode.log_ n)) with (RaftNode.st_snapshot_last_index st).
  set (i := RaftNode.st_snapshot_last_index st) in *. set (len := size_of st) in *.
  case_bool_decide; [intros [= <- <-]; left; split; reflexivity|]. case_bool_decide; [intros [= <- <-]; left; split; reflexivity|].
  rewrite u64_sub_le by lia. replace (i + len - i) with len by lia.
  case_bool_decide; [intros [= <- <-]; left; split; reflexivity|]. intros [= <- <-]. right. exists t. split; [reflexivity|]. split; [reflexivity|]. split; [reflexivity|].
  set (trm := RaftLog.term_at _ _).
  destruct (RaftLog.compact_fields (i + len) trm t (RaftNode.log_ n) Hf Hb) as (_ & Hi' & _ & Hd').
  { change (i < i + len). lia. }
  split; [exact Hi'|]. split; [exact Hd'|]. apply drop_ge. unfold len, size_of. rewrite Nat2N.id. reflexivity.
Qed.

Lemma pending_topology df n c n' c' :
  apply_pending_raft_commands df n c = Some (n', c') -> same_topology c' (apply_status (RaftNode.status n) c).
Proof.
  unfold apply_pending_raft_commands. case_bool_decide; [by intros [= _ <-]|].
  destruct (compaction_request _ _ _) as [[up [t|]]|]; [|done|by intros [= _ <-]].
  destruct (RaftNode.compact up t n) as [m []]; by intros [= _ <-].
Qed.

Lemma agree_cursor T c c' n i n' i' : agree T c c' -> agree T (with_cursor n i c) (with_cursor n' i' c').
Proof. intros [H1 H2 H3]. by split. Qed.

(** A coordinator that installs its own snapshot agrees with itself. *)
Lemma own_snapshot_agrees df st t c :
  clients_wf c -> ring_ok c -> serialize_raft_snapshot df c = Some t -> RaftNode.st_snapshot_data st = t ->
  agree (fun _ => False) c (catch_up st (with_cursor 0 (g_snapshot_applied_index c) c)) /\
  g_local_applied_count (catch_up st (with_cursor 0 (g_snapshot_applied_index c) c)) = 0 /\
  g_raft_commits (catch_up st (with_cursor 0 (g_snapshot_applied_index c) c)) = g_raft_commits c.
Proof.
  intros Hw Hok Hs Hd. unfold catch_up. case_bool_decide; [|split; [split; reflexivity|split; reflexivity]]. rewrite Hd.
  set (c0 := with_cursor 0 (g_snapshot_applied_index c) c). assert (Forall client_wf (live_shards c)) as Hl
    by (rewrite Forall_forall in *; intros sc [_ Hsc]%list_elem_of_filter; by apply Hw).
  destruct (snapshot_restores df c c0 t Hl Hs) as [Hlive Hring]. rewrite (snapshot_installs df c c0 t Hl Hs) in *.
  split; [|split; reflexivity]. split; [symmetry; exact Hlive|rewrite Hok; symmetry; exact Hring|]. intros id _.
  cbn [with_cursor rebuild with_shards g_shards].
  rewrite has_shard_app, (has_shard_map deactivate) by done. change (g_shards c0) with (g_shards c).
  destruct (has_shard id (g_shards c)) eqn:E; [done|]. symmetry. apply not_true_iff_false. intros (sc & Hsc & Hid)%existsb_exists.
  apply list_elem_of_In, list_elem_of_filter in Hsc as [_ Hsc]. apply not_true_iff_false in E. apply E, existsb_exists.
  exists sc. split; [by apply list_elem_of_In|exact Hid].
Qed.

(** Below the threshold there is no compaction. *)
Lemma pending_small df n c :
  size_of (RaftNode.status n) < COMPACTION_THRESHOLD ->
  apply_pending_raft_commands df n c = Some (n, apply_status (RaftNode.status n) c).
Proof.
  intros H. unfold apply_pending_raft_commands. case_bool_decide as Hs; [done|]. unfold compaction_request.
  assert (g_local_applied_count (apply_status (RaftNode.status n) c) = size_of (RaftNode.status n)) as ->.
  { unfold apply_status. rewrite bool_decide_eq_false_2 by done. apply apply_new_fields. }
  by rewrite bool_decide_eq_false_2 by lia.
Qed.

(** What the commands behind the cursor make of the topology. *)
Lemma apply_new_topology st done more c :
  RaftNode.st_applied_commands st = done ++ more -> g_local_applied_count c = N.of_nat (length done) ->
  let c' := if size_of st <=?? g_local_applied_count c then c else apply_new st c in
  let full := apply_commands (RaftNode.st_snapshot_last_index st) (N.of_nat (length done)) more c in
  live_shards c' = live_shards full /\ active_ring c' = active_ring full /\
  g_raft_commits c' = g_raft_commits c + N.of_nat (length more).
Proof.
  intros Ha Hc. unfold size_of. rewrite Ha, Hc, length_app. case_bool_decide as Hs.
  { assert (more = []) as -> by (apply length_zero_iff_nil; lia). cbn [apply_commands length]. split; [done|]. split; [done|lia]. }
  destruct c as [s r n i k]. cbn [g_local_applied_count] in Hc. unfold apply_new, size_of. rewrite Ha, length_app.
  cbn [g_local_applied_count g_shards active_ring g_snapshot_applied_index g_raft_commits]. rewrite Hc, Nat2N.id, drop_app_length.
  rewrite apply_commands_frame, (apply_commands_frame _ _ more s r (N.of_nat (length done)) i k).
  cbn [with_cursor live_shards g_shards active_ring g_raft_commits]. split; [done|]. split; [done|lia].
Qed.

Lemma moved_size n n' more : moved_on n n' more -> size_of (RaftNode.status n') = size_of (RaftNode.status n) + N.of_nat (length more).
Proof. intros (_ & _ & H). unfold size_of. rewrite H, length_app. lia. Qed.

(** Two nodes that moved on alike. *)
Lemma moved_same n1 n2 m more c :
  moved_on n1 n2 more -> moved_on n1 m more -> apply_status (RaftNode.status n2) c = apply_status (RaftNode.status m) c.
Proof.
  intros (Ni & Nd & Na) (Mi & Md & Ma). unfold apply_status, catch_up, apply_new, size_of. by rewrite Ni, Nd, Na, Mi, Md, Ma.
Qed.

(** After a compaction the commands start from the snapshot. *)
Lemma compacted_topology df n1 n1' n2 m more t c :
  let c1 := apply_status (RaftNode.status n1) c in
  clients_wf c -> ring_ok c -> last_applied_index n1 + N.of_nat (length more) < U64 ->
  serialize_raft_snapshot df c1 = Some t -> g_local_applied_count c1 = size_of (RaftNode.status n1) ->
  RaftNode.st_snapshot_last_index (RaftNode.status n1') = last_applied_index n1 ->
  RaftNode.st_snapshot_data (RaftNode.status n1') = t -> RaftNode.st_applied_commands (RaftNode.status n1') = [] ->
  moved_on n1' n2 more -> moved_on n1 m more ->
  same_topology (apply_status (RaftNode.status n2) (with_cursor 0 (g_snapshot_applied_index c1) c1))
    (apply_status (RaftNode.status m) c1).
Proof.
  intros c1 Hw Hok Hb Ht Hc Hi Hd Ha (Ni & Nd & Na) (Mi & Md & Ma). rewrite Ha in Na. cbn [app] in Na.
  destruct (own_snapshot_agrees df (RaftNode.status n2) t c1) as (Hag & Hcur & Hk);
    [by apply apply_status_wf|by apply apply_status_ring_ok|done|by rewrite Nd|].
  unfold apply_status. set (c0 := catch_up (RaftNode.status n2) _) in *.
  rewrite (catch_up_done (RaftNode.status m) c1).
  2: { rewrite Mi. unfold c1, apply_status. case_bool_decide; [apply catch_up_index|].
       rewrite (proj1 (apply_new_fields _ _)). apply catch_up_index. }
  destruct (apply_new_topology (RaftNode.status n2) [] more c0 Na Hcur) as (L1 & R1 & K1).
  destruct (apply_new_topology (RaftNode.status m) (RaftNode.st_applied_commands (RaftNode.status n1)) more c1 Ma Hc) as (L2 & R2 & K2).
  unfold last_applied_index, size_of in *.
  pose proof (apply_commands_agree (fun _ => False) (RaftNode.st_snapshot_last_index (RaftNode.status m))
    (N.of_nat (length (RaftNode.st_applied_commands (RaftNode.status n1)))) (RaftNode.st_snapshot_last_index (RaftNode.status n2)) 0
    more c1 c0 Hag ltac:(by intros ? ? ? ? ? ? []) ltac:(rewrite Ni, Hi, Mi; lia) ltac:(rewrite Mi; lia)) as [HL HR _].
  unfold same_topology. rewrite L1, R1, K1, L2, R2, K2, Hk. change (N.of_nat (length [])) with 0.
  rewrite <-HL, <-HR. split; [reflexivity|]. split; reflexivity.
Qed.

(** C14: Each committed command is applied exactly once, compaction included.
    A coordinator calls [apply_pending_raft_commands] early; its Raft node then
    applies the commands [more] with its snapshot unchanged, and the coordinator
    calls again.  Another node [m] has applied all these commands when the
    coordinator calls for the first time.  If the calls return (only the text
    of a snapshot can fail, by an exception) and the Raft node does not move
    while a call runs, the live replicas with their primaries and epochs, the
    ring and the count of commits are the same in both histories, also when the
    early call compacts the log and the later one installs its own snapshot.
    While fewer than 64 commands are applied, all of the coordinator is the
    same, its cursor included. *)
Theorem applied_exactly_once df n1 n1' n2 n2' m m' more c c1 c2 c3 :
  RaftLog.fits (RaftNode.log_ n1) -> clients_wf c -> ring_ok c ->
  last_applied_index n1 + N.of_nat (length more) < U64 ->
  apply_pending_raft_commands df n1 c = Some (n1', c1) ->
  moved_on n1' n2 more -> apply_pending_raft_commands df n2 c1 = Some (n2', c2) ->
  moved_on n1 m more -> apply_pending_raft_commands df m c = Some (m', c3) ->
  same_topology c2 c3 /\ (size_of (RaftNode.status m) < COMPACTION_THRESHOLD -> c2 = c3).
Proof.
  intros Hf Hw Hok Hb E1 M1 E2 M2 E3. pose proof (moved_size _ _ _ M2) as Hsize. pose proof M2 as (Mi & Md & Ma).
  unfold last_applied_index in Hb.
  pose proof (apply_status_again (RaftNode.status n1) (RaftNode.status m) more c (eq_sym Mi) (eq_sym Md) Ma ltac:(lia)) as Hagain.
  split.
  - destruct (pending_topology _ _ _ _ _ E2) as (H21 & H22 & H23), (pending_topology _ _ _ _ _ E3) as (H31 & H32 & H33).
    unfold same_topology. rewrite H21, H22, H23, H31, H32, H33, <-Hagain.
    destruct (pending_cases df n1 c n1' c1 Hf ltac:(unfold last_applied_index; lia) E1) as [[-> ->]|(t & Ht & -> & Hc & Hi & Hd & Ha)].
    + by rewrite (moved_same n1 n2 m more _ M1 M2).
    + by apply (compacted_topology df n1 n1' n2 m more t c).
  - intros Hsmall. rewrite (pending_small df m) in E3 by done. injection E3 as <- <-.
    rewrite (pending_small df n1) in E1 by lia. injection E1 as <- <-.
    rewrite (pending_small df n2) in E2 by (by rewrite (moved_size _ _ _ M1), <-Hsize). injection E2 as <- <-.
    by rewrite (moved_same n1 n2 m more _ M1 M2).
Qed.

(** ** The commands a coordinator proposes *)

Definition remove_shard_command (shard_id : Z) : json :=
  j_object [("type", JString "remove_shard"); ("shard_id", JInteger shard_id)].

Definition set_primary_command (shard_id replica_id : Z) : json :=
  j_object [("type", JString "set_primary"); ("shard_id", JInteger shard_id);
            ("replica_id", JInteger replica_id)].

(** [replicas] is taken over from the request body. *)
Definition add_shard_command (shard_id : Z) (replicas : json) : json :=
  j_object [("type", JString "add_shard"); ("shard_id", JInteger shard_id); ("replicas", replicas)].

(** One element of the request body's ["replicas"]. *)
Definition replica_json (ep : ShardEndpoint) : json :=
  j_object [("replica_id", JInteger (ep_replica_id ep)); ("host", JString (ep_host ep));
            ("port", JInteger (ep_port ep)); ("primary", JBool (ep_is_primary ep))].

Lemma dump_parse_text df j text :
  plain j = true -> json_dump df j = Some text -> json_parse text = Some (normalize j).
Proof.
  intros Hp Hd. apply fmap_Some in Hd as (out & Hout & ->). unfold json_parse.
  rewrite bytes_of_string_of. by apply (dump_then_parse df None true).
Qed.

Lemma decode_remove df id text e :
  is_i32 id -> json_dump df (remove_shard_command id) = Some text ->
  decode_command e text = Some (RemoveShard id).
Proof.
  intros Hid Hd. unfold decode_command.
  change (remove_shard_command id) with (JObject [("shard_id", JInteger id); ("type", JString "remove_shard")]) in Hd.
  apply dump_parse_text in Hd;
    [rewrite Hd|apply i32_plain in Hid; cbn [plain keys_sorted forallb snd] in *; by rewrite Hid].
  cbn [mbind option_bind]. erewrite (j_at_normalize "type") by reflexivity.
  cbn [mbind option_bind]. change (get_string (normalize (JString "remove_shard"))) with (Some "remove_shard").
  cbn [mbind option_bind].
  rewrite bool_decide_eq_false_2, bool_decide_eq_true_2 by done.
  erewrite (j_at_normalize "shard_id") by reflexivity. cbn [mbind option_bind].
  by rewrite get_int_normalize.
Qed.

Lemma decode_set_primary df id rid text e :
  is_i32 id -> is_i32 rid -> json_dump df (set_primary_command id rid) = Some text ->
  decode_command e text = Some (SetPrimary id rid).
Proof.
  intros Hid Hrid Hd. unfold decode_command.
  change (set_primary_command id rid) with
    (JObject [("replica_id", JInteger rid); ("shard_id", JInteger id); ("type", JString "set_primary")]) in Hd.
  apply dump_parse_text in Hd; [rewrite Hd|apply i32_plain in Hid, Hrid;
    cbn [plain keys_sorted forallb snd] in *; by rewrite Hid, Hrid].
  cbn [mbind option_bind]. erewrite (j_at_normalize "type") by reflexivity.
  cbn [mbind option_bind]. change (get_string (normalize (JString "set_primary"))) with (Some "set_primary").
  cbn [mbind option_bind].
  rewrite bool_decide_eq_false_2, bool_decide_eq_false_2, bool_decide_eq_true_2 by done.
  erewrite (j_at_normalize "shard_id"), (j_at_normalize "replica_id") by reflexivity.
  cbn [mbind option_bind]. by rewrite !get_int_normalize.
Qed.

Lemma replica_json_eq ep :
  replica_json ep =
  JObject [("host", JString (ep_host ep)); ("port", JInteger (ep_port ep));
           ("primary", JBool (ep_is_primary ep)); ("replica_id", JInteger (ep_replica_id ep))].
Proof. reflexivity. Qed.

Lemma command_client_json id e ep :
  endpoint_wf ep ->
  command_client id e (normalize (replica_json ep)) =
  Some (MkClient id (ep_replica_id ep) (ep_host ep) (ep_port ep) true (ep_is_primary ep) e).
Proof.
  intros [H1 H2 H3]. rewrite replica_json_eq. unfold command_client.
  erewrite !j_at_normalize, !j_value_normalize by reflexivity. cbn [mbind option_bind].
  by rewrite !get_int_normalize.
Qed.

Definition new_clients (id : Z) (e : N) (eps : list ShardEndpoint) : list ShardClient :=
  (fun ep => MkClient id (ep_replica_id ep) (ep_host ep) (ep_port ep) true (ep_is_primary ep) e) <$> eps.

Lemma replica_plain ep : endpoint_wf ep -> plain (replica_json ep) = true.
Proof.
  intros [H1 H2 H3]. rewrite replica_json_eq. apply i32_plain in H2, H3.
  cbn [plain keys_sorted forallb snd] in *. by rewrite H2, H3.
Qed.

Lemma decode_add df id eps text e :
  is_i32 id -> Forall endpoint_wf eps ->
  json_dump df (add_shard_command id (JArray (replica_json <$> eps))) = Some text ->
  decode_command e text = Some (AddShard id (new_clients id e eps)).
Proof.
  intros Hid Hw Hd. unfold decode_command.
  change (add_shard_command id (JArray (replica_json <$> eps))) with
    (JObject [("replicas", JArray (replica_json <$> eps)); ("shard_id", JInteger id);
              ("type", JString "add_shard")]) in Hd.
  apply dump_parse_text in Hd.
  - rewrite Hd. cbn [mbind option_bind]. erewrite (j_at_normalize "type") by reflexivity.
    cbn [mbind option_bind]. change (get_string (normalize (JString "add_shard"))) with (Some "add_shard").
    cbn [mbind option_bind]. rewrite bool_decide_eq_true_2 by done.
    erewrite (j_at_normalize "shard_id"), (j_at_normalize "replicas") by reflexivity.
    cbn [mbind option_bind]. rewrite get_int_normalize by done. cbn [mbind option_bind normalize j_elements].
    assert (mapM (command_client id e) (normalize <$> (replica_json <$> eps)) = Some (new_clients id e eps)) as ->.
    { apply mapM_Some. clear Hd. unfold new_clients.
      induction Hw as [|ep eps Hep Hw IH]; cbn -[normalize replica_json]; constructor; [|done].
      by apply command_client_json. }
    done.
  - assert (forallb plain (replica_json <$> eps) = true) as Ha.
    { apply forallb_forall. intros j Hj%list_elem_of_In. apply list_elem_of_fmap in Hj as (ep & -> & Hep).
      rewrite Forall_forall in Hw. by apply replica_plain, Hw. }
    apply i32_plain in Hid. cbn [plain keys_sorted forallb snd] in *. rewrite Hid, Ha. reflexivity.
Qed.

(** What an administrator asks for is what every coordinator does.  The
    text that the admin handlers and the failover thread propose, once
    committed at log index [e], has on each coordinator the intended effect:
    a new shard id gets exactly the given replicas, live and in epoch [e]; a
    removed shard has no live replica left and the others keep theirs; a
    promotion makes the named replica the only primary of its shard, with
    every replica of it in epoch [e], and touches no other shard. *)
Theorem proposed_commands_apply df e id rid eps c :
  is_i32 id -> is_i32 rid -> Forall endpoint_wf eps ->
  (forall text, json_dump df (add_shard_command id (JArray (replica_json <$> eps))) = Some text ->
     has_shard id (g_shards c) = false ->
     live_shards (apply_command e text c) = live_shards c ++ new_clients id e eps) /\
  (forall text, json_dump df (remove_shard_command id) = Some text ->
     live_shards (apply_command e text c) = filter (fun sc => cl_shard_id sc <> id) (live_shards c)) /\
  (forall text, json_dump df (set_primary_command id rid) = Some text ->
     (live_shards (apply_command e text c) = promote e id rid <$> live_shards c) /\
     forall sc, sc ∈ live_shards (apply_command e text c) -> cl_shard_id sc = id ->
       epoch sc = e /\ (is_primary sc = true <-> cl_replica_id sc = rid)).
Proof.
  intros Hid Hrid Hw. split_and!.
  - intros text Ht Hnew. rewrite apply_command_execute, (decode_add df id eps text e Hid Hw Ht).
    cbn [from_option execute]. rewrite Hnew. unfold live_shards. cbn [rebuild with_shards g_shards].
    rewrite filter_app. f_equal. unfold new_clients. clear. induction eps as [|ep eps IH]; [done|].
    rewrite fmap_cons, filter_cons_True by done. by rewrite IH.
  - intros text Ht. rewrite apply_command_execute, (decode_remove df id text e Hid Ht).
    unfold live_shards. cbn [from_option execute rebuild with_shards g_shards]. apply live_retire.
  - intros text Ht. assert (live_shards (apply_command e text c) = promote e id rid <$> live_shards c) as Hl.
    { rewrite apply_command_execute, (decode_set_primary df id rid text e Hid Hrid Ht).
      unfold live_shards. cbn [from_option execute with_shards g_shards]. apply live_promote. }
    split; [exact Hl|]. rewrite Hl. intros sc Hsc Hsid. apply list_elem_of_fmap in Hsc as (sc0 & -> & Hsc0).
    clear Ht Hl. unfold promote in *. case_bool_decide as Hc; [|done]. split; [done|]. cbn.
    by rewrite bool_decide_eq_true.
Qed.

(** ** Epochs *)

Definition epochs_at_most (m : N) (c : coordinator) : Prop := Forall (fun sc => epoch sc <= m) (g_shards c).

Lemma execute_epochs e m cmd c :
  command_wf e cmd -> e <= m -> epochs_at_most m c -> epochs_at_most m (execute e cmd c).
Proof.
  intros Hw He Hc. unfold epochs_at_most in *. destruct cmd as [id new|id|id rid]; unfold execute.
  - destruct (has_shard id (g_shards c)); [done|]. cbn [rebuild with_shards g_shards].
    apply Forall_app. split; [done|]. eapply Forall_impl; [exact Hw|]. by intros sc (_ & _ & ->).
  - apply Forall_fmap. eapply Forall_impl; [exact Hc|]. intros sc Hsc. cbn. unfold retire. by case_bool_decide.
  - apply Forall_fmap. eapply Forall_impl; [exact Hc|]. intros sc Hsc. cbn. unfold promote. by case_bool_decide.
Qed.

(** A coordinator's epochs do not run ahead of the log it has applied. *)
Lemma apply_commands_epochs n i m cmds c :
  epochs_at_most m c -> n + i + N.of_nat (length cmds) <= m -> m < U64 ->
  epochs_at_most m (apply_commands n i cmds c).
Proof.
  revert i c. induction cmds as [|text cmds IH]; intros i c Hc Hm Hb; [done|].
  cbn [apply_commands length] in *. assert (i +u 1 = i + 1) as -> by (apply u64_add_small; lia).
  apply IH; [|lia|lia]. rewrite apply_command_execute.
  destruct (decode_command _ text) as [cmd|] eqn:E; [|done]. cbn [from_option].
  apply execute_epochs; [by eapply decode_command_wf| |done].
  rewrite !u64_add_small; rewrite ?u64_add_small; lia.
Qed.

Lemma start_epochs eps index m : epochs_at_most m (start eps index).
Proof.
  unfold epochs_at_most, start. cbn [g_shards]. apply Forall_fmap, Forall_true. intros ep. cbn. lia.
Qed.

(** ** Witnesses and divergences *)

Definition two_shards : list ShardEndpoint :=
  [MkEndpoint 0 0 "a" 9090 true; MkEndpoint 1 0 "b" 9090 true; MkEndpoint 1 1 "c" 9090 false].

Definition add_two : string := dq "{'replicas':[{'host':'d','port':9090,'primary':true,'replica_id':0}],'shard_id':2,'type':'add_shard'}".

Definition remove_two : string := dq "{'shard_id':2,'type':'remove_shard'}".

Definition promote_one : string := dq "{'replica_id':1,'shard_id':1,'type':'set_primary'}".

Lemma decode_add_two e : decode_command e add_two = Some (AddShard 2 [MkClient 2 0 "d" 9090 true true e]).
Proof. reflexivity. Qed.

Lemma decode_remove_two e : decode_command e remove_two = Some (RemoveShard 2).
Proof. reflexivity. Qed.

Lemma decode_promote_one e : decode_command e promote_one = Some (SetPrimary 1 1).
Proof. reflexivity. Qed.

Definition view (c : coordinator) : list (Z * Z * bool * N) :=
  (fun sc => (cl_shard_id sc, cl_replica_id sc, is_primary sc, epoch sc)) <$> live_shards c.

Definition status_with (index : N) (data : string) (cmds : list string) : RaftNode.Status :=
  RaftNode.MkStatus 0 "leader" 1 0 0 0 cmds index data.

(** A node that leads alone and has committed [k] commands. *)
Definition alone : RaftNode.t :=
  RaftNode.start_election_finish 300 1 []
    (RaftNode.start_election_begin 300 300 (RaftNode.create 1 [RaftNode.MkPeer 1 "127.0.0.1" 7001] None None 0 300)).1.

Definition commit (text : string) (n : RaftNode.t) : RaftNode.t := (RaftNode.propose_begin text n).1.

Definition committed (k : nat) : RaftNode.t := Nat.iter k (commit promote_one) alone.

Abbreviation no_floats := (fun _ : float64 => @nil ascii).

Definition two_clients : list ShardClient :=
  [MkClient 0 0 "a" 9090 true true 0; MkClient 1 0 "b" 9090 true true 0; MkClient 1 1 "c" 9090 true false 0].

(** The early call at 64 commands compacts the log, whatever the ring is. *)
Lemma committed_compacts r :
  match apply_pending_raft_commands no_floats (committed 64) (MkCoordinator two_clients r 0 0 0) with
  | Some (n1', c1) => moved_on n1' (commit promote_one n1') [promote_one] /\
      size_of (RaftNode.status n1') = 0 /\ size_of (RaftNode.status (commit promote_one n1')) = 1
  | None => False
  end /\
  from_option (fun _ => true) false (apply_pending_raft_commands no_floats (commit promote_one (committed 64))
    (MkCoordinator two_clients r 0 0 0)) = true.
Proof. vm_compute. split; [|reflexivity]. split; [split; [reflexivity|split; reflexivity]|split; reflexivity]. Qed.

Lemma committed_ok :
  RaftLog.fits (RaftNode.log_ (committed 64)) /\ last_applied_index (committed 64) + 1 < U64 /\
  moved_on (committed 64) (commit promote_one (committed 64)) [promote_one].
Proof.
  split; [|split; [vm_compute; reflexivity|vm_compute; split; [reflexivity|split; reflexivity]]].
  split; [vm_compute; reflexivity|]. split; [vm_compute; reflexivity|]. split; [vm_compute; reflexivity|].
  apply (bool_decide_unpack _). vm_compute. exact I.
Qed.

Lemma two_clients_wf : Forall client_wf two_clients.
Proof. repeat (constructor; [split; vm_compute; split; (reflexivity || discriminate)|]). constructor. Qed.

Lemma start_two_clients : start two_shards 0 = MkCoordinator two_clients (active_ring (start two_shards 0)) 0 0 0.
Proof.
  assert (forall eps i, start eps i = MkCoordinator (g_shards (start eps i)) (active_ring (start eps i)) 0 i 0) as H by reflexivity.
  rewrite H at 1. f_equal.
Qed.

Lemma applied_exactly_once_witness :
  exists n1' c1 c2 m' c3,
    apply_pending_raft_commands no_floats (committed 64) (start two_shards 0) = Some (n1', c1) /\
    size_of (RaftNode.status n1') = 0 /\
    apply_pending_raft_commands no_floats (commit promote_one n1') c1 = Some (commit promote_one n1', c2) /\
    apply_pending_raft_commands no_floats (commit promote_one (committed 64)) (start two_shards 0) = Some (m', c3) /\
    same_topology c2 c3.
Proof.
  pose proof (committed_compacts (active_ring (start two_shards 0))) as [H1 H3].
  rewrite <-start_two_clients in H1, H3. destruct committed_ok as (Hf & Hb & M2).
  destruct (apply_pending_raft_commands no_floats (committed 64) (start two_shards 0)) as [[n1' c1]|] eqn:E1; [|destruct H1].
  destruct H1 as (M1 & Hz & Hone).
  destruct (apply_pending_raft_commands no_floats (commit promote_one (committed 64)) (start two_shards 0)) as [[m' c3]|] eqn:E3;
    [|discriminate H3].
  assert (size_of (RaftNode.status (commit promote_one n1')) < COMPACTION_THRESHOLD) as Hs by (rewrite Hone; reflexivity).
  pose proof (pending_small no_floats (commit promote_one n1') c1 Hs) as E2.
  eexists n1', c1, _, m', c3. split; [reflexivity|]. split; [exact Hz|]. split; [exact E2|]. split; [reflexivity|].
  refine (proj1 (applied_exactly_once no_floats (committed 64) n1' _ _ _ m' [promote_one] _ c1 _ c3 Hf _ (start_ring_ok _ _) Hb E1 M1 E2 M2 E3)).
  rewrite start_two_clients. exact two_clients_wf.
Defined.

Lemma proposed_commands_apply_witness :
  view (apply_command 5 promote_one (start two_shards 0)) =
  [(0%Z, 0%Z, true, 0); (1%Z, 0%Z, false, 5); (1%Z, 1%Z, true, 5)].
Proof.
  destruct (proposed_commands_apply (fun _ => []) 5 1 1 [] (start two_shards 0)) as (_ & _ & H);
    [done|done|constructor|].
  unfold view. rewrite (proj1 (H promote_one ltac:(vm_compute; reflexivity))). reflexivity.
Defined.

(** The snapshot of the configuration itself. *)
Definition two_shards_snapshot : string :=
  dq "{'shards':[{'epoch':0,'host':'a','port':9090,'primary':true,'replica_id':0,'shard_id':0}," +:+
  dq "{'epoch':0,'host':'b','port':9090,'primary':true,'replica_id':0,'shard_id':1}," +:+
  dq "{'epoch':0,'host':'c','port':9090,'primary':false,'replica_id':1,'shard_id':1}]}".

Lemma serialize_two_shards df c :
  live_shards c = live_shards (start two_shards 0) ->
  serialize_raft_snapshot df c = Some two_shards_snapshot.
Proof. intros H. unfold serialize_raft_snapshot. rewrite H. reflexivity. Qed.

Lemma snapshot_replay_agrees_witness :
  live_shards (apply_commands 0 3 [promote_one] (start two_shards 0)) =
  live_shards (apply_commands 3 0 [promote_one] (apply_raft_snapshot two_shards_snapshot (start [] 0))).
Proof.
  refine (proj1 (snapshot_replay_agrees (fun _ => []) (start two_shards 0) (start [] 0) two_shards_snapshot 3
    [promote_one] _ _ _ _ _)).
  - by repeat constructor.
  - apply start_ring_ok.
  - by apply serialize_two_shards.
  - intros text e id new Ht%list_elem_of_singleton. subst. rewrite decode_promote_one. done.
  - done.
Defined.

(** Adding back a removed shard makes coordinators disagree.  One
    coordinator applies "add 2, remove 2, add 2" from the log; another
    receives a snapshot of the state after the first two commands and applies
    the third.  The first ignores the third command, because the check for an
    existing shard also counts removed ones, so the two route keys over
    different shards from then on. *)
Theorem readd_after_remove_diverges :
  let removed := apply_commands 0 0 [add_two; remove_two] (start two_shards 0) in
  let snapshot := default "" (serialize_raft_snapshot (fun _ => []) removed) in
  (fst ∘ fst ∘ fst <$> view (apply_commands 0 2 [add_two] removed)) = [0; 1; 1]%Z /\
  (fst ∘ fst ∘ fst <$> view (apply_commands 2 0 [add_two] (apply_raft_snapshot snapshot (start two_shards 0)))) =
    [0; 1; 1; 2]%Z.
Proof.
  intros removed snapshot.
  assert (forall c, g_shards (apply_commands 0 0 [add_two; remove_two] c) = g_shards (execute 2 (RemoveShard 2)
    (execute 1 (AddShard 2 [MkClient 2 0 "d" 9090 true true 1]) c))) as Hr.
  { intros c. cbn [apply_commands]. rewrite !apply_command_execute, decode_add_two, decode_remove_two. done. }
  assert (live_shards removed = live_shards (start two_shards 0)) as Hlive
    by (unfold live_shards, removed; rewrite Hr; reflexivity).
  assert (snapshot = two_shards_snapshot) as -> by (unfold snapshot; by rewrite serialize_two_shards).
  assert (forall n i c, apply_commands n i [add_two] c =
    execute (n +u i +u 1) (AddShard 2 [MkClient 2 0 "d" 9090 true true (n +u i +u 1)]) c) as Ha.
  { intros n i c. cbn [apply_commands]. by rewrite apply_command_execute, decode_add_two. }
  rewrite !Ha. unfold view, live_shards, execute. split.
  - unfold removed. rewrite Hr. reflexivity.
  - unfold apply_raft_snapshot. rewrite bool_decide_eq_false_2 by (vm_compute; congruence).
    assert ((snap ← json_parse two_shards_snapshot; shards ← j_at "shards" snap;
       mapM snapshot_client (j_elements shards)) = Some (live_shards (start two_shards 0))) as -> by reflexivity.
    reflexivity.
Qed.

(** Commands that add shards the coordinator already has. *)
Definition adds_known (ids : list Z) (cmds : list string) : Prop :=
  forall text e cmd, text ∈ cmds -> decode_command e text = Some cmd ->
    exists id new, cmd = AddShard id new /\ id ∈ ids.

Lemma has_shard_start eps index id : id ∈ ep_shard_id <$> eps -> has_shard id (g_shards (start eps index)) = true.
Proof.
  intros Hin. apply existsb_exists. apply list_elem_of_fmap in Hin as (ep & -> & Hin).
  exists (make_shard_client (ep_shard_id ep) (ep_replica_id ep) (ep_host ep) (ep_port ep) (ep_is_primary ep)).
  split; [|by apply bool_decide_eq_true]. apply list_elem_of_In. cbn [start g_shards].
  apply list_elem_of_fmap. by exists ep.
Qed.

Lemma apply_commands_known n i ids cmds c :
  (forall id, id ∈ ids -> has_shard id (g_shards c) = true) -> adds_known ids cmds ->
  apply_commands n i cmds c = c.
Proof.
  intros Hids. revert i. induction cmds as [|text cmds IH]; intros i Ha; [done|]. cbn [apply_commands].
  rewrite apply_command_execute. assert (adds_known ids cmds) as Ha'.
  { intros t e cmd Ht. apply Ha. by apply list_elem_of_further. }
  destruct (decode_command _ text) as [cmd|] eqn:E; cbn [from_option]; [|by apply IH].
  destruct (Ha _ _ _ (list_elem_of_here _ _) E) as (id & new & -> & Hid).
  unfold execute. rewrite (Hids id Hid). by apply IH.
Qed.

(** A restarted coordinator forgets epochs.  The configuration file does
    not hold epochs, the snapshot of the own log is taken as already applied,
    and commands that add shards found in the file are skipped: after such a
    restart every replica is back in epoch 0, and every shard that has
    accepted a write in a later epoch refuses the coordinator's writes. *)
Theorem restart_forgets_epochs eps index st :
  RaftNode.st_snapshot_last_index st = index ->
  adds_known (ep_shard_id <$> eps) (RaftNode.st_applied_commands st) ->
  forall sc, sc ∈ g_shards (apply_status st (start eps index)) ->
    epoch sc = 0 /\
    forall current, 0 < current ->
      check_and_advance_epoch (epoch sc) current = inr (stale_epoch_error 0 current).
Proof.
  intros Hi Ha sc Hsc. assert (g_shards (apply_status st (start eps index)) = g_shards (start eps index)) as Hg.
  { unfold apply_status. rewrite catch_up_done by (cbn; lia). case_bool_decide; [done|]. unfold apply_new.
    rewrite (apply_commands_known _ _ (ep_shard_id <$> eps)); [done| |].
    - intros id Hid. by apply (has_shard_start eps index).
    - intros t e cmd Ht. apply Ha. cbn in Ht. by rewrite drop_0 in Ht. }
  rewrite Hg in Hsc. assert (epoch sc = 0) as He.
  { cbn [start g_shards] in Hsc. by apply list_elem_of_fmap in Hsc as (ep & -> & _). }
  split; [done|]. intros current Hc. rewrite He. unfold check_and_advance_epoch.
  by rewrite bool_decide_eq_true_2.
Qed.

Lemma restart_forgets_epochs_witness :
  check_and_advance_epoch 0 1 = inr (stale_epoch_error 0 1).
Proof.
  destruct (restart_forgets_epochs (MkEndpoint 2 0 "d" 9090 true :: two_shards) 0 (status_with 0 "" [add_two]) eq_refl)
    with (sc := make_shard_client 2 0 "d" 9090 true) as [_ H].
  - intros text e cmd ->%list_elem_of_singleton. rewrite decode_add_two. intros [= <-].
    eexists _, _. split; [done|]. apply list_elem_of_here.
  - unfold apply_status. rewrite catch_up_done by done.
    rewrite bool_decide_eq_false_2 by (unfold size_of; cbn; lia).
    unfold apply_new. cbn [g_local_applied_count start g_shards active_ring g_snapshot_applied_index g_raft_commits].
    rewrite drop_0. cbn [RaftNode.st_applied_commands status_with apply_commands].
    rewrite apply_command_execute, decode_add_two. apply list_elem_of_here.
  - by apply (H 1).
Defined.
