(* ===== verification/Quorum.v ===== *)
(** * Quorum writes and migration ([src/cluster/coordinator_main.cpp])

    The shard servers are a map from addresses to [ShardService] states; the
    network decides for every call whether the request is lost, the reply is
    lost, or both arrive.  On top of it the coordinator's [quorum_insert],
    [quorum_delete] and [migrate_one_key]. *)

From S2P Require Import Prelude Float32 IndexTypes Json JsonDump JsonRoundtrip Storage RaftState RaftLog RaftNode HashRing.
From S2P Require Import IdMapStore ShardService ClusterConfig Topology.
Import ShardService.

(** A [ShardClient*]: its position in [g_shards], and what it points to. *)
Abbreviation client := (nat * ShardClient)%type.

(** [live_shards()], with the addresses. *)
Definition live_pool (c : coordinator) : list client :=
  filter (fun p => active p.2 = true) (imap pair (g_shards c)).

(** Primaries first.  Within each group [std::sort] may leave any order; this is
    the order of the pool, which the insertion sort of the library for up to
    sixteen elements keeps.  The theorems on quorums below are about any list of
    replicas; the order shows in which of two equal candidates a failover
    takes. *)
Definition replicas_for_shard (pool : list client) (shard_id : Z) : list client :=
  let out := filter (fun p => cl_shard_id p.2 = shard_id) pool in
  filter (fun p => is_primary p.2 = true) out ++ filter (fun p => is_primary p.2 = false) out.

(** It is what any sort with that comparison gives, up to the order of equals. *)
Lemma replicas_for_shard_sorts pool shard_id :
  replicas_for_shard pool shard_id ≡ₚ filter (fun p => cl_shard_id p.2 = shard_id) pool /\
  StronglySorted (fun a b => is_primary b.2 && negb (is_primary a.2) = false) (replicas_for_shard pool shard_id).
Proof.
  unfold replicas_for_shard. set (out := filter _ pool). clearbody out. split.
  - induction out as [|[i sc] out IH]; [done|]. rewrite !filter_cons. cbn [snd]. destruct (is_primary sc).
    + rewrite decide_True, decide_False by done. cbn [app]. by rewrite IH.
    + rewrite decide_False, decide_True by done. by rewrite <-Permutation_middle, IH.
  - apply StronglySorted_app. split_and!.
    + intros a b [Ha _]%list_elem_of_filter [Hb _]%list_elem_of_filter. by rewrite Hb.
    + induction out as [|a out IH]; [constructor|]. rewrite filter_cons. destruct (decide _) as [Ha|]; [|done]. constructor; [done|].
      apply Forall_forall. intros b _. by rewrite Ha, andb_false_r.
    + induction out as [|a out IH]; [constructor|]. rewrite filter_cons. destruct (decide _) as [Ha|]; [|done]. constructor; [done|].
      apply Forall_forall. intros b [Hb _]%list_elem_of_filter. by rewrite Hb.
Qed.

Definition find_primary (pool : list client) (shard_id : Z) : option client :=
  snd <$> list_find (fun p => cl_shard_id p.2 = shard_id /\ is_primary p.2 = true) pool.

Definition client_address (sc : ShardClient) : string := cl_host sc +:+ ":" +:+ pretty (cl_port sc).

(** ** Calls *)

Inductive delivery := Delivered | ReplyLost | RequestLost.

#[export] Instance delivery_eq_dec : EqDecision delivery.
Proof. solve_decision. Defined.

Section calls.
Context {Ix R : Type} `{!VectorIndex Ix R}.

Abbreviation world := (gmap string (ShardService.t Ix)).

(** The reply, if the caller gets one before the deadline.  A server whose
    handler runs into undefined behaviour is gone. *)
Definition rpc {A} (d : delivery) (address : string) (f : ShardService.t Ix -> option (ShardService.t Ix * A))
    (w : world) : world * option A :=
  match w !! address, d with
  | None, _ | _, RequestLost => (w, None)
  | Some s, _ =>
    match f s with
    | None => (delete address w, None)
    | Some (s', a) => (<[address := s']> w, if bool_decide (d = Delivered) then Some a else None)
    end
  end.

(** What decides the outcome of the call to the [i]-th replica. *)
Record weather := MkWeather { wt_net : nat -> delivery; wt_draw : nat -> R }.

(** One asynchronous write per replica; [status.ok() && res.ok()] of each. *)
Fixpoint call_all (d : nat -> delivery) (f : nat -> ShardClient -> ShardService.t Ix -> option (ShardService.t Ix * bool))
    (i : nat) (replicas : list client) (w : world) : world * list bool :=
  match replicas with
  | [] => (w, [])
  | (_, sc) :: replicas =>
    let '(w, reply) := rpc (d i) (client_address sc) (f i sc) w in
    let '(w, oks) := call_all d f (S i) replicas w in
    (w, default false reply :: oks)
  end.

Record QuorumResult := MkQuorum { q_ok : bool; q_acks : N; q_needed : N }.

(** The last replica that is marked primary. *)
Fixpoint primary_idx (i : nat) (replicas : list client) : option nat :=
  match replicas with
  | [] => None
  | (_, sc) :: replicas =>
    match primary_idx (S i) replicas with
    | Some j => Some j
    | None => if is_primary sc then Some i else None
    end
  end.

Definition count_acks (oks : list bool) : N := N.of_nat (length (filter (fun b => b = true) oks)).

Definition quorum_result (replicas : list client) (oks : list bool) : QuorumResult :=
  let acks := count_acks oks in
  let primary_ok := match primary_idx 0 replicas with
                    | Some i => default false (oks !! i)
                    | None => false
                    end in
  let needed := N.of_nat (length replicas) / 2 + 1 in
  MkQuorum (primary_ok && (needed <=?? acks)) acks needed.

Definition insert_call (external_id : string) (vec : list float32) (metadata : string) (wt : weather)
    (i : nat) (sc : ShardClient) (s : ShardService.t Ix) : option (ShardService.t Ix * bool) :=
  '(s', resp) ← Insert (wt_draw wt i) (MkInsertRequest external_id vec metadata (epoch sc)) s;
  Some (s', irs_ok resp).

Definition delete_call (external_id : string) (i : nat) (sc : ShardClient) (s : ShardService.t Ix)
    : option (ShardService.t Ix * bool) :=
  let '(s', resp) := Delete (MkDeleteRequest external_id (epoch sc)) s in Some (s', drs_ok resp).

Definition quorum_insert (wt : weather) (replicas : list client) (external_id : string)
    (vec : list float32) (metadata : string) (w : world) : world * QuorumResult :=
  let '(w, oks) := call_all (wt_net wt) (insert_call external_id vec metadata wt) 0 replicas w in
  (w, quorum_result replicas oks).

Definition quorum_delete (d : nat -> delivery) (replicas : list client) (external_id : string) (w : world)
    : world * QuorumResult :=
  let '(w, oks) := call_all d (delete_call external_id) 0 replicas w in
  (w, quorum_result replicas oks).

(** [GetVector] at one replica. *)
Definition get_call (d : delivery) (external_id : string) (sc : ShardClient) (w : world) : option GetVectorResponse :=
  (rpc d (client_address sc) (fun s => Some (s, GetVector external_id s)) w).2.

(** The outcomes of the three rounds of a migration. *)
Record migration_weather := MkMigration {
  mg_get : delivery;
  mg_insert : weather;
  mg_delete : nat -> delivery;
}.

Definition migrate_one_key (mw : migration_weather) (source_primary : client)
    (source_replicas dest_replicas : list client) (external_id : string) (w : world) : world * bool :=
  match get_call (mg_get mw) external_id source_primary.2 w with
  | None => (w, false)
  | Some gres =>
    if negb (grs_ok gres) then (w, false)
    else
      let '(w, insert_result) :=
        quorum_insert (mg_insert mw) dest_replicas external_id (grs_vector gres) (grs_metadata gres) w in
      if negb (q_ok insert_result) then (w, false)
      else
        let '(w, _) := quorum_delete (mg_delete mw) source_replicas external_id w in
        (w, true)
  end.
End calls.

(** ** What calls do *)

Section call_lemmas.
Context {Ix R : Type} `{!VectorIndex Ix R}.

Lemma rpc_other {A} d a (f : ShardService.t Ix -> option (ShardService.t Ix * A)) w b :
  b <> a -> (rpc d a f w).1 !! b = w !! b.
Proof.
  intros Hb. unfold rpc. destruct (w !! a) as [s|]; [|by destruct d].
  destruct d; [|..|done]; (destruct (f s) as [[s' x]|]; cbn; [by rewrite lookup_insert_ne|by rewrite lookup_delete_ne]).
Qed.

Lemma rpc_reply {A} d a (f : ShardService.t Ix -> option (ShardService.t Ix * A)) w x :
  (rpc d a f w).2 = Some x ->
  exists s s', w !! a = Some s /\ f s = Some (s', x) /\ (rpc d a f w).1 !! a = Some s'.
Proof.
  unfold rpc. destruct (w !! a) as [s|] eqn:E; [|by destruct d]. intros H.
  destruct d; [|by destruct (f s) as [[]|]|done]. destruct (f s) as [[s' y]|] eqn:Ef; [|done].
  injection H as ->. exists s, s'. split_and!; [done..|]. apply lookup_insert_eq.
Qed.

(** The server did the work or was not reached, whatever the caller saw. *)
Lemma rpc_state {A} d a (f : ShardService.t Ix -> option (ShardService.t Ix * A)) w s s' x :
  w !! a = Some s -> f s = Some (s', x) ->
  (rpc d a f w).1 !! a = Some s' \/ (rpc d a f w).1 !! a = Some s.
Proof.
  intros E Ef. unfold rpc. rewrite E. destruct d; [| |by right]; rewrite Ef; left; apply lookup_insert_eq.
Qed.

Lemma call_all_length d f i replicas (w : gmap string (ShardService.t Ix)) :
  length (call_all d f i replicas w).2 = length replicas.
Proof.
  revert i w. induction replicas as [|[p sc] replicas IH]; intros i w; [done|]. cbn [call_all].
  destruct (rpc _ _ _ w) as [w1 reply]. specialize (IH (S i) w1).
  destruct (call_all _ _ _ _ w1) as [w2 oks]. cbn in *. by rewrite IH.
Qed.

Lemma call_all_other d f i replicas (w : gmap string (ShardService.t Ix)) b :
  b ∉ (fun p => client_address p.2) <$> replicas -> (call_all d f i replicas w).1 !! b = w !! b.
Proof.
  revert i w. induction replicas as [|[p sc] replicas IH]; intros i w Hb; [done|].
  rewrite fmap_cons, not_elem_of_cons in Hb. destruct Hb as [Hb Hbs]. cbn [call_all].
  pose proof (rpc_other (d i) (client_address sc) (f i sc) w b Hb) as Ho.
  destruct (rpc _ _ _ w) as [w1 reply]. specialize (IH (S i) w1 Hbs).
  destruct (call_all _ _ _ _ w1) as [w2 oks]. cbn in *. by rewrite IH, Ho.
Qed.

(** An acknowledgement comes from that replica's server, and the server is
    left in the state that the call put it in. *)
Lemma call_all_ack d f i replicas (w : gmap string (ShardService.t Ix)) j p sc :
  NoDup ((fun p => client_address p.2) <$> replicas) ->
  replicas !! j = Some (p, sc) -> (call_all d f i replicas w).2 !! j = Some true ->
  exists s s', w !! client_address sc = Some s /\ f (i + j)%nat sc s = Some (s', true) /\
    (call_all d f i replicas w).1 !! client_address sc = Some s'.
Proof.
  revert i w j. induction replicas as [|[p1 sc1] replicas IH]; intros i w j Hnd Hj; [done|].
  rewrite fmap_cons in Hnd. apply NoDup_cons in Hnd as [Hnin Hnd]. cbn [call_all].
  pose proof (rpc_reply (d i) (client_address sc1) (f i sc1) w true) as Hr.
  pose proof (rpc_other (d i) (client_address sc1) (f i sc1) w) as Ho.
  destruct (rpc _ _ _ w) as [w1 reply]. cbn [fst snd] in Hr, Ho.
  pose proof (call_all_other d f (S i) replicas w1 (client_address sc1) Hnin) as Hsame.
  specialize (IH (S i) w1). destruct (call_all _ _ (S i) replicas w1) as [w2 oks]. cbn [fst snd] in *.
  destruct j as [|j]; cbn [lookup list_lookup] in *.
  - injection Hj as -> ->. intros [= Hok]. destruct reply as [[]|]; try done.
    destruct (Hr eq_refl) as (s & s' & H1 & H2 & H3). exists s, s'. rewrite Nat.add_0_r, Hsame. done.
  - intros Hok. destruct (IH j Hnd Hj Hok) as (s & s' & H1 & H2 & H3). exists s, s'.
    rewrite Nat.add_succ_r. split_and!; [|done|done]. rewrite <-Ho; [done|]. intros Heq.
    apply Hnin. cbn in Heq |- *. rewrite <-Heq. apply list_elem_of_fmap. exists (p, sc). split; [done|].
    by eapply list_elem_of_lookup_2.
Qed.

Lemma primary_idx_spec i replicas j :
  primary_idx i replicas = Some j ->
  (i <= j)%nat /\ exists p sc, replicas !! (j - i)%nat = Some (p, sc) /\ is_primary sc = true.
Proof.
  revert i. induction replicas as [|[p sc] replicas IH]; intros i; [done|]. cbn [primary_idx].
  destruct (primary_idx (S i) replicas) as [k|] eqn:E.
  - intros [= ->]. destruct (IH _ E) as (Hle & p' & sc' & H1 & H2). split; [lia|]. exists p', sc'.
    replace (j - i)%nat with (S (j - S i)) by lia. done.
  - destruct (is_primary sc) eqn:Ep; [|done]. intros [= ->]. split; [lia|]. exists p, sc.
    by rewrite Nat.sub_diag.
Qed.

(** The positions that acknowledged. *)
Fixpoint acked (i : nat) (oks : list bool) : list nat :=
  match oks with
  | [] => []
  | b :: oks => if b then i :: acked (S i) oks else acked (S i) oks
  end.

Lemma count_acks_acked i oks : count_acks oks = N.of_nat (length (acked i oks)).
Proof.
  unfold count_acks. f_equal. revert i. induction oks as [|[] oks IH]; intros i; [done|..].
  - rewrite filter_cons_True by done. cbn. by rewrite (IH (S i)).
  - rewrite filter_cons_False by done. cbn. by rewrite (IH (S i)).
Qed.

Lemma elem_of_acked i oks j : j ∈ acked i oks <-> (i <= j)%nat /\ oks !! (j - i)%nat = Some true.
Proof.
  revert i. induction oks as [|b oks IH]; intros i; cbn [acked].
  { split; [by intros ?%not_elem_of_nil|]. intros [_ H]. by rewrite lookup_nil in H. }
  destruct (decide (j = i)) as [->|Hne].
  - rewrite Nat.sub_diag. cbn. destruct b; [rewrite elem_of_cons|rewrite IH]; naive_solver lia.
  - assert (j ∈ (if b then i :: acked (S i) oks else acked (S i) oks) <-> j ∈ acked (S i) oks) as ->.
    { destruct b; [rewrite elem_of_cons|]; naive_solver. }
    rewrite IH. split; intros [H1 H2]; (split; [lia|]).
    + by replace (j - i)%nat with (S (j - S i)) by lia.
    + by replace (j - i)%nat with (S (j - S i)) in H2 by lia.
Qed.

Lemma acked_NoDup i oks : NoDup (acked i oks).
Proof.
  revert i. induction oks as [|[] oks IH]; intros i; cbn; [constructor| |done].
  constructor; [|done]. rewrite elem_of_acked. lia.
Qed.

(** A successful write was acknowledged by a primary and by a majority. *)
Lemma quorum_ok replicas oks :
  length oks = length replicas -> q_ok (quorum_result replicas oks) = true ->
  (length replicas < 2 * length (acked 0 oks))%nat /\
  exists j p sc, j ∈ acked 0 oks /\ replicas !! j = Some (p, sc) /\ is_primary sc = true.
Proof.
  intros Hl. unfold quorum_result. cbn [q_ok]. rewrite andb_true_iff, bool_decide_eq_true.
  intros [Hp Hn]. rewrite (count_acks_acked 0) in Hn. split.
  - pose proof (N.div_mod (N.of_nat (length replicas)) 2 ltac:(done)).
    pose proof (N.mod_lt (N.of_nat (length replicas)) 2 ltac:(done)). lia.
  - destruct (primary_idx 0 replicas) as [j|] eqn:E; [|done].
    apply primary_idx_spec in E as (_ & p & sc & H1 & H2). rewrite Nat.sub_0_r in H1. exists j, p, sc.
    split_and!; [|done|done]. rewrite elem_of_acked, Nat.sub_0_r. split; [lia|].
    by destruct (oks !! j) as [[]|].
Qed.
End call_lemmas.

(** ** What an acknowledged quorum write means *)

Lemma positions_le (n : nat) (js : list nat) : NoDup js -> (forall j, j ∈ js -> (j < n)%nat) -> (length js <= n)%nat.
Proof.
  intros Hnd Hlt. rewrite <-(length_seq n 0). apply submseteq_length, NoDup_submseteq; [done|].
  intros j Hj. apply elem_of_seq. specialize (Hlt j Hj). lia.
Qed.

Section quorum.
Context {Ix R : Type} `{!VectorIndex Ix R, !VectorIndexLaws Ix R}.

Abbreviation world := (gmap string (ShardService.t Ix)).

Lemma Insert_acked r req (s s' : ShardService.t Ix) resp :
  service_wf s -> vi_draw_ok r -> IdMapStore.size (id_map_ s) < vi_limit -> strlen (ir_external_id req) < U32 ->
  Insert r req s = Some (s', resp) -> irs_ok resp = true ->
  service_wf s' /\ current_epoch_ s <= ir_epoch req /\ current_epoch_ s' = ir_epoch req /\
  exists meta, GetVector (ir_external_id req) s' = MkGetVectorResponse true (ir_vector req) meta "" /\
    (ir_metadata req <> "" -> meta = ir_metadata req).
Proof.
  intros Hw Hr Hsz Hx HI Hok.
  assert (length (ir_vector req) = VECTOR_DIM /\ current_epoch_ s <= ir_epoch req) as [Hv He].
  { unfold Insert in HI. case_decide as Hd; [by injection HI as <- <-|].
    destruct (check_epoch_cases (ir_epoch req) (current_epoch_ s)) as [[_ E]|[Hle E]]; rewrite E in HI;
      [by injection HI as <- <-|]. split; [|done]. destruct (decide (length (ir_vector req) = VECTOR_DIM)); [done|].
    by destruct Hd. }
  destruct (Insert_spec r req s Hw Hr Hv He Hsz Hx) as (s2 & meta & E & Hw' & He' & Hg & Hm & _).
  rewrite E in HI. injection HI as <- <-. split_and!; [done..|]. by exists meta.
Qed.

(** Servers are consistent and have room for another id. *)
Definition world_wf (w : world) : Prop :=
  forall a s, w !! a = Some s -> service_wf s /\ IdMapStore.size (id_map_ s) < vi_limit.

(** The server of a replica holds the vector. *)
Definition holds (w : world) (sc : ShardClient) (external_id : string) (vec : list float32) (metadata : string) : Prop :=
  exists s meta, w !! client_address sc = Some s /\
    GetVector external_id s = MkGetVectorResponse true vec meta "" /\ (metadata <> "" -> meta = metadata).

(** More than half of the replicas, a primary among them, hold the vector. *)
Definition majority_holds (w : world) (replicas : list client) (external_id : string) (vec : list float32)
    (metadata : string) : Prop :=
  exists js, NoDup js /\ (length replicas < 2 * length js)%nat /\
    (exists j p sc, j ∈ js /\ replicas !! j = Some (p, sc) /\ is_primary sc = true) /\
    forall j, j ∈ js -> exists p sc, replicas !! j = Some (p, sc) /\ holds w sc external_id vec metadata.

Lemma quorum_insert_holds wt replicas external_id vec metadata (w : world) :
  NoDup ((fun p => client_address p.2) <$> replicas) -> world_wf w ->
  (forall i, vi_draw_ok (wt_draw wt i)) -> strlen external_id < U32 ->
  q_ok (quorum_insert wt replicas external_id vec metadata w).2 = true ->
  majority_holds (quorum_insert wt replicas external_id vec metadata w).1 replicas external_id vec metadata.
Proof.
  intros Hnd Hw Hr Hx. unfold quorum_insert.
  pose proof (call_all_length (wt_net wt) (insert_call external_id vec metadata wt) 0 replicas w) as Hl.
  pose proof (call_all_ack (wt_net wt) (insert_call external_id vec metadata wt) 0 replicas w) as Hack.
  destruct (call_all _ _ 0 replicas w) as [w' oks]. cbn [fst snd] in *. intros Hok.
  destruct (quorum_ok replicas oks Hl Hok) as [Hmaj Hprim]. exists (acked 0 oks).
  split_and!; [apply acked_NoDup|done|done|]. intros j Hj. apply elem_of_acked in Hj as [_ Hj].
  rewrite Nat.sub_0_r in Hj.
  destruct (lookup_lt_is_Some_2 replicas j) as [[p sc] Hsc]; [rewrite <-Hl; by eapply lookup_lt_Some|].
  exists p, sc. split; [done|]. destruct (Hack j p sc Hnd Hsc Hj) as (s & s' & H1 & H2 & H3).
  unfold insert_call in H2. destruct (Insert _ _ s) as [[s2 resp]|] eqn:EI; [|done].
  cbn [mbind option_bind] in H2. injection H2 as -> Hresp. destruct (Hw _ _ H1) as [Hws Hsz].
  destruct (Insert_acked _ (MkInsertRequest external_id vec metadata (epoch sc)) _ _ _ Hws (Hr _) Hsz Hx EI Hresp) as (_ & _ & He & meta & Hg & Hm).
  by exists s', meta.
Qed.

(** A successful insert is durable.  When [quorum_insert] reports success,
    whatever the network did, more than half of the replicas, a primary among
    them, hold the vector and return it with its metadata. *)
Theorem quorum_insert_durable wt replicas external_id vec metadata (w : world) :
  NoDup ((fun p => client_address p.2) <$> replicas) -> world_wf w ->
  (forall i, vi_draw_ok (wt_draw wt i)) -> strlen external_id < U32 ->
  q_ok (quorum_insert wt replicas external_id vec metadata w).2 = true ->
  majority_holds (quorum_insert wt replicas external_id vec metadata w).1 replicas external_id vec metadata.
Proof. apply quorum_insert_holds. Qed.

(** ** Fencing a deposed coordinator *)

(** A write behind the server's epoch is refused. *)
Lemma insert_call_stale external_id vec metadata wt i sc (s : ShardService.t Ix) :
  epoch sc < current_epoch_ s -> insert_call external_id vec metadata wt i sc s = Some (s, false).
Proof.
  intros He. unfold insert_call, Insert. case_decide; [done|]. cbn [ir_epoch].
  destruct (check_epoch_cases (epoch sc) (current_epoch_ s)) as [[_ ->]|[? _]]; [done|lia].
Qed.

Lemma delete_call_stale external_id i sc (s : ShardService.t Ix) :
  epoch sc < current_epoch_ s -> delete_call external_id i sc s = Some (s, false).
Proof.
  intros He. unfold delete_call, Delete. cbn [dr_epoch].
  destruct (check_epoch_cases (epoch sc) (current_epoch_ s)) as [[_ ->]|[? _]]; [done|lia].
Qed.

(** Calls that half of the servers refuse do not make a quorum. *)
Lemma refused_quorum d f replicas (w : world) js :
  NoDup ((fun p => client_address p.2) <$> replicas) -> NoDup js ->
  (length replicas <= 2 * length js)%nat ->
  (forall j, j ∈ js -> exists p sc s, replicas !! j = Some (p, sc) /\
     w !! client_address sc = Some s /\ f j sc s = Some (s, false)) ->
  q_ok (quorum_result replicas (call_all d f 0 replicas w).2) = false.
Proof.
  intros Hnd Hjs Hlen Href. pose proof (call_all_length d f 0 replicas w) as Hl.
  pose proof (call_all_ack d f 0 replicas w) as Hack.
  destruct (call_all d f 0 replicas w) as [w' oks]. cbn [fst snd] in *.
  destruct (q_ok _) eqn:Hok; [|done]. exfalso. destruct (quorum_ok replicas oks Hl Hok) as [Hmaj _].
  assert (length (js ++ acked 0 oks) <= length replicas)%nat as Hle; [|rewrite length_app in Hle; lia].
  apply positions_le.
  - apply NoDup_app. split_and!; [done| |apply acked_NoDup]. intros j Hj Ha.
    apply elem_of_acked in Ha as [_ Ha]. rewrite Nat.sub_0_r in Ha.
    destruct (Href j Hj) as (p & sc & s & H1 & H2 & H3).
    destruct (Hack j p sc Hnd H1 Ha) as (s1 & s2 & H4 & H5 & _). cbn in H5. congruence.
  - intros j [Hj|Hj]%elem_of_app.
    + destruct (Href j Hj) as (p & sc & s & H1 & _). by eapply lookup_lt_Some.
    + apply elem_of_acked in Hj as [_ Hj]. rewrite Nat.sub_0_r in Hj. rewrite <-Hl. by eapply lookup_lt_Some.
Qed.

Lemma replicas_for_shard_elem pool sid p : p ∈ replicas_for_shard pool sid -> p ∈ pool /\ cl_shard_id p.2 = sid.
Proof.
  unfold replicas_for_shard. rewrite elem_of_app, !list_elem_of_filter. tauto.
Qed.

Lemma live_pool_elem c p : p ∈ live_pool c -> p.2 ∈ g_shards c /\ active p.2 = true.
Proof.
  unfold live_pool. rewrite list_elem_of_filter. intros [Ha Hin]. split; [|done].
  apply elem_of_lookup_imap in Hin as (i & sc & -> & Hi). by eapply list_elem_of_lookup_2.
Qed.

(** C12: A deposed coordinator cannot complete a write.  A coordinator that has
    applied the first [length cmds] commands of the log writes to a shard of
    which at least half of the replica servers have already accepted a write
    of a later epoch, one that a command it has not seen has started.
    Whatever the network does, neither its insert nor its delete reports
    success.  The epochs are those that the servers have in memory when the
    write arrives: a server that restarts begins at 0 again. *)
Theorem deposed_coordinator_cannot_write eps cmds shard_id js wt d external_id vec metadata (w : world) :
  let c := apply_commands 0 0 cmds (start eps 0) in
  let replicas := replicas_for_shard (live_pool c) shard_id in
  N.of_nat (length cmds) < U64 ->
  NoDup ((fun p => client_address p.2) <$> replicas) -> NoDup js ->
  (length replicas <= 2 * length js)%nat ->
  (forall j, j ∈ js -> exists p sc s, replicas !! j = Some (p, sc) /\
     w !! client_address sc = Some s /\ N.of_nat (length cmds) < current_epoch_ s) ->
  q_ok (quorum_insert wt replicas external_id vec metadata w).2 = false /\
  q_ok (quorum_delete d replicas external_id w).2 = false.
Proof.
  intros c replicas Hb Hnd Hjs Hlen Hahead.
  assert (epochs_at_most (N.of_nat (length cmds)) c) as Hep.
  { apply apply_commands_epochs; [apply start_epochs|lia|done]. }
  assert (forall j, j ∈ js -> exists p sc s, replicas !! j = Some (p, sc) /\
    w !! client_address sc = Some s /\ epoch sc < current_epoch_ s) as Hstale.
  { intros j Hj. destruct (Hahead j Hj) as (p & sc & s & H1 & H2 & H3). exists p, sc, s.
    split_and!; [done|done|]. apply list_elem_of_lookup_2 in H1.
    apply replicas_for_shard_elem in H1 as [H1 _]. apply live_pool_elem in H1 as [H1 _].
    unfold epochs_at_most in Hep. rewrite Forall_forall in Hep. specialize (Hep sc H1). cbn in Hep. lia. }
  unfold quorum_insert, quorum_delete. split.
  - pose proof (refused_quorum (wt_net wt) (insert_call external_id vec metadata wt) replicas w js Hnd Hjs Hlen) as Hq.
    destruct (call_all _ _ 0 replicas w) as [w' oks]. cbn [snd] in *. apply Hq. intros j Hj.
    destruct (Hstale j Hj) as (p & sc & s & H1 & H2 & H3). exists p, sc, s.
    split_and!; [done|done|]. by apply insert_call_stale.
  - pose proof (refused_quorum d (delete_call external_id) replicas w js Hnd Hjs Hlen) as Hq.
    destruct (call_all _ _ 0 replicas w) as [w' oks]. cbn [snd] in *. apply Hq. intros j Hj.
    destruct (Hstale j Hj) as (p & sc & s & H1 & H2 & H3). exists p, sc, s.
    split_and!; [done|done|]. by apply delete_call_stale.
Qed.

(** ** Migration *)

Lemma get_call_reply d external_id sc (w : world) gres :
  get_call d external_id sc w = Some gres ->
  exists s, w !! client_address sc = Some s /\ gres = GetVector external_id s.
Proof.
  unfold get_call. intros H. apply rpc_reply in H as (s & s' & H1 & H2 & _). exists s. by injection H2.
Qed.

Lemma majority_holds_frame (w w' : world) replicas external_id vec metadata :
  (forall p, p ∈ replicas -> w' !! client_address p.2 = w !! client_address p.2) ->
  majority_holds w replicas external_id vec metadata -> majority_holds w' replicas external_id vec metadata.
Proof.
  intros Hf (js & H1 & H2 & H3 & H4). exists js. split_and!; [done..|]. intros j Hj.
  destruct (H4 j Hj) as (p & sc & Hsc & s & meta & Hs & Hrest). exists p, sc. split; [done|].
  exists s, meta. apply list_elem_of_lookup_2 in Hsc. specialize (Hf _ Hsc). cbn [snd] in Hf. by rewrite Hf.
Qed.

Lemma migrate_one_key_safe mw source source_replicas dest_replicas external_id (s : ShardService.t Ix)
    vec metadata (w : world) :
  NoDup ((fun p => client_address p.2) <$> dest_replicas) -> world_wf w ->
  (forall i, vi_draw_ok (wt_draw (mg_insert mw) i)) -> strlen external_id < U32 ->
  (forall p q, p ∈ source_replicas -> q ∈ dest_replicas -> client_address p.2 <> client_address q.2) ->
  w !! client_address source.2 = Some s ->
  GetVector external_id s = MkGetVectorResponse true vec metadata "" ->
  let '(w', ok) := migrate_one_key mw source source_replicas dest_replicas external_id w in
  (ok = true -> majority_holds w' dest_replicas external_id vec metadata) /\
  (ok = false -> forall p, p ∈ source_replicas -> w' !! client_address p.2 = w !! client_address p.2).
Proof.
  intros Hnd Hw Hr Hx Hdis Hs Hg. unfold migrate_one_key.
  destruct (get_call (mg_get mw) external_id source.2 w) as [gres|] eqn:E; [|done].
  apply get_call_reply in E as (s0 & Hs0 & ->). rewrite Hs in Hs0. injection Hs0 as <-. rewrite Hg.
  cbn [grs_ok negb grs_vector grs_metadata].
  pose proof (quorum_insert_holds (mg_insert mw) dest_replicas external_id vec metadata w Hnd Hw Hr Hx) as Hq.
  assert (forall p, p ∈ source_replicas -> (quorum_insert (mg_insert mw) dest_replicas external_id vec metadata w).1
    !! client_address p.2 = w !! client_address p.2) as Hsrc.
  { intros p Hp. unfold quorum_insert. pose proof (call_all_other (wt_net (mg_insert mw))
      (insert_call external_id vec metadata (mg_insert mw)) 0 dest_replicas w (client_address p.2)) as Ho.
    destruct (call_all _ _ 0 dest_replicas w) as [w1 oks]. cbn [fst] in *. apply Ho.
    intros (q & Heq & Hq')%list_elem_of_fmap. by eapply Hdis. }
  destruct (quorum_insert _ _ _ _ _ w) as [w1 q]. cbn [fst snd] in *.
  destruct (q_ok q); [|by split]. cbn [negb].
  unfold quorum_delete. pose proof (call_all_other (mg_delete mw) (delete_call external_id) 0 source_replicas w1) as Ho.
  destruct (call_all _ _ 0 source_replicas w1) as [w2 oks]. cbn [fst] in *. split; [|done]. intros _.
  apply (majority_holds_frame w1); [|by apply Hq]. intros p Hp. apply Ho.
  intros (q' & Heq & Hq')%list_elem_of_fmap. by eapply (Hdis q' p).
Qed.

(** Migration never loses a key.  Source and destination replicas run at
    different addresses and the source primary's server [s] has the vector.
    If [migrate_one_key] reports success, a majority of the destination,
    primary included, holds the same vector and metadata; if it does not, no
    server of the source has changed. *)
Theorem migration_keeps_the_vector mw source source_replicas dest_replicas external_id (s : ShardService.t Ix)
    vec metadata (w : world) :
  NoDup ((fun p => client_address p.2) <$> dest_replicas) -> world_wf w ->
  (forall i, vi_draw_ok (wt_draw (mg_insert mw) i)) -> strlen external_id < U32 ->
  (forall p q, p ∈ source_replicas -> q ∈ dest_replicas -> client_address p.2 <> client_address q.2) ->
  w !! client_address source.2 = Some s ->
  GetVector external_id s = MkGetVectorResponse true vec metadata "" ->
  let '(w', ok) := migrate_one_key mw source source_replicas dest_replicas external_id w in
  (ok = true -> majority_holds w' dest_replicas external_id vec metadata) /\
  (ok = false -> forall p, p ∈ source_replicas -> w' !! client_address p.2 = w !! client_address p.2).
Proof. apply migrate_one_key_safe. Qed.
End quorum.

(** ** Witnesses *)

Import FlatIndex.

Definition rep (i : nat) (sid : Z) (host : string) (primary : bool) : client :=
  (i, MkClient sid (Z.of_nat i) host 1 true primary 7).

Definition trio : list client := [rep 0 0 "a" true; rep 1 0 "b" false; rep 2 0 "c" false].

Definition trio_world : gmap string (ShardService.t FlatIndex.t) :=
  <["a:1" := fresh_shard]> (<["b:1" := fresh_shard]> {["c:1" := fresh_shard]}).

(** The request to [c] is lost. *)
Definition fair : weather := MkWeather (R := unit) (fun i => if bool_decide (i = 2%nat) then RequestLost else Delivered) (fun _ => tt).

Lemma trio_distinct : NoDup ((fun p => client_address p.2) <$> trio).
Proof.
  assert (bool_decide (NoDup ((fun p => client_address p.2) <$> trio)) = true) as H by (vm_compute; reflexivity).
  by apply bool_decide_eq_true in H.
Qed.

Lemma trio_world_wf : world_wf trio_world.
Proof.
  intros a s Ha. assert (s = fresh_shard) as ->; [|split; [apply fresh_shard_wf|done]].
  unfold trio_world in Ha. rewrite !lookup_insert_Some, lookup_singleton_Some in Ha. intuition congruence.
Qed.

Lemma quorum_insert_durable_witness :
  majority_holds (quorum_insert fair trio "key" unit_vector "tag" trio_world).1 trio "key" unit_vector "tag".
Proof.
  apply (quorum_insert_durable fair trio "key" unit_vector "tag" trio_world).
  - apply trio_distinct.
  - apply trio_world_wf.
  - done.
  - done.
  - vm_compute. reflexivity.
Defined.

Definition late_shard : ShardService.t FlatIndex.t := ShardService.with_epoch 1 fresh_shard.

Lemma deposed_coordinator_cannot_write_witness :
  q_ok (quorum_insert fair (replicas_for_shard (live_pool (start two_shards 0)) 0) "key" unit_vector "tag"
          {["a:9090" := late_shard]}).2 = false.
Proof.
  refine (proj1 (deposed_coordinator_cannot_write two_shards [] 0 [0%nat] fair (fun _ => Delivered) "key" unit_vector
            "tag" {["a:9090" := late_shard]} _ _ _ _ _)).
  - done.
  - apply NoDup_singleton.
  - apply NoDup_singleton.
  - apply Nat.leb_le. reflexivity.
  - intros j ->%list_elem_of_singleton. exists 0%nat, (make_shard_client 0 0 "a" 9090 true), late_shard.
    split_and!; [reflexivity|reflexivity|reflexivity].
Defined.

Definition lone_source : client := rep 3 1 "s" true.

Definition source_shard : ShardService.t FlatIndex.t := one_key_shard.

Lemma migration_keeps_the_vector_witness :
  let w := <["s:1" := source_shard]> trio_world in
  let '(w', ok) := migrate_one_key (MkMigration Delivered fair (fun _ => Delivered)) lone_source [lone_source] trio "key" w in
  ok = true /\ majority_holds w' trio "key" unit_vector "tag".
Proof.
  intros w. pose proof (migration_keeps_the_vector (MkMigration Delivered fair (fun _ => Delivered)) lone_source
    [lone_source] trio "key" source_shard unit_vector "tag" w) as H.
  destruct (migrate_one_key _ _ _ _ _ _) as [w' ok] eqn:E.
  assert (ok = true) as -> by (assert (ok = (w', ok).2) as -> by done; rewrite <-E; vm_compute; reflexivity).
  split; [reflexivity|]. apply H.
  - apply trio_distinct.
  - intros a s Ha. unfold w in Ha. apply lookup_insert_Some in Ha as [[_ <-]|[_ Ha]]; [|by eapply trio_world_wf].
    split; [apply one_key_shard_wf|reflexivity].
  - done.
  - done.
  - intros p q ->%list_elem_of_singleton Hq. unfold trio in Hq. rewrite !elem_of_cons in Hq.
    destruct Hq as [->|[->|[->|Hq]]]; [done..|]. by apply not_elem_of_nil in Hq.
  - reflexivity.
  - vm_compute. reflexivity.
  - reflexivity.
Defined.
