(* ===== verification/ReadPath.v ===== *)
(** * Scatter-gather search ([src/cluster/coordinator_main.cpp], [POST /search])

    Which replica answers for each shard, the merge of the answers by
    distance, and the deduplication that keeps the best [k].  [std::sort] is
    a parameter of the merge: any function that returns a sorted permutation. *)

From S2P Require Import Prelude Float32 IndexTypes Json JsonDump JsonRoundtrip Storage RaftState RaftLog RaftNode HashRing.
From S2P Require Import IdMapStore ShardService ClusterConfig Topology Quorum.
Import ShardService.

(** ** Read targets *)

(** The choice among the live replicas of one shard. *)
Definition choose_target (consistency : string) (replicas : list client) : option client :=
  if consistency =?? "strong" then last (filter (fun p => is_primary p.2 = true) replicas)
  else
    match snd <$> list_find (fun p => is_primary p.2 = false) replicas with
    | Some p => Some p
    | None => head replicas
    end.

Definition pool_ids (pool : list client) : list Z := int_set ((fun p => cl_shard_id p.2) <$> pool).

(** The members of [by_shard[shard_id]], in pool order. *)
Definition shard_members (pool : list client) (shard_id : Z) : list client :=
  filter (fun p => cl_shard_id p.2 = shard_id) pool.

Definition select_read_targets (pool : list client) (consistency : string) : list client :=
  omap (fun shard_id => choose_target consistency (shard_members pool shard_id)) (pool_ids pool).

(** ** Merge *)

(** The answers in the order of the targets; a call without an answer, and an
    answer that is not [ok], make the shard unavailable. *)
Fixpoint gather (answers : list (Z * option SearchResponse)) : list SearchResult * list Z :=
  match answers with
  | [] => ([], [])
  | (shard_id, answer) :: answers =>
    let '(merged, unavailable) := gather answers in
    match answer with
    | Some res => if srs_ok res then (srs_results res ++ merged, unavailable)
                  else (merged, shard_id :: unavailable)
    | None => (merged, shard_id :: unavailable)
    end
  end.

(** The loop that keeps the first occurrence of each id until there are
    [limit] of them; [n] is the size so far. *)
Fixpoint dedupe (limit : N) (merged : list SearchResult) (seen : gset string) (n : N) : list SearchResult :=
  match merged with
  | [] => []
  | r :: merged =>
    if bool_decide (sres_external_id r ∈ seen) then dedupe limit merged seen n
    else r :: (if limit <=?? n + 1 then []
               else dedupe limit merged ({[sres_external_id r]} ∪ seen) (n + 1))
  end.

(** [(size_t)k]. *)
Definition size_t_of_int (k : Z) : N := Z.to_N (k mod 18446744073709551616)%Z.

Record SearchReply := MkSearchReply {
  rp_results : list SearchResult;
  rp_consistency : string;
  rp_unavailable_shards : list Z;
}.

(** ["degraded"] is set when some shard is listed as unavailable. *)
Definition degraded (r : SearchReply) : bool := match rp_unavailable_shards r with [] => false | _ => true end.

Section search.
Context {Ix R : Type} `{!VectorIndex Ix R, !VectorSearch Ix}.
Variable std_sort : list SearchResult -> list SearchResult.

Definition merge_results (k : Z) (consistency : string) (answers : list (Z * option SearchResponse)) : SearchReply :=
  let '(merged, unavailable) := gather answers in
  MkSearchReply (dedupe (size_t_of_int k) (std_sort merged) ∅ 0) consistency unavailable.

(** One call per target; a search does not change a server. *)
Fixpoint search_all (d : nat -> delivery) (req : SearchRequest) (i : nat) (targets : list client)
    (w : gmap string (ShardService.t Ix)) : list (Z * option SearchResponse) :=
  match targets with
  | [] => []
  | (_, sc) :: targets =>
    (cl_shard_id sc, (rpc (d i) (client_address sc) (fun s => (fun r => (s, r)) <$> Search req s) w).2)
    :: search_all d req (S i) targets w
  end.

(** The handler after the body has been read. *)
Definition scatter_gather (d : nat -> delivery) (c : coordinator) (vec : list float32) (k : Z)
    (consistency : string) (w : gmap string (ShardService.t Ix)) : SearchReply :=
  let targets := select_read_targets (live_pool c) consistency in
  merge_results k consistency (search_all d (MkSearchRequest vec k) 0 targets w).
End search.

(** ** The targets *)

Lemma choose_target_elem consistency replicas p :
  choose_target consistency replicas = Some p ->
  p ∈ replicas /\ (consistency = "strong" -> is_primary p.2 = true).
Proof.
  unfold choose_target. case_bool_decide as Hc.
  - intros H. apply last_Some_elem_of, list_elem_of_filter in H. tauto.
  - destruct (list_find _ replicas) as [[i q]|] eqn:E; cbn.
    + intros [= ->]. apply list_find_Some in E as (Hi & _). split; [by eapply list_elem_of_lookup_2|done].
    + intros H. split; [by apply head_Some_elem_of|done].
Qed.

Lemma elem_of_pool_ids pool sid : sid ∈ pool_ids pool <-> exists p, p ∈ pool /\ cl_shard_id p.2 = sid.
Proof. unfold pool_ids. rewrite elem_of_int_set, list_elem_of_fmap. naive_solver. Qed.

(** Shards in ascending order, at most one target each. *)
Lemma select_targets_ids pool consistency :
  (fun p => cl_shard_id p.2) <$> select_read_targets pool consistency =
  filter (fun sid => is_Some (choose_target consistency (shard_members pool sid))) (pool_ids pool).
Proof.
  unfold select_read_targets. induction (pool_ids pool) as [|sid ids IH]; [done|]. cbn [omap list_omap].
  rewrite filter_cons. destruct (choose_target consistency (shard_members pool sid)) as [p|] eqn:E.
  - rewrite decide_True by (by eexists). rewrite fmap_cons, IH. f_equal.
    apply choose_target_elem in E as [E _]. unfold shard_members in E. by apply list_elem_of_filter in E as [E _].
  - rewrite decide_False by (intros [? ?]; done). exact IH.
Qed.

Lemma choose_eventual consistency replicas :
  consistency <> "strong" -> replicas <> [] -> is_Some (choose_target consistency replicas).
Proof.
  intros Hc Hne. unfold choose_target. rewrite bool_decide_eq_false_2 by done.
  destruct (list_find _ replicas) as [[i p]|]; cbn; [by eexists|]. by destruct replicas.
Qed.

Lemma choose_strong replicas :
  is_Some (choose_target "strong" replicas) <-> exists p, p ∈ replicas /\ is_primary p.2 = true.
Proof.
  unfold choose_target. rewrite bool_decide_eq_true_2 by done. rewrite last_is_Some. split.
  - intros Hne. destruct (filter _ replicas) as [|p l] eqn:E; [done|]. exists p.
    assert (p ∈ filter (fun p : client => is_primary p.2 = true) replicas) as Hin by (rewrite E; apply list_elem_of_here).
    apply list_elem_of_filter in Hin. tauto.
  - intros (p & Hp & Hprim) Hnil.
    assert (p ∈ filter (fun p : client => is_primary p.2 = true) replicas) as Hin by (by apply list_elem_of_filter).
    rewrite Hnil in Hin. by apply not_elem_of_nil in Hin.
Qed.

Lemma list_filter_all {A} (P : A -> Prop) `{!forall x, Decision (P x)} l : Forall P l -> filter P l = l.
Proof. induction 1 as [|x l Hx _ IH]; [done|]. by rewrite filter_cons_True, IH. Qed.

Lemma pool_ids_NoDup pool : NoDup (pool_ids pool).
Proof. unfold pool_ids, int_set. rewrite merge_sort_Permutation. apply NoDup_remove_dups. Qed.

(** Read targets.  Every shard is asked at most once, and at a live
    replica.  With eventual consistency every shard that has a live replica
    is asked, in ascending order of shard ids; with strong consistency exactly
    the shards that have a live primary are asked, each at such a primary. *)
Theorem read_targets_spec pool consistency :
  let targets := select_read_targets pool consistency in
  let asked := (fun p => cl_shard_id p.2) <$> targets in
  NoDup asked /\ (forall p, p ∈ targets -> p ∈ pool) /\
  (consistency <> "strong" -> asked = pool_ids pool) /\
  (consistency = "strong" -> (forall p, p ∈ targets -> is_primary p.2 = true) /\
     forall sid, sid ∈ asked <-> exists p, p ∈ pool /\ cl_shard_id p.2 = sid /\ is_primary p.2 = true).
Proof.
  intros targets asked. unfold asked, targets. rewrite select_targets_ids.
  assert (forall p, p ∈ select_read_targets pool consistency ->
    p ∈ pool /\ (consistency = "strong" -> is_primary p.2 = true)) as Helem.
  { intros p Hp. apply list_elem_of_omap in Hp as (sid & _ & Hp).
    apply choose_target_elem in Hp as [Hp ?]. unfold shard_members in Hp. apply list_elem_of_filter in Hp. tauto. }
  split_and!.
  - apply NoDup_filter, pool_ids_NoDup.
  - intros p Hp. by apply Helem.
  - intros Hc. apply list_filter_all. apply Forall_forall. intros sid Hsid.
    apply elem_of_pool_ids in Hsid as (p & Hp & Hid). apply choose_eventual; [done|].
    intros Hnil. assert (p ∈ shard_members pool sid) as Hin by (by apply list_elem_of_filter).
    rewrite Hnil in Hin. by apply not_elem_of_nil in Hin.
  - intros ->. split; [intros p Hp; by apply Helem|]. intros sid.
    rewrite list_elem_of_filter, choose_strong, elem_of_pool_ids. unfold shard_members.
    setoid_rewrite list_elem_of_filter. naive_solver.
Qed.

(** ** Merged results *)

Definition not_nan (r : SearchResult) : Prop := is_nan (sres_distance r) = false.

(** [a] may come before [b] in ascending order of distance. *)
Definition dist_le (a b : SearchResult) : Prop := fltb (sres_distance b) (sres_distance a) = false.

Lemma dedupe_sublist limit l seen n : dedupe limit l seen n `sublist_of` l.
Proof.
  revert seen n. induction l as [|r l IH]; intros seen n; cbn [dedupe]; [done|].
  case_bool_decide; [by apply sublist_cons|]. apply sublist_skip. case_bool_decide; [apply sublist_nil_l|apply IH].
Qed.

Lemma dedupe_fresh limit l seen n r : r ∈ dedupe limit l seen n -> sres_external_id r ∉ seen.
Proof.
  revert seen n. induction l as [|x l IH]; intros seen n; cbn [dedupe]; [by intros ?%not_elem_of_nil|].
  case_bool_decide as Hx; [by apply IH|]. rewrite elem_of_cons. intros [->|H]; [done|].
  case_bool_decide; [by apply not_elem_of_nil in H|]. apply IH in H. intros Hs. apply H.
  by apply elem_of_union_r.
Qed.

Lemma dedupe_NoDup limit l seen n : NoDup (sres_external_id <$> dedupe limit l seen n).
Proof.
  revert seen n. induction l as [|x l IH]; intros seen n; cbn [dedupe]; [constructor|].
  case_bool_decide as Hx; [by apply IH|]. rewrite fmap_cons. case_bool_decide.
  - apply NoDup_singleton.
  - apply NoDup_cons. split; [|apply IH]. intros (r & Heq & Hr)%list_elem_of_fmap.
    apply dedupe_fresh in Hr. apply Hr. rewrite <-Heq. apply elem_of_union_l, elem_of_singleton_2. done.
Qed.

Lemma dedupe_length limit l seen n :
  n < limit -> N.of_nat (length (dedupe limit l seen n)) + n <= limit.
Proof.
  revert seen n. induction l as [|x l IH]; intros seen n Hn; cbn [dedupe]; [cbn; lia|].
  case_bool_decide; [by apply IH|]. cbn [length]. case_bool_decide as Hl; [cbn; lia|].
  pose proof (IH ({[sres_external_id x]} ∪ seen) (n + 1) ltac:(lia)). lia.
Qed.

(** Every id is kept unless the limit was reached, and then nothing left out
    is nearer than what was kept. *)
Lemma dedupe_best limit l seen n :
  n < limit -> StronglySorted dist_le l -> Forall not_nan l ->
  forall r, r ∈ l -> sres_external_id r ∉ seen ->
    (exists o, o ∈ dedupe limit l seen n /\ sres_external_id o = sres_external_id r /\ dist_le o r) \/
    (N.of_nat (length (dedupe limit l seen n)) + n = limit /\
     forall o, o ∈ dedupe limit l seen n -> dist_le o r).
Proof.
  revert seen n. induction l as [|x l IH]; intros seen n Hn Hs Hnan r Hr Hseen; [by apply not_elem_of_nil in Hr|].
  apply StronglySorted_inv in Hs as [Hs Hx]. inversion_clear Hnan as [|? ? Hx0 Hl].
  rewrite Forall_forall in Hx. apply elem_of_cons in Hr. cbn [dedupe].
  case_bool_decide as Hin.
  { destruct Hr as [->|Hr]; [done|]. by apply IH. }
  assert (dist_le x x) as Hrefl by (by apply (swo_irrefl (P := fun x => is_nan x = false))).
  destruct (decide (sres_external_id r = sres_external_id x)) as [Heq|Hne].
  { left. exists x. split_and!; [apply list_elem_of_here|done|]. destruct Hr as [->|Hr]; [done|by apply Hx]. }
  destruct Hr as [->|Hr]; [done|]. case_bool_decide as Hlim.
  { right. cbn. split; [lia|]. intros o ->%list_elem_of_singleton. by apply Hx. }
  destruct (IH ({[sres_external_id x]} ∪ seen) (n + 1) ltac:(lia) Hs Hl r Hr) as [(o & Ho & Hid & Hle)|[Hlen Hall]].
  - rewrite elem_of_union, elem_of_singleton. tauto.
  - left. exists o. split_and!; [by apply list_elem_of_further|done|done].
  - right. cbn [length]. split; [lia|]. intros o [->|Ho]%elem_of_cons; [by apply Hx|by apply Hall].
Qed.

Lemma sublist_sorted {A} (R : A -> A -> Prop) l k : l `sublist_of` k -> StronglySorted R k -> StronglySorted R l.
Proof.
  induction 1 as [|x l k Hs IH|x l k Hs IH]; intros Hk; [constructor|..]; apply StronglySorted_inv in Hk as [Hk Hx].
  - constructor; [by apply IH|]. rewrite Forall_forall in *. intros y Hy. apply Hx. by eapply elem_of_sublist.
  - by apply IH.
Qed.

Section merge.
Variable std_sort : list SearchResult -> list SearchResult.
Hypothesis std_sort_permutation : forall l, Forall not_nan l -> std_sort l ≡ₚ l.
Hypothesis std_sort_sorted : forall l, Forall not_nan l -> StronglySorted dist_le (std_sort l).

(** C26: The search answer is the best [k].  For [k] at least 1 and distances
    that are numbers, the results are in ascending order of distance, with
    distinct ids, at most [k] of them, all taken from the shards' answers; an
    answer whose id is missing is no nearer than any result, and then there
    are [k] results; each result carries the smallest distance of its id. *)
Theorem search_results_are_best k consistency answers :
  (1 <= k < 2147483648)%Z -> Forall not_nan (gather answers).1 ->
  let out := rp_results (merge_results std_sort k consistency answers) in
  StronglySorted dist_le out /\ NoDup (sres_external_id <$> out) /\ (Z.of_nat (length out) <= k)%Z /\
  (forall r, r ∈ out -> r ∈ (gather answers).1) /\
  (forall r, r ∈ (gather answers).1 ->
     (exists o, o ∈ out /\ sres_external_id o = sres_external_id r /\ dist_le o r) \/
     (Z.of_nat (length out) = k /\ forall o, o ∈ out -> dist_le o r)).
Proof.
  intros Hk Hnan out. unfold out, merge_results. destruct (gather answers) as [merged unavailable].
  cbn [fst] in *. cbn [rp_results]. set (limit := size_t_of_int k).
  assert (limit = Z.to_N k) as Hlim by (unfold limit, size_t_of_int; rewrite Z.mod_small by lia; done).
  pose proof (std_sort_permutation _ Hnan) as Hperm. pose proof (std_sort_sorted _ Hnan) as Hsorted.
  pose proof (dedupe_sublist limit (std_sort merged) ∅ 0) as Hsub.
  pose proof (dedupe_length limit (std_sort merged) ∅ 0 ltac:(lia)) as Hlen.
  split_and!.
  - by eapply sublist_sorted.
  - apply dedupe_NoDup.
  - lia.
  - intros r Hr. rewrite <-Hperm. by eapply elem_of_sublist.
  - intros r Hr. rewrite <-Hperm in Hr, Hnan.
    destruct (dedupe_best limit (std_sort merged) ∅ 0 ltac:(lia) Hsorted Hnan r Hr) as [H|[Hl H]];
      [apply not_elem_of_empty|by left|]. right. split; [lia|done].
Qed.
End merge.

(** ** A merge sort is a conforming [std::sort] *)

#[export] Instance dist_le_dec : RelDecision dist_le.
Proof. intros a b. unfold dist_le. apply _. Defined.

#[export] Instance dist_le_total : Total dist_le.
Proof.
  intros a b. unfold dist_le. destruct (fltb (sres_distance b) (sres_distance a)) eqn:E; [|by left].
  right. by apply fltb_asym.
Qed.

Lemma dist_le_trans a b c : not_nan a -> not_nan b -> not_nan c -> dist_le a b -> dist_le b c -> dist_le a c.
Proof.
  intros Ha Hb Hc H1 H2. unfold dist_le in *. apply not_true_iff_false. intros H.
  destruct (swo_cotrans (P := fun x => is_nan x = false) _ (sres_distance b) _ Hc Hb Ha H); congruence.
Qed.

Lemma sorted_strong l : Forall not_nan l -> Sorted dist_le l -> StronglySorted dist_le l.
Proof.
  induction 1 as [|x l Hx Hl IH]; intros Hs; [constructor|].
  apply Sorted_inv in Hs as [Hs Hh]. specialize (IH Hs). constructor; [done|].
  destruct l as [|y l]; [constructor|]. apply HdRel_inv in Hh. apply StronglySorted_inv in IH as [_ Hy].
  constructor; [done|]. rewrite Forall_forall in *. intros z Hz.
  eapply (dist_le_trans x y z); [done|apply Hl, list_elem_of_here|apply Hl; by apply list_elem_of_further|done|by apply Hy].
Qed.

Lemma merge_sort_conforms l :
  Forall not_nan l -> merge_sort dist_le l ≡ₚ l /\ StronglySorted dist_le (merge_sort dist_le l).
Proof.
  intros Hn. pose proof (merge_sort_Permutation dist_le l) as Hp. split; [done|].
  apply sorted_strong; [by rewrite Hp|]. apply Sorted_merge_sort, _.
Qed.

Definition hit (id : string) (d : Z) : SearchResult := MkSearchResult id (f_of_Z d) "".

(** Two shards that both hold [x]. *)
Definition sample_answers : list (Z * option SearchResponse) :=
  [(0%Z, Some (MkSearchResponse [hit "x" 5; hit "y" 2] true "")); (1%Z, None);
   (2%Z, Some (MkSearchResponse [hit "x" 1; hit "z" 9] true ""))].

Lemma search_results_are_best_witness :
  let out := rp_results (merge_results (merge_sort dist_le) 2 "eventual" sample_answers) in
  out = [hit "x" 1; hit "y" 2] /\ NoDup (sres_external_id <$> out).
Proof.
  intros out. split; [vm_compute; reflexivity|].
  destruct (search_results_are_best (merge_sort dist_le) (fun l H => proj1 (merge_sort_conforms l H))
    (fun l H => proj2 (merge_sort_conforms l H)) 2 "eventual" sample_answers) as (_ & H & _); [lia| |exact H].
  by repeat constructor.
Defined.

Lemma read_targets_spec_witness :
  (fun p => cl_shard_id p.2) <$> select_read_targets (live_pool (start two_shards 0)) "eventual" =
  pool_ids (live_pool (start two_shards 0)).
Proof.
  destruct (read_targets_spec (live_pool (start two_shards 0)) "eventual") as (_ & _ & H & _). by apply H.
Defined.

(** ** Unavailable shards *)

Lemma gather_unavailable answers sid : sid ∈ (gather answers).2 -> sid ∈ answers.*1.
Proof.
  induction answers as [|[s a] answers IH]; cbn [gather]; [done|]. destruct (gather answers) as [merged unavailable].
  cbn [snd] in IH. rewrite fmap_cons, elem_of_cons.
  destruct a as [res|]; [destruct (srs_ok res)|]; cbn [snd]; rewrite ?elem_of_cons; naive_solver.
Qed.

Section unavailable.
Context {Ix R : Type} `{!VectorIndex Ix R, !VectorSearch Ix}.

Lemma search_all_ids d req i targets (w : gmap string (ShardService.t Ix)) :
  (search_all d req i targets w).*1 = (fun p => cl_shard_id p.2) <$> targets.
Proof. revert i. induction targets as [|[p sc] targets IH]; intros i; [done|]. cbn [search_all]. by rewrite !fmap_cons, IH. Qed.

(** A strong read leaves out a shard without saying so.  A shard with live
    replicas but no live primary is not asked under strong consistency, and
    the answer does not list it as unavailable. *)
Theorem strong_read_omits_shard std_sort d c vec k (w : gmap string (ShardService.t Ix)) sid :
  (forall p, p ∈ live_pool c -> cl_shard_id p.2 = sid -> is_primary p.2 = false) ->
  let reply := scatter_gather std_sort d c vec k "strong" w in
  sid ∉ ((fun p => cl_shard_id p.2) <$> select_read_targets (live_pool c) "strong") /\
  sid ∉ rp_unavailable_shards reply.
Proof.
  intros Hno reply. assert (sid ∉ ((fun p => cl_shard_id p.2) <$> select_read_targets (live_pool c) "strong")) as Hasked.
  { rewrite select_targets_ids, list_elem_of_filter, choose_strong. unfold shard_members.
    intros [(p & Hp & Hprim) _]. apply list_elem_of_filter in Hp as [Hid Hp]. by rewrite (Hno p Hp Hid) in Hprim. }
  split; [done|]. intros Hin. apply Hasked. unfold reply, scatter_gather, merge_results in Hin.
  rewrite <-(search_all_ids d (MkSearchRequest vec k) 0 _ w). apply gather_unavailable.
  by destruct (gather _) as [merged unavailable].
Qed.
End unavailable.

Import FlatIndex.

(** A search that finds nothing. *)
Definition blind_search : VectorSearch FlatIndex.t := fun _ _ _ => Some [].

Definition headless : coordinator :=
  start [MkEndpoint 0 0 "a" 1 true; MkEndpoint 1 0 "b" 1 false] 0.

Lemma strong_read_omits_shard_witness :
  let reply := scatter_gather (VectorSearch0 := blind_search) (merge_sort dist_le) (fun _ => Delivered) headless
                 unit_vector 3 "strong" ∅ in
  (1%Z ∈ pool_ids (live_pool headless)) /\ (1%Z ∉ rp_unavailable_shards reply).
Proof.
  split; [apply elem_of_pool_ids; exists (1%nat, make_shard_client 1 0 "b" 1 false); split; [|reflexivity];
          apply list_elem_of_further, list_elem_of_here|].
  apply (strong_read_omits_shard (VectorSearch0 := blind_search) (merge_sort dist_le) (fun _ => Delivered)
    headless unit_vector 3 ∅ 1%Z).
  intros p Hp. change (live_pool headless) with
    [(0%nat, make_shard_client 0 0 "a" 1 true); (1%nat, make_shard_client 1 0 "b" 1 false)] in Hp.
  rewrite !elem_of_cons in Hp. destruct Hp as [->|[->|Hp]]; [done|done|]. by apply not_elem_of_nil in Hp.
Defined.
