(* ===== verification/Failover.v ===== *)
(** * Automatic failover ([src/cluster/coordinator_main.cpp], [health_check_loop])

    One round of the health check as a function of what the network answered:
    pings of the primaries, the failure counters, and the choice of the
    replica to promote by its element count. *)

From S2P Require Import Prelude Float32 IndexTypes Json JsonDump JsonRoundtrip Storage RaftState RaftLog RaftNode HashRing.
From S2P Require Import IdMapStore ShardService ClusterConfig Topology Quorum ReadPath.

Definition FAILURES_BEFORE_FAILOVER : Z := 3.

(** [candidate] and [candidate_count] along the replicas; [stats] is the
    element count of a replica that answers. *)
Fixpoint choose_candidate (primary : client) (stats : client -> option N) (replicas : list client)
    (candidate : option (client * N)) : option (client * N) :=
  match replicas with
  | [] => candidate
  | r :: replicas =>
    choose_candidate primary stats replicas
      (if bool_decide (r.1 = primary.1) then candidate
       else
         match stats r with
         | None => candidate
         | Some count =>
           match candidate with
           | None => Some (r, count)
           | Some (_, best) => if best <?? count then Some (r, count) else candidate
           end
         end)
  end.

(** One shard: the new counters and the replica to promote. *)
Definition check_shard (pool : list client) (ping : client -> bool) (stats : client -> option N)
    (shard_id : Z) (failures : gmap Z Z) : gmap Z Z * option Z :=
  match find_primary pool shard_id with
  | None => (failures, None)
  | Some primary =>
    if ping primary then (<[shard_id := 0%Z]> failures, None)
    else
      let n := (default 0%Z (failures !! shard_id) + 1)%Z in
      let failures := <[shard_id := n]> failures in
      if bool_decide (n < FAILURES_BEFORE_FAILOVER)%Z then (failures, None)
      else
        match choose_candidate primary stats (replicas_for_shard pool shard_id) None with
        | None => (failures, None)
        | Some (r, _) => (<[shard_id := 0%Z]> failures, Some (cl_replica_id r.2))
        end
  end.

Fixpoint check_shards (pool : list client) (ping : client -> bool) (stats : client -> option N)
    (shard_ids : list Z) (failures : gmap Z Z) : gmap Z Z * list (Z * Z) :=
  match shard_ids with
  | [] => (failures, [])
  | sid :: shard_ids =>
    let '(failures, promoted) := check_shard pool ping stats sid failures in
    let '(failures, proposals) := check_shards pool ping stats shard_ids failures in
    (failures, match promoted with Some rid => (sid, rid) :: proposals | None => proposals end)
  end.

(** What one round sees. *)
Record round := MkRound {
  rd_leader : bool;
  rd_pool : list client;
  rd_ping : client -> bool;
  rd_stats : client -> option N;
}.

(** The counters after a round, and the [set_primary] commands it proposes. *)
Definition health_check_round (r : round) (failures : gmap Z Z) : gmap Z Z * list (Z * Z) :=
  if rd_leader r
  then check_shards (rd_pool r) (rd_ping r) (rd_stats r) (pool_ids (rd_pool r)) failures
  else (failures, []).

Definition health_checks (rs : list round) (failures : gmap Z Z) : gmap Z Z :=
  foldl (fun f r => (health_check_round r f).1) failures rs.

(** ** The candidate *)

(** A replica that is not the primary and answers. *)
Definition reachable (primary : client) (stats : client -> option N) (replicas : list client) (r : client) (count : N) : Prop :=
  r ∈ replicas /\ r.1 <> primary.1 /\ stats r = Some count.

Lemma choose_candidate_spec primary stats replicas acc :
  match choose_candidate primary stats replicas acc with
  | None => acc = None /\ forall r count, ~ reachable primary stats replicas r count
  | Some (r, count) =>
    (acc = Some (r, count) \/ reachable primary stats replicas r count) /\
    (forall r' c', acc = Some (r', c') -> c' <= count) /\
    (forall r' c', reachable primary stats replicas r' c' -> c' <= count)
  end.
Proof.
  revert acc. induction replicas as [|x replicas IH]; intros acc; cbn [choose_candidate].
  { destruct acc as [[r count]|].
    - split_and!; [by left|intros ? ? [= <- <-]; lia|]. by intros r' c' [Hin%not_elem_of_nil _].
    - split; [done|]. by intros r' c' [Hin%not_elem_of_nil _]. }
  set (acc' := if bool_decide (x.1 = primary.1) then acc else _). specialize (IH acc').
  assert (forall r c, reachable primary stats (x :: replicas) r c <->
    (r = x /\ x.1 <> primary.1 /\ stats x = Some c) \/ reachable primary stats replicas r c) as Hcons.
  { intros r c. unfold reachable. rewrite elem_of_cons. split; [|naive_solver]. intros ([->|H] & H1 & H2); tauto. }
  assert (forall r c, acc = Some (r, c) -> exists r' c', acc' = Some (r', c') /\ c <= c') as Hmono.
  { intros r c ->. unfold acc'. case_bool_decide; [by exists r, c|].
    destruct (stats x) as [n|]; [|by exists r, c]. case_bool_decide; [exists x, n|exists r, c]; split; [done|lia|done|lia]. }
  assert (forall c, x.1 <> primary.1 -> stats x = Some c -> exists r' c', acc' = Some (r', c') /\ c <= c') as Hx.
  { intros c Hne Hc. unfold acc'. rewrite bool_decide_eq_false_2 by done. rewrite Hc.
    destruct acc as [[r b]|]; [|by exists x, c]. case_bool_decide; [exists x, c|exists r, b]; (split; [done|lia]). }
  assert (forall r c, acc' = Some (r, c) -> acc = Some (r, c) \/ (r = x /\ x.1 <> primary.1 /\ stats x = Some c)) as Hfrom.
  { intros r c. unfold acc'. case_bool_decide as Hp; [tauto|]. destruct (stats x) as [n|] eqn:Es; [|tauto].
    destruct acc as [[r0 b]|]; [case_bool_decide; [|tauto]|]; intros [= <- <-]; right; done. }
  destruct (choose_candidate primary stats replicas acc') as [[r count]|].
  - destruct IH as (Hr & Hacc & Hall). split_and!.
    + rewrite Hcons. destruct Hr as [Hr|Hr]; [|tauto]. destruct (Hfrom _ _ Hr); tauto.
    + intros r' c' (r2 & c2 & H2 & Hle)%Hmono. specialize (Hacc _ _ H2). lia.
    + intros r' c' [(-> & H1 & H2)|H]%Hcons; [|by eapply Hall].
      destruct (Hx c' H1 H2) as (r2 & c2 & H3 & Hle). specialize (Hacc _ _ H3). lia.
  - destruct IH as [Hnone Hno]. split.
    + destruct acc as [[r c]|]; [|done]. destruct (Hmono r c eq_refl) as (? & ? & H & _). congruence.
    + intros r c [(-> & H1 & H2)|H]%Hcons; [|by eapply Hno]. destruct (Hx c H1 H2) as (? & ? & H & _). congruence.
Qed.

(** ** Counting misses *)

(** Whether the round pings the primary of a shard, and the answer. *)
Definition pinged (sid : Z) (r : round) : option bool :=
  if rd_leader r && bool_decide (sid ∈ pool_ids (rd_pool r))
  then rd_ping r <$> find_primary (rd_pool r) sid else None.

(** How many of the latest pings in a row went unanswered. *)
Fixpoint misses (pings : list bool) : Z :=
  match pings with
  | false :: pings => (misses pings + 1)%Z
  | _ => 0%Z
  end.

(** The answers of the rounds that pinged the shard, latest first. *)
Definition ping_history (sid : Z) (rs : list round) : list bool := rev (omap (pinged sid) rs).

Lemma misses_nonneg l : (0 <= misses l)%Z.
Proof. induction l as [|[] l IH]; cbn; lia. Qed.

Lemma check_shard_other pool ping stats sid failures sid' :
  sid' <> sid -> (check_shard pool ping stats sid failures).1 !! sid' = failures !! sid'.
Proof.
  intros Hne. unfold check_shard. destruct (find_primary pool sid) as [p|]; [|done].
  destruct (ping p); cbn [fst]; [by rewrite lookup_insert_ne|]. case_bool_decide; [by cbn; rewrite lookup_insert_ne|].
  destruct (choose_candidate _ _ _ _) as [[r c]|]; cbn [fst]; by rewrite !lookup_insert_ne.
Qed.

(** The counter never exceeds the misses in a row, and a promotion needs three. *)
Lemma check_shard_counter pool ping stats sid failures m :
  (default 0%Z (failures !! sid) <= m)%Z -> (0 <= m)%Z ->
  let '(failures', promoted) := check_shard pool ping stats sid failures in
  match ping <$> find_primary pool sid with
  | None => failures' !! sid = failures !! sid /\ promoted = None
  | Some true => default 0%Z (failures' !! sid) = 0%Z /\ promoted = None
  | Some false => (default 0%Z (failures' !! sid) <= m + 1)%Z /\ (promoted <> None -> (3 <= m + 1)%Z)
  end.
Proof.
  intros Hm H0. unfold check_shard. destruct (find_primary pool sid) as [p|]; cbn [fmap option_fmap option_map]; [|done].
  destruct (ping p); [by rewrite lookup_insert_eq|].
  case_bool_decide as Hn; unfold FAILURES_BEFORE_FAILOVER in Hn; [by rewrite lookup_insert_eq; cbn; split; [lia|]|].
  destruct (choose_candidate _ _ _ _) as [[r c]|]; rewrite lookup_insert_eq; cbn; (split; [lia|done || lia]).
Qed.

Lemma check_shards_other pool ping stats sids failures sid :
  sid ∉ sids ->
  (check_shards pool ping stats sids failures).1 !! sid = failures !! sid /\
  forall rid, (sid, rid) ∉ (check_shards pool ping stats sids failures).2.
Proof.
  revert failures. induction sids as [|s sids IH]; intros failures; cbn [check_shards].
  { intros _. split; [done|]. intros rid. apply not_elem_of_nil. }
  rewrite not_elem_of_cons. intros [Hne Hnin].
  pose proof (check_shard_other pool ping stats s failures sid Hne) as Ho.
  destruct (check_shard pool ping stats s failures) as [f1 promoted]. cbn [fst] in Ho.
  destruct (IH f1 Hnin) as [H1 H2]. destruct (check_shards pool ping stats sids f1) as [f2 proposals].
  cbn [fst snd] in *. split; [by rewrite H1|]. intros rid.
  destruct promoted; [|by apply H2]. rewrite not_elem_of_cons. split; [congruence|by apply H2].
Qed.

Lemma check_shards_at pool ping stats sids failures sid :
  NoDup sids -> sid ∈ sids ->
  exists f, f !! sid = failures !! sid /\
    (check_shards pool ping stats sids failures).1 !! sid = (check_shard pool ping stats sid f).1 !! sid /\
    forall rid, (sid, rid) ∈ (check_shards pool ping stats sids failures).2 <->
                (check_shard pool ping stats sid f).2 = Some rid.
Proof.
  revert failures. induction sids as [|s sids IH]; intros failures Hnd Hin; [by apply not_elem_of_nil in Hin|].
  apply NoDup_cons in Hnd as [Hnin Hnd]. cbn [check_shards]. destruct (decide (sid = s)) as [->|Hne].
  - exists failures. split; [done|]. destruct (check_shard pool ping stats s failures) as [f1 promoted].
    destruct (check_shards_other pool ping stats sids f1 s Hnin) as [H1 H2].
    destruct (check_shards pool ping stats sids f1) as [f2 proposals]. cbn [fst snd] in *. split; [done|].
    intros rid. specialize (H2 rid). destruct promoted as [q|]; [rewrite elem_of_cons|].
    + split; [intros [[= ->]|?]; [done|by destruct H2]|intros [= ->]; by left].
    + split; [by intros ?; destruct H2|done].
  - apply elem_of_cons in Hin as [|Hin]; [done|].
    pose proof (check_shard_other pool ping stats s failures sid Hne) as Ho.
    destruct (check_shard pool ping stats s failures) as [f1 promoted]. cbn [fst] in Ho.
    destruct (IH f1 Hnd Hin) as (f & Hf & H1 & H2). exists f. split; [by rewrite Hf|].
    destruct (check_shards pool ping stats sids f1) as [f2 proposals]. cbn [fst snd] in *. split; [done|].
    intros rid. rewrite <-H2. destruct promoted; [|done]. rewrite elem_of_cons. split; [|by right].
    intros [[= -> ->]|?]; done.
Qed.

(** One round, seen from one shard. *)
Lemma round_counter r sid failures m :
  (default 0%Z (failures !! sid) <= m)%Z -> (0 <= m)%Z ->
  let '(failures', proposals) := health_check_round r failures in
  match pinged sid r with
  | None => (default 0%Z (failures' !! sid) <= m)%Z /\ forall rid, (sid, rid) ∉ proposals
  | Some true => default 0%Z (failures' !! sid) = 0%Z /\ forall rid, (sid, rid) ∉ proposals
  | Some false => (default 0%Z (failures' !! sid) <= m + 1)%Z /\ forall rid, (sid, rid) ∈ proposals -> (3 <= m + 1)%Z
  end.
Proof.
  intros Hm H0. unfold health_check_round, pinged. destruct (rd_leader r); cbn [andb].
  2: { split; [done|]. intros rid. apply not_elem_of_nil. }
  case_bool_decide as Hin.
  - destruct (check_shards_at (rd_pool r) (rd_ping r) (rd_stats r) _ failures sid (pool_ids_NoDup _) Hin)
      as (f & Hf & H1 & H2).
    pose proof (check_shard_counter (rd_pool r) (rd_ping r) (rd_stats r) sid f m) as Hc. rewrite Hf in Hc.
    specialize (Hc Hm H0). destruct (check_shards _ _ _ _ failures) as [f' proposals].
    destruct (check_shard _ _ _ sid f) as [f1 promoted]. cbn [fst snd] in *. rewrite H1.
    destruct (rd_ping r <$> find_primary (rd_pool r) sid) as [[]|].
    + destruct Hc as [-> ->]. split; [done|]. intros rid Hr. by apply H2 in Hr.
    + destruct Hc as [Hc1 Hc2]. split; [done|]. intros rid Hr. apply Hc2. apply H2 in Hr. by rewrite Hr.
    + destruct Hc as [-> ->]. split; [done|]. intros rid Hr. by apply H2 in Hr.
  - destruct (check_shards_other (rd_pool r) (rd_ping r) (rd_stats r) _ failures sid Hin) as [H1 H2].
    destruct (check_shards _ _ _ _ failures) as [f' proposals]. cbn [fst snd] in *. by rewrite H1.
Qed.

Lemma counter_bounded rs sid : (default 0%Z (health_checks rs ∅ !! sid) <= misses (ping_history sid rs))%Z.
Proof.
  unfold health_checks, ping_history. induction rs as [|r rs IH] using rev_ind; [done|].
  rewrite foldl_app, omap_app. cbn [foldl omap list_omap].
  pose proof (round_counter r sid _ _ IH (misses_nonneg _)) as Hr.
  destruct (health_check_round r _) as [f' proposals]. cbn [fst].
  destruct (pinged sid r) as [b|]; [|rewrite app_nil_r; by destruct Hr].
  rewrite rev_app_distr. cbn [rev app misses]. destruct b; [|by destruct Hr]. destruct Hr as [-> _]. lia.
Qed.

(** C25: Failover is neither hasty nor blind.  Starting with no recorded
    failures, a health check that proposes to promote a replica of a shard
    has seen at least three pings of that shard's primary in a row go
    unanswered, this one included; the promoted replica is live, not the
    primary that was pinged, reachable, and no reachable replica of the shard
    reports more elements. *)
Theorem failover_decision rs r sid rid :
  (sid, rid) ∈ (health_check_round r (health_checks rs ∅)).2 ->
  (3 <= misses (ping_history sid (rs ++ [r])))%Z /\
  exists primary p count,
    find_primary (rd_pool r) sid = Some primary /\ rd_ping r primary = false /\
    cl_replica_id p.2 = rid /\ cl_shard_id p.2 = sid /\ p ∈ rd_pool r /\
    reachable primary (rd_stats r) (replicas_for_shard (rd_pool r) sid) p count /\
    forall q c, reachable primary (rd_stats r) (replicas_for_shard (rd_pool r) sid) q c -> c <= count.
Proof.
  intros Hin. split.
  - pose proof (round_counter r sid _ _ (counter_bounded rs sid) (misses_nonneg _)) as Hr.
    unfold ping_history. rewrite omap_app. destruct (health_check_round r _) as [f' proposals]. cbn [snd] in Hin.
    cbn [omap list_omap]. destruct (pinged sid r) as [[]|].
    + destruct Hr as [_ Hr]. by destruct (Hr rid).
    + rewrite rev_app_distr. cbn [rev app misses]. destruct Hr as [_ Hr]. by eapply Hr.
    + destruct Hr as [_ Hr]. by destruct (Hr rid).
  - unfold health_check_round in Hin. destruct (rd_leader r); [|by apply not_elem_of_nil in Hin].
    destruct (decide (sid ∈ pool_ids (rd_pool r))) as [Hs|Hs].
    2: { destruct (check_shards_other (rd_pool r) (rd_ping r) (rd_stats r) _ (health_checks rs ∅) sid Hs) as [_ H].
         by apply H in Hin. }
    destruct (check_shards_at (rd_pool r) (rd_ping r) (rd_stats r) _ (health_checks rs ∅) sid (pool_ids_NoDup _) Hs)
      as (f & _ & _ & H2). apply H2 in Hin. clear H2. unfold check_shard in Hin.
    destruct (find_primary (rd_pool r) sid) as [primary|] eqn:Ep; [|done].
    destruct (rd_ping r primary) eqn:Eg; [done|]. case_bool_decide; [done|].
    pose proof (choose_candidate_spec primary (rd_stats r) (replicas_for_shard (rd_pool r) sid) None) as Hc.
    destruct (choose_candidate _ _ _ None) as [[p count]|]; [|done]. injection Hin as Hrid.
    destruct Hc as ([?|Hreach] & _ & Hbest); [done|]. pose proof Hreach as (Hin & _ & _).
    apply replicas_for_shard_elem in Hin as [Hpool Hid]. exists primary, p, count. done.
Qed.

(** Shard 1 with a silent primary and two answering replicas. *)
Definition silent_primary : round :=
  MkRound true [rep 0 1 "a" true; rep 1 1 "b" false; rep 2 1 "c" false]
    (fun p => negb (bool_decide (p.1 = 0%nat)))
    (fun p => if bool_decide (p.1 = 0%nat) then None else Some (N.of_nat (10 * p.1))).

Lemma failover_decision_witness :
  (health_check_round silent_primary (health_checks [silent_primary; silent_primary] ∅)).2 = [(1, 2)%Z] /\
  (3 <= misses (ping_history 1 [silent_primary; silent_primary; silent_primary]))%Z.
Proof.
  assert ((health_check_round silent_primary (health_checks [silent_primary; silent_primary] ∅)).2 = [(1, 2)%Z]) as H
    by (vm_compute; reflexivity).
  split; [exact H|].
  refine (proj1 (failover_decision [silent_primary; silent_primary] silent_primary 1 2 _)).
  rewrite H. apply list_elem_of_here.
Defined.
