(* ===== verification/Rebalance.v ===== *)
(** * Rebalancing ([src/cluster/coordinator_main.cpp], admin handlers)

    The migration loops behind [/admin/shards/add] and [/admin/shards/remove]:
    list the keys of the source primary, find each key's new shard on the new
    ring, and move it with [migrate_one_key]. *)

From S2P Require Import Prelude Float32 IndexTypes Json JsonDump JsonRoundtrip Storage RaftState RaftLog RaftNode HashRing.
From S2P Require Import IdMapStore ShardService ClusterConfig Topology Quorum ReadPath.
Import ShardService.

Section loops.
Context {Ix R : Type} `{!VectorIndex Ix R}.

Abbreviation world := (gmap string (ShardService.t Ix)).

(** The loop over the keys of one source shard.  [plan] gives the shard a key
    goes to, [None] for a key that stays; the counts are [migrated] and
    [failed]. *)
Fixpoint migrate_keys (mw : nat -> migration_weather) (pool : list client) (source_primary : client)
    (source_replicas : list client) (plan : string -> option Z) (i : nat) (keys : list string)
    (st : world * N * N) : world * N * N :=
  match keys with
  | [] => st
  | e :: keys =>
    let '(w, migrated, failed) := st in
    let st :=
      match plan e with
      | None => st
      | Some sid =>
        let dest_replicas := replicas_for_shard pool sid in
        match dest_replicas with
        | [] => (w, migrated, failed + 1)
        | _ =>
          let '(w, ok) := migrate_one_key (mw i) source_primary source_replicas dest_replicas e w in
          if ok then (w, migrated + 1, failed) else (w, migrated, failed + 1)
        end
      end in
    migrate_keys mw pool source_primary source_replicas plan (S i) keys st
  end.

(** [ListLocalIds] at a source primary; [None] when the call fails. *)
Definition list_call (d : delivery) (sc : ShardClient) (w : world) : option (list string) :=
  lrs_external_ids <$> (rpc d (client_address sc) (fun s => Some (s, ListLocalIds s)) w).2.

(** One source shard. *)
Definition migrate_shard (d : delivery) (mw : nat -> migration_weather) (pool : list client) (source_id : Z)
    (plan : string -> option Z) (st : world * N * N) : world * N * N :=
  match find_primary pool source_id with
  | None => st
  | Some source_primary =>
    match list_call d source_primary.2 st.1.1 with
    | None => st
    | Some keys =>
      migrate_keys mw pool source_primary (replicas_for_shard pool source_id) plan 0 keys st
    end
  end.

(** Adding a shard: the keys that the new ring gives to it, from every other
    shard in ascending order of ids. *)
Definition add_plan (new_ring : list point) (new_id : Z) (e : string) : option Z :=
  if bool_decide (HashRing.route new_ring e = Some new_id) then Some new_id else None.

Fixpoint migrate_sources (d : Z -> delivery) (mw : Z -> nat -> migration_weather) (pool : list client)
    (sources : list Z) (plan : string -> option Z) (st : world * N * N) : world * N * N :=
  match sources with
  | [] => st
  | sid :: sources => migrate_sources d mw pool sources plan (migrate_shard (d sid) (mw sid) pool sid plan st)
  end.

Definition migrate_to_new_shard (d : Z -> delivery) (mw : Z -> nat -> migration_weather) (pool : list client)
    (new_ring : list point) (new_id : Z) (w : world) : world * N * N :=
  migrate_sources d mw pool (filter (fun sid => sid <> new_id) (pool_ids pool)) (add_plan new_ring new_id) (w, 0, 0).

(** Removing a shard: every key, to its shard on the ring of those that stay. *)
Definition remove_plan (pool : list client) (leaving_id : Z) (e : string) : option Z :=
  HashRing.route (HashRing.build (filter (fun sid => sid <> leaving_id) (pool_ids pool))) e.

Definition migrate_from_leaving_shard (d : delivery) (mw : nat -> migration_weather) (pool : list client)
    (leaving_id : Z) (w : world) : world * N * N :=
  migrate_shard d mw pool leaving_id (remove_plan pool leaving_id) (w, 0, 0).
End loops.

(** ** What one call may do to a server *)

Section frames.
Context {Ix R : Type} `{!VectorIndex Ix R, !VectorIndexLaws Ix R}.

Abbreviation world := (gmap string (ShardService.t Ix)).

(** Consistent, at most [n] ids more, and every key but [key] as before. *)
Definition server_ok (key : string) (n : N) (s s' : ShardService.t Ix) : Prop :=
  service_wf s' /\ IdMapStore.size (id_map_ s') <= IdMapStore.size (id_map_ s) + n /\
  forall e, e <> key -> GetVector e s' = GetVector e s.

Lemma server_ok_refl key n s : service_wf s -> server_ok key n s s.
Proof. intros Hw. split_and!; [done|lia|done]. Qed.

Lemma Insert_size r req (s s' : ShardService.t Ix) resp :
  service_wf s -> IdMapStore.size (id_map_ s) < vi_limit -> strlen (ir_external_id req) < U32 ->
  Insert r req s = Some (s', resp) -> IdMapStore.size (id_map_ s') <= IdMapStore.size (id_map_ s) + 1.
Proof.
  intros (_ & Hm & _) Hsz Hx. pose proof vi_limit_id. unfold Insert. case_decide; [intros [= <- <-]; lia|].
  destruct (check_and_advance_epoch _ _) as [e|err]; [|intros [= <- <-]; lia].
  pose proof (IdMapStore.assign_frame (ir_external_id req) (id_map_ s) Hm ltac:(lia) Hx) as Ha.
  destruct (IdMapStore.assign None _ _) as [im [i fresh]]. destruct Ha as (_ & _ & _ & _ & Hfr & Hold & _).
  destruct (vi_insert _ _ _ _ _) as [ix|]; [|done]. intros [= <- <-]. cbn [id_map_].
  destruct fresh; [destruct (Hfr eq_refl); lia|rewrite (Hold eq_refl); lia].
Qed.

Lemma insert_call_ok key vec metadata wt i sc (s : ShardService.t Ix) :
  service_wf s -> vi_draw_ok (wt_draw wt i) -> IdMapStore.size (id_map_ s) < vi_limit -> strlen key < U32 ->
  exists s' b, insert_call key vec metadata wt i sc s = Some (s', b) /\ server_ok key 1 s s'.
Proof.
  intros Hw Hr Hsz Hx. unfold insert_call. set (req := MkInsertRequest key vec metadata (epoch sc)).
  assert ((exists resp, Insert (wt_draw wt i) req s = Some (s, resp)) \/
    (length (ir_vector req) = VECTOR_DIM /\ current_epoch_ s <= ir_epoch req)) as [[resp E]|[Hv He]].
  { unfold Insert. case_decide as Hd; [left; by eexists|].
    destruct (check_epoch_cases (ir_epoch req) (current_epoch_ s)) as [[_ ->]|[Hle _]]; [left; by eexists|].
    right. exact (conj Hd Hle). }
  - exists s, (irs_ok resp). rewrite E. split; [done|]. by apply server_ok_refl.
  - destruct (Insert_spec (wt_draw wt i) req s Hw Hr Hv He Hsz Hx) as (s' & meta & E & Hw' & _ & _ & _ & _ & _ & Ho).
    exists s', true. rewrite E. split; [done|]. split_and!; [done|apply (Insert_size (wt_draw wt i) req s s' _ Hw Hsz Hx E)|].
    intros e Hne. by apply Ho.
Qed.

Lemma delete_call_ok key i sc (s : ShardService.t Ix) :
  service_wf s -> exists s' b, delete_call key i sc s = Some (s', b) /\ server_ok key 0 s s'.
Proof.
  intros Hw. unfold delete_call. set (req := MkDeleteRequest key (epoch sc)).
  destruct (check_epoch_cases (dr_epoch req) (current_epoch_ s)) as [[_ E]|[Hle E]].
  { exists s, false. unfold Delete. rewrite E. split; [done|]. by apply server_ok_refl. }
  destruct (IdMapStore.lookup key (id_map_ s)) as [j|] eqn:El.
  - pose proof (Delete_spec req s j Hw Hle El) as Hd.
    assert (id_map_ (Delete req s).1 = id_map_ s) as Him.
    { unfold Delete. rewrite E. cbn [id_map_ with_epoch]. by destruct (IdMapStore.lookup _ _). }
    destruct (Delete req s) as [s' resp]. destruct Hd as (_ & Hw' & _ & _ & _ & Ho). cbn [fst] in Him.
    exists s', (drs_ok resp). split; [done|]. split_and!; [done|rewrite Him; lia|]. intros e Hne. by apply Ho.
  - exists (with_epoch (dr_epoch req) s), false. unfold Delete. rewrite E. cbn [id_map_ with_epoch]. 
    change (dr_external_id req) with key. rewrite El. split; [done|]. split_and!; [done|cbn; lia|done].
Qed.

(** The same of every server of a world. *)
Definition evolves (key : string) (n : N) (w w' : world) : Prop :=
  forall a, match w !! a with
            | Some s => exists s', w' !! a = Some s' /\ server_ok key n s s'
            | None => w' !! a = None
            end.

(** Room for [n] more ids everywhere. *)
Definition world_room (n : N) (w : world) : Prop :=
  forall a s, w !! a = Some s -> service_wf s /\ IdMapStore.size (id_map_ s) + n <= vi_limit.

Lemma call_all_none d f i replicas (w : world) a : w !! a = None -> (call_all d f i replicas w).1 !! a = None.
Proof.
  revert i w. induction replicas as [|[p sc] replicas IH]; intros i w Ha; [done|]. cbn [call_all].
  assert ((rpc (d i) (client_address sc) (f i sc) w).1 !! a = None) as H1.
  { destruct (decide (a = client_address sc)) as [->|Hne]; [|by rewrite rpc_other].
    unfold rpc. rewrite Ha. by destruct (d i). }
  destruct (rpc _ _ _ w) as [w1 reply]. specialize (IH (S i) w1 H1).
  by destruct (call_all _ _ _ _ w1) as [w2 oks].
Qed.

Lemma call_all_state d f i replicas (w : world) j p sc s s' b :
  NoDup ((fun p => client_address p.2) <$> replicas) -> replicas !! j = Some (p, sc) ->
  w !! client_address sc = Some s -> f (i + j)%nat sc s = Some (s', b) ->
  (call_all d f i replicas w).1 !! client_address sc = Some s' \/
  (call_all d f i replicas w).1 !! client_address sc = Some s.
Proof.
  revert i w j. induction replicas as [|[p1 sc1] replicas IH]; intros i w j Hnd Hj Hs Hf; [done|].
  rewrite fmap_cons in Hnd. apply NoDup_cons in Hnd as [Hnin Hnd]. cbn [call_all snd] in *.
  destruct j as [|j]; cbn [lookup list_lookup] in Hj.
  - injection Hj as -> ->. rewrite Nat.add_0_r in Hf.
    pose proof (rpc_state (d i) (client_address sc) (f i sc) w s s' b Hs Hf) as Hr.
    destruct (rpc _ _ _ w) as [w1 reply]. pose proof (call_all_other d f (S i) replicas w1 _ Hnin) as Ho.
    destruct (call_all _ _ (S i) replicas w1) as [w2 oks]. cbn [fst] in *. by rewrite Ho.
  - assert (client_address sc <> client_address sc1) as Hne.
    { intros Heq. apply Hnin. rewrite <-Heq. apply list_elem_of_fmap. exists (p, sc). split; [done|].
      by eapply list_elem_of_lookup_2. }
    pose proof (rpc_other (d i) (client_address sc1) (f i sc1) w _ Hne) as Ho.
    destruct (rpc _ _ _ w) as [w1 reply]. cbn [fst] in Ho. specialize (IH (S i) w1 j Hnd Hj).
    rewrite Nat.add_succ_r in Hf. rewrite Ho in IH. specialize (IH Hs Hf).
    by destruct (call_all _ _ (S i) replicas w1) as [w2 oks].
Qed.

Lemma call_all_evolves key n m d f replicas (w : world) :
  NoDup ((fun p => client_address p.2) <$> replicas) -> world_room m w ->
  (forall i sc s, service_wf s -> IdMapStore.size (id_map_ s) + m <= vi_limit ->
     exists s' b, f i sc s = Some (s', b) /\ server_ok key n s s') ->
  evolves key n w (call_all d f 0 replicas w).1.
Proof.
  intros Hnd Hroom Hf a. destruct (w !! a) as [s|] eqn:E; [|by apply call_all_none].
  destruct (Hroom _ _ E) as [Hw Hsz].
  destruct (decide (a ∈ (fun p => client_address p.2) <$> replicas)) as [Hin|Hnin].
  - apply list_elem_of_fmap in Hin as ([p sc] & -> & Hin). apply list_elem_of_lookup_1 in Hin as [j Hj].
    destruct (Hf j sc s Hw Hsz) as (s' & b & Efs & Hok).
    destruct (call_all_state d f 0 replicas w j p sc s s' b Hnd Hj E Efs) as [H|H]; cbn [snd]; rewrite H;
      eexists; (split; [done|]); [done|by apply server_ok_refl].
  - rewrite call_all_other by done. exists s. split; [done|]. by apply server_ok_refl.
Qed.

Lemma server_ok_trans key n m s1 s2 s3 : server_ok key n s1 s2 -> server_ok key m s2 s3 -> server_ok key (n + m) s1 s3.
Proof.
  intros (_ & Hs1 & Hg1) (Hw & Hs2 & Hg2). split_and!; [done|lia|]. intros e Hne. by rewrite Hg2, Hg1.
Qed.

Lemma evolves_trans key n m (w1 w2 w3 : world) : evolves key n w1 w2 -> evolves key m w2 w3 -> evolves key (n + m) w1 w3.
Proof.
  intros H1 H2 a. specialize (H1 a). specialize (H2 a). destruct (w1 !! a) as [s1|]; [|by rewrite H1 in H2].
  destruct H1 as (s2 & E2 & Hok1). rewrite E2 in H2. destruct H2 as (s3 & E3 & Hok2).
  exists s3. split; [done|]. by eapply server_ok_trans.
Qed.

Lemma evolves_refl key n (w : world) m : world_room m w -> evolves key n w w.
Proof.
  intros Hroom a. destruct (w !! a) as [s|] eqn:E; [|done]. exists s. split; [done|].
  apply server_ok_refl. by eapply Hroom.
Qed.

Lemma evolves_room key n m (w w' : world) : evolves key n w w' -> world_room (n + m) w -> world_room m w'.
Proof.
  intros He Hr a s' Hs'. specialize (He a). destruct (w !! a) as [s|] eqn:E; [|congruence].
  destruct He as (s2 & E2 & Hw & Hsz & _). rewrite Hs' in E2. injection E2 as <-. destruct (Hr _ _ E). split; [done|lia].
Qed.

(** A migration changes the key it moves and nothing else. *)
Lemma migrate_evolves mw source source_replicas dest_replicas key (w : world) m :
  NoDup ((fun p => client_address p.2) <$> source_replicas) ->
  NoDup ((fun p => client_address p.2) <$> dest_replicas) ->
  (forall i, vi_draw_ok (wt_draw (mg_insert mw) i)) -> strlen key < U32 -> world_room (1 + (1 + m)) w ->
  evolves key 1 w (migrate_one_key mw source source_replicas dest_replicas key w).1.
Proof.
  intros Hs Hd Hr Hx Hroom. unfold migrate_one_key.
  assert (evolves key 1 w w) as Hrefl by (by eapply evolves_refl).
  destruct (get_call _ _ _ w) as [gres|]; [|done]. destruct (grs_ok gres); [cbn [negb]|done].
  assert (evolves key 1 w (quorum_insert (mg_insert mw) dest_replicas key (grs_vector gres) (grs_metadata gres) w).1) as H1.
  { unfold quorum_insert.
    pose proof (call_all_evolves key 1 (1 + (1 + m)) (wt_net (mg_insert mw))
      (insert_call key (grs_vector gres) (grs_metadata gres) (mg_insert mw)) dest_replicas w Hd Hroom) as He.
    destruct (call_all _ _ 0 dest_replicas w) as [w1 oks]. apply He. intros i sc s Hws Hsz.
    apply insert_call_ok; [done|apply Hr|lia|done]. }
  destruct (quorum_insert _ _ _ _ _ w) as [w1 q]. cbn [fst] in H1. destruct (q_ok q); [cbn [negb]|done].
  unfold quorum_delete. pose proof (call_all_evolves key 0 (1 + m) (mg_delete mw) (delete_call key) source_replicas w1 Hs) as He.
  destruct (call_all _ _ 0 source_replicas w1) as [w2 oks]. cbn [fst] in *.
  change 1 with (1 + 0). apply (evolves_trans key 1 0 w w1 w2); [done|]. apply He.
  - by eapply evolves_room.
  - intros i sc s Hws _. by apply delete_call_ok.
Qed.
End frames.

(** ** No key is lost *)

Section loop_safety.
Context {Ix R : Type} `{!VectorIndex Ix R, !VectorIndexLaws Ix R}.

Abbreviation world := (gmap string (ShardService.t Ix)).

Variable pool : list client.
Hypothesis pool_distinct : NoDup ((fun p => client_address p.2) <$> pool).

Lemma replicas_sublist sid : exists l, replicas_for_shard pool sid ++ l ≡ₚ pool.
Proof.
  exists (filter (fun p => cl_shard_id p.2 <> sid) pool). unfold replicas_for_shard.
  set (out := filter (fun p => cl_shard_id p.2 = sid) pool).
  assert (filter (fun p => is_primary p.2 = true) out ++ filter (fun p => is_primary p.2 = false) out ≡ₚ out) as ->.
  { clear. induction out as [|p out IH]; [done|]. destruct (is_primary p.2) eqn:E.
    - rewrite filter_cons_True, filter_cons_False by congruence. cbn. by rewrite IH.
    - rewrite filter_cons_False, filter_cons_True by congruence. by rewrite <-Permutation_middle, IH. }
  unfold out. clear. induction pool as [|p l IH]; [done|]. destruct (decide (cl_shard_id p.2 = sid)).
  - rewrite filter_cons_True, filter_cons_False by tauto. cbn. by rewrite IH.
  - rewrite filter_cons_False, filter_cons_True by tauto. by rewrite <-Permutation_middle, IH.
Qed.

Lemma replicas_distinct sid : NoDup ((fun p => client_address p.2) <$> replicas_for_shard pool sid).
Proof.
  destruct (replicas_sublist sid) as [l Hl]. rewrite <-Hl, fmap_app in pool_distinct.
  by apply NoDup_app in pool_distinct as [? _].
Qed.

Lemma distinct_shards sid sid' p q :
  sid <> sid' -> p ∈ replicas_for_shard pool sid -> q ∈ replicas_for_shard pool sid' ->
  client_address p.2 <> client_address q.2.
Proof.
  intros Hne Hp Hq Heq. apply replicas_for_shard_elem in Hp as [Hp Hps], Hq as [Hq Hqs].
  apply list_elem_of_lookup_1 in Hp as [i Hi], Hq as [j Hj].
  assert (i = j) as ->; [|congruence]. eapply (NoDup_lookup _ i j (client_address p.2) pool_distinct);
    rewrite list_lookup_fmap; [by rewrite Hi|]. rewrite Hj. cbn. by rewrite Heq.
Qed.

Variables (source : client) (source_id : Z) (plan : string -> option Z).
Hypothesis source_replica : source ∈ replicas_for_shard pool source_id.
Hypothesis plan_moves : forall e sid, plan e = Some sid -> sid <> source_id.

Variables (x : string) (vec : list float32) (metadata : string).

Definition at_source (w : world) : Prop :=
  exists s, w !! client_address source.2 = Some s /\ GetVector x s = MkGetVectorResponse true vec metadata "".

Definition at_destination (w : world) : Prop :=
  exists sid, plan x = Some sid /\ majority_holds w (replicas_for_shard pool sid) x vec metadata.

Lemma evolves_safe key n (w w' : world) :
  evolves key n w w' -> x <> key -> (at_source w -> at_source w') /\ (at_destination w -> at_destination w').
Proof.
  intros He Hx. split.
  - intros (s & Hs & Hg). specialize (He (client_address source.2)). rewrite Hs in He.
    destruct He as (s' & Hs' & _ & _ & Ho). exists s'. split; [done|]. by rewrite Ho.
  - intros (sid & Hp & js & H1 & H2 & H3 & H4). exists sid. split; [done|]. exists js. split_and!; [done..|].
    intros j Hj. destruct (H4 j Hj) as (p & sc & Hsc & s & meta & Hs & Hg & Hm). exists p, sc. split; [done|].
    specialize (He (client_address sc)). rewrite Hs in He. destruct He as (s' & Hs' & _ & _ & Ho).
    exists s', meta. by rewrite Ho.
Qed.

Lemma migrate_keys_safe mw i keys w migrated failed :
  NoDup keys -> Forall (fun e => strlen e < U32) keys -> (forall k j, vi_draw_ok (wt_draw (mg_insert (mw k)) j)) ->
  world_room (N.of_nat (length keys) + 1) w ->
  at_source w \/ (x ∉ keys /\ at_destination w) ->
  let '(w', _, _) := migrate_keys mw pool source (replicas_for_shard pool source_id) plan i keys (w, migrated, failed) in
  at_source w' \/ at_destination w'.
Proof.
  revert i w migrated failed. induction keys as [|e keys IH]; intros i w migrated failed Hnd Hlen Hr Hroom Hsafe;
    cbn [migrate_keys]; [tauto|].
  apply NoDup_cons in Hnd as [Hnin Hnd]. inversion_clear Hlen as [|? ? Hle Hlens]. cbn [length] in Hroom.
  assert (world_room (N.of_nat (length keys) + 1) w) as Hroom1 by (intros a s Hs; destruct (Hroom a s Hs); split; [done|lia]).
  assert (at_source w \/ x ∉ keys /\ at_destination w) as Hsafe1 by (rewrite not_elem_of_cons in Hsafe; tauto).
  destruct (plan e) as [sid|] eqn:Ep; [|by apply IH].
  destruct (replicas_for_shard pool sid) as [|d0 dest] eqn:Ed; [by apply IH|].
  rewrite <-Ed. pose proof (plan_moves e sid Ep) as Hne.
  assert (world_room (1 + (1 + N.of_nat (length keys))) w) as Hroom2
    by (intros a s Hs; destruct (Hroom a s Hs); split; [done|lia]).
  pose proof (migrate_evolves (mw i) source (replicas_for_shard pool source_id) (replicas_for_shard pool sid) e w
    (N.of_nat (length keys)) (replicas_distinct _) (replicas_distinct _) (Hr i) Hle Hroom2) as Hev.
  assert (world_room (N.of_nat (length keys) + 1) (migrate_one_key (mw i) source (replicas_for_shard pool source_id)
    (replicas_for_shard pool sid) e w).1) as Hroom'.
  { rewrite N.add_comm. by eapply (evolves_room e 1). }
  assert (let '(w', ok) := migrate_one_key (mw i) source (replicas_for_shard pool source_id)
    (replicas_for_shard pool sid) e w in at_source w' \/ x ∉ keys /\ at_destination w') as Hsafe'.
  { destruct (decide (x = e)) as [<-|Hxe].
    - destruct Hsafe as [(s & Hs & Hg)|[Hx _]]; [|by destruct Hx; apply list_elem_of_here].
      pose proof (migrate_one_key_safe (mw i) source (replicas_for_shard pool source_id) (replicas_for_shard pool sid)
        x s vec metadata w (replicas_distinct _)) as Hm.
      specialize (Hm ltac:(intros a s' Hs'; destruct (Hroom a s' Hs'); split; [done|lia]) (Hr i) Hle).
      specialize (Hm ltac:(intros p q; by apply distinct_shards) Hs Hg).
      destruct (migrate_one_key _ _ _ _ _ w) as [w' []]; destruct Hm as [Hm1 Hm2].
      + right. split; [done|]. exists sid. split; [done|]. by apply Hm1.
      + left. exists s. split; [|done]. by rewrite (Hm2 eq_refl source source_replica).
    - destruct (evolves_safe _ _ _ _ Hev Hxe) as [H1 H2]. destruct (migrate_one_key _ _ _ _ _ w) as [w' ok].
      cbn [fst] in *. tauto. }
  destruct (migrate_one_key _ _ _ _ _ w) as [w' ok]. cbn [fst] in *. destruct ok; by apply IH.
Qed.
End loop_safety.

Section shard_safety.
Context {Ix R : Type} `{!VectorIndex Ix R, !VectorIndexLaws Ix R}.

Lemma find_primary_spec pool sid p :
  find_primary pool sid = Some p -> p ∈ pool /\ cl_shard_id p.2 = sid /\ is_primary p.2 = true.
Proof.
  unfold find_primary. destruct (list_find _ pool) as [[i q]|] eqn:E; [|done]. intros [= ->].
  apply list_find_Some in E as (Hi & [H1 H2] & _). split_and!; [|done|done]. by eapply list_elem_of_lookup_2.
Qed.

Lemma primary_replica pool sid p : find_primary pool sid = Some p -> p ∈ replicas_for_shard pool sid.
Proof.
  intros (H1 & H2 & H3)%find_primary_spec. unfold replicas_for_shard. apply elem_of_app. left.
  by rewrite !list_elem_of_filter.
Qed.

Lemma listed_keys (s : ShardService.t Ix) :
  service_wf s -> NoDup (lrs_external_ids (ListLocalIds s)) /\
  Forall (fun e => strlen e < U32) (lrs_external_ids (ListLocalIds s)).
Proof.
  intros (_ & [Hm [Hf _]] & _). cbn [ListLocalIds lrs_external_ids]. split.
  - by apply NoDup_filter, IdMapStore.maps_wf_NoDup.
  - rewrite Forall_forall in *. intros e [_ He]%list_elem_of_filter. by apply Hf.
Qed.

(** C10: Rebalancing loses no vector.  Whatever calls of the migration of one
    shard are lost or answered late, every vector that the shard's primary
    had when the migration began is afterwards still at that primary,
    unchanged, or held by a majority of the replicas, primary included, of
    the shard that the plan sends it to. *)
Theorem migration_loses_no_vector d mw pool source_id plan (w : gmap string (ShardService.t Ix)) migrated failed
    source s x vec metadata :
  NoDup ((fun p => client_address p.2) <$> pool) -> (forall e sid, plan e = Some sid -> sid <> source_id) ->
  (forall k j, vi_draw_ok (wt_draw (mg_insert (mw k)) j)) ->
  find_primary pool source_id = Some source -> w !! client_address source.2 = Some s ->
  world_room (N.of_nat (length (lrs_external_ids (ListLocalIds s))) + 1) w ->
  GetVector x s = MkGetVectorResponse true vec metadata "" ->
  let '(w', _, _) := migrate_shard d mw pool source_id plan (w, migrated, failed) in
  at_source source x vec metadata w' \/ at_destination pool plan x vec metadata w'.
Proof.
  intros Hnd Hplan Hr Hp Hs Hroom Hg. unfold migrate_shard. rewrite Hp.
  assert (at_source source x vec metadata w) as Hsrc by (by exists s).
  destruct (list_call d source.2 _) as [keys|] eqn:El; [|by left].
  unfold list_call in El. apply fmap_Some in El as (resp & Hresp & ->).
  apply rpc_reply in Hresp as (s0 & s1 & Hs0 & Hf & _). cbn [fst] in Hs0. rewrite Hs in Hs0. injection Hs0 as <-.
  injection Hf as _ <-. destruct (listed_keys s) as [Hk1 Hk2]; [by eapply Hroom|].
  apply migrate_keys_safe; [done|by apply primary_replica|done|done|done|done|done|by left].
Qed.
End shard_safety.

(** ** Witness *)

Import FlatIndex.

Definition small_pool : list client := lone_source :: trio.

Lemma small_pool_distinct : NoDup ((fun p => client_address p.2) <$> small_pool).
Proof.
  assert (bool_decide (NoDup ((fun p => client_address p.2) <$> small_pool)) = true) as H by (vm_compute; reflexivity).
  by apply bool_decide_eq_true in H.
Qed.

Definition small_world : gmap string (ShardService.t FlatIndex.t) := <["s:1" := source_shard]> trio_world.

Lemma small_world_room : world_room 2 small_world.
Proof.
  intros a s Ha. unfold small_world in Ha. apply lookup_insert_Some in Ha as [[_ <-]|[_ Ha]].
  - split; [apply one_key_shard_wf|vm_compute; discriminate].
  - assert (s = fresh_shard) as ->; [|split; [apply fresh_shard_wf|vm_compute; discriminate]].
    unfold trio_world in Ha. rewrite !lookup_insert_Some, lookup_singleton_Some in Ha. intuition congruence.
Qed.

Lemma migration_loses_no_vector_witness :
  let '(w', _, _) := migrate_shard Delivered (fun _ => MkMigration Delivered fair (fun _ => RequestLost)) small_pool 1
    (fun _ => Some 0%Z) (small_world, 0, 0) in
  at_source lone_source "key" unit_vector "tag" w' \/
  at_destination small_pool (fun _ => Some 0%Z) "key" unit_vector "tag" w'.
Proof.
  apply (migration_loses_no_vector Delivered (fun _ => MkMigration Delivered fair (fun _ => RequestLost)) small_pool 1
    (fun _ => Some 0%Z) small_world 0 0 lone_source source_shard "key" unit_vector "tag").
  - apply small_pool_distinct.
  - by intros e sid [= <-].
  - done.
  - reflexivity.
  - reflexivity.
  - apply small_world_room.
  - vm_compute. reflexivity.
Defined.
