(* ===== verification/Handlers.v ===== *)
(** * The coordinator's HTTP handlers ([src/cluster/coordinator_main.cpp], [main])

    Each handler as a function of the request, the coordinator's globals, the
    shard servers and what the network and Raft do.  The text of exceptions is
    not modelled; the metrics that the handlers update are in [Status]. *)

From S2P Require Import Prelude Float32 IndexTypes Json JsonDump JsonRoundtrip Http Storage RaftState RaftLog RaftNode HashRing.
From S2P Require Import RaftNodeInv IdMapStore ShardService ClusterConfig Topology Quorum ReadPath Rebalance.
Import ShardService.

(** ** Requests *)

(** An id may be a string or a number, which must convert to a [long long]. *)
Definition id_defined (j : json) : bool := converts (-9223372036854775808) 9223372036854775808 j.

Definition external_id_of (j : json) : option string :=
  match j with
  | JString s => Some s
  | _ => (fun z : Z => pretty z) <$> get_i64 j
  end.

Definition vector_of (body : json) : option (list float32) :=
  v ← j_at "vector" body; mapM get_float (j_elements v).

Definition rebalancing_error : response :=
  error_response 503 "cluster is rebalancing, try again shortly".

Section handlers.
Context {Ix R : Type} `{!VectorIndex Ix R}.

Abbreviation world := (gmap string (ShardService.t Ix)).

(** ** [POST /vectors] *)

Definition insert_reply (external_id : string) (shard_id : Z) (q : QuorumResult) : response :=
  if q_ok q
  then MkResponse 201 (Body (j_object [("status", JString "ok"); ("id", JString external_id);
         ("shard", JInteger shard_id); ("acks", JInteger (Z.of_N (q_acks q)));
         ("needed", JInteger (Z.of_N (q_needed q)))]))
  else MkResponse 502 (Body (j_object [("error", JString "write quorum not met"); ("shard", JInteger shard_id);
         ("acks", JInteger (Z.of_N (q_acks q))); ("needed", JInteger (Z.of_N (q_needed q)))])).

(** [None]: the end iterator of an empty ring is dereferenced, or an id that is
    a floating-point number outside [long long] is converted. *)
Definition post_vectors (rebalancing : bool) (wt : weather) (c : coordinator) (body : string) (w : world)
    : option (world * response) :=
  if rebalancing then Some (w, rebalancing_error)
  else
    match json_parse body with
    | None => Some (w, invalid_json)
    | Some j =>
      if negb (j_contains "id" j) || negb (j_contains "vector" j)
      then Some (w, error_response 400 "missing required fields: id, vector")
      else if negb (default true (id_defined <$> j_at "id" j)) then None
      else
        match j_at "id" j ≫= external_id_of with
        | None => Some (w, invalid_json)
        | Some external_id =>
          shard_id ← HashRing.route (ring_snapshot c) external_id;
          let replicas := replicas_for_shard (live_pool c) shard_id in
          match replicas with
          | [] => Some (w, error_response 503 "destination shard unavailable")
          | _ =>
            match (vec ← vector_of j; metadata ← j_value get_string "metadata" "" j; Some (vec, metadata)) with
            | None => Some (w, invalid_json)
            | Some (vec, metadata) =>
              let '(w, q) := quorum_insert wt replicas external_id vec metadata w in
              Some (w, insert_reply external_id shard_id q)
            end
          end
        end
    end.

(** ** [DELETE /vectors/(.+)] *)

Definition delete_reply (external_id : string) (q : QuorumResult) : response :=
  let counts := [("acks", JInteger (Z.of_N (q_acks q))); ("needed", JInteger (Z.of_N (q_needed q)))] in
  if q_ok q
  then MkResponse 200 (Body (j_object ([("status", JString "ok"); ("id", JString external_id)] ++ counts)))
  else MkResponse 404 (Body (j_object (("error", JString "not found, or delete quorum not met") :: counts))).

Definition delete_vectors (rebalancing : bool) (d : nat -> delivery) (c : coordinator) (external_id : string) (w : world)
    : option (world * response) :=
  if rebalancing then Some (w, rebalancing_error)
  else
    shard_id ← HashRing.route (ring_snapshot c) external_id;
    let replicas := replicas_for_shard (live_pool c) shard_id in
    match replicas with
    | [] => Some (w, error_response 503 "destination shard unavailable")
    | _ =>
      let '(w, q) := quorum_delete d replicas external_id w in
      Some (w, delete_reply external_id q)
    end.

(** ** Administration *)

(** [gl_config] is the configuration file. *)
Record globals := MkGlobals {
  gl_coordinator : coordinator;
  gl_rebalancing : bool;
  gl_world : world;
  gl_config : list ShardEndpoint;
}.

(** [persist_cluster_state]; a failure to save is only logged. *)
Definition persist_cluster_state (save_ok : bool) (c : coordinator) (config : list ShardEndpoint) : list ShardEndpoint :=
  if save_ok then persisted_endpoints c else config.

(** What a handler leaves behind, and whether it reached
    [persist_cluster_state]. *)
Record outcome := MkOutcome {
  oc_raft : RaftNode.t;
  oc_coordinator : coordinator;
  oc_world : world;
  oc_persist : bool;
  oc_response : response;
}.

Variable dump_float : float64 -> bytes.

(** The outcome of [propose]: the node once the command is committed and its
    caller goes on, [None] when it returns false. *)
Variable propose : string -> option RaftNode.t.

Definition raft_disabled : response := error_response 400 "raft is not enabled on this coordinator".

Definition not_leader (st : RaftNode.Status) : response :=
  MkResponse 503 (Body (j_object [("error", JString "not the leader");
                                  ("leader_id", JInteger (RaftNode.st_leader_id st))])).

Definition counts_reply (shard_id : Z) (migrated failed : N) : response :=
  MkResponse 200 (Body (j_object [("status", JString "ok"); ("shard_id", JInteger shard_id);
    ("keys_migrated", JInteger (Z.of_N migrated)); ("keys_failed", JInteger (Z.of_N failed))])).

(** Whether some replica of the request is marked primary. *)
Definition has_primary (replicas : json) : option bool :=
  flags ← mapM (j_value get_bool "primary" false) (j_elements replicas); Some (existsb id flags).

(** The call that follows a committed proposal, with the state an exception of
    it leaves behind. *)
Definition applied {A} (n : RaftNode.t) (c : coordinator) (k : RaftNode.t -> coordinator -> response -> A)
    (ok : RaftNode.t -> coordinator -> A) : A :=
  match apply_pending_raft_commands dump_float n c with
  | Some (n, c) => ok n c
  | None => k n (apply_status (RaftNode.status n) c) invalid_json
  end.

(** What the [try] block of [/admin/shards/add] does once [rebalancing] is
    taken; [None] is an exception before anything has changed.  The flag is
    released on every way out. *)
Definition add_shard_locked (raft : RaftNode.t) (d : Z -> delivery) (mw : Z -> nat -> migration_weather)
    (body : string) (c : coordinator) (w : world) : option outcome :=
  j ← json_parse body;
  new_id ← j_at "shard_id" j ≫= get_int;
  if negb (j_contains "replicas" j) || from_option j_empty true (j_at "replicas" j)
  then Some (MkOutcome raft c w false (error_response 400 "replicas must be a non-empty array"))
  else
    replicas ← j_at "replicas" j;
    has ← has_primary replicas;
    if negb has then Some (MkOutcome raft c w false (error_response 400 "exactly one replica must be marked primary"))
    else
      text ← json_dump dump_float (add_shard_command new_id replicas);
      match propose text with
      | None => Some (MkOutcome raft c w false (error_response 503 "raft proposal did not commit, lost leadership or timed out"))
      | Some n =>
        applied n c (fun n c r => Some (MkOutcome n c w false r)) (fun n c =>
          let pool := live_pool c in
          match replicas_for_shard pool new_id with
          | [] => Some (MkOutcome n c w false (error_response 500
                    "committed via raft but not present locally after apply -- this should not happen"))
          | _ =>
            let '(w, migrated, failed) := migrate_to_new_shard d mw pool (ring_snapshot c) new_id w in
            Some (MkOutcome n c w true (counts_reply new_id migrated failed))
          end)
      end.

(** The same for [/admin/shards/remove]. *)
Definition remove_shard_locked (raft : RaftNode.t) (d : delivery) (mw : nat -> migration_weather)
    (body : string) (c : coordinator) (w : world) : option outcome :=
  j ← json_parse body;
  leaving_id ← j_at "shard_id" j ≫= get_int;
  let pool := live_pool c in
  match replicas_for_shard pool leaving_id, find_primary pool leaving_id with
  | [], _ | _, None => Some (MkOutcome raft c w false (error_response 404 "shard not found or already inactive"))
  | _, Some _ =>
    if N.of_nat (length (pool_ids pool)) <=?? 1
    then Some (MkOutcome raft c w false (error_response 400 "cannot remove the last shard"))
    else
      let '(w, migrated, failed) := migrate_from_leaving_shard d mw pool leaving_id w in
      match json_dump dump_float (remove_shard_command leaving_id) with
      | None => Some (MkOutcome raft c w false invalid_json)
      | Some text =>
        match propose text with
        | None => Some (MkOutcome raft c w false (error_response 503
            "data was migrated but the raft proposal to finalize removal did not commit -- retry the remove, migration is idempotent"))
        | Some n =>
          applied n c (fun n c r => Some (MkOutcome n c w false r))
            (fun n c => Some (MkOutcome n c w true (counts_reply leaving_id migrated failed)))
        end
      end
  end.

(** Leadership is checked first. *)
Definition as_leader (raft : option RaftNode.t) (g : globals)
    (k : RaftNode.t -> option RaftNode.t * globals * response) : option RaftNode.t * globals * response :=
  match raft with
  | None => (raft, g, raft_disabled)
  | Some n =>
    let st := RaftNode.status n in
    if negb (RaftNode.st_role st =?? "leader") then (raft, g, not_leader st) else k n
  end.

Variable save_ok : bool.

Definition finish (flag : bool) (g : globals) (oc : outcome) : option RaftNode.t * globals * response :=
  (Some (oc_raft oc),
   MkGlobals (oc_coordinator oc) flag (oc_world oc)
     (if oc_persist oc then persist_cluster_state save_ok (oc_coordinator oc) (gl_config g) else gl_config g),
   oc_response oc).

(** The flag is taken by compare and exchange and released on every way out. *)
Definition with_rebalance_flag (raft : option RaftNode.t) (g : globals)
    (locked : RaftNode.t -> coordinator -> world -> option outcome) : option RaftNode.t * globals * response :=
  as_leader raft g (fun n =>
    if gl_rebalancing g then (raft, g, error_response 409 "a rebalance is already in progress")
    else
      match locked n (gl_coordinator g) (gl_world g) with
      | Some oc => finish false g oc
      | None => (raft, MkGlobals (gl_coordinator g) false (gl_world g) (gl_config g), invalid_json)
      end).

Definition admin_add_shard raft d mw body g :=
  with_rebalance_flag raft g (fun n c w => add_shard_locked n d mw body c w).

Definition admin_remove_shard raft d mw body g :=
  with_rebalance_flag raft g (fun n c w => remove_shard_locked n d mw body c w).

(** [/admin/shards/set_primary]: the same mechanism as failover. *)
Definition set_primary_body (raft : RaftNode.t) (body : string) (c : coordinator) (w : world) : option outcome :=
  j ← json_parse body;
  shard_id ← j_at "shard_id" j ≫= get_int;
  replica_id ← j_at "replica_id" j ≫= get_int;
  if negb (existsb (fun p => cl_replica_id p.2 =?? replica_id) (replicas_for_shard (live_pool c) shard_id))
  then Some (MkOutcome raft c w false (error_response 404 "no such active replica for this shard"))
  else
    text ← json_dump dump_float (set_primary_command shard_id replica_id);
    match propose text with
    | None => Some (MkOutcome raft c w false
                      (error_response 503 "raft proposal did not commit, lost leadership or timed out"))
    | Some n =>
      applied n c (fun n c r => Some (MkOutcome n c w false r)) (fun n c =>
        Some (MkOutcome n c w true (MkResponse 200 (Body (j_object [("status", JString "ok");
          ("shard_id", JInteger shard_id); ("primary_replica_id", JInteger replica_id)])))))
    end.

Definition admin_set_primary (raft : option RaftNode.t) (body : string) (g : globals)
    : option RaftNode.t * globals * response :=
  as_leader raft g (fun n =>
    match set_primary_body n body (gl_coordinator g) (gl_world g) with
    | Some oc => finish (gl_rebalancing g) g oc
    | None => (raft, g, invalid_json)
    end).
End handlers.

(** ** The insert handler *)

Section insert.
Context {Ix R : Type} `{!VectorIndex Ix R, !VectorIndexLaws Ix R}.

(** C9: An acknowledged HTTP insert is stored where the ring says.  On a
    coordinator that started from any configuration and followed any Raft
    history, [POST /vectors] answers 201 only if the body was an object with
    an id and a vector of numbers, and a majority of the live replicas of the
    shard that the ring gives to the id, primary included, holds exactly that
    vector; the answers 400 and 503 leave every server as it was; and the
    handler answers unless no replica is live or the id is a floating-point
    number that no [long long] holds, whose conversion is undefined. *)
Theorem http_insert_durable eps index sts rebalancing wt body (w : gmap string (ShardService.t Ix)) :
  let c := follow sts (start eps index) in
  NoDup ((fun p => client_address p.2) <$> live_pool c) -> world_wf w ->
  (forall i, vi_draw_ok (wt_draw wt i)) ->
  match post_vectors rebalancing wt c body w with
  | None => live_shards c = [] \/
    exists j id f, json_parse body = Some j /\ j_at "id" j = Some id /\ id = JFloat f /\ id_defined id = false
  | Some (w', r) =>
    (rs_status r = 201%Z -> exists j external_id vec metadata shard_id,
       json_parse body = Some j /\ j_at "id" j ≫= external_id_of = Some external_id /\
       vector_of j = Some vec /\ j_value get_string "metadata" "" j = Some metadata /\
       HashRing.route (active_ring c) external_id = Some shard_id /\
       (strlen external_id < U32 ->
        majority_holds w' (replicas_for_shard (live_pool c) shard_id) external_id vec metadata)) /\
    (rs_status r = 400%Z \/ rs_status r = 503%Z -> w' = w)
  end.
Proof.
  intros c Hnd Hw Hr. assert (ring_ok c) as Hok by apply follow_ring_ok, start_ring_ok. clearbody c.
  unfold post_vectors. destruct rebalancing; [done|].
  destruct (json_parse body) as [j|] eqn:Ej; [|done]. destruct (_ || _); [done|].
  destruct (negb (default true (id_defined <$> j_at "id" j))) eqn:Econv.
  { right. destruct (j_at "id" j) as [id|] eqn:Eat; [|done]. apply negb_true_iff in Econv. cbn in Econv. unfold Datatypes.id in Econv.
    destruct id as [| | | |f| | |]; try done. by exists j, (JFloat f), f. }
  destruct (j_at "id" j ≫= external_id_of) as [external_id|] eqn:Eid; [|done].
  pose proof (route_live c external_id Hok) as Hroute. unfold ring_snapshot in *.
  destruct (HashRing.route (active_ring c) external_id) as [shard_id|] eqn:Er; [cbn [mbind option_bind]|by left].
  destruct (replicas_for_shard (live_pool c) shard_id) as [|r0 rs] eqn:Ereps; [done|]. rewrite <-Ereps.
  destruct (vector_of j) as [vec|] eqn:Ev; [cbn [mbind option_bind]|done].
  destruct (j_value get_string "metadata" "" j) as [metadata|] eqn:Em; [cbn [mbind option_bind]|done].
  pose proof (quorum_insert_holds wt (replicas_for_shard (live_pool c) shard_id) external_id vec metadata w
    (replicas_distinct _ Hnd _) Hw Hr) as Hq.
  destruct (quorum_insert _ _ _ _ _ w) as [w' q]. cbn [fst snd] in Hq. unfold insert_reply.
  destruct (q_ok q); cbn [rs_status]; split; try (intros [|]; done); try done. intros _.
  exists j, external_id, vec, metadata, shard_id. split_and!; [done..|]. intros Hx. by apply Hq.
Qed.
End insert.

(** ** The rebalance flag *)

Section flag.
Context {Ix R : Type} `{!VectorIndex Ix R}.

(** The rebalance flag is never left behind.  However the admin handlers
    end (not the leader, another rebalance, malformed body, no primary,
    proposal not committed, exceptions, success), the flag has afterwards the
    value it had before; while it is set, a second rebalance is refused, and
    inserts and deletes are refused without touching any server. *)
Theorem rebalance_flag_released df propose save_ok raft d dl mw mwl wt dd body id (g : globals (Ix := Ix)) :
  gl_rebalancing (admin_add_shard df propose save_ok raft d mw body g).1.2 = gl_rebalancing g /\
  gl_rebalancing (admin_remove_shard df propose save_ok raft dl mwl body g).1.2 = gl_rebalancing g /\
  gl_rebalancing (admin_set_primary df propose save_ok raft body g).1.2 = gl_rebalancing g /\
  (gl_rebalancing g = true ->
     (admin_add_shard df propose save_ok raft d mw body g).1 = (raft, g) /\
     (admin_remove_shard df propose save_ok raft dl mwl body g).1 = (raft, g) /\
     post_vectors true wt (gl_coordinator g) body (gl_world g) = Some (gl_world g, rebalancing_error) /\
     delete_vectors true dd (gl_coordinator g) id (gl_world g) = Some (gl_world g, rebalancing_error)).
Proof.
  assert (forall locked, gl_rebalancing (with_rebalance_flag save_ok raft g locked).1.2 = gl_rebalancing g /\
    (gl_rebalancing g = true -> (with_rebalance_flag save_ok raft g locked).1 = (raft, g))) as Hflag.
  { intros locked. unfold with_rebalance_flag, as_leader. destruct raft as [n|]; [|done].
    destruct (negb _); [done|]. destruct (gl_rebalancing g) eqn:E; [done|]. split; [|done].
    by destruct (locked n (gl_coordinator g) (gl_world g)). }
  unfold admin_add_shard, admin_remove_shard. split_and!; [apply Hflag|apply Hflag| |].
  - unfold admin_set_primary, as_leader. destruct raft as [n|]; [|done]. destruct (negb _); [done|].
    by destruct (set_primary_body df propose n body (gl_coordinator g) (gl_world g)).
  - intros H. split_and!; [by apply Hflag|by apply Hflag|done|done].
Qed.
End flag.

(** ** Removing a shard *)

Section removal.
Context {Ix R : Type} `{!VectorIndex Ix R}.

(** Removal goes on when migration failed.  If the leaving shard's primary
    does not answer [ListLocalIds], no key is moved, and the handler still
    proposes the removal, applies it and answers 200 with zero migrated and
    zero failed keys: the shard's vectors are no longer searched, although
    the comment in the handler says that the migration is done by the time
    any node applies the command. *)
Theorem remove_proceeds_without_migration df propose save_ok d mw n n1 n2 body j leaving_id primary text c'
    (g : globals (Ix := Ix)) :
  let c := gl_coordinator g in
  RaftNode.role_ n = RaftNode.Leader -> gl_rebalancing g = false ->
  json_parse body = Some j -> j_at "shard_id" j ≫= get_int = Some leaving_id ->
  find_primary (live_pool c) leaving_id = Some primary -> (1 < length (pool_ids (live_pool c)))%nat ->
  list_call d primary.2 (gl_world g) = None ->
  json_dump df (remove_shard_command leaving_id) = Some text -> propose text = Some n1 ->
  apply_pending_raft_commands df n1 c = Some (n2, c') ->
  admin_remove_shard df propose save_ok (Some n) d mw body g =
    (Some n2, MkGlobals c' false (gl_world g) (persist_cluster_state save_ok c' (gl_config g)),
     counts_reply leaving_id 0 0).
Proof.
  intros c Hrole Hflag Hj Hid Hp Hlen Hlist Htext Hprop Happly.
  unfold admin_remove_shard, with_rebalance_flag, as_leader. cbn [RaftNode.status RaftNode.st_role]. rewrite Hrole.
  change (bool_decide (RaftNode.role_name RaftNode.Leader = "leader")) with true. cbn [negb]. rewrite Hflag.
  unfold remove_shard_locked. rewrite Hj. cbn [mbind option_bind]. rewrite Hid. cbn [mbind option_bind].
  fold c. pose proof (primary_replica _ _ _ Hp) as Hin.
  destruct (replicas_for_shard (live_pool c) leaving_id) as [|r rs];
    [exfalso; exact (not_elem_of_nil _ Hin)|]. rewrite Hp.
  rewrite bool_decide_eq_false_2 by lia.
  unfold migrate_from_leaving_shard, migrate_shard. rewrite Hp. cbn [fst]. rewrite Hlist, Htext, Hprop.
  unfold applied. rewrite Happly. reflexivity.
Qed.
End removal.

(** ** Witnesses *)

Import FlatIndex.

(** Below the threshold a call does not compact. *)
Lemma apply_pending_small df n c :
  g_local_applied_count (apply_status (RaftNode.status n) c) < COMPACTION_THRESHOLD ->
  apply_pending_raft_commands df n c = Some (n, apply_status (RaftNode.status n) c).
Proof.
  intros H. unfold apply_pending_raft_commands. case_bool_decide; [done|]. unfold compaction_request.
  by rewrite bool_decide_eq_false_2 by lia.
Qed.

(** A single-node Raft cluster that has elected itself. *)
Definition lone_leader : RaftNode.t :=
  run_all [EvElectionBegin 300 300; EvElectionFinish 300 1 []]
    (RaftNode.create 1 [RaftNode.MkPeer 1 "127.0.0.1" 7001] None None 0 300).

Definition lone_propose (text : string) : option RaftNode.t := Some (run (EvPropose text) lone_leader).

Definition remove_one : string := dq "{'shard_id':1,'type':'remove_shard'}".

Definition removal_globals : globals (Ix := FlatIndex.t) :=
  MkGlobals (start two_shards 0) false {["b:9090" := one_key_shard]} two_shards.

Definition after_removal : coordinator :=
  apply_status (RaftNode.status (run (EvPropose remove_one) lone_leader)) (start two_shards 0).

Lemma after_removal_eq :
  after_removal = with_cursor 1 0 (apply_command 1 remove_one (MkCoordinator (g_shards (start two_shards 0))
    (active_ring (start two_shards 0)) 0 0 1)).
Proof.
  assert (RaftNode.st_applied_commands (RaftNode.status (run (EvPropose remove_one) lone_leader)) = [remove_one] /\
    RaftNode.st_snapshot_last_index (RaftNode.status (run (EvPropose remove_one) lone_leader)) = 0) as [Hc Hi]
    by (split; vm_compute; reflexivity).
  unfold after_removal, apply_status, apply_new, size_of. rewrite catch_up_done, Hc, Hi by (rewrite Hi; done).
  reflexivity.
Qed.

Lemma remove_proceeds_without_migration_witness :
  (exists n2, admin_remove_shard (fun _ => []) lone_propose true (Some lone_leader) RequestLost
     (fun _ => MkMigration Delivered fair (fun _ => Delivered)) remove_one removal_globals =
     (Some n2, MkGlobals after_removal false {["b:9090" := one_key_shard]}
        (persist_cluster_state true after_removal two_shards), counts_reply 1 0 0)) /\
  cl_shard_id <$> live_shards after_removal = [0%Z].
Proof.
  split.
  - exists (run (EvPropose remove_one) lone_leader).
    apply (remove_proceeds_without_migration (fun _ => []) lone_propose true RequestLost
      (fun _ => MkMigration Delivered fair (fun _ => Delivered)) lone_leader (run (EvPropose remove_one) lone_leader)
      (run (EvPropose remove_one) lone_leader) remove_one
      (JObject [("shard_id", JUnsigned 1); ("type", JString "remove_shard")]) 1
      (1%nat, make_shard_client 1 0 "b" 9090 true) remove_one after_removal removal_globals).
    + vm_compute. reflexivity.
    + reflexivity.
    + vm_compute. reflexivity.
    + reflexivity.
    + reflexivity.
    + apply Nat.ltb_lt. reflexivity.
    + reflexivity.
    + vm_compute. reflexivity.
    + reflexivity.
    + change after_removal with (apply_status (RaftNode.status (run (EvPropose remove_one) lone_leader)) (start two_shards 0)).
      apply apply_pending_small.
      change (g_local_applied_count after_removal < COMPACTION_THRESHOLD). rewrite after_removal_eq. reflexivity.
  - rewrite after_removal_eq, apply_command_execute.
    assert (decode_command 1 remove_one = Some (RemoveShard 1)) as -> by reflexivity. reflexivity.
Defined.

(** One shard with one replica, and the body of an insertion. *)
Definition lone_endpoint : list ShardEndpoint := [MkEndpoint 0 0 "a" 9090 true].

Definition lone_client : client := (0%nat, make_shard_client 0 0 "a" 9090 true).

Definition lone_world : gmap string (ShardService.t FlatIndex.t) := {[ "a:9090" := fresh_shard ]}.

Definition insert_text : string :=
  dq ("{'id': 'key', 'vector': [1" +:+ foldr String.append "" (replicate 127 ",1") +:+ "]}").

Definition insert_body : json :=
  JObject [("id", JString "key"); ("vector", JArray (replicate VECTOR_DIM (JUnsigned 1)))].

Lemma lone_pool : live_pool (start lone_endpoint 0) = [lone_client].
Proof. reflexivity. Qed.

Lemma lone_route key : HashRing.route (ring_snapshot (start lone_endpoint 0)) key = Some 0%Z.
Proof.
  pose proof (route_live (start lone_endpoint 0) key (start_ring_ok _ _)) as H.
  destruct (HashRing.route _ key) as [sid|]; [|discriminate H].
  destruct H as (sc & Hsc & <-). change (live_shards (start lone_endpoint 0)) with [lone_client.2] in Hsc.
  apply list_elem_of_singleton in Hsc as ->. reflexivity.
Qed.

Lemma lone_ring key : HashRing.route (active_ring (start lone_endpoint 0)) key = Some 0%Z.
Proof. rewrite <-(lone_route key). unfold ring_snapshot. reflexivity. Qed.

Lemma lone_replicas : replicas_for_shard [lone_client] 0 = [lone_client].
Proof. reflexivity. Qed.

Lemma short_key : strlen "key" < U32.
Proof. reflexivity. Qed.

Lemma insert_facts :
  json_parse insert_text = Some insert_body /\ j_at "id" insert_body ≫= external_id_of = Some "key" /\
  vector_of insert_body = Some unit_vector /\ j_value get_string "metadata" "" insert_body = Some "".
Proof. split_and!; vm_compute; reflexivity. Qed.

Lemma lone_insert : exists w r, post_vectors false fair (start lone_endpoint 0) insert_text lone_world = Some (w, r) /\ rs_status r = 201%Z.
Proof.
  destruct insert_facts as (Hj & Hi & Hv & Hm).
  unfold post_vectors. rewrite Hj. change (j_contains "id" insert_body) with true. change (j_contains "vector" insert_body) with true.
  cbn [negb orb]. rewrite Hi, lone_route, lone_pool. cbn [mbind option_bind]. rewrite Hv.
  change (replicas_for_shard [lone_client] 0) with [lone_client]. cbn [mbind option_bind]. rewrite Hm. cbn [mbind option_bind].
  assert (q_ok (quorum_insert fair [lone_client] "key" unit_vector "" lone_world).2 = true) as Hq by (vm_compute; reflexivity).
  destruct (quorum_insert fair [lone_client] "key" unit_vector "" lone_world) as [w q]. cbn [snd] in Hq.
  exists w, (insert_reply "key" 0 q). split; [reflexivity|]. unfold insert_reply. by rewrite Hq.
Qed.

Lemma lone_world_wf : world_wf lone_world.
Proof.
  intros a s Ha. unfold lone_world in Ha. apply lookup_singleton_Some in Ha as [_ <-]. split; [apply fresh_shard_wf|vm_compute; reflexivity].
Qed.

Lemma follow_nil c : follow [] c = c.
Proof. reflexivity. Qed.

Lemma http_insert_durable_witness :
  exists w, majority_holds w [lone_client] "key" unit_vector "".
Proof.
  destruct lone_insert as (w & r & E & Hr). exists w. destruct insert_facts as (Fj & Fi & Fv & Fm).
  pose proof (http_insert_durable lone_endpoint 0 [] false fair insert_text lone_world) as H.
  cbv zeta in H. rewrite follow_nil, E, lone_pool in H.
  destruct H as [H _].
  - apply NoDup_singleton.
  - exact lone_world_wf.
  - intros i. exact I.
  - destruct (H Hr) as (j & x & v & md & sid & Hj & Hx & Hv & Hm & Hroute & Hmaj).
    rewrite Fj in Hj. apply (inj Some) in Hj. subst j. rewrite Fi in Hx. apply (inj Some) in Hx. subst x.
    rewrite Fv in Hv. apply (inj Some) in Hv. subst v. rewrite Fm in Hm. apply (inj Some) in Hm. subst md.
    rewrite lone_ring in Hroute. apply (inj Some) in Hroute. subst sid. rewrite lone_replicas in Hmaj. apply Hmaj. exact short_key.
Defined.
