(* ===== verification/Status.v ===== *)
(** * The coordinator's search, status and metrics handlers
    ([src/cluster/coordinator_main.cpp], [main])

    [POST /search], [GET /stats], [GET /raft/status], [POST /raft/propose] and
    [GET /metrics], and the metrics that the handlers of [Handlers] and of
    this file update. *)

From S2P Require Import Prelude Float32 IndexTypes Json JsonDump JsonRoundtrip Metrics Http Storage RaftState RaftLog RaftNode.
From S2P Require Import HashRing IdMapStore ShardService ClusterConfig Topology Quorum ReadPath Handlers.
Import ShardService.

(** ** The metrics *)

Definition status_labels (status : string) : label_map := [("status", status)].

Definition inserts_success : string := Registry.key_of "nanodb_inserts_total" (status_labels "success").

Definition inserts_failure : string := Registry.key_of "nanodb_inserts_total" (status_labels "failure").

Definition searches_success : string := Registry.key_of "nanodb_searches_total" (status_labels "success").

Definition searches_failure : string := Registry.key_of "nanodb_searches_total" (status_labels "failure").

Definition deletes_success : string := Registry.key_of "nanodb_deletes_total" (status_labels "success").

Definition deletes_failure : string := Registry.key_of "nanodb_deletes_total" (status_labels "failure").

Definition insert_duration : string := "nanodb_insert_duration_seconds".

Definition search_duration : string := "nanodb_search_duration_seconds".

Definition vectors_total : string := "nanodb_vectors_total".

Definition shards_active : string := "nanodb_shards_active".

Definition raft_term : string := "nanodb_raft_term_current".

Definition raft_role : string := "nanodb_raft_role".

Definition raft_commits : string := "nanodb_raft_commits_total".

Definition failovers_total : string := "nanodb_failovers_total".

(** The registrations at the start of [main], in their order. *)
Definition registrations : list Registry.op :=
  [ Registry.OCounter "nanodb_inserts_total" "Total successful insert operations" (status_labels "success");
    Registry.OCounter "nanodb_inserts_total" "Total successful insert operations" (status_labels "failure");
    Registry.OCounter "nanodb_searches_total" "Total search operations" (status_labels "success");
    Registry.OCounter "nanodb_searches_total" "Total search operations" (status_labels "failure");
    Registry.OCounter "nanodb_deletes_total" "Total successful delete operations" (status_labels "success");
    Registry.OCounter "nanodb_deletes_total" "Total successful delete operations" (status_labels "failure");
    Registry.OHistogram insert_duration "Insert operation latency in seconds" Histogram.default_buckets [];
    Registry.OHistogram search_duration "Search operation latency in seconds" Histogram.default_buckets [];
    Registry.OGauge vectors_total "Total vectors stored across all shards" [];
    Registry.OGauge shards_active "Number of active shards" [];
    Registry.OGauge raft_term "Current Raft term" [];
    Registry.OGauge raft_role "Current Raft role (0=follower, 1=candidate, 2=leader)" [];
    Registry.OCounter raft_commits "Total Raft log entries committed" [];
    Registry.OCounter failovers_total "Total automatic primary failovers" [] ].

(** What the handlers of insertions and deletions count; [elapsed] is what the
    timer of the handler measured. *)
Definition insert_ops (elapsed : float64) (res : response) : list Registry.op :=
  [ Registry.OInc (if bool_decide (rs_status res = 201)%Z then inserts_success else inserts_failure) 1;
    Registry.OObserve insert_duration elapsed ].

Definition delete_ops (res : response) : list Registry.op :=
  [ Registry.OInc (if bool_decide (rs_status res = 200)%Z then deletes_success else deletes_failure) 1 ].

Section status.
Context {Ix R : Type} `{!VectorIndex Ix R, !VectorSearch Ix}.
Context (dump_float : float64 -> bytes) (std_sort : list SearchResult -> list SearchResult).

Abbreviation world := (gmap string (ShardService.t Ix)).

(** ** [POST /search] *)

Definition hit_json (r : SearchResult) : json :=
  j_object [("id", JString (sres_external_id r)); ("distance", JFloat (float64_of (sres_distance r)));
            ("metadata", JString (sres_metadata r))].

Definition search_json (r : SearchReply) : json :=
  j_object ([("results", JArray (hit_json <$> rp_results r)); ("consistency", JString (rp_consistency r))] ++
            (if degraded r
             then [("degraded", JBool true); ("unavailable_shards", JArray (JInteger <$> rp_unavailable_shards r))]
             else [])).

(** The response, and whether the request is counted as a success, as a
    failure or not at all.  [None]: the conversion of [k] is undefined. *)
Definition post_search (d : nat -> delivery) (c : coordinator) (text : string) (w : world)
    : option (response * option bool) :=
  match json_parse text with
  | None => Some (invalid_json, Some false)
  | Some body =>
    match j_at "vector" body, j_at "k" body with
    | Some _, Some k_json =>
      if negb (converts (-2147483648) 2147483648 k_json) then None
      else
        match (k ← get_int k_json; vec ← vector_of body; consistency ← j_value get_string "consistency" "eventual" body;
               Some (k, vec, consistency)) with
        | None => Some (invalid_json, Some false)
        | Some (k, vec, consistency) =>
          let body := search_json (scatter_gather std_sort d c vec k consistency w) in
          Some (match json_dump dump_float body with
                | Some _ => (MkResponse 200 (Body body), Some true)
                | None => (invalid_json, Some false)
                end)
        end
    | _, _ => Some (error_response 400 "missing required fields: vector, k", None)
    end
  end.

Definition search_ops (elapsed : float64) (counted : option bool) : list Registry.op :=
  ((fun ok : bool => Registry.OInc (if ok then searches_success else searches_failure) 1) <$> option_list counted) ++
  [Registry.OObserve search_duration elapsed].

(** ** [GET /stats] *)

(** The element count of each replica of the pool, or nothing when the call
    fails. *)
Fixpoint stats_all (d : nat -> delivery) (i : nat) (pool : list client) (w : world) : list (ShardClient * option N) :=
  match pool with
  | [] => []
  | (_, sc) :: pool =>
    (sc, sts_element_count <$> (rpc (d i) (client_address sc) (fun s => Some (s, Stats s)) w).2) :: stats_all d (S i) pool w
  end.

Definition replica_json (sc : ShardClient) (count : N) : json :=
  j_object [("shard_id", JInteger (cl_shard_id sc)); ("replica_id", JInteger (cl_replica_id sc));
            ("is_primary", JBool (is_primary sc)); ("epoch", JUnsigned (epoch sc)); ("element_count", JUnsigned count)].

Definition unavailable_json (sc : ShardClient) : json :=
  j_object [("shard_id", JInteger (cl_shard_id sc)); ("replica_id", JInteger (cl_replica_id sc))].

Record stats := MkStats { sr_total : N; sr_replicas : list (ShardClient * N); sr_unavailable : list ShardClient }.

(** The loop over the pool. *)
Fixpoint collect_stats (answers : list (ShardClient * option N)) (r : stats) : stats :=
  match answers with
  | [] => r
  | (sc, None) :: answers => collect_stats answers (MkStats (sr_total r) (sr_replicas r) (sr_unavailable r ++ [sc]))
  | (sc, Some n) :: answers =>
    collect_stats answers
      (MkStats (if is_primary sc then sr_total r +u n else sr_total r) (sr_replicas r ++ [(sc, n)]) (sr_unavailable r))
  end.

Definition gather_stats (d : nat -> delivery) (c : coordinator) (w : world) : stats :=
  collect_stats (stats_all d 0 (live_pool c) w) (MkStats 0 [] []).

Definition stats_json (r : stats) : json :=
  j_object ([("total_element_count", JUnsigned (sr_total r));
             ("replicas", JArray ((fun p => replica_json p.1 p.2) <$> sr_replicas r))] ++
            (match sr_unavailable r with
             | [] => []
             | l => [("degraded", JBool true); ("unavailable_replicas", JArray (unavailable_json <$> l))]
             end)).

Definition get_stats (d : nat -> delivery) (c : coordinator) (w : world) : response :=
  MkResponse 200 (Body (stats_json (gather_stats d c w))).

(** ** [GET /raft/status] and [POST /raft/propose] *)

Definition raft_missing : response := error_response 404 "raft is not enabled on this coordinator".

(** [dump] throws for a command that is not UTF-8, and nothing catches it. *)
Definition raft_status (raft : option RaftNode.t) : response :=
  match raft with
  | None => raft_missing
  | Some n =>
    let st := RaftNode.status n in
    let body := j_object [("node_id", JInteger (RaftNode.st_node_id st)); ("role", JString (RaftNode.st_role st));
      ("term", JUnsigned (RaftNode.st_term st)); ("leader_id", JInteger (RaftNode.st_leader_id st));
      ("log_length", JUnsigned (RaftNode.st_log_length st)); ("commit_index", JUnsigned (RaftNode.st_commit_index st));
      ("applied_commands", JArray (JString <$> RaftNode.st_applied_commands st));
      ("snapshot_last_index", JUnsigned (RaftNode.st_snapshot_last_index st))] in
    match json_dump dump_float body with
    | Some _ => MkResponse 200 (Body body)
    | None => MkResponse 500 ExceptionText
    end
  end.

(** [propose] is as in [Handlers]: the node once the command is committed. *)
Definition raft_propose (raft : option RaftNode.t) (propose : string -> option RaftNode.t) (body : string)
    : option RaftNode.t * response :=
  match raft with
  | None => (None, raft_missing)
  | Some n =>
    match propose body with
    | Some n' => (Some n', MkResponse 200 (Body (j_object [("committed", JBool true)])))
    | None => (Some n, MkResponse 503 (Body (j_object [("committed", JBool false)])))
    end
  end.

(** ** [GET /metrics] *)

Definition role_value (role : string) : Z :=
  if bool_decide (role = "leader") then 2 else if bool_decide (role = "candidate") then 1 else 0.

(** The sum over the primaries that answer; the others are not called. *)
Fixpoint metrics_total (d : nat -> delivery) (i : nat) (pool : list client) (w : world) (total : N) : N :=
  match pool with
  | [] => total
  | (_, sc) :: pool =>
    if is_primary sc then
      match (rpc (d i) (client_address sc) (fun s => Some (s, Stats s)) w).2 with
      | Some res => metrics_total d (S i) pool w (total +u sts_element_count res)
      | None => metrics_total d (S i) pool w total
      end
    else metrics_total d (S i) pool w total
  end.

(** The gauges that the handler sets before it renders. *)
Definition gauge_ops (raft : option RaftNode.t) (d : nat -> delivery) (c : coordinator) (w : world) : list Registry.op :=
  (match raft with
   | None => []
   | Some n => let st := RaftNode.status n in
               [Registry.OSet raft_term (i64 (Z.of_N (RaftNode.st_term st))); Registry.OSet raft_role (role_value (RaftNode.st_role st))]
   end) ++
  [Registry.OSet shards_active (Z.of_nat (length (int_set (cl_shard_id <$> live_shards c))));
   Registry.OSet vectors_total (i64 (Z.of_N (metrics_total d 0 (live_pool c) w 0)))].

Definition get_metrics (raft : option RaftNode.t) (d : nat -> delivery) (c : coordinator) (w : world) (r : Registry.t)
    : Registry.t * option string :=
  let r := foldl (fun r o => Registry.exec o r) r (gauge_ops raft d c w) in
  (r, Registry.render r).
End status.

(** ** What the metrics report *)

(** The handling of a request, as the metrics see it. *)
Inductive event :=
| EInsert (elapsed : float64) (res : response)
| EDelete (res : response)
| ESearch (elapsed : float64) (counted : option bool)
| EGauge (key : string) (v : Z).

Definition event_ops (e : event) : list Registry.op :=
  match e with
  | EInsert elapsed res => insert_ops elapsed res
  | EDelete res => delete_ops res
  | ESearch elapsed counted => search_ops elapsed counted
  | EGauge key v => [Registry.OSet key v]
  end.

(** The registry of a coordinator that has handled some requests. *)
Definition registry_after (es : list event) : Registry.t := Registry.run (registrations ++ mjoin (event_ops <$> es)).

(** What an operation adds to the counter [key]. *)
Definition added (key : string) (o : Registry.op) : N :=
  match o with
  | Registry.OInc k n => if bool_decide (k = key) then n else 0
  | _ => 0
  end.

Definition added_all (key : string) (ops : list Registry.op) : N := foldr (fun o n => added key o + n) 0 ops.

Lemma exec_counter key o r v :
  Registry.counters_ r !! key = Some (u64 v) -> Registry.counters_ (Registry.exec o r) !! key = Some (u64 (v + added key o)).
Proof.
  intros Hv. destruct o as [name help labels|name help labels|name help buckets labels|k n|k z|k z]; cbn [Registry.exec added];
    rewrite ?N.add_0_r; try done.
  - unfold Registry.counter. destruct (Registry.counters_ r !! Registry.key_of name labels) eqn:E; [done|]. cbn.
    rewrite lookup_insert_ne; [done|]. intros <-. by rewrite Hv in E.
  - unfold Registry.gauge. by destruct (Registry.gauges_ r !! _).
  - unfold Registry.histogram. by destruct (Registry.histograms_ r !! _).
  - cbn. case_bool_decide as Hk.
    + subst k. rewrite lookup_alter_eq, Hv. cbn. unfold counter_inc, u64_add, u64. by rewrite N.Div0.add_mod_idemp_l.
    + by rewrite lookup_alter_ne, N.add_0_r.
Qed.

Lemma run_counter key ops r v :
  Registry.counters_ r !! key = Some (u64 v) ->
  Registry.counters_ (foldl (fun r o => Registry.exec o r) r ops) !! key = Some (u64 (v + added_all key ops)).
Proof.
  revert r v. induction ops as [|o ops IH]; intros r v Hv; cbn [foldl added_all foldr]; [by rewrite N.add_0_r|].
  rewrite (IH _ _ (exec_counter key o r v Hv)), <-N.add_assoc. done.
Qed.

Lemma added_all_app key a b : added_all key (a ++ b) = added_all key a + added_all key b.
Proof.
  induction a as [|o a IH]; [done|]. change (added key o + added_all key (a ++ b) = added key o + added_all key a + added_all key b).
  rewrite IH. lia.
Qed.

(** Answers of insertions with the status 201, and with another. *)
Definition inserted_ok (e : event) : bool := match e with EInsert _ res => bool_decide (rs_status res = 201)%Z | _ => false end.

Definition inserted_bad (e : event) : bool := match e with EInsert _ res => negb (bool_decide (rs_status res = 201)%Z) | _ => false end.

Definition deleted_ok (e : event) : bool := match e with EDelete res => bool_decide (rs_status res = 200)%Z | _ => false end.

Definition count (f : event -> bool) (es : list event) : N := N.of_nat (length (filter (fun e => f e = true) es)).

Lemma added_events key (f : event -> bool) es :
  (forall e, added_all key (event_ops e) = if f e then 1 else 0) -> added_all key (mjoin (event_ops <$> es)) = count f es.
Proof.
  intros Hf. induction es as [|e es IH]; [done|].
  change (added_all key (event_ops e ++ mjoin (event_ops <$> es)) = count f (e :: es)). rewrite added_all_app, Hf, IH.
  unfold count in *. rewrite filter_cons.
  destruct (f e); [rewrite decide_True by done; cbn [length]; lia|rewrite decide_False by done; lia].
Qed.

Lemma registered_counter key before ops :
  Registry.counters_ (Registry.run before) !! key = Some 0 ->
  Registry.counters_ (Registry.run (before ++ ops)) !! key = Some (u64 (added_all key ops)).
Proof.
  intros H0. unfold Registry.run. rewrite foldl_app. exact (run_counter key ops (Registry.run before) 0 H0).
Qed.

(** Compares the keys of the counters. *)
Ltac event_cases e :=
  destruct e as [elapsed res|res|elapsed [[]|]|key v]; cbn [event_ops inserted_ok inserted_bad deleted_ok]; unfold insert_ops, delete_ops;
    try match goal with |- context [bool_decide (rs_status ?r = ?k)] => destruct (bool_decide (rs_status r = k)) end;
    vm_compute; reflexivity.

(** [GET /metrics] reports the requests.  After any sequence of requests
    the text of the registry has, next to lines for every other metric, the
    number of insertions answered with 201, the number of insertions answered
    otherwise and the number of deletions answered with 200, modulo [2^64]. *)
Theorem metrics_report_requests (es : list event) :
  exists ls, Registry.render_lines (registry_after es) = Some ls /\ NoDup (RegistrySpec.headers ls) /\
    Registry.Sample inserts_success (pretty (u64 (count inserted_ok es))) ∈ ls /\
    Registry.Sample inserts_failure (pretty (u64 (count inserted_bad es))) ∈ ls /\
    Registry.Sample deletes_success (pretty (u64 (count deleted_ok es))) ∈ ls.
Proof.
  unfold registry_after. set (ops := mjoin (event_ops <$> es)).
  destruct (RegistrySpec.render_described (Registry.run (registrations ++ ops)) (RegistrySpec.described_run _))
    as (ls & E & Hnd & Hc & _). exists ls. split; [done|]. split; [done|]. split_and!; apply Hc.
  - rewrite registered_counter by (vm_compute; reflexivity). unfold ops. rewrite (added_events _ inserted_ok); [done|].
    intros e. event_cases e.
  - rewrite registered_counter by (vm_compute; reflexivity). unfold ops. rewrite (added_events _ inserted_bad); [done|].
    intros e. event_cases e.
  - rewrite registered_counter by (vm_compute; reflexivity). unfold ops. rewrite (added_events _ deleted_ok); [done|].
    intros e. event_cases e.
Qed.

(** ** What [GET /stats] reports *)

Section stats_spec.
Context {Ix R : Type} `{!VectorIndex Ix R}.

(** The counts of the primaries that are listed. *)
Definition primary_counts (l : list (ShardClient * N)) : list N := snd <$> filter (fun p => is_primary p.1 = true) l.

Lemma collect_stats_spec answers r :
  let r' := collect_stats answers r in
  sr_replicas r' = sr_replicas r ++ omap (fun p => pair p.1 <$> p.2) answers /\
  sr_unavailable r' = sr_unavailable r ++ (fst <$> filter (fun p => p.2 = None) answers) /\
  (sr_total r = u64 (total (primary_counts (sr_replicas r))) -> sr_total r' = u64 (total (primary_counts (sr_replicas r')))).
Proof.
  cbn zeta. revert r. induction answers as [|[sc [n|]] answers IH]; intros r; cbn [collect_stats].
  - cbn [omap list_omap filter list_filter fmap list_fmap]. rewrite !app_nil_r. done.
  - match goal with |- context [collect_stats answers ?x] => destruct (IH x) as (E1 & E2 & Ht) end.
    rewrite E1 in Ht |- *. rewrite E2. cbn [sr_replicas sr_unavailable sr_total omap list_omap fst snd fmap option_fmap option_map] in *. rewrite filter_cons_False by done.
    rewrite <-app_assoc. split; [done|]. split; [done|]. intros Hr. rewrite <-app_assoc in Ht. apply Ht.
    unfold primary_counts. rewrite filter_app, fmap_app, total_app. fold (primary_counts (sr_replicas r)).
    destruct (is_primary sc) eqn:Ep.
    + rewrite filter_cons_True by done. rewrite Hr. cbn. unfold u64_add, u64. rewrite N.Div0.add_mod_idemp_l. f_equal. lia.
    + rewrite filter_cons_False by (cbn; congruence). cbn. by rewrite N.add_0_r.
  - match goal with |- context [collect_stats answers ?x] => destruct (IH x) as (E1 & E2 & Ht) end.
    rewrite E1 in Ht |- *. rewrite E2. cbn [sr_replicas sr_unavailable sr_total omap list_omap fst snd fmap option_fmap option_map] in *. rewrite filter_cons_True by done.
    rewrite <-app_assoc. done.
Qed.

Lemma stats_all_clients d i pool (w : gmap string (ShardService.t Ix)) : (stats_all d i pool w).*1 = pool.*2.
Proof. revert i. induction pool as [|[j sc] pool IH]; intros i; cbn; [done|]. by rewrite IH. Qed.

Lemma stats_all_counts d i pool (w : gmap string (ShardService.t Ix)) sc n :
  (sc, Some n) ∈ stats_all d i pool w -> exists s, w !! client_address sc = Some s /\ n = vi_size (index_ s).
Proof.
  revert i. induction pool as [|[j sc'] pool IH]; intros i; cbn [stats_all]; [by intros ?%not_elem_of_nil|].
  intros [E|H]%elem_of_cons; [|by apply (IH (S i))]. injection E as <- E. unfold rpc in E.
  destruct (w !! client_address sc) as [s|] eqn:Es; [|done]. exists s. split; [done|].
  destruct (d i); cbn in E; [|done|done]. by injection E.
Qed.

(** [GET /stats] accounts for every live replica.  Each of them is listed
    either with the number of elements that its server has, or as unavailable,
    in the order of the pool, and the total is the sum over the listed
    primaries modulo [2^64]; the servers are not changed. *)
Theorem stats_account (d : nat -> delivery) (c : coordinator) (w : gmap string (ShardService.t Ix)) :
  let r := gather_stats d c w in
  (sr_replicas r).*1 ++ sr_unavailable r ≡ₚ (live_pool c).*2 /\
  (forall sc n, (sc, n) ∈ sr_replicas r -> exists s, w !! client_address sc = Some s /\ n = vi_size (index_ s)) /\
  sr_total r = u64 (total (primary_counts (sr_replicas r))).
Proof.
  cbn zeta. unfold gather_stats.
  destruct (collect_stats_spec (stats_all d 0 (live_pool c) w) (MkStats 0 [] [])) as (-> & -> & Ht). cbn [sr_replicas sr_unavailable app].
  split_and!; [| |by apply Ht].
  - rewrite <-(stats_all_clients d 0 (live_pool c) w). generalize (stats_all d 0 (live_pool c) w). intros l.
    induction l as [|[sc [n|]] l IH]; [done|..]; cbn [omap list_omap fmap list_fmap option_map fst snd].
    + rewrite filter_cons_False by done. cbn. by constructor.
    + rewrite filter_cons_True by done. cbn. rewrite <-Permutation_middle. by constructor.
  - intros sc n ([sc' [m|]] & Hin & E)%list_elem_of_omap; [|done]. cbn in E. injection E as -> ->. by apply (stats_all_counts d 0 (live_pool c)).
Qed.
End stats_spec.
