(* ===== verification/Coordinator.v ===== *)
(** * The coordinator program ([src/cluster/coordinator_main.cpp], [main])

    What [main] sets up from its environment and the files it finds: the
    topology from the configuration file, the Raft node if one is configured,
    and the metrics.  The servers and threads that it then starts are the
    handlers of [Handlers] and [Status], the rounds of [Failover] and the
    steps of [RaftNet]. *)

From S2P Require Import Prelude Float32 IndexTypes Json JsonDump JsonRoundtrip Metrics Http Storage RaftState RaftLog RaftNode.
From S2P Require Import HashRing IdMapStore ShardService ClusterConfig Topology Quorum ReadPath Handlers Status.

(** [std::atoi]: white space, a sign, digits; a value that [int] cannot hold
    is undefined. *)
Definition is_blank (c : ascii) : bool := is_space c || (code c =?? 0x0B) || (code c =?? 0x0C).

Definition atoi (s : string) : option Z :=
  let '(_, l) := split_while is_blank (bytes_of s) in
  let '(neg, l) := split_sign l in
  let n := Z.of_N (digits_value (split_while is_digit l).1) in
  let z := if (neg : bool) then (- n)%Z else n in
  if bool_decide (is_i32 z) then Some z else None.

(** Environment variables and the files under their paths. *)
Record machine := MkMachine { env : string -> option string; files : gmap string bytes }.

Definition cluster_config_path (m : machine) : string := default "deploy/cluster.local.json" (env m "NANODB_CLUSTER_CONFIG").

Definition int_variable (m : machine) (name : string) (d : Z) : option Z :=
  match env m name with Some s => atoi s | None => Some d end.

Definition http_port (m : machine) : option Z := int_variable m "NANODB_HTTP_PORT" 8080.

(** The last entry of the peers file with the own id. *)
Definition find_self (id : Z) (peers : list RaftPeer) : option RaftPeer := last (filter (fun p => node_id p = id) peers).

(** The Raft node and the address it listens on; [Throw] is the exit code 1.
    [now] and [draw] set the first election deadline. *)
Definition raft_start (m : machine) (now draw : Z) : option (Storage.outcome (option (RaftNode.t * RaftPeer))) :=
  match env m "NANODB_RAFT_NODE_ID", env m "NANODB_RAFT_PEERS_CONFIG" with
  | Some id_text, Some peers_path =>
    id ← atoi id_text;
    let state_path := default "raft_state.bin" (env m "NANODB_RAFT_STATE_PATH") in
    match load_raft_peers (files m !! peers_path) with
    | None => Some (Throw "raft peers config")
    | Some peers =>
      match find_self id peers with
      | None => Some (Throw "NANODB_RAFT_NODE_ID not present")
      | Some self =>
        let log_path := default "raft_log.bin" (env m "NANODB_RAFT_LOG_PATH") in
        Some (Ret (Some (RaftNode.create id peers (files m !! state_path) (files m !! log_path) now draw, self)))
      end
    end
  | _, _ => Some (Ret None)
  end.

Record program := MkProgram {
  pg_coordinator : coordinator;
  pg_raft : option (RaftNode.t * RaftPeer);
  pg_http_port : Z;
  pg_metrics : Registry.t;
}.

(** [None]: a number in the environment is undefined. *)
Definition coordinator_main (m : machine) (now draw : Z) : option (Storage.outcome program) :=
  let metrics := Registry.run registrations in
  port ← http_port m;
  match load_cluster_config (files m !! cluster_config_path m) with
  | None => Some (Throw "cluster config")
  | Some endpoints =>
    r ← raft_start m now draw;
    Some (match r with
          | Throw w => Throw w
          | Ret raft =>
            let index := match raft with Some (n, _) => RaftNode.st_snapshot_last_index (RaftNode.status n) | None => 0 end in
            Ret (MkProgram (start endpoints index) raft port metrics)
          end)
  end.

(** ** Restarting on the saved topology *)

Lemma filter_active_start eps i : live_shards (start eps i) = g_shards (start eps i).
Proof.
  unfold live_shards. cbn [start g_shards]. induction eps as [|ep eps IH]; [done|].
  by rewrite fmap_cons, filter_cons_True, IH by done.
Qed.

Lemma persisted_start eps i : persisted_endpoints (start eps i) = eps.
Proof.
  unfold persisted_endpoints. rewrite filter_active_start. cbn [start g_shards].
  induction eps as [|[] eps IH]; [done|]. by rewrite !fmap_cons, IH.
Qed.

Lemma persisted_ring c i : ring_ok c -> active_ring (start (persisted_endpoints c) i) = active_ring c.
Proof.
  intros ->. cbn [start active_ring]. f_equal. unfold live_ids, persisted_endpoints. f_equal. fold (live_shards c).
  rewrite <-list_fmap_compose. apply list_fmap_ext. done.
Qed.

(** C40: A coordinator restarts on the topology it saved.  Take any coordinator
    that has followed Raft for some time and still has a live replica, and the
    text that [persist_cluster_state] wrote for it.  When [main] finds this
    text under the configured path and its Raft settings are in order, it
    comes up with the same replicas and primaries, in the same order, and its
    ring sends every key to the same shard; its fencing epochs start at 0, and
    with Raft its cursor is at the snapshot of the log. *)
Theorem saved_topology_restarts (df : float64 -> bytes) (eps : list ShardEndpoint) (index : N) (sts : list RaftNode.Status)
    (text : bytes) (m : machine) (now draw port : Z) (raft : option (RaftNode.t * RaftPeer)) :
  let c := follow sts (start eps index) in
  live_shards c <> [] -> Forall endpoint_wf (persisted_endpoints c) ->
  config_text df (persisted_endpoints c) = Some text -> files m !! cluster_config_path m = Some text ->
  http_port m = Some port -> raft_start m now draw = Some (Ret raft) ->
  exists p, coordinator_main m now draw = Some (Ret p) /\ pg_raft p = raft /\
    persisted_endpoints (pg_coordinator p) = persisted_endpoints c /\
    (forall key, HashRing.route (ring_snapshot (pg_coordinator p)) key = HashRing.route (ring_snapshot c) key) /\
    Forall (fun sc => epoch sc = 0) (g_shards (pg_coordinator p)) /\
    (forall n self, raft = Some (n, self) ->
       g_snapshot_applied_index (pg_coordinator p) = RaftNode.st_snapshot_last_index (RaftNode.status n)).
Proof.
  intros c Hne Hwf Htext Hfile Hport Hraft. unfold coordinator_main. rewrite Hport. cbn [mbind option_bind].
  assert (persisted_endpoints c <> []) as Hp by (unfold persisted_endpoints; by destruct (live_shards c)).
  rewrite Hfile, (load_config_text df _ _ Hwf Hp Htext), Hraft. cbn [mbind option_bind].
  eexists. split; [done|]. cbn [pg_raft pg_coordinator]. split; [done|]. split; [apply persisted_start|]. split_and!.
  - intros key. unfold ring_snapshot. rewrite persisted_ring; [done|]. apply follow_ring_ok, start_ring_ok.
  - cbn [start g_shards]. apply Forall_fmap, Forall_true. done.
  - intros n self ->. done.
Qed.

(** A restart without Raft, on the topology of the sample configuration. *)
Lemma saved_topology_restarts_witness :
  exists text p,
    let m := MkMachine (fun _ => None) {[ "deploy/cluster.local.json" := text ]} in
    coordinator_main m 0 0 = Some (Ret p) /\ pg_raft p = None /\ persisted_endpoints (pg_coordinator p) = sample_endpoints.
Proof.
  destruct (config_text (fun _ => []) sample_endpoints) as [text|] eqn:Et; [|vm_compute in Et; discriminate Et].
  set (m := MkMachine (fun _ => None) {[ "deploy/cluster.local.json" := text ]}).
  destruct (saved_topology_restarts (fun _ => []) sample_endpoints 0 [] text m 0 0 8080 None) as (p & E & Hr & Hp & _).
  - change (live_shards (start sample_endpoints 0) <> []). rewrite filter_active_start. discriminate.
  - change (Forall endpoint_wf (persisted_endpoints (start sample_endpoints 0))). rewrite persisted_start. exact sample_endpoints_wf.
  - change (config_text (fun _ => []) (persisted_endpoints (start sample_endpoints 0)) = Some text). rewrite persisted_start. exact Et.
  - apply lookup_singleton_eq.
  - reflexivity.
  - reflexivity.
  - exists text, p. split; [exact E|]. split; [exact Hr|].
    change (persisted_endpoints (follow [] (start sample_endpoints 0))) with (persisted_endpoints (start sample_endpoints 0)) in Hp.
    rewrite persisted_start in Hp. exact Hp.
Defined.
