(* ===== verification/Lifecycle.v ===== *)
(** * Threads and shutdown of the coordinator ([src/cluster/coordinator_main.cpp])

    [main] starts the thread of the Raft server, the ticker of [RaftNode], the
    poller of committed commands and the health check, waits in
    [server.listen] and joins the threads afterwards; [signal_handler] runs on
    whichever thread the signal interrupts.  Each thread moves in steps of its
    own.  What the loops do is modelled elsewhere; here the body of a loop is
    the number of its steps, the odd ones inside a critical section of the
    mutex of [RaftNode].  A lock is granted after a while unless the thread
    that has it is the one that the handler interrupted.  [listen] and [Wait]
    are code of other libraries: when they return is an argument.  The workers
    of the HTTP and gRPC servers belong to those libraries and are not among
    the threads here, so a signal that one of them receives is not covered, and
    [Shutdown], which waits for their calls in flight, returns at once. *)

From stdpp Require Import functions.
From S2P Require Import Prelude.

(** ** Progress under a fair scheduler *)

(** A schedule gives every thread a turn again and again. *)
Definition fair {T R} (who : T -> R) (sched : nat -> T) : Prop :=
  forall r n, exists m, (n <= m)%nat /\ who (sched m) = r.

Fixpoint run_turns {C T} (step : T -> C -> C) (sched : nat -> T) (n : nat) (c : C) : C :=
  match n with
  | O => c
  | S n => run_turns step (fun i => sched (S i)) n (step (sched 0%nat) c)
  end.

(** A system that gets closer to [done] whenever the thread that is due moves,
    and farther away in no case. *)
Class Progress {C T R} (step : T -> C -> C) (who : T -> R) (inv done : C -> Prop) := {
  major : C -> nat;
  minor : C -> nat;
  due : C -> R;
  pr_inv t c : inv c -> inv (step t c);
  pr_other t c : inv c -> ~ done c ->
    (major (step t c) < major c)%nat \/ (major (step t c) = major c /\ minor (step t c) < minor c)%nat \/
    (major (step t c) = major c /\ minor (step t c) = minor c /\ due (step t c) = due c /\ who t <> due c);
}.

Section progress.
Context {C T R} (step : T -> C -> C) (who : T -> R) (inv done : C -> Prop) `{!Progress step who inv done, !forall c, Decision (done c)}.

Lemma fair_shift sched n : fair who sched -> fair who (fun i => sched (n + i)%nat).
Proof.
  intros Hf r m. destruct (Hf r (n + m)%nat) as (k & Hk & Hr). exists (k - n)%nat. split; [lia|].
  by replace (n + (k - n))%nat with k by lia.
Qed.

(** Until the thread that is due moves, either the measure falls or nothing
    changes that matters. *)
Lemma fair_done a b sched c : fair who sched -> inv c -> major c = a -> minor c = b -> exists n, done (run_turns step sched n c).
Proof.
  revert b sched c. induction (lt_wf a) as [a _ IHa]. intros b. induction (lt_wf b) as [b _ IHb].
  intros sched c Hf Hi Ha Hb. destruct (Hf (due c) 0%nat) as (m & _ & Hm).
  revert sched c Hf Hi Ha Hb Hm. induction m as [|m IHm]; intros sched c Hf Hi Ha Hb Hm.
  all: destruct (decide (done c)) as [Hd|Hd]; [by exists 0%nat|].
  all: pose proof (fair_shift sched 1 Hf) as Hf'; pose proof (pr_inv (sched 0%nat) c Hi) as Hi'.
  all: destruct (pr_other (sched 0%nat) c Hi Hd) as [Hlt|[[Hle Hlt]|(He & He' & Hdue & Hne)]].
  all: try (destruct (IHa (major (step (sched 0%nat) c)) ltac:(lia) _ _ _ Hf' Hi' eq_refl eq_refl) as [n Hn]; by exists (S n)).
  all: try (destruct (IHb (minor (step (sched 0%nat) c)) ltac:(lia) _ _ Hf' Hi' ltac:(lia) eq_refl) as [n Hn]; by exists (S n)).
  - by destruct Hne.
  - destruct (IHm (fun i => sched (S i)) (step (sched 0%nat) c)) as [n Hn]; [done|done|lia|lia|by rewrite Hdue|]. by exists (S n).
Qed.
End progress.

(** ** The threads *)

(** The loops, each with its [running] flag: [tick_loop], the poller of
    committed commands and [health_check_loop]. *)
Inductive loop := Ticker | Poller | Health.

#[export] Instance loop_eq_dec : EqDecision loop.
Proof. solve_decision. Defined.

Inductive thread := Main | RaftServer | Loop (l : loop) | Handler.

#[export] Instance thread_eq_dec : EqDecision thread.
Proof. solve_decision. Defined.

(** Where a loop is: [NoThread] is a [std::thread] that is not joinable, [Test]
    is the condition of the [while], [Body k] has [k] steps left. *)
Inductive loop_pc := NoThread | Test | Body (k : nat) | Ended.

(** The thread that calls [raft_server->Wait()]. *)
Inductive raft_pc := RNone | RStarting | RWaiting | REnded.

Inductive main_pc := Listening | JoinRaft | JoinPoller | JoinHealth.

(** The lines of [signal_handler], that of [stop] as two. *)
Inductive handler_pc := StopServer | StopNode | JoinTicker | ShutdownRaft | StopPoller | StopHealth.

(** [main] returned, or the process was terminated. *)
Inductive process_end := Returned (code : Z) | Aborted.

#[export] Instance loop_pc_eq_dec : EqDecision loop_pc.
Proof. solve_decision. Defined.

#[export] Instance process_end_eq_dec : EqDecision process_end.
Proof. solve_decision. Defined.

Record process := MkProcess {
  p_main : main_pc;
  p_raft : raft_pc;
  p_loops : loop -> loop_pc;
  p_running : loop -> bool;              (* [running_], [g_apply_poller_running], [g_health_check_running] *)
  p_stopped : bool;                      (* [g_server->stop()] was called *)
  p_shutdown : bool;                     (* [g_raft_server->Shutdown()] was called *)
  p_handler : option (thread * handler_pc);  (* the interrupted thread, and the next line *)
  p_end : option process_end;
}.

Definition with_main (m : main_pc) (c : process) : process :=
  MkProcess m (p_raft c) (p_loops c) (p_running c) (p_stopped c) (p_shutdown c) (p_handler c) (p_end c).

Definition with_raft (r : raft_pc) (c : process) : process :=
  MkProcess (p_main c) r (p_loops c) (p_running c) (p_stopped c) (p_shutdown c) (p_handler c) (p_end c).

Definition with_loop (l : loop) (w : loop_pc) (c : process) : process :=
  MkProcess (p_main c) (p_raft c) (<[l := w]> (p_loops c)) (p_running c) (p_stopped c) (p_shutdown c) (p_handler c) (p_end c).

Definition with_running (l : loop) (b : bool) (c : process) : process :=
  MkProcess (p_main c) (p_raft c) (p_loops c) (<[l := b]> (p_running c)) (p_stopped c) (p_shutdown c) (p_handler c) (p_end c).

Definition with_stopped (c : process) : process :=
  MkProcess (p_main c) (p_raft c) (p_loops c) (p_running c) true (p_shutdown c) (p_handler c) (p_end c).

Definition with_shutdown (c : process) : process :=
  MkProcess (p_main c) (p_raft c) (p_loops c) (p_running c) (p_stopped c) true (p_handler c) (p_end c).

Definition with_handler (h : option (thread * handler_pc)) (c : process) : process :=
  MkProcess (p_main c) (p_raft c) (p_loops c) (p_running c) (p_stopped c) (p_shutdown c) h (p_end c).

Definition with_end (e : process_end) (c : process) : process :=
  MkProcess (p_main c) (p_raft c) (p_loops c) (p_running c) (p_stopped c) (p_shutdown c) (p_handler c) (Some e).

Section threads.
(** Whether Raft is configured, whether [BuildAndStart] got its port (it
    returns null otherwise), whether [listen] could bind; and when [listen]
    and [Wait] return. *)
Context (raft grpc_ok bound : bool) (listen_returns : bool -> bool -> bool) (wait_returns : bool -> bool).

(** The process when [main] reaches [server.listen]. *)
Definition launch : process :=
  MkProcess Listening (if raft then RStarting else RNone) (fun _ => if raft then Test else NoThread) (fun _ => raft)
    false false None None.

(** The thread is interrupted by the handler. *)
Definition frozen (t : thread) (c : process) : bool :=
  match p_handler c with Some (v, _) => bool_decide (v = t) | None => false end.

Definition holds_lock (w : loop_pc) : bool := match w with Body k => Nat.odd k | _ => false end.

(** The interrupted thread has the mutex. *)
Definition lock_frozen (c : process) : bool :=
  match p_handler c with Some (Loop l, _) => holds_lock (p_loops c l) | _ => false end.

(** One step of a loop; [work] is the number of critical sections of the next
    round. *)
Definition step_loop (l : loop) (work : nat) (c : process) : process :=
  match p_loops c l with
  | NoThread | Ended => c
  | Test => with_loop l (if p_running c l then Body (2 * work) else Ended) c
  | Body O => with_loop l Test c
  | Body (S k) => if Nat.odd k && lock_frozen c then c else with_loop l (Body k) c
  end.

Definition step_raft (c : process) : process :=
  match p_raft c with
  | RStarting => if grpc_ok then with_raft RWaiting c else with_end Aborted c
  | RWaiting => if wait_returns (p_shutdown c) then with_raft REnded c else c
  | RNone | REnded => c
  end.

(** [if (t.joinable()) t.join();] *)
Definition join_loop (l : loop) (next : process -> process) (c : process) : process :=
  match p_loops c l with
  | NoThread => next c
  | Ended => next (with_loop l NoThread c)
  | _ => c
  end.

Definition step_main (c : process) : process :=
  match p_main c with
  | Listening => if listen_returns bound (p_stopped c) then with_main JoinRaft c else c
  | JoinRaft =>
    match p_raft c with
    | RNone => with_main JoinPoller c
    | REnded => with_main JoinPoller (with_raft RNone c)
    | _ => c
    end
  | JoinPoller => join_loop Poller (with_main JoinHealth) c
  | JoinHealth => join_loop Health (with_end (Returned 0)) c
  end.

(** [signal_handler]; a thread that joins itself gets an exception. *)
Definition step_handler (c : process) : process :=
  match p_handler c with
  | None => c
  | Some (v, StopServer) => with_handler (Some (v, StopNode)) (with_stopped c)
  | Some (v, StopNode) =>
    if raft then with_handler (Some (v, JoinTicker)) (with_running Ticker false c)
    else with_handler (Some (v, ShutdownRaft)) c
  | Some (v, JoinTicker) =>
    if bool_decide (v = Loop Ticker) && negb (bool_decide (p_loops c Ticker = NoThread)) then with_end Aborted c
    else join_loop Ticker (with_handler (Some (v, ShutdownRaft))) c
  | Some (v, ShutdownRaft) =>
    with_handler (Some (v, StopPoller)) (if raft && grpc_ok then with_shutdown c else c)
  | Some (v, StopPoller) => with_handler (Some (v, StopHealth)) (with_running Poller false c)
  | Some (v, StopHealth) => with_handler None (with_running Health false c)
  end.

(** One turn of the scheduler: a thread, and how much work it finds. *)
Definition take_turn (turn : thread * nat) (c : process) : process :=
  if bool_decide (is_Some (p_end c)) || frozen turn.1 c then c
  else
    match turn.1 with
    | Main => step_main c
    | RaftServer => step_raft c
    | Loop l => step_loop l turn.2 c
    | Handler => step_handler c
    end.

(** A signal interrupts [victim]. *)
Definition deliver (victim : thread) (c : process) : process :=
  match p_handler c, p_end c with
  | None, None => with_handler (Some (victim, StopServer)) c
  | _, _ => c
  end.

(** ** The way to the end *)

(** The lines of the handler that are left. *)
Definition handler_left (c : process) : nat :=
  match p_handler c with
  | None => 0
  | Some (_, h) =>
    match h with StopServer => 6 | StopNode => 5 | JoinTicker => 4 | ShutdownRaft => 3 | StopPoller => 2 | StopHealth => 1 end
  end.

Definition main_left (c : process) : nat :=
  match p_end c with
  | Some _ => 0
  | None => match p_main c with Listening => 4 | JoinRaft => 3 | JoinPoller => 2 | JoinHealth => 1 end
  end.

Definition raft_left (c : process) : nat :=
  match p_raft c with RNone | REnded => 0 | RWaiting => 1 | RStarting => 2 end.

(** The steps of a loop that was told to stop. *)
Definition loop_left (c : process) (l : loop) : nat :=
  if p_running c l then 0
  else match p_loops c l with NoThread | Ended => 0 | Test => 1 | Body k => k + 2 end.

Definition loops_left (c : process) : nat := loop_left c Ticker + loop_left c Poller + loop_left c Health.

(** The loop can be joined. *)
Definition finished (w : loop_pc) : bool := match w with NoThread | Ended => true | _ => false end.

(** The thread on which the others wait. *)
Definition due_thread (c : process) : thread :=
  match p_handler c with
  | Some (_, JoinTicker) => if finished (p_loops c Ticker) then Handler else Loop Ticker
  | Some _ => Handler
  | None =>
    match p_main c with
    | Listening => Main
    | JoinRaft => match p_raft c with RNone | REnded => Main | _ => RaftServer end
    | JoinPoller => if finished (p_loops c Poller) then Main else Loop Poller
    | JoinHealth => if finished (p_loops c Health) then Main else Loop Health
    end
  end.

(** A process that a signal has reached. *)
Record closing (c : process) : Prop := {
  cl_plain : raft = false -> p_raft c = RNone /\ forall l, p_loops c l = NoThread;
  cl_end : p_end c = None \/ p_end c = Some (Returned 0);
  cl_victim v h : p_handler c = Some (v, h) -> v <> Loop Ticker /\ v <> Handler /\ lock_frozen c = false;
  cl_stopped : (handler_left c < 6)%nat -> p_stopped c = true;
  cl_ticker : (handler_left c < 5)%nat -> raft = true -> p_running c Ticker = false;
  cl_joined : (handler_left c < 4)%nat -> p_loops c Ticker = NoThread;
  cl_shutdown : (handler_left c < 3)%nat -> raft = true -> p_shutdown c = true;
  cl_poller : (handler_left c < 2)%nat -> p_running c Poller = false;
  cl_health : (handler_left c < 1)%nat -> p_running c Health = false;
}.

(** Closer to the end, or as close as before and not by the thread that is due. *)
Definition advances (t : thread) (c c' : process) : Prop :=
  closing c' /\
  ((handler_left c' + main_left c' < handler_left c + main_left c)%nat \/
   (handler_left c' + main_left c' = handler_left c + main_left c /\ raft_left c' + loops_left c' < raft_left c + loops_left c)%nat \/
   (handler_left c' + main_left c' = handler_left c + main_left c /\ raft_left c' + loops_left c' = raft_left c + loops_left c)%nat /\
   due_thread c' = due_thread c /\ t <> due_thread c).

Lemma advances_still t c : closing c -> t <> due_thread c -> advances t c c.
Proof. intros Hc Ht. split; [done|]. by do 2 right. Qed.

Hypotheses (grpc_starts : grpc_ok = true) (listen_stops : listen_returns bound true = true) (wait_stops : wait_returns true = true).

Lemma raft_advances c : closing c -> p_end c = None -> advances RaftServer c (step_raft c).
Proof using grpc_starts wait_stops.
  intros Hc He. pose proof Hc as [Hp Hen Hv H6 H5 H4 H3 H2 H1]. unfold step_raft. rewrite grpc_starts.
  assert (raft = true \/ p_raft c = RNone) as Hr by (destruct raft; [by left|right; by apply Hp]).
  destruct (p_raft c) eqn:Er.
  - apply advances_still; [done|]. unfold due_thread. rewrite Er. repeat case_match; done.
  - split.
    + split; try done. intros E. destruct (Hp E). congruence.
    + right. left. unfold raft_left, loops_left, loop_left. cbn. rewrite Er. split; [done|lia].
  - destruct (wait_returns (p_shutdown c)) eqn:Ew.
    + split.
      * split; try done. intros E. destruct (Hp E). congruence.
      * right. left. unfold raft_left, loops_left, loop_left. cbn. rewrite Er. split; [done|lia].
    + apply advances_still; [done|]. unfold due_thread. rewrite Er.
      destruct (p_handler c) as [[v h]|] eqn:Eh; [by destruct h; repeat case_match|].
      assert (p_shutdown c = true) as Hs by (destruct Hr; [apply H3; [unfold handler_left; rewrite Eh; lia|done]|done]).
      rewrite Hs in Ew. congruence.
  - apply advances_still; [done|]. unfold due_thread. rewrite Er. repeat case_match; done.
Qed.

(** A loop that was not told to stop is not waited for. *)
Lemma due_stopped l c : closing c -> due_thread c = Loop l -> p_loops c l <> NoThread -> p_running c l = false /\ finished (p_loops c l) = false.
Proof using Type.
  intros [Hp _ _ _ H5 _ _ H2 H1] Hd Hn.
  assert (raft = true) as Hr by (destruct raft; [done|destruct (Hp eq_refl) as [_ Hl]; by destruct (Hn (Hl l))]).
  unfold due_thread, handler_left in *. destruct (p_handler c) as [[v h]|].
  - destruct h; try done. destruct (finished (p_loops c Ticker)) eqn:E; [done|]. injection Hd as <-. split; [apply H5; [lia|done]|done].
  - destruct (p_main c); try done; [by destruct (p_raft c)|..];
      (destruct (finished _) eqn:E in Hd; [done|injection Hd as <-; split; [|done]]); [apply H2|apply H1]; lia.
Qed.

Lemma with_loop_closing l x c :
  closing c -> p_loops c l <> NoThread -> frozen (Loop l) c = false \/ holds_lock x = false -> closing (with_loop l x c).
Proof using Type.
  intros [Hp Hen Hv H6 H5 H4 H3 H2 H1] Hn Hf. split; try done.
  - intros E. destruct (Hp E) as [_ Hl]. by destruct (Hn (Hl l)).
  - intros v h Eh. destruct (Hv v h Eh) as (H & H' & Hl). split; [done|]. split; [done|].
    unfold lock_frozen, frozen in *. cbn [p_handler p_loops with_loop] in *. rewrite Eh in *.
    destruct v as [| |l'|]; try done. destruct (decide (l' = l)) as [->|Hne]; [|by rewrite fn_lookup_insert_ne by congruence].
    rewrite fn_lookup_insert. destruct Hf as [Hf|Hf]; [by apply bool_decide_eq_false in Hf|done].
  - intros Hleft. cbn [p_loops with_loop]. destruct (decide (l = Ticker)) as [->|Hne]; [by destruct Hn; apply H4|].
    rewrite fn_lookup_insert_ne by done. by apply H4.
Qed.

Lemma loop_advances l work c :
  closing c -> p_end c = None -> frozen (Loop l) c = false -> advances (Loop l) c (step_loop l work c).
Proof using Type.
  intros Hc He Hf. destruct (decide (p_loops c l = NoThread \/ p_loops c l = Ended)) as [Hd|Hd].
  { assert (step_loop l work c = c) as -> by (unfold step_loop; by destruct Hd as [-> | ->]).
    apply advances_still; [done|]. intros Hdue. destruct (decide (p_loops c l = NoThread)) as [E|E].
    - symmetry in Hdue. unfold due_thread in Hdue. repeat case_match; simplify_eq; by rewrite E in *.
    - symmetry in Hdue. destruct (due_stopped l c Hc Hdue E) as [_ Hfin]. destruct Hd as [Hd|Hd]; rewrite Hd in *; done. }
  assert (p_loops c l <> NoThread) as Hn by naive_solver.
  assert (lock_frozen c = false) as Hl.
  { unfold lock_frozen in *. destruct (p_handler c) as [[v h]|] eqn:Eh; [|done].
    destruct (cl_victim _ Hc v h Eh) as (_ & _ & H). unfold lock_frozen in H. by rewrite Eh in H. }
  assert (exists x, step_loop l work c = with_loop l x c /\
    (p_running c l = false -> loop_left (with_loop l x c) l < loop_left c l)%nat /\
    (p_running c l = true -> finished x = false)) as (x & -> & Hlt & Hx).
  { unfold step_loop, loop_left. rewrite Hl. cbn [p_running p_loops with_loop].
    destruct (p_loops c l) as [| |[|k]|]; [naive_solver| | |rewrite andb_false_r|naive_solver].
    all: eexists; split; [reflexivity|]; rewrite fn_lookup_insert; destruct (p_running c l); split; try done; intros _; cbn; lia. }
  split; [apply with_loop_closing; [done|done|by left]|].
  assert (forall l', l' <> l -> p_loops (with_loop l x c) l' = p_loops c l') as Hother.
  { intros l' Hne. cbn. by rewrite fn_lookup_insert_ne. }
  assert (forall l', l' <> l -> loop_left (with_loop l x c) l' = loop_left c l') as Hleft.
  { intros l' Hne. unfold loop_left. by rewrite Hother. }
  destruct (p_running c l) eqn:Er.
  - do 2 right. assert (forall l', finished (p_loops (with_loop l x c) l') = finished (p_loops c l')) as Hfin.
    { intros l'. destruct (decide (l' = l)) as [->|Hne]; [|by rewrite Hother]. cbn. rewrite fn_lookup_insert, Hx by done.
      destruct (p_loops c l); naive_solver. }
    assert (forall l', loop_left (with_loop l x c) l' = loop_left c l') as Hsame.
    { intros l'. destruct (decide (l' = l)) as [->|Hne]; [|by apply Hleft]. unfold loop_left. cbn. by rewrite Er. }
    unfold loops_left. rewrite !Hsame. split; [done|]. split; [unfold due_thread; by rewrite !Hfin|].
    intros Hdue. destruct (due_stopped l c Hc (eq_sym Hdue) Hn). congruence.
  - right. left. specialize (Hlt eq_refl). split; [done|]. unfold loops_left. change (raft_left (with_loop l x c)) with (raft_left c).
    destruct l; [rewrite (Hleft Poller), (Hleft Health)|rewrite (Hleft Ticker), (Hleft Health)|rewrite (Hleft Ticker), (Hleft Poller)]; by lia || done.
Qed.

(** [main] joins a loop. *)
Lemma join_advances l (next : process -> process) c :
  closing c -> p_end c = None ->
  (forall c0, closing c0 -> p_end c0 = None -> p_main c0 = p_main c -> closing (next c0) /\ (main_left (next c0) < main_left c0)%nat /\ handler_left (next c0) = handler_left c0) ->
  (due_thread c = Main -> finished (p_loops c l) = true) ->
  advances Main c (join_loop l next c).
Proof using Type.
  intros Hc He Hnext Hdue. unfold join_loop.
  destruct (p_loops c l) eqn:El; [|apply advances_still; [done|]; intros E; by specialize (Hdue (eq_sym E))..|].
  - destruct (Hnext c Hc He eq_refl) as (Hc' & Hlt & Hh). split; [done|]. left. lia.
  - destruct (Hnext (with_loop l NoThread c)) as (Hc' & Hlt & Hh); [|done|done|].
    { apply with_loop_closing; [done|congruence|by right]. }
    split; [done|]. left. unfold main_left, handler_left in *. cbn in *. lia.
Qed.

Lemma main_advances c : closing c -> p_end c = None -> advances Main c (step_main c).
Proof using listen_stops.
  intros Hc He. pose proof Hc as [Hp Hen Hv H6 H5 H4 H3 H2 H1]. unfold step_main. destruct (p_main c) eqn:Em.
  - destruct (listen_returns bound (p_stopped c)) eqn:El.
    + split; [by split|]. left. unfold handler_left, main_left. cbn. rewrite He, Em. lia.
    + apply advances_still; [done|]. unfold due_thread, handler_left in *. rewrite Em.
      destruct (p_handler c) as [[v h]|]; [by destruct h; repeat case_match|]. rewrite H6 in El by lia. congruence.
  - destruct (p_raft c) eqn:Er.
    + split; [split; try done; intros E; by destruct (Hp E)|]. left. unfold handler_left, main_left. cbn. rewrite He, Em. lia.
    + apply advances_still; [done|]. unfold due_thread. rewrite Em, Er. repeat case_match; done.
    + apply advances_still; [done|]. unfold due_thread. rewrite Em, Er. repeat case_match; done.
    + split; [split; try done; intros E; by destruct (Hp E)|]. left. unfold handler_left, main_left. cbn. rewrite He, Em. lia.
  - apply join_advances; [done|done| |].
    + intros c0 H0 E0 Em0. rewrite Em in Em0. split; [by destruct H0; split|]. unfold main_left. cbn. rewrite E0, Em0. by split; [lia|].
    + unfold due_thread. rewrite Em. repeat case_match; done.
  - apply join_advances; [done|done| |].
    + intros c0 H0 E0 Em0. rewrite Em in Em0. split; [destruct H0; split; try done; by right|].
      unfold main_left. cbn. rewrite E0, Em0. by split; [lia|].
    + unfold due_thread. rewrite Em. repeat case_match; done.
Qed.

(** The handler has executed a line. *)
Lemma handler_moves v h c c' :
  closing c -> p_handler c = Some (v, h) -> p_handler c' = None \/ (exists h', p_handler c' = Some (v, h')) ->
  p_main c' = p_main c -> p_raft c' = p_raft c -> p_end c' = p_end c ->
  (forall l, p_loops c' l = p_loops c l \/ p_loops c' l = NoThread) ->
  (handler_left c' < handler_left c)%nat ->
  ((handler_left c' < 6)%nat -> p_stopped c' = true) ->
  ((handler_left c' < 5)%nat -> raft = true -> p_running c' Ticker = false) ->
  ((handler_left c' < 4)%nat -> p_loops c' Ticker = NoThread) ->
  ((handler_left c' < 3)%nat -> raft = true -> p_shutdown c' = true) ->
  ((handler_left c' < 2)%nat -> p_running c' Poller = false) ->
  ((handler_left c' < 1)%nat -> p_running c' Health = false) ->
  advances Handler c c'.
Proof using Type.
  intros [Hp Hen Hv _ _ _ _ _ _] Eh Eh' Em Er Ee Hloops Hlt F6 F5 F4 F3 F2 F1. split; [split; try done|].
  - intros E. destruct (Hp E) as [H H']. rewrite Er. split; [done|]. intros l. destruct (Hloops l) as [->| ->]; auto.
  - by rewrite Ee.
  - intros v' h' E. destruct Eh' as [Eh'|[h1 Eh']]; [congruence|]. assert (v' = v) as -> by congruence.
    destruct (Hv v h Eh) as (H1 & H2 & H3). split; [done|]. split; [done|]. unfold lock_frozen in *. rewrite Eh'. rewrite Eh in H3.
    destruct v as [| |l|]; try done. by destruct (Hloops l) as [->| ->].
  - left. assert (main_left c' = main_left c) by (unfold main_left; by rewrite Ee, Em). lia.
Qed.

Ltac handled v h :=
  apply (handler_moves v h); unfold handler_left; cbn;
  repeat match goal with H : p_handler _ = _ |- _ => rewrite H end; eauto with lia; try congruence.

Lemma handler_advances c : closing c -> p_end c = None -> advances Handler c (step_handler c).
Proof using grpc_starts.
  intros Hc He. pose proof Hc as [Hp Hen Hv H6 H5 H4 H3 H2 H1]. unfold step_handler.
  destruct (p_handler c) as [[v h]|] eqn:Eh.
  2: { apply advances_still; [done|]. unfold due_thread. rewrite Eh. repeat case_match; done. }
  destruct (Hv v h eq_refl) as (Hv1 & _ & _). unfold handler_left in *. rewrite Eh in H6, H5, H4, H3, H2, H1.
  assert (raft = false -> p_loops c Ticker = NoThread) as Hplain by (intros E; by apply Hp).
  destruct h.
  3: { rewrite bool_decide_eq_false_2 by done. cbn [andb]. unfold join_loop. destruct (p_loops c Ticker) eqn:El.
       2,3: apply advances_still; [done|]; unfold due_thread; rewrite Eh, El; done.
       all: handled v JoinTicker.
       intros l. destruct (decide (l = Ticker)) as [->|]; [right; apply fn_lookup_insert|left; by apply fn_lookup_insert_ne]. }
  - handled v StopServer.
  - destruct raft eqn:Er; handled v StopNode.
  - rewrite grpc_starts, andb_true_r.
    destruct raft eqn:Er; handled v ShutdownRaft.
  - handled v StopPoller.
  - handled v StopHealth.
Qed.

(** ** Shutdown *)

(** Before the signal. *)
Record serving (c : process) : Prop := {
  sv_handler : p_handler c = None;
  sv_plain : raft = false -> p_raft c = RNone /\ forall l, p_loops c l = NoThread;
  sv_end : p_end c = None \/ p_end c = Some (Returned 0);
}.

Lemma serving_launch : serving launch.
Proof using Type. split; [done| |by left]. unfold launch. intros ->. by split. Qed.

Lemma serving_step t c : serving c -> serving (take_turn t c).
Proof using grpc_starts.
  intros Hs. destruct t as [t work]. unfold take_turn. destruct (_ || _) eqn:E; [done|].
  apply orb_false_iff in E as [He%bool_decide_eq_false _]. destruct (p_end c) eqn:Ee; [by destruct He|].
  destruct Hs as [Hh Hp Hen]. cbn [fst snd]. destruct t as [| |l|].
  - unfold step_main, join_loop. repeat case_match; split; cbn; auto; intros E; destruct (Hp E) as [H' Hl];
      pose proof (Hl Poller); pose proof (Hl Health); auto; congruence.
  - unfold step_raft. rewrite grpc_starts. repeat case_match; split; cbn; auto; intros E; destruct (Hp E); done || congruence.
  - unfold step_loop. repeat case_match; split; cbn; auto; intros E; destruct (Hp E) as [H' Hl]; specialize (Hl l); congruence.
  - unfold step_handler. rewrite Hh. by split.
Qed.

Lemma deliver_closing v c :
  serving c -> v <> Loop Ticker -> v <> Handler -> (forall l, v = Loop l -> holds_lock (p_loops c l) = false) ->
  closing (deliver v c) \/ p_end c = Some (Returned 0).
Proof using Type.
  intros [Hh Hp Hen] H1 H2 H3. destruct Hen as [He|He]; [left|by right]. unfold deliver. rewrite Hh, He.
  split; unfold handler_left; cbn; try lia; auto. intros v' h [= <- <-]. split; [done|]. split; [done|].
  unfold lock_frozen. cbn. destruct v; auto.
Qed.

Lemma step_advances t c : closing c -> p_end c <> Some (Returned 0) -> advances t.1 c (take_turn t c).
Proof using grpc_starts listen_stops wait_stops.
  intros Hc Hd. assert (p_end c = None) as He by (by destruct (cl_end c Hc)). destruct t as [t work]. unfold take_turn.
  rewrite He, bool_decide_eq_false_2 by (by intros []). cbn [orb fst snd]. destruct (frozen t c) eqn:Ef.
  - apply advances_still; [done|]. unfold frozen in Ef. destruct (p_handler c) as [[v h]|] eqn:Eh; [|done].
    apply bool_decide_eq_true in Ef as ->. destruct (cl_victim c Hc t h Eh) as (H1 & H2 & _).
    unfold due_thread. rewrite Eh. destruct h; repeat case_match; done.
  - destruct t; [by apply main_advances|by apply raft_advances|by apply loop_advances|by apply handler_advances].
Qed.

#[local] Instance shutdown_progress : Progress take_turn fst closing (fun c => p_end c = Some (Returned 0)).
Proof using grpc_starts listen_stops wait_stops.
  refine {| major c := (handler_left c + main_left c)%nat; minor c := (raft_left c + loops_left c)%nat; due := due_thread |}.
  - intros t c Hc. destruct (decide (p_end c = Some (Returned 0))) as [Hd|Hd]; [|by apply step_advances].
    unfold take_turn. by rewrite Hd, bool_decide_eq_true_2.
  - intros t c Hc Hd. destruct (step_advances t c Hc Hd) as [_ H]. tauto.
Defined.

Lemma shutdown_ends v (sched : nat -> thread * nat) c :
  serving c -> v <> Loop Ticker -> v <> Handler -> (forall l, v = Loop l -> holds_lock (p_loops c l) = false) ->
  fair fst sched -> exists n, p_end (run_turns take_turn sched n (deliver v c)) = Some (Returned 0).
Proof using grpc_starts listen_stops wait_stops.
  intros Hs H1 H2 H3 Hf. destruct (deliver_closing v c Hs H1 H2 H3) as [Hc|He].
  - by eapply (fair_done take_turn fst closing (fun c => p_end c = Some (Returned 0))).
  - exists 0%nat. cbn. unfold deliver. by rewrite (sv_handler c Hs), He.
Qed.

End threads.

(** C24: A signal shuts the coordinator down.  Whatever the threads did before,
    when a signal arrives on one of the threads that [main] starts, or on its
    own, other than the ticker and not inside a critical section of the Raft
    node, then under every fair schedule [main]
    returns 0: [listen] returns, the ticker, the Raft server, the poller and the
    health check end, whatever work they find meanwhile, and are joined.
    Assumed of the libraries: [listen] returns after [stop], [Wait] after
    [Shutdown], [Shutdown] itself returns at once; and that the Raft server got
    its port. *)
Theorem shutdown_completes (raft bound : bool) (listen_returns : bool -> bool -> bool) (wait_returns : bool -> bool)
    (before : list (thread * nat)) (v : thread) (sched : nat -> thread * nat) :
  listen_returns bound true = true -> wait_returns true = true ->
  let turn := take_turn raft true bound listen_returns wait_returns in
  let c := foldl (fun c t => turn t c) (launch raft) before in
  v <> Loop Ticker -> v <> Handler -> (forall l, v = Loop l -> holds_lock (p_loops c l) = false) -> fair fst sched ->
  exists n, p_end (run_turns turn sched n (deliver v c)) = Some (Returned 0).
Proof.
  intros Hl Hw turn c H1 H2 H3 Hf. apply shutdown_ends; [done|done|done| |done|done|done|done].
  unfold c. clear H3. induction before as [|t before IH] using rev_ind; [apply serving_launch|].
  rewrite foldl_snoc. by apply serving_step.
Qed.

(** ** Where it does not end well *)

Section stuck.
Context (bound : bool) (listen_returns : bool -> bool -> bool) (wait_returns : bool -> bool).
Hypothesis wait_waits : wait_returns false = false.

(** Raft is on, and its server was not shut down. *)
Record held (c : process) : Prop := {
  hd_end : p_end c = None;
  hd_shutdown : p_shutdown c = false;
  hd_raft : p_raft c = RStarting \/ p_raft c = RWaiting;
  hd_main : p_main c = Listening \/ p_main c = JoinRaft;
}.

Lemma held_launch : held (launch true).
Proof using Type. split; auto. Qed.

Lemma held_main c : held c -> held (step_main bound listen_returns c).
Proof using Type.
  intros [He Hs Hr Hm]. unfold step_main. destruct Hm as [Em|Em]; rewrite Em; [|by destruct Hr as [Er|Er]; rewrite Er; split; auto].
  case_match; split; auto.
Qed.

Lemma held_raft c : held c -> held (step_raft true wait_returns c).
Proof using wait_waits.
  intros [He Hs Hr Hm]. unfold step_raft. destruct Hr as [Er|Er]; rewrite Er; [split; cbn; auto|].
  rewrite Hs, wait_waits. split; auto.
Qed.

Lemma held_loop l work c : held c -> held (step_loop l work c).
Proof using Type. intros [He Hs Hr Hm]. unfold step_loop. repeat case_match; split; auto. Qed.

(** The lines of the handler before [Shutdown]. *)
Definition early (h : handler_pc) : Prop := h = StopServer \/ h = StopNode \/ h = JoinTicker.

(** Before a signal: every thread is there. *)
Record quiet (c : process) : Prop := {
  qt_held : held c;
  qt_handler : p_handler c = None;
  qt_stopped : p_stopped c = false;
  qt_loops l : p_running c l = true /\ finished (p_loops c l) = false;
}.

Lemma quiet_step t c : quiet c -> quiet (take_turn true true bound listen_returns wait_returns t c).
Proof using wait_waits.
  intros Hq. pose proof Hq as [Hh Hn Hs Hl]. destruct t as [t work]. unfold take_turn, frozen.
  rewrite (hd_end c Hh), Hn, bool_decide_eq_false_2 by (by intros []). cbn [orb fst snd]. destruct t as [| |l|].
  - pose proof (held_main c Hh) as Hh'. revert Hh'. unfold step_main.
    destruct (hd_main c Hh) as [Em|Em]; rewrite Em; [|by destruct (hd_raft c Hh) as [Er|Er]; rewrite Er].
    case_match; [|done]. intros Hh'. by split.
  - pose proof (held_raft c Hh) as Hh'. revert Hh'. unfold step_raft. repeat case_match; try done; intros Hh'; by split.
  - pose proof (held_loop l work c Hh) as Hh'. revert Hh'. unfold step_loop. rewrite (proj1 (Hl l)).
    repeat case_match; try done; intros Hh'; (split; [done..|]); intros l'; split; try apply Hl; cbn;
      (destruct (decide (l' = l)) as [->|Hne]; [by rewrite fn_lookup_insert|rewrite fn_lookup_insert_ne by done; apply Hl]).
  - unfold step_handler. by rewrite Hn.
Qed.

Lemma quiet_turns turns :
  quiet (foldl (fun c t => take_turn true true bound listen_returns wait_returns t c) (launch true) turns).
Proof using wait_waits.
  induction turns as [|t turns IH] using rev_ind; [by split; [apply held_launch|..]|]. rewrite foldl_snoc. by apply quiet_step.
Qed.

(** The ticker waits for the mutex that the interrupted poller has. *)
Record deadlocked (c : process) : Prop := {
  dl_held : held c;
  dl_handler : exists h, p_handler c = Some (Loop Poller, h) /\ early h;
  dl_poller : p_loops c Poller = Body 1;
  dl_ticker : p_loops c Ticker = Body 2;
}.

Lemma deadlocked_step t c : deadlocked c -> deadlocked (take_turn true true bound listen_returns wait_returns t c).
Proof using wait_waits.
  intros Hd. pose proof Hd as [Hh (h & Eh & He) Hp Ht]. destruct t as [t work]. unfold take_turn.
  rewrite (hd_end c Hh), bool_decide_eq_false_2 by (by intros []). cbn [orb fst snd].
  destruct (frozen t c) eqn:Ef; [done|]. destruct t as [| |l|].
  - pose proof (held_main c Hh) as Hh'. revert Hh'. unfold step_main.
    destruct (hd_main c Hh) as [Em|Em]; rewrite Em; [|by destruct (hd_raft c Hh) as [Er|Er]; rewrite Er].
    case_match; [|done]. intros Hh'. split; eauto.
  - pose proof (held_raft c Hh) as Hh'. revert Hh'. unfold step_raft. case_match; try done; [intros Hh'; split; eauto|].
    case_match; [intros Hh'; split; eauto|done].
  - pose proof (held_loop l work c Hh) as Hh'. revert Hh'. unfold step_loop. destruct l.
    + rewrite Ht. unfold lock_frozen. by rewrite Eh, Hp.
    + unfold frozen in Ef. by rewrite Eh, bool_decide_eq_true_2 in Ef.
    + repeat case_match; try done; intros Hh'; split; eauto.
  - unfold step_handler. rewrite Eh. destruct He as [->|[->| ->]].
    + split; [by destruct Hh; split|eexists; split; [done|right; by left]|done|done].
    + split; [by destruct Hh; split|eexists; split; [done|by right; right]|done|done].
    + rewrite bool_decide_eq_false_2 by done. unfold join_loop. by rewrite Ht.
Qed.

(** The handler runs on the ticker, which is in its loop. *)
Record on_ticker (c : process) : Prop := {
  ot_held : held c \/ p_end c = Some Aborted;
  ot_handler : exists h, p_handler c = Some (Loop Ticker, h) /\ early h;
  ot_ticker : finished (p_loops c Ticker) = false;
}.

Definition abort_left (c : process) : nat := match p_end c with None => handler_left c | Some _ => 0 end.

Lemma on_ticker_step t c :
  on_ticker c -> p_end c <> Some Aborted ->
  let c' := take_turn true true bound listen_returns wait_returns t c in
  on_ticker c' /\ (abort_left c' = abort_left c /\ t.1 <> Handler \/ (abort_left c' < abort_left c)%nat).
Proof using wait_waits.
  cbn zeta. intros [Hh (h & Eh & He) Ht] Hend. destruct Hh as [Hh|]; [|done]. destruct t as [t work]. unfold take_turn.
  rewrite (hd_end c Hh), bool_decide_eq_false_2 by (by intros []). cbn [orb fst snd].
  destruct (frozen t c) eqn:Ef.
  { split; [split; eauto|left]. split; [done|]. unfold frozen in Ef. rewrite Eh in Ef. apply bool_decide_eq_true in Ef. congruence. }
  destruct t as [| |l|].
  - pose proof (held_main c Hh) as Hh'. revert Hh'. unfold step_main.
    destruct (hd_main c Hh) as [Em|Em]; rewrite Em.
    + case_match; intros Hh'; (split; [split; eauto|by left]).
    + destruct (hd_raft c Hh) as [Er|Er]; rewrite Er; intros Hh'; (split; [split; eauto|by left]).
  - pose proof (held_raft c Hh) as Hh'. revert Hh'. unfold step_raft.
    repeat case_match; intros Hh'; (split; [split; eauto|by left]).
  - pose proof (held_loop l work c Hh) as Hh'. revert Hh'. unfold step_loop.
    unfold frozen in Ef. rewrite Eh in Ef. apply bool_decide_eq_false in Ef.
    repeat case_match; intros Hh'; (split; [split; eauto|by left]); cbn; rewrite fn_lookup_insert_ne by congruence; done.
  - unfold step_handler, abort_left, handler_left. rewrite Eh, (hd_end c Hh). destruct He as [->|[->| ->]].
    + split; [split; [left; by destruct Hh; split|eexists; split; [done|right; by left]|done]|right]. cbn. rewrite (hd_end c Hh). cbn. lia.
    + split; [split; [left; by destruct Hh; split|eexists; split; [done|by right; right]|done]|right]. cbn. rewrite (hd_end c Hh). cbn. lia.
    + rewrite !bool_decide_eq_true_2, bool_decide_eq_false_2 by (done || by intros E; rewrite E in Ht). cbn [andb negb].
      split; [split; [by right|eexists; split; [done|by right; right]|done]|right]. cbn. lia.
Qed.

#[local] Instance ticker_progress :
  Progress (take_turn true true bound listen_returns wait_returns) fst on_ticker (fun c => p_end c = Some Aborted).
Proof using wait_waits.
  refine {| major := abort_left; minor c := 0%nat; due c := Handler |}.
  - intros t c Hc. destruct (decide (p_end c = Some Aborted)) as [Hd|Hd]; [|by apply on_ticker_step].
    unfold take_turn. by rewrite Hd, bool_decide_eq_true_2.
  - intros t c Hc Hd. destruct (on_ticker_step t c Hc Hd) as [_ [[H1 H2]|H]]; [by do 2 right|by left].
Defined.

Lemma ticker_aborts (sched : nat -> thread * nat) c :
  on_ticker c -> fair fst sched ->
  exists n, p_end (run_turns (take_turn true true bound listen_returns wait_returns) sched n c) = Some Aborted.
Proof using wait_waits.
  intros Hc Hf. by eapply (fair_done _ fst on_ticker (fun c => p_end c = Some Aborted)).
Qed.
End stuck.

(** When the port of the HTTP server is taken, the coordinator stays without
    serving: [listen] returns at once, its result is ignored, and as long as no
    signal arrives [main] waits for the Raft server. *)
Theorem failed_listen_hangs (listen_returns : bool -> bool -> bool) (wait_returns : bool -> bool) (turns : list (thread * nat)) :
  wait_returns false = false -> listen_returns false false = true ->
  let c := foldl (fun c t => take_turn true true false listen_returns wait_returns t c) (launch true) turns in
  p_end c = None /\ (p_main c = Listening \/ p_main c = JoinRaft) /\
  p_main (take_turn true true false listen_returns wait_returns (Main, 0%nat) c) = JoinRaft.
Proof.
  intros Hw Hl c. destruct (quiet_turns false listen_returns wait_returns Hw turns) as [[He _ Hr Hm] Hn Hs _]. fold c in He, Hr, Hm, Hn, Hs.
  split; [done|]. split; [done|]. unfold take_turn, frozen. rewrite He, Hn, bool_decide_eq_false_2 by (by intros []). cbn [orb fst].
  unfold step_main. destruct Hm as [Em|Em]; rewrite Em; [by rewrite Hs, Hl|]. by destruct Hr as [Er|Er]; rewrite Er.
Qed.

(** The thread that the signal interrupts matters: on the ticker, [stop] joins
    the thread it runs on, and the exception terminates the process, whatever
    happened before and under every fair schedule. *)
Theorem signal_on_ticker_aborts (bound : bool) (listen_returns : bool -> bool -> bool) (wait_returns : bool -> bool)
    (before : list (thread * nat)) (sched : nat -> thread * nat) :
  wait_returns false = false -> fair fst sched ->
  let turn := take_turn true true bound listen_returns wait_returns in
  let c := foldl (fun c t => turn t c) (launch true) before in
  exists n, p_end (run_turns turn sched n (deliver (Loop Ticker) c)) = Some Aborted.
Proof.
  intros Hw Hf turn c. apply ticker_aborts; [done| |done].
  destruct (quiet_turns bound listen_returns wait_returns Hw before) as [Hh Hn _ Hl]. fold turn in Hh, Hn, Hl. fold c in Hh, Hn, Hl.
  unfold deliver. rewrite Hn, (hd_end c Hh). split; [left; by destruct Hh; split| |apply Hl].
  exists StopServer. split; [done|by left].
Qed.

(** A signal on a thread that has the mutex of the Raft node can stop the
    process for good: the poller is interrupted in a critical section, the
    ticker waits for it, the handler waits for the ticker, and the poller goes
    on only after the handler. *)
Definition into_lock : list (thread * nat) := [(Loop Poller, 1%nat); (Loop Poller, 0%nat); (Loop Ticker, 1%nat)].

Theorem signal_under_lock_deadlocks (bound : bool) (listen_returns : bool -> bool -> bool) (wait_returns : bool -> bool)
    (turns : list (thread * nat)) :
  wait_returns false = false ->
  let turn := fun c t => take_turn true true bound listen_returns wait_returns t c in
  p_end (foldl turn (deliver (Loop Poller) (foldl turn (launch true) into_lock)) turns) = None.
Proof.
  intros Hw turn. assert (deadlocked (foldl turn (deliver (Loop Poller) (foldl turn (launch true) into_lock)) turns)) as H; [|apply H].
  induction turns as [|t turns IH] using rev_ind; [|rewrite foldl_snoc; by apply deadlocked_step].
  split; [split; auto| |done|done]. eexists. split; [done|by left].
Qed.

(** ** The port of the Raft server is taken *)

Section no_port.
Context (bound : bool) (listen_returns : bool -> bool -> bool) (wait_returns : bool -> bool).

(** The thread of the Raft server has not called [Wait] on the null pointer. *)
Record dangling (c : process) : Prop := {
  dg_end : p_end c = None \/ p_end c = Some Aborted;
  dg_raft : p_raft c = RStarting;
  dg_main : p_main c = Listening \/ p_main c = JoinRaft;
  dg_handler : p_handler c = None;
}.

Lemma dangling_step t c :
  dangling c -> p_end c = None ->
  let c' := take_turn true false bound listen_returns wait_returns t c in
  dangling c' /\ (p_end c' = Some Aborted \/ p_end c' = None /\ t.1 <> RaftServer).
Proof using Type.
  cbn zeta. intros Hd He. pose proof Hd as [Hen Hr Hm Hn]. destruct t as [t work]. unfold take_turn, frozen.
  rewrite He, Hn, bool_decide_eq_false_2 by (by intros []). cbn [orb fst snd]. destruct t as [| |l|].
  - unfold step_main. destruct Hm as [Em|Em]; rewrite Em; [case_match|rewrite Hr]; (split; [split; auto|by right]).
  - unfold step_raft. rewrite Hr. split; [split; cbn; auto|by left].
  - unfold step_loop. repeat case_match; (split; [split; auto|by right]).
  - unfold step_handler. rewrite Hn. split; [done|by right].
Qed.

#[local] Instance crash_progress :
  Progress (take_turn true false bound listen_returns wait_returns) fst dangling (fun c => p_end c = Some Aborted).
Proof using Type.
  refine {| major c := match p_end c with None => 1%nat | Some _ => 0%nat end; minor c := 0%nat; due c := RaftServer |}.
  - intros t c Hc. destruct (dg_end c Hc) as [He|He]; [by apply dangling_step|]. unfold take_turn. by rewrite He, bool_decide_eq_true_2.
  - intros t c Hc Hd. assert (p_end c = None) as He by (by destruct (dg_end c Hc)). rewrite He.
    destruct (dangling_step t c Hc He) as [_ [-> |[-> Ht]]]; [left; lia|by do 2 right].
Defined.

(** When the port of the Raft server is taken, [BuildAndStart] returns null,
    nobody checks it, and the coordinator crashes when the new thread calls
    [Wait] on it. *)
Theorem raft_port_taken_crashes (sched : nat -> thread * nat) :
  fair fst sched ->
  exists n, p_end (run_turns (take_turn true false bound listen_returns wait_returns) sched n (launch true)) = Some Aborted.
Proof using Type.
  intros Hf. eapply (fair_done _ fst dangling (fun c => p_end c = Some Aborted)); [done| |done|done]. split; auto.
Qed.
End no_port.

(** ** A schedule *)

(** Round robin. *)
Definition round_robin (n : nat) : thread * nat :=
  (match (n mod 6)%nat with 0%nat => Main | 1%nat => RaftServer | 2%nat => Loop Ticker | 3%nat => Loop Poller | 4%nat => Loop Health | _ => Handler end, 1%nat).

Lemma round_robin_fair : fair fst round_robin.
Proof.
  assert (forall r, exists k, (k < 6)%nat /\ forall n, fst (round_robin (n * 6 + k)) = r) as H.
  { assert (forall k n, (k < 6)%nat -> ((n * 6 + k) mod 6 = k)%nat) as Hm.
    { intros k n Hk. rewrite Nat.add_comm, Nat.Div0.mod_add. by apply Nat.mod_small. }
    intros [| |[]|]; [exists 0%nat|exists 1%nat|exists 2%nat|exists 3%nat|exists 4%nat|exists 5%nat]; (split; [lia|]);
      intros n; unfold round_robin; by rewrite Hm by lia. }
  intros r n. destruct (H r) as (k & Hk & Hr). exists (n * 6 + k)%nat. split; [lia|apply Hr].
Qed.

Definition stops (bound stopped : bool) : bool := negb bound || stopped.

Lemma shutdown_completes_witness :
  exists n, p_end (run_turns (take_turn true true true stops id) round_robin n
    (deliver Main (foldl (fun c t => take_turn true true true stops id t c) (launch true) into_lock))) = Some (Returned 0).
Proof.
  apply (shutdown_completes true true stops id into_lock Main round_robin).
  - reflexivity.
  - reflexivity.
  - discriminate.
  - discriminate.
  - intros l E. discriminate E.
  - apply round_robin_fair.
Defined.
